(* ===== verification/_CoqProject ===== *)
-Q . S2P
Prelude.v
GoStr.v
Value.v
Events.v
TurnId.v
StreamTerminal.v
InboundPriority.v
Pending.v
DeliveryAck.v
Protocol.v
GoChan.v
Mux.v
Heartbeat.v
Client.v
Reader.v
Handshake.v
Rpc.v
Bootstrap.v
Preserve.v
Sends.v
Jobs.v
Helpers.v
CommandClient.v
Verbosity.v
Broadcaster.v
Cards.v
QueryGate.v
TurnGate.v
Runes.v
Classifier.v
ChunkFilter.v
Session.v
DaemonSession.v
Errors.v
SessionRun.v
Locks.v
Attachments.v
Pool.v
TurnRunner.v
Drain.v
Pipeline.v
Kit.v
EndToEnd.v
