(* ===== verification/Prelude.v ===== *)
(** * The soothe client: a verification development

    The Go client of the soothe daemon (package [soothe] under src/, its application kit
    under src/appkit/) speaks a JSON protocol over one WebSocket: it shakes hands, sends
    requests and subscriptions, reads frames, routes the replies to whoever waits for
    them, buffers what nobody asked for, acknowledges the terminal frames of a turn, and
    streams a turn's chunks to the application until the daemon ends the turn. This
    development models that code and proves what makes it correct.

    ** How the parts fit

    A socket payload is split into lines ([SplitSootheWirePayload]), each line is decoded
    into a typed message and a batch is expanded (Protocol). A reader, the [ReceiveMessages]
    loop or a single [ReadEvent] (Reader), offers each message to the control layer (pings,
    pongs, disconnects: Client), then to the multiplexer (Mux), which hands replies and
    stream frames to the callers waiting in [RequestResponse] and its relatives (Rpc).
    What is left is counted for delivery acknowledgement (DeliveryAck) and reaches the
    application. Frames can also be put back into a bounded buffer with drop priorities
    (Pending, InboundPriority). A daemon session (Session) runs a turn over [ReadEvent]:
    stale leftovers are peeled off first (StreamTerminal), the turn identity rules (TurnId,
    TurnGate) decide when the turn has ended, and a filter (ChunkFilter) drops noise. The
    session object (DaemonSession) holds two clients, one for the stream and one for
    requests on the side, recovers the stream after a drop (Handshake, Bootstrap) and sends
    the turns (Sends). Commands (CommandClient) are one request each (Jobs, Helpers) on a
    client of their own.

    The application kit runs turns for many conversations. A connection comes from a pool
    of slots that remembers the loop of each application key in a session store (Pool), a
    query gate (QueryGate) keeps one query per key in flight, images among the attachments
    are scaled down (Attachments), and the turn runner (TurnRunner) sends the input, feeds
    every message to the boundary (TurnGate) and the classifier (Classifier), streams what
    is new to the subscribers (Broadcaster), and settles the turn in the store. The pool is
    written against an interface of clients (Kit), of which the package's client is one; a
    pooled socket reaches the turn through two goroutines and two channels (Pipeline).

    ** Files, in dependency order

    - Prelude: notations, tactics, hint databases, fixpoints over nested JSON.
    - GoStr, Value: Go strings ([strings.TrimSpace], [strings.Split], [strconv.Atoi]) and
      dynamic values ([interface{}], type assertions, [int] to [float64] conversions).
    - Events: events.go, the wire event names and namespaces.
    - TurnId: turn_boundary.go, turn ids [<loop>:<generation>] and what they allow.
    - StreamTerminal: stream_terminal.go, turn ends, progress, stale frames, and which
      frames want an acknowledgement.
    - InboundPriority: inbound_priority.go.
    - Pending: the [pendingEvents] queue of client.go, over a typeclass of frames with a
      drop priority whose instance is [InboundFrameDropPriority].
    - DeliveryAck: [trackInboundDeliveryAck] and [sendDeliveryAck] of client.go, with the
      goroutines as steps.
    - Protocol: protocol.go; typed messages, [DecodeMessage], [ExpandWireMessages], and
      the JSON object each typed message marshals to ([wire_map]).
    - GoChan, Mux: buffered channels, and multiplexer.go with its waiters in a store.
    - Heartbeat: heartbeat.go.
    - Client: the connection state of client.go, its state monad [M], sending, control
      frames, the once-only drop signal.
    - Reader: [ReadEvent], [ReadEventWithTimeout], [ReceiveMessages],
      [PeelStalePendingControlEvents] of client.go.
    - Handshake: [Connect], [Reconnect] and [handshake] of client.go.
    - Rpc: request.go; the call, detach and subscribe loops and the requests by name.
    - Bootstrap: session.go and config.go; connecting with retries, opening a loop.
    - Preserve: what the calls on a client leave alone, the state connecting ends in, and
      totality; shared lemmas for the files that compose those calls.
    - Sends: send_methods.go, the options of an input and the sends that do not wait.
    - Jobs: job.go and autopilot.go; Helpers: helpers.go; CommandClient:
      command_client.go; Verbosity: verbosity.go and appkit/app_key.go.
    - Broadcaster: appkit/broadcaster.go, the fan-out of events to subscribers.
    - Cards: card_projection.go, with the card maps in a store.
    - QueryGate: appkit/query_gate.go.
    - TurnGate: appkit/turn_lifecycle_gate.go and appkit/turn_boundary.go.
    - Runes, Classifier: runes of a text; appkit/classifier.go, appkit/thinking_step.go and
      intent_hints.go, the outcome of each message.
    - ChunkFilter: appkit/chunk_filter.go.
    - Session: appkit/daemon_session.go, the turn loop and the drain after it.
    - DaemonSession: the session object of the same file, over a state monad into which
      client computations are lifted ([on_stream], [on_rpc]).
    - Errors: errors.go, the error types with their texts and chains, and [errors.As].
    - SessionRun: sequences of a session's operations with the network in between.
    - Locks: the mutexes of a session, the paths of its calls through them, and threads
      that interleave those paths.
    - Attachments: appkit/attachments.go, with base64.
    - Pool: appkit/pool.go over appkit/loop_session_store.go; the store is a typeclass with
      the laws that make it remember, and an instance in memory.
    - TurnRunner: appkit/turn_runner.go; the loop as a function of what its select
      receives, with its idle timer, and [Execute] on the gate and on the pool.
    - Drain: the drain of a pooled stream before a turn, over a stream whose events have
      instants, and a turn from its drain on.
    - Pipeline: the goroutines between a socket and a turn (ReceiveMessages of client.go,
      startReader of appkit/pool.go), their blocking operations as steps.
    - Kit: appkit/client.go; [ManagedClient] as a typeclass with laws, the instance of the
      package, and the opening of a slot, which refines the one of Pool.
    - EndToEnd: [Execute] on a pool of such clients, fed by the pipeline of the socket.

    ** How the code is modelled

    A definition has the name of the Go function it translates; a part of a function has a
    name of its own. A [map[string]interface{}] is a [gomap]: [None] when nil, else a
    finite map of dynamic values ([value]), with the key and type-assertion semantics of
    Go. Structs are records, errors are values of a sum ([error]), a panic is [None].
    Code that mutates the client runs in the state monad [M] of Client. Objects shared by
    reference (waiters of the multiplexer, cards) live in stores and are named by address.
    What several goroutines do is a step relation over critical sections: [ack_step],
    [mux_step], [disc_step], [gate_step], [sse_step], [pool_step], [threads_step]; or over
    blocking operations: [pipe_step]. Integers are [Z]; the
    bounds of Go's 64-bit [int] are hypotheses or guards ([max_int]) where they matter,
    and a number that passes through JSON is a [float64] with 53 bits of precision.

    The socket is a list of read results (a payload, a deadline, a failure) and a flag for
    its writes. The clock shows as the number of rounds a loop gets before its deadline
    (handshake, waits, turn loop, drain): the theorems quantify over that number, and the
    termination theorems say that the input alone bounds the loops. What other goroutines
    do during a wait is part of the wait's rounds ([round] of Rpc). The turn runner's rounds
    are what its select receives, stamped with instants ([occasion]), and what it does to
    the store, the subscribers and the wire is a list of actions. The operations of a
    daemon session run one at a time in DaemonSession and SessionRun, and interleave in
    Locks, which keeps of each only its locking and reading. Recursion into nested JSON
    ([nfix]) is fuelled by the size of the value, which the unfolding lemmas prove to be
    enough.

    Parameters: [parse_json], the text-to-value half of [encoding/json], and [parse_time],
    the parsing of RFC 3339 timestamps, of which no theorem needs a law (object keys are
    matched exactly, not case-insensitively); the ids drawn by google/uuid; the early-drop
    function an application passes to a session; the image formats and the scaler; the
    session store; the results of the calls on a pooled client, which Kit computes from a
    client; how floats and instants print, and the texts of the errors of the libraries.
    When both channels of a call are ready the reply is taken, where Go picks either.

    ** What the theorems show

    - Buffering: the queue refines a bounded buffer that gives up droppable frames first
      and loses nothing uncounted.
    - Routing: every frame reaches exactly the waiter it is for; nothing panics in any
      reachable state; the first reply wins; a call gets its reply whatever surrounds it,
      always ends, and leaves no registration behind.
    - Reading: the loop forwards exactly what is neither control nor awaited, in order; so
      does the whole pipeline to a turn, under every scheduling, with a bounded number of
      messages on their way; it ends, leaving no goroutine, and what a turn makes of a
      socket depends on the messages alone.
    - Acknowledging: in every interleaving no sequence number is acknowledged early or
      twice, and the latest one is reached.
    - Connecting: the handshake ends ready or torn down, and outlasts a starting daemon.
    - Turns: a turn ends only for a reason found in its frames, ends always once the
      socket does, and yields only chunks of the bound turn.
    - Sessions and commands: a lost stream recovers onto its own loop unless the daemon
      refused it as stale (an error counts as stale exactly when the probe failed), and a
      turn can then be sent; requests on the side never touch the stream; no sequence of a session's operations panics, hangs or loses its loop, and
      a closed session stays closed until it is connected again; concurrent calls never
      deadlock, and only one reads a socket at a time unless one of them connects, opens,
      switches or recovers; a command returns the daemon's reply and closes its connection.
    - Sending: an input carries what its options set, the last one winning; the sends and
      the waiting requests agree on the wire.
    - The kit: a turn is settled exactly once and consistently, always ends, succeeds only
      for a reason, is not cut by the watchdog while it talks, is what its subscribers see,
      and is not touched by what an earlier turn left in its stream; every classification
      is accounted for; no slot of the pool is lost or shared, its records tell the state
      of its clients, a slot is handed out with a ready client whose stream is read or not
      at all, and a conversation survives its connection. Over the whole kit, a question
      is answered by what came over the socket that was opened for it, or its error is
      settled.
    - Gate, cards, broadcaster, drop signal, turn ids, wire forms: single flight and cancel
      order, refinement of an ordered list, delivery to open subscribers, at-most-once
      signalling, and round trips.
    Theorems also record where the code falls short of its comments: rounds that take a
    ping for a closed connection, payload remainders that are dropped, frames counted
    twice or never, identities lost in decoding, a wait that does not notice a dead
    socket, a closed session that opens sockets again, a loop switched under a running turn,
    a pooled stream that stalls between turns, and a socket left open.

    ** Not modelled

    Dialling and the physical socket, deadlines as instants outside the turn runner, and
    logging. Of the interleaving of a
    session's operations with each other only the locking is modelled (Locks); what two
    unlocked readers of one socket would make of it is left open, as its library leaves it. *)

From stdpp Require Export base tactics list gmap strings.
From Stdlib Require Export ZArith Lia.


From Stdlib Require Ascii.
Export (notations) Stdlib.Strings.Ascii.

Abbreviation ascii := Ascii.ascii.

(** * Notations *)

Declare Scope go_scope.
Delimit Scope go_scope with go.

(** String equality as the code computes it, a boolean. *)
Notation "a =s b" := (String.eqb a b) (at level 70, no associativity) : go_scope.
Notation "a <>s b" := (negb (String.eqb a b)) (at level 70, no associativity) : go_scope.

Global Open Scope go_scope.

(** * Automation *)

(** Lemmas that resolve side conditions of the components. *)
Create HintDb go discriminated.

(** Rewriting rules that evaluate the accessors of the components. *)
Create Rewrite HintDb go_simpl.

(** Split boolean connectives in the hypotheses and the goal into propositions. *)
Ltac bool_to_prop :=
  repeat
    match goal with
    | H : andb _ _ = true |- _ => apply andb_true_iff in H; destruct H
    | H : orb _ _ = false |- _ => apply orb_false_iff in H; destruct H
    | H : negb _ = true |- _ => apply negb_true_iff in H
    | H : negb _ = false |- _ => apply negb_false_iff in H
    | H : String.eqb _ _ = true |- _ => apply String.eqb_eq in H
    | H : String.eqb _ _ = false |- _ => apply String.eqb_neq in H
    | H : Z.eqb _ _ = true |- _ => apply Z.eqb_eq in H
    | H : Z.eqb _ _ = false |- _ => apply Z.eqb_neq in H
    | H : Z.leb _ _ = true |- _ => apply Z.leb_le in H
    | H : Z.leb _ _ = false |- _ => apply Z.leb_gt in H
    | H : Z.ltb _ _ = true |- _ => apply Z.ltb_lt in H
    | H : Z.ltb _ _ = false |- _ => apply Z.ltb_ge in H
    | |- andb _ _ = true => apply andb_true_iff; split
    | |- negb _ = true => apply negb_true_iff
    | |- String.eqb _ _ = true => apply String.eqb_eq
    | |- String.eqb _ _ = false => apply String.eqb_neq
    end.

(** A closed decidable proposition, by evaluating its decision procedure. *)
Ltac by_compute := apply (bool_decide_unpack _); vm_compute; exact I.

(** Follow the code's branches: destruct the first condition or match in the goal. *)
Ltac branch :=
  match goal with
  | |- context [if ?b then _ else _] => destruct b eqn:?
  | |- context [match ?x with _ => _ end] => destruct x eqn:?
  end.

(** Follow every branch, closing the contradictory ones. *)
Ltac branches := repeat (branch; simplify_eq/=; try done).

(** The same in a hypothesis. *)
Ltac branch_in H :=
  match type of H with
  | context [if ?b then _ else _] => destruct b eqn:?
  | context [match ?x with _ => _ end] => destruct x eqn:?
  end.

Ltac branches_in H := repeat (branch_in H; simplify_eq/=; try done).

(** The half-open slice [l[a:b]]. *)
Definition slice {A} (l : list A) (a b : nat) : list A := take (b - a) (drop a l).

(** * Generic lemmas *)

Section generic.
Context {A : Type}.
Implicit Types (l : list A) (x : A).

Lemma app_prefix_no_head (p a b : list A) (x : A) :
  x ∉ p → p `prefix_of` a ++ x :: b → p `prefix_of` a.
Proof.
  revert a; induction p as [|y p IH]; intros a Hx Hp; [apply prefix_nil|].
  destruct a as [|z a]; simpl in Hp.
  - apply prefix_cons_inv_1 in Hp as ->. set_solver.
  - pose proof (prefix_cons_inv_1 _ _ _ _ Hp) as ->.
    apply prefix_cons, IH; [set_solver|].
    by eapply prefix_cons_inv_2.
Qed.

Lemma lookup_snoc_last l x i y :
  (l ++ [x]) !! i = Some y → l !! i = Some y ∨ (i = length l ∧ y = x).
Proof.
  intros Hi. destruct (decide (i < length l)) as [Hlt|Hge].
  - left. by rewrite lookup_app_l in Hi.
  - right. rewrite lookup_app_r in Hi by lia.
    destruct (i - length l) as [|k] eqn:Hk; simplify_eq/=. split; [lia|done].
Qed.

Lemma Forall_filter_1 (P : A → Prop) (Q : A → Prop) `{!∀ x, Decision (Q x)} l :
  Forall P l → Forall P (filter Q l).
Proof.
  rewrite !Forall_forall. intros HP x Hx.
  apply list_elem_of_filter in Hx. apply HP, Hx.
Qed.
End generic.
