(* ===== verification/GoStr.v ===== *)
(** Go strings. *)

From Stdlib Require Import DecimalString DecimalZ.
From S2P Require Import Prelude.

(** * Bytes *)

Definition byte (n : nat) : ascii := Ascii.ascii_of_nat n.

Abbreviation to_bytes := String.list_ascii_of_string.
Abbreviation of_bytes := String.string_of_list_ascii.

(** * [strings.TrimSpace] *)

(** The UTF-8 encodings of the code points [unicode.IsSpace] accepts. *)
Definition space_seqs : list (list ascii) :=
  ((λ n, [byte n]) <$> [9; 10; 11; 12; 13; 32]) ++
  [ [byte 194; byte 133]; [byte 194; byte 160];
    [byte 225; byte 154; byte 128] ] ++
  ((λ n, [byte 226; byte 128; byte n]) <$>
     [128; 129; 130; 131; 132; 133; 134; 135; 136; 137; 138; 168; 169; 175]) ++
  [ [byte 226; byte 129; byte 159]; [byte 227; byte 128; byte 128] ].

(** The first sequence of [seqs] that starts [l], dropped from it. *)
Fixpoint strip1 (seqs : list (list ascii)) (l : list ascii) : option (list ascii) :=
  match seqs with
  | [] => None
  | p :: seqs =>
      if bool_decide (p `prefix_of` l) then Some (drop (length p) l)
      else strip1 seqs l
  end.

Fixpoint strip (fuel : nat) (seqs : list (list ascii)) (l : list ascii) : list ascii :=
  match fuel with
  | O => l
  | S fuel =>
      match strip1 seqs l with
      | None => l
      | Some l' => strip fuel seqs l'
      end
  end.

Definition trim_left (l : list ascii) : list ascii := strip (length l) space_seqs l.
Definition trim_right (l : list ascii) : list ascii :=
  reverse (strip (length l) (reverse <$> space_seqs) (reverse l)).

Definition TrimSpace (s : string) : string :=
  of_bytes (trim_right (trim_left (to_bytes s))).

(** * [strings.HasPrefix], [strings.Contains], [strings.Split] *)

Definition HasPrefix (s pre : string) : bool := String.prefix pre s.

Fixpoint Contains (s sub : string) : bool :=
  String.prefix sub s ||
  match s with
  | EmptyString => false
  | String _ s' => Contains s' sub
  end.

(** [strings.Split(s, sep)] for a one-byte separator. *)
Fixpoint Split (s : string) (sep : ascii) : list string :=
  match s with
  | EmptyString => [""]
  | String c s' =>
      if Ascii.eqb c sep then "" :: Split s' sep
      else match Split s' sep with
           | [] => [String c ""]
           | w :: ws => String c w :: ws
           end
  end.

(** * [strings.ToLower] and [strings.EqualFold] *)

Definition lower_byte (c : ascii) : ascii :=
  let n := Ascii.nat_of_ascii c in
  if (65 <=? n)%nat && (n <=? 90)%nat then byte (n + 32) else c.

(** Lower case, on the ASCII letters and on the two code points outside ASCII
    whose lower case is ASCII (U+0130 and U+212A). *)
Fixpoint ToLower (s : string) : string :=
  match s with
  | String a s1 =>
      match s1 with
      | String b s2 =>
          if Ascii.eqb a (byte 196) && Ascii.eqb b (byte 176) then String "i"%char (ToLower s2)
          else match s2 with
               | String c s3 =>
                   if Ascii.eqb a (byte 226) && Ascii.eqb b (byte 132) && Ascii.eqb c (byte 170)
                   then String "k"%char (ToLower s3)
                   else String (lower_byte a) (ToLower s1)
               | EmptyString => String (lower_byte a) (ToLower s1)
               end
      | EmptyString => String (lower_byte a) ""
      end
  | EmptyString => ""
  end.

(** The representative of a string under simple folding, on the code points that
    fold to an ASCII letter: the ASCII letters, U+017F and U+212A. *)
Fixpoint fold_key (s : string) : string :=
  match s with
  | String a s1 =>
      match s1 with
      | String b s2 =>
          if Ascii.eqb a (byte 197) && Ascii.eqb b (byte 191) then String "s"%char (fold_key s2)
          else match s2 with
               | String c s3 =>
                   if Ascii.eqb a (byte 226) && Ascii.eqb b (byte 132) && Ascii.eqb c (byte 170)
                   then String "k"%char (fold_key s3)
                   else String (lower_byte a) (fold_key s1)
               | EmptyString => String (lower_byte a) (fold_key s1)
               end
      | EmptyString => String (lower_byte a) ""
      end
  | EmptyString => ""
  end.

(** [strings.EqualFold(s, t)] for an ASCII [t]. *)
Definition EqualFold (s t : string) : bool := fold_key s =s fold_key t.

(** * [strconv.Itoa] and [strconv.Atoi] *)

(** The range of [int], 64 bits wide. *)
Definition min_int : Z := (- 2 ^ 63)%Z.
Definition max_int : Z := (2 ^ 63 - 1)%Z.
Definition in_int (z : Z) : bool := ((min_int <=? z) && (z <=? max_int))%Z.

(** Two's complement wrap-around of an [int] operation's result. *)
Definition wrap_int (z : Z) : Z := ((z + 2 ^ 63) mod 2 ^ 64 - 2 ^ 63)%Z.

Definition Itoa (z : Z) : string := NilZero.string_of_int (Z.to_int z).

(** The unsigned digits of [Atoi], a non-empty run of decimal digits. *)
Definition parse_digits (s : string) : option Z :=
  Z.of_uint <$> NilZero.uint_of_string s.

Definition Atoi (s : string) : option Z :=
  let r :=
    match s with
    | String "-"%char s' => Z.opp <$> parse_digits s'
    | String "+"%char s' => parse_digits s'
    | _ => parse_digits s
    end in
  match r with
  | Some z => if in_int z then Some z else None
  | None => None
  end.

#[global] Arguments TrimSpace : simpl never.
#[global] Arguments HasPrefix : simpl never.
#[global] Arguments Contains : simpl never.
#[global] Arguments EqualFold : simpl never.
#[global] Arguments ToLower : simpl never.
#[global] Arguments Atoi : simpl never.
#[global] Arguments Itoa : simpl never.

(** * Bytes and strings *)

Lemma of_to_bytes s : of_bytes (to_bytes s) = s.
Proof. apply String.string_of_list_ascii_of_string. Qed.

Lemma to_of_bytes l : to_bytes (of_bytes l) = l.
Proof. apply String.list_ascii_of_string_of_list_ascii. Qed.

Lemma to_bytes_app s t : to_bytes (s +:+ t) = to_bytes s ++ to_bytes t.
Proof. induction s as [|c s IH]; [done|]. simpl. by rewrite <-IH. Qed.

Lemma to_bytes_inj s t : to_bytes s = to_bytes t → s = t.
Proof. intros H. by rewrite <-(of_to_bytes s), H, of_to_bytes. Qed.

#[export] Hint Rewrite of_to_bytes to_of_bytes to_bytes_app : go_simpl.

(** * Trimming *)

(** No sequence of [seqs] starts [l]. *)
Definition no_lead (seqs : list (list ascii)) (l : list ascii) : Prop :=
  Forall (λ p, ¬ p `prefix_of` l) seqs.

Section strip.
Context (seqs : list (list ascii)).

Lemma strip1_None l : no_lead seqs l → strip1 seqs l = None.
Proof.
  unfold no_lead. induction 1 as [|p ps Hp _ IH]; [done|].
  simpl. by rewrite bool_decide_eq_false_2.
Qed.

Lemma strip1_None_inv l : strip1 seqs l = None → no_lead seqs l.
Proof.
  unfold no_lead. induction seqs as [|p ps IH]; [constructor|]. simpl.
  case_bool_decide; [done|]. constructor; auto.
Qed.

Lemma strip1_Some l l' :
  strip1 seqs l = Some l' → ∃ p, p ∈ seqs ∧ l = p ++ l'.
Proof.
  induction seqs as [|p ps IH]; [done|]. simpl.
  case_bool_decide as Hp.
  - intros [= <-]. destruct Hp as [k ->]. exists p. split; [set_solver|].
    by rewrite drop_app_length.
  - intros (q & ? & ?)%IH. exists q. set_solver.
Qed.

Lemma strip_id fuel l : no_lead seqs l → strip fuel seqs l = l.
Proof. intros H. destruct fuel as [|fuel]; [done|]. simpl. by rewrite strip1_None. Qed.

Lemma strip_suffix fuel l : strip fuel seqs l `suffix_of` l.
Proof.
  revert l; induction fuel as [|fuel IH]; intros l; [done|]. simpl.
  destruct (strip1 seqs l) as [l'|] eqn:E; [|done].
  apply strip1_Some in E as (p & _ & ->).
  etrans; [apply IH|]. by apply suffix_app_r.
Qed.

Lemma strip_no_lead fuel l :
  Forall (λ p, p ≠ []) seqs → length l ≤ fuel → no_lead seqs (strip fuel seqs l).
Proof.
  intros Hne. revert l. induction fuel as [|fuel IH]; intros l Hl.
  - destruct l; [|simpl in Hl; lia]. simpl.
    eapply Forall_impl; [done|]. intros p Hp Hpre.
    by apply Hp, prefix_nil_inv.
  - simpl. destruct (strip1 seqs l) as [l'|] eqn:E; [|by apply strip1_None_inv].
    apply strip1_Some in E as (p & Hp & ->). apply IH.
    rewrite Forall_forall in Hne. specialize (Hne p Hp).
    rewrite length_app in Hl. destruct p; [done|]. simpl in Hl. lia.
Qed.
End strip.

Lemma no_lead_prefix seqs l k : l `prefix_of` k → no_lead seqs k → no_lead seqs l.
Proof.
  intros Hl Hk. eapply Forall_impl; [exact Hk|]. intros p Hp Hpl.
  apply Hp. by transitivity l.
Qed.

Lemma no_lead_snoc seqs a x b :
  Forall (λ p, x ∉ p) seqs → no_lead seqs a → no_lead seqs (a ++ x :: b).
Proof.
  unfold no_lead. rewrite !Forall_forall. intros Hx Ha p Hp Hpre.
  apply (Ha p Hp). eapply app_prefix_no_head; [|done]. by apply Hx.
Qed.

Lemma space_seqs_nonempty : Forall (λ p, p ≠ []) space_seqs.
Proof. repeat (constructor; [done|]); constructor. Qed.

Lemma rspace_seqs_nonempty : Forall (λ p, p ≠ []) (reverse <$> space_seqs).
Proof. repeat (constructor; [done|]); constructor. Qed.

(** A string whose trimming is itself: no space starts it and none ends it. *)
Definition trimmed (s : string) : Prop :=
  no_lead space_seqs (to_bytes s) ∧
  no_lead (reverse <$> space_seqs) (reverse (to_bytes s)).

Lemma trimmed_TrimSpace s : trimmed (TrimSpace s).
Proof.
  unfold trimmed, TrimSpace. rewrite to_of_bytes. unfold trim_right.
  set (l := trim_left (to_bytes s)).
  assert (no_lead space_seqs l) as Hl.
  { apply strip_no_lead; [apply space_seqs_nonempty|done]. }
  set (r := strip (length l) (reverse <$> space_seqs) (reverse l)).
  assert (no_lead (reverse <$> space_seqs) r) as Hr.
  { apply strip_no_lead; [apply rspace_seqs_nonempty|by rewrite length_reverse]. }
  rewrite reverse_involutive. split; [|done].
  eapply no_lead_prefix; [|exact Hl].
  destruct (strip_suffix (reverse <$> space_seqs) (length l) (reverse l)) as [k Hk].
  exists (reverse k). fold r in Hk.
  rewrite <-(reverse_involutive l), Hk. by rewrite reverse_app.
Qed.

Lemma trimmed_id s : trimmed s → TrimSpace s = s.
Proof.
  intros [Hl Hr]. unfold TrimSpace, trim_left, trim_right.
  rewrite (strip_id _ _ _ Hl), (strip_id _ _ _ Hr).
  by rewrite reverse_involutive, of_to_bytes.
Qed.

Lemma TrimSpace_idemp s : TrimSpace (TrimSpace s) = TrimSpace s.
Proof. apply trimmed_id, trimmed_TrimSpace. Qed.

#[export] Hint Rewrite TrimSpace_idemp : go_simpl.
#[export] Hint Resolve trimmed_TrimSpace : go.

(** A byte no space sequence holds. *)
Definition solid (c : ascii) : Prop := Forall (λ p, c ∉ p) space_seqs.

#[export] Instance solid_dec c : Decision (solid c).
Proof. unfold solid. apply _. Defined.

Lemma solid_rev c : solid c → Forall (λ p, c ∉ p) (reverse <$> space_seqs).
Proof.
  unfold solid. rewrite !Forall_forall. intros Hc p Hp.
  apply list_elem_of_fmap in Hp as (q & -> & Hq).
  rewrite elem_of_reverse. by apply Hc.
Qed.

(** A trimmed non-empty string stays trimmed when it is continued by a solid byte
    and ends in one. *)
Lemma trimmed_app s c m d :
  trimmed s → solid c → solid d →
  trimmed (s +:+ String c (m +:+ String d "")).
Proof.
  intros [Hs _] Hc Hd.
  assert (to_bytes (s +:+ String c (m +:+ String d "")) =
          (to_bytes s ++ c :: to_bytes m) ++ [d]) as E.
  { rewrite to_bytes_app, <-app_assoc. f_equal. simpl. f_equal. apply to_bytes_app. }
  unfold trimmed. rewrite E. split.
  - rewrite <-app_assoc. by apply no_lead_snoc.
  - rewrite reverse_snoc. apply (no_lead_snoc _ []); [by apply solid_rev|].
    pose proof rspace_seqs_nonempty as Hne. eapply Forall_impl; [exact Hne|].
    intros p Hp Hpre. by apply Hp, prefix_nil_inv.
Qed.

(** A byte that is a space by itself and part of no longer one. *)
Definition lone_space (c : ascii) : Prop := Forall (λ p, c ∈ p → p = [c]) space_seqs.

Lemma newline_lone : lone_space "010"%char.
Proof. by_compute. Qed.

Lemma no_lead_lone seqs (a : list ascii) c b :
  Forall (λ p, c ∈ p → p = [c]) seqs → a ≠ [] → no_lead seqs a → no_lead seqs (a ++ c :: b).
Proof.
  unfold no_lead. rewrite !Forall_forall. intros Hc Hne Ha p Hp Hpre.
  apply (Ha p Hp). destruct (decide (c ∈ p)) as [Hin|Hin].
  - rewrite (Hc p Hp Hin) in *. destruct a as [|x a]; [done|].
    rewrite (prefix_cons_inv_1 _ _ _ _ Hpre). apply prefix_cons, prefix_nil.
  - by eapply app_prefix_no_head.
Qed.

(** Two trimmed non-empty strings separated by a space byte. *)
Lemma trimmed_sep s c t :
  lone_space c → trimmed s → trimmed t → s ≠ "" → t ≠ "" → trimmed (s +:+ String c t).
Proof.
  intros Hc [Hs _] [_ Ht] Hns Hnt. unfold trimmed. rewrite to_bytes_app. split.
  - apply no_lead_lone; [done|by destruct s|done].
  - change (to_bytes (String c t)) with (c :: to_bytes t).
    rewrite reverse_app, reverse_cons, <-app_assoc. change ([c] ++ ?l) with (c :: l).
    apply no_lead_lone; [| |done];
      [|intros E%(f_equal length); rewrite length_reverse in E; by destruct t].
    unfold lone_space in Hc. rewrite Forall_forall in *. intros p Hp.
    apply list_elem_of_fmap in Hp as (q & -> & Hq). rewrite elem_of_reverse.
    intros Hin. by rewrite (Hc q Hq Hin).
Qed.

(** * Substrings *)

Lemma HasPrefix_spec s pre : HasPrefix s pre = true ↔ ∃ r, s = pre +:+ r.
Proof.
  unfold HasPrefix. revert s; induction pre as [|c pre IH]; intros s.
  - split; [|by destruct s]. intros _. by exists s.
  - destruct s as [|d s]; simpl; [split; [done|by intros [? ?]]|].
    destruct (Ascii.ascii_dec c d) as [->|Hne].
    + rewrite IH. split; intros [r Hr]; exists r; [by rewrite Hr|].
      by injection Hr.
    + split; [done|]. intros [r [=]]. congruence.
Qed.

Lemma Contains_unfold s sub :
  Contains s sub =
  HasPrefix s sub || match s with EmptyString => false | String _ s' => Contains s' sub end.
Proof. by destruct s. Qed.

Lemma Contains_spec s sub : Contains s sub = true ↔ ∃ p q, s = p +:+ sub +:+ q.
Proof.
  induction s as [|c s IH]; rewrite Contains_unfold, orb_true_iff, HasPrefix_spec.
  - split.
    + intros [[r Hr]|]; [by exists "", r|done].
    + intros (p & q & H). left. destruct p; [by exists q|done].
  - rewrite IH. split.
    + intros [[r Hr]|(p & q & ->)]; [by exists "", r|by exists (String c p), q].
    + intros (p & q & H). destruct p as [|d p]; [left; by exists q|].
      right. injection H as -> ->. by exists p, q.
Qed.

Lemma string_app_nil_r s : s +:+ "" = s.
Proof. induction s as [|c s IH]; [done|]. change (String c (s +:+ "") = String c s). by rewrite IH. Qed.

Lemma string_app_assoc s t u : s +:+ t +:+ u = (s +:+ t) +:+ u.
Proof. apply to_bytes_inj. by rewrite !to_bytes_app, app_assoc. Qed.

Lemma HasPrefix_Contains s pre : HasPrefix s pre = true → Contains s pre = true.
Proof. rewrite HasPrefix_spec, Contains_spec. intros [r ->]. by exists "", r. Qed.

Lemma Contains_refl s : Contains s s = true.
Proof. apply Contains_spec. exists "", "". simpl. by rewrite string_app_nil_r. Qed.

(** * Splitting *)

(** The pieces put back together. *)
Fixpoint Join (ws : list string) (sep : ascii) : string :=
  match ws with
  | [] => ""
  | [w] => w
  | w :: ws => w +:+ String sep (Join ws sep)
  end.

Lemma Split_nonempty s c : Split s c ≠ [].
Proof. destruct s; simpl; [done|]. case_match; [done|]. by destruct (Split s c). Qed.

Lemma Join_cons w ws c : ws ≠ [] → Join (w :: ws) c = w +:+ String c (Join ws c).
Proof. by destruct ws. Qed.

Lemma Join_Split s c : Join (Split s c) c = s.
Proof.
  induction s as [|d s IH]; [done|]. simpl.
  pose proof (Split_nonempty s c) as Hne.
  destruct (Ascii.eqb_spec d c) as [->|Hd].
  - by rewrite Join_cons, IH.
  - destruct (Split s c) as [|w [|w' ws]] eqn:E; [done|simpl in *; congruence|].
    simpl in IH. by rewrite <-IH.
Qed.

Lemma Split_solid s c : c ∉ to_bytes s → Split s c = [s].
Proof.
  induction s as [|d s IH]; [done|]. simpl. intros [Hd Hs]%not_elem_of_cons.
  destruct (Ascii.eqb_spec d c) as [->|_]; [done|]. by rewrite IH.
Qed.

Lemma Split_app s t c : Split (s +:+ String c t) c = Split s c ++ Split t c.
Proof.
  induction s as [|d s IH].
  - change ("" +:+ String c t) with (String c t). simpl. by rewrite Ascii.eqb_refl.
  - change (String d s +:+ String c t) with (String d (s +:+ String c t)). simpl.
    rewrite IH. destruct (Ascii.eqb_spec d c) as [->|Hd]; [done|].
    pose proof (Split_nonempty s c). by destruct (Split s c).
Qed.

Lemma Split_last s t c : c ∉ to_bytes t → last (Split (s +:+ String c t) c) = Some t.
Proof. intros Ht. by rewrite Split_app, (Split_solid t), last_snoc. Qed.

Lemma Split_Join ws c :
  ws ≠ [] → Forall (λ w, c ∉ to_bytes w) ws → Split (Join ws c) c = ws.
Proof.
  intros Hne H. induction H as [|w ws Hw Hws IH]; [done|].
  destruct ws as [|w' ws]; [by apply Split_solid|].
  rewrite Join_cons, Split_app, Split_solid, IH by done. done.
Qed.

Lemma trimmed_Join ws c :
  lone_space c → Forall (λ w, trimmed w ∧ w ≠ "") ws → ws ≠ [] →
  trimmed (Join ws c) ∧ Join ws c ≠ "".
Proof.
  intros Hc H. induction H as [|w ws [Hw Hn] Hws IH]; [done|]. intros _.
  destruct ws as [|w' ws]; [done|].
  destruct IH as [Ht Hj]; [done|]. rewrite Join_cons by done.
  split; [by apply trimmed_sep|]. by destruct w.
Qed.

(** * Decimal integers *)

Definition is_digit (c : ascii) : bool :=
  let n := Ascii.nat_of_ascii c in (48 <=? n)%nat && (n <=? 57)%nat.

Lemma string_of_uint_digits d :
  Forall (λ c, is_digit c = true) (to_bytes (NilEmpty.string_of_uint d)).
Proof. induction d; simpl; repeat constructor; done. Qed.

Lemma Z_to_int_pos z : (0 < z)%Z → ∃ d, Z.to_int z = Decimal.Pos d ∧ d ≠ Decimal.Nil.
Proof.
  destruct z as [|p|p]; [lia| |lia]. intros _. exists (Pos.to_uint p). split; [done|].
  intros E. pose proof (DecimalPos.Unsigned.to_uint_nonnil p). done.
Qed.

Lemma Itoa_digits z :
  (0 < z)%Z → Forall (λ c, is_digit c = true) (to_bytes (Itoa z)) ∧ Itoa z ≠ "".
Proof.
  intros Hz. unfold Itoa. destruct (Z_to_int_pos z Hz) as (d & -> & Hd). simpl.
  unfold NilZero.string_of_uint. destruct d; try done;
    (split; [apply string_of_uint_digits|done]).
Qed.

Lemma parse_digits_Itoa z : (0 < z)%Z → parse_digits (Itoa z) = Some z.
Proof.
  intros Hz. unfold parse_digits, Itoa.
  destruct (Z_to_int_pos z Hz) as (d & E & Hd). rewrite E. simpl.
  rewrite NilZero.usu by done. simpl. f_equal.
  change (Z.of_uint d) with (Z.of_int (Decimal.Pos d)).
  rewrite <-E. apply DecimalZ.of_to.
Qed.

Lemma Atoi_Itoa z : (0 < z)%Z → (z <= max_int)%Z → Atoi (Itoa z) = Some z.
Proof.
  intros Hz Hm. destruct (Itoa_digits z Hz) as [Hd Hne].
  pose proof (parse_digits_Itoa z Hz) as Hp. unfold Atoi.
  assert (in_int z = true) as Hin
    by (unfold in_int; bool_to_prop; apply Z.leb_le; unfold min_int; lia).
  destruct (Itoa z) as [|c s] eqn:E; [done|].
  inversion_clear Hd as [|? ? Hc _].
  destruct c as [[] [] [] [] [] [] [] []]; try done; by rewrite Hp, Hin.
Qed.

Lemma Atoi_range s z : Atoi s = Some z → (min_int <= z <= max_int)%Z.
Proof.
  unfold Atoi. generalize (match s with
    | "" => parse_digits s
    | String "-"%char s' => Z.opp <$> parse_digits s'
    | String "+"%char s' => parse_digits s'
    | _ => parse_digits s end). intros o. 
  destruct o as [y|]; [|done]. destruct (in_int y) eqn:E; [|done].
  intros [= ->]. unfold in_int in E. bool_to_prop. lia.
Qed.

Lemma wrap_int_range z : (min_int <= wrap_int z <= max_int)%Z.
Proof.
  unfold wrap_int, min_int, max_int.
  pose proof (Z.mod_pos_bound (z + 2 ^ 63) (2 ^ 64)). lia.
Qed.

Lemma wrap_int_id z : in_int z = true → wrap_int z = z.
Proof.
  unfold in_int, wrap_int, min_int, max_int. intros H. bool_to_prop.
  rewrite Z.mod_small by lia. lia.
Qed.

#[export] Hint Resolve Atoi_range wrap_int_range : go.
