(* ===== verification/Value.v ===== *)
(** Dynamic Go values: what an [interface{}] of the client can hold (decoded
    JSON and the few static types the client stores in one), the type assertions
    and map accesses the code makes on it, and the conversions between [int] and
    [float64]. [asString] of session.go and of appkit/events.go is here. *)

From Stdlib Require Import SpecFloat.
From S2P Require Import Prelude GoStr.

(** * Values *)

(** A [map[string]interface{}] is [None] when nil; a read of a nil map yields the
    zero value, like a read of a missing key. *)
#[warnings="-register-all"]
Inductive value :=
  | VNil
  | VBool (b : bool)
  | VInt (z : Z)
  | VInt64 (z : Z)
  | VFloat (f : spec_float)
  | VStr (s : string)
  | VArr (l : list value)
  | VStrs (l : list string)
  | VMap (m : option (gmap string value)).

Abbreviation gomap := (option (gmap string value)).

#[export] Instance value_inhabited : Inhabited value := populate VNil.

(** [m[k]] *)
Definition mget (m : gomap) (k : string) : value := default VNil (m ≫= lookup k).

(** [_, ok := m[k]] *)
Definition mhas (m : gomap) (k : string) : bool := bool_decide (is_Some (m ≫= lookup k)).

(** [m[k] = v] on a non-nil map. *)
Definition mset (k : string) (v : value) (m : gmap string value) : gmap string value :=
  <[k := v]> m.

(** A map literal. *)
Definition mlit (l : list (string * value)) : gmap string value := list_to_map l.
Definition obj (l : list (string * value)) : value := VMap (Some (mlit l)).

(** ** Type assertions, [None] when the assertion fails *)

Definition to_str (v : value) : option string :=
  match v with VStr s => Some s | _ => None end.
Definition to_map (v : value) : option gomap :=
  match v with VMap m => Some m | _ => None end.
Definition to_arr (v : value) : option (list value) :=
  match v with VArr l => Some l | _ => None end.
Definition to_float (v : value) : option spec_float :=
  match v with VFloat f => Some f | _ => None end.
Definition to_bool (v : value) : option bool :=
  match v with VBool b => Some b | _ => None end.

(** [x, _ := v.(T)]: the zero value of [T] when the assertion fails. *)
Definition asString (v : value) : string := default "" (to_str v).
Definition asMap (v : value) : gomap := default None (to_map v).

Definition is_nil (v : value) : bool := match v with VNil => true | _ => false end.

(** The string at [k], empty when there is none. *)
Definition sget (m : gomap) (k : string) : string := asString (mget m k).

#[global] Arguments mget : simpl never.
#[global] Arguments mhas : simpl never.
#[global] Arguments mset : simpl never.
#[global] Arguments sget : simpl never.
#[global] Arguments asMap !v /.
#[global] Arguments asString !v /.

(** * Numbers *)

Definition float_of_int (z : Z) : spec_float := binary_normalize 53 1024 z 0 false.

Definition float_trunc (f : spec_float) : option Z :=
  match f with
  | S754_zero _ => Some 0%Z
  | S754_finite s m e =>
      let a := if (0 <=? e)%Z then (Z.pos m * 2 ^ e)%Z else (Z.pos m / 2 ^ (- e))%Z in
      Some (if s then (- a)%Z else a)
  | S754_infinity _ | S754_nan => None
  end.

(** [int(f)]. Go leaves the result open when the value does not fit; this is the
    amd64 one, the least [int]. *)
Definition int_of_float (f : spec_float) : Z :=
  match float_trunc f with
  | Some z => if in_int z then z else min_int
  | None => min_int
  end.

(** * Depth *)

(** Nesting depth: the fuel of the functions that recurse into nested frames. *)
Fixpoint vdepth (v : value) : nat :=
  match v with
  | VArr l => S (foldr (λ x n, vdepth x `max` n) 0 l)
  | VMap (Some m) => S (map_fold (λ _ x n, vdepth x `max` n) 0 m)
  | _ => 0
  end.

(** * Lemmas *)

Lemma vdepth_lookup (m : gmap string value) k v :
  m !! k = Some v → vdepth v < vdepth (VMap (Some m)).
Proof.
  intros Hk. simpl. apply Nat.lt_succ_r.
  rewrite (map_fold_delete_L _ _ k v m) by (auto; lia). lia.
Qed.

Lemma vdepth_elem l v : v ∈ l → vdepth v < vdepth (VArr l).
Proof.
  simpl. induction l as [|x l IH]; [set_solver|].
  intros [->|H]%elem_of_cons; simpl; [lia|]. specialize (IH H). lia.
Qed.

Lemma mget_Some m k v : mget m k = v → v ≠ VNil → ∃ m', m = Some m' ∧ m' !! k = Some v.
Proof.
  unfold mget. destruct m as [m|]; simpl; [|by intros <-].
  destruct (m !! k) as [x|] eqn:E; simpl; [|by intros <-]. intros <-. eauto.
Qed.

Lemma vdepth_mget m k v : mget m k = v → v ≠ VNil → vdepth v < vdepth (VMap m).
Proof. intros H Hn. destruct (mget_Some _ _ _ H Hn) as (m' & -> & ?). by eapply vdepth_lookup. Qed.

Lemma mget_nil k : mget None k = VNil.
Proof. done. Qed.

Lemma mget_mset k v m : mget (Some (mset k v m)) k = v.
Proof. unfold mget, mset. simpl. by rewrite lookup_insert_eq. Qed.

Lemma mget_mset_ne k k' v m : k ≠ k' → mget (Some (mset k v m)) k' = mget (Some m) k'.
Proof. intros. unfold mget, mset. simpl. by rewrite lookup_insert_ne. Qed.

Lemma asString_ne v : asString v ≠ "" → ∃ s, v = VStr s ∧ s ≠ "".
Proof. destruct v; try done. eauto. Qed.

Lemma asString_eq v s : asString v = s → s ≠ "" → v = VStr s.
Proof. intros <- H. by destruct (asString_ne _ H) as (? & -> & _). Qed.

Lemma asMap_Some v m : asMap v = Some m → v = VMap (Some m).
Proof. destruct v; try done. unfold asMap; simpl. by intros ->. Qed.

Lemma to_map_Some v m : to_map v = Some m → v = VMap m.
Proof. destruct v; try done. by intros [= ->]. Qed.

Lemma sget_eq m k s : sget m k = s → s ≠ "" → mget m k = VStr s.
Proof. apply asString_eq. Qed.

Lemma int_of_float_range f : (min_int <= int_of_float f <= max_int)%Z.
Proof.
  unfold int_of_float. destruct (float_trunc f) as [z|]; [|done].
  destruct (in_int z) eqn:E; [|done]. unfold in_int in E. bool_to_prop. lia.
Qed.

(** ** Integers below 2^53 are exact *)

Lemma digits2_pos_low p : (2 ^ (Z.pos (digits2_pos p) - 1) <= Z.pos p)%Z.
Proof.
  induction p as [p IH|p IH|]; [| |done]; simpl digits2_pos;
    rewrite Pos2Z.inj_succ, Z.sub_1_r, Z.pred_succ;
    replace (Z.pos (digits2_pos p)) with (Z.succ (Z.pos (digits2_pos p) - 1)) by lia;
    rewrite Z.pow_succ_r; lia.
Qed.

Lemma digits2_pos_shift n p :
  Z.pos (digits2_pos (Pos.iter xO p n)) = (Z.pos (digits2_pos p) + Z.pos n)%Z.
Proof.
  induction n as [|n IH] using Pos.peano_ind; [simpl; lia|].
  rewrite Pos.iter_succ. simpl digits2_pos. lia.
Qed.

Lemma shift_pos_mul n p : Z.pos (Pos.iter xO p n) = (Z.pos p * 2 ^ Z.pos n)%Z.
Proof.
  induction n as [|n IH] using Pos.peano_ind; [simpl; lia|].
  rewrite Pos.iter_succ, Pos2Z.inj_succ, Z.pow_succ_r by lia. lia.
Qed.

(** A mantissa of 53 digits is rounded to itself. *)
Lemma round_exact b m e :
  Z.pos (digits2_pos m) = 53%Z → (-53 < e <= 0)%Z →
  binary_round_aux 53 1024 b (Z.pos m) e loc_Exact = S754_finite b m e.
Proof.
  intros Hd He. unfold binary_round_aux.
  assert (shr_fexp 53 1024 (Z.pos m) e loc_Exact = (Build_shr_record (Z.pos m) false false, e)) as E.
  { unfold shr_fexp, fexp, emin. simpl Zdigits2. rewrite Hd.
    replace (Z.max (53 + e - 53) (3 - 1024 - 53) - e)%Z with 0%Z by lia. done. }
  rewrite E. simpl. rewrite E. simpl. by rewrite (proj2 (Z.leb_le _ _)) by lia.
Qed.

Lemma binary_round_trunc b p :
  (Z.pos p < 2 ^ 53)%Z →
  float_trunc (binary_round 53 1024 b p 0) = Some (if b then Z.neg p else Z.pos p).
Proof.
  intros Hp. pose proof (digits2_pos_low p) as Hlow.
  assert (Z.pos (digits2_pos p) <= 53)%Z as Hd.
  { apply Z.le_ngt. intros Hgt.
    assert (2 ^ 53 <= 2 ^ (Z.pos (digits2_pos p) - 1))%Z by (apply Z.pow_le_mono_r; lia). lia. }
  unfold binary_round, shl_align, fexp, emin.
  replace (Z.max (Z.pos (digits2_pos p) + 0 - 53) (3 - 1024 - 53) - 0)%Z
    with (Z.pos (digits2_pos p) - 53)%Z by lia.
  replace (Z.max (Z.pos (digits2_pos p) + 0 - 53) (3 - 1024 - 53))%Z
    with (Z.pos (digits2_pos p) - 53)%Z by lia.
  destruct (Z.pos (digits2_pos p) - 53)%Z as [|k|k] eqn:Ek; [|lia|].
  - rewrite round_exact by lia. unfold float_trunc. simpl (0 <=? 0)%Z. cbv iota.
    rewrite Z.mul_1_r. by destruct b.
  - rewrite round_exact; [|rewrite digits2_pos_shift; lia|lia]. unfold float_trunc.
    simpl (0 <=? Z.neg k)%Z. cbv iota. rewrite shift_pos_mul, Z.div_mul; [by destruct b|].
    simpl Z.opp. lia.
Qed.

Lemma float_trunc_of_int z : (Z.abs z < 2 ^ 53)%Z → float_trunc (float_of_int z) = Some z.
Proof.
  intros Hz. unfold float_of_int, binary_normalize.
  destruct z as [|p|p]; [done| |]; by rewrite binary_round_trunc by (simpl in *; lia).
Qed.

Lemma int_of_float_of_int z : (Z.abs z < 2 ^ 53)%Z → int_of_float (float_of_int z) = z.
Proof.
  intros Hz. unfold int_of_float. rewrite float_trunc_of_int by done.
  assert (in_int z = true) as ->; [|done].
  unfold in_int, min_int, max_int. apply andb_true_iff. rewrite !Z.leb_le. lia.
Qed.

Lemma SFeqb_refl f z : float_trunc f = Some z → SFeqb f f = true.
Proof.
  destruct f as [s|s| |s m e]; try done. intros _.
  unfold SFeqb, SFcompare. rewrite Z.compare_refl, (Pos.compare_cont_refl m Eq). by destruct s.
Qed.

Lemma SFeqb_eq f g : SFeqb f g = true → int_of_float f = int_of_float g.
Proof.
  destruct f as [s|s| |s m e], g as [s'|s'| |s' m' e']; unfold SFeqb, SFcompare; try done;
    repeat match goal with |- context [if ?b then _ else _] => destruct b end; try done.
  - destruct (Z.compare_spec e e') as [->| |]; try done.
    destruct (Pos.compare_cont Eq m m') eqn:E; try done. intros _.
    by apply Pos.compare_eq in E as ->.
  - destruct (Z.compare_spec e e') as [->| |]; try done.
    destruct (Pos.compare_cont Eq m m') eqn:E; try done. intros _.
    by apply Pos.compare_eq in E as ->.
Qed.

#[export] Hint Rewrite mget_mset mget_nil : go_simpl.
#[export] Hint Resolve int_of_float_range vdepth_lookup vdepth_elem : go.

(** * Recursion into nested frames *)

(** A function on maps that may call itself on strictly shallower maps, run with the
    depth of its argument as fuel. *)
Section nested.
Context {A : Type} (d : A) (body : (gomap → A) → gomap → A).

Fixpoint nested (fuel : nat) (m : gomap) : A :=
  match fuel with
  | O => d
  | S fuel => body (nested fuel) m
  end.

Definition nfix (m : gomap) : A := nested (S (vdepth (VMap m))) m.

(** The body looks at its recursive calls on shallower maps only. Results are
    compared by [R], so that state transformers can be compared pointwise. *)
Definition shallow_for (R : relation A) : Prop :=
  ∀ r1 r2 m,
    (∀ m', vdepth (VMap m') < vdepth (VMap m) → R (r1 m') (r2 m')) →
    R (body r1 m) (body r2 m).

Context (R : relation A) (Hbody : shallow_for R).

Lemma nested_enough f1 f2 m :
  vdepth (VMap m) < f1 → vdepth (VMap m) < f2 → R (nested f1 m) (nested f2 m).
Proof using Hbody.
  revert f2 m. induction f1 as [|f1 IH]; intros [|f2] m H1 H2; [lia..|].
  simpl. apply Hbody. intros m' Hm'. apply IH; lia.
Qed.

(** The depth is enough fuel: the function satisfies the source's equation. *)
Lemma nfix_unfold_for m : R (nfix m) (body nfix m).
Proof using Hbody.
  change (nfix m) with (body (nested (vdepth (VMap m))) m). apply Hbody. intros m' Hm'.
  unfold nfix. apply nested_enough; simpl in *; lia.
Qed.
End nested.

Definition shallow {A} (body : (gomap → A) → gomap → A) : Prop := shallow_for body eq.

Lemma nfix_unfold {A} (d : A) body : shallow body → ∀ m, nfix d body m = body (nfix d body) m.
Proof. intros H m. apply (nfix_unfold_for d body eq H). Qed.

(** Induction on the nesting of a frame. *)
Lemma depth_ind (P : gomap → Prop) :
  (∀ m, (∀ m', vdepth (VMap m') < vdepth (VMap m) → P m') → P m) → ∀ m, P m.
Proof.
  intros H m. remember (vdepth (VMap m)) as n eqn:E. revert m E.
  induction (lt_wf n) as [n _ IH]. intros m ->. apply H. intros m' Hm'.
  by eapply IH.
Qed.

(** The map two levels down is shallower: [m[k1][k2]]. *)
Lemma vdepth_path m k1 k2 m1 m2 :
  mget m k1 = VMap m1 → mget m1 k2 = VMap m2 → vdepth (VMap m2) < vdepth (VMap m).
Proof.
  intros H1 H2. pose proof (vdepth_mget _ _ _ H1 ltac:(done)).
  pose proof (vdepth_mget _ _ _ H2 ltac:(done)). lia.
Qed.

Lemma asMap_path m k1 p k2 m2 :
  asMap (mget m k1) = Some p → to_map (mget (Some p) k2) = Some m2 →
  vdepth (VMap m2) < vdepth (VMap m).
Proof. intros H1%asMap_Some H2%to_map_Some. by eapply vdepth_path. Qed.

#[export] Hint Resolve asMap_path : go.
