(* ===== verification/Events.v ===== *)
(** The event names of the daemon wire protocol (events.go) and the splitting of a
    namespace into its segments. *)

From S2P Require Import Prelude GoStr.

(** * Event names *)

Definition EventPlanCreated : string := "soothe.cognition.plan.created".
Definition EventPlanBatchStarted : string := "soothe.cognition.plan.batch.started".
Definition EventPlanReflected : string := "soothe.cognition.plan.reflected".
Definition EventGoalCreated : string := "soothe.cognition.goal.created".
Definition EventGoalCompleted : string := "soothe.cognition.goal.completed".
Definition EventGoalFailed : string := "soothe.cognition.goal.failed".
Definition EventGoalDeferred : string := "soothe.cognition.goal.deferred".
Definition EventGoalBatchStarted : string := "soothe.cognition.goal.batch.started".
Definition EventGoalReported : string := "soothe.cognition.goal.reported".
Definition EventGoalDirectivesApplied : string := "soothe.cognition.goal.directives.applied".
Definition EventDeepResearchStarted : string := "soothe.subagent.deep_research.started".
Definition EventDeepResearchProgress : string := "soothe.subagent.deep_research.progress".
Definition EventDeepResearchStepCompleted : string := "soothe.subagent.deep_research.step.completed".
Definition EventDeepResearchGatherSummary : string := "soothe.subagent.deep_research.gather.summary".
Definition EventDeepResearchCrawlSummary : string := "soothe.subagent.deep_research.crawl.summary".
Definition EventDeepResearchCompleted : string := "soothe.subagent.deep_research.completed".
Definition EventReplayComplete : string := "replay_complete".
Definition EventLoopReattachedWire : string := "loop_reattached".
Definition EventCardCreated : string := "soothe.card.created".
Definition EventCardUpdated : string := "soothe.card.updated".
Definition EventCardFinalized : string := "soothe.card.finalized".
Definition EventCardReplayBegin : string := "soothe.card.replay.begin".
Definition EventCardReplayEnd : string := "soothe.card.replay.end".
Definition EventToolStarted : string := "soothe.tool.execution.started".
Definition EventToolCompleted : string := "soothe.tool.execution.completed".
Definition EventToolError : string := "soothe.tool.execution.error".
Definition EventStreamToolCallUpdate : string := "soothe.stream.tool_call.update".
Definition EventToolCallUpdatesBatch : string := "tool_call_updates_batch".
Definition EventStrangeLoopStarted : string := "soothe.cognition.strange_loop.started".
Definition EventStrangeLoopCompleted : string := "soothe.cognition.strange_loop.completed".
Definition EventStrangeLoopPlanDecision : string := "soothe.cognition.strange_loop.plan.decision".
Definition EventStrangeLoopReasoned : string := "soothe.cognition.strange_loop.reasoned".
Definition EventStrangeLoopStepStarted : string := "soothe.cognition.strange_loop.step.started".
Definition EventStrangeLoopStepQueued : string := "soothe.cognition.strange_loop.step.queued".
Definition EventStrangeLoopStepCompleted : string := "soothe.cognition.strange_loop.step.completed".
Definition EventStrangeLoopContextCompacted : string := "soothe.cognition.strange_loop.context.compacted".
Definition EventBranchCreated : string := "soothe.cognition.branch.created".
Definition EventBranchRetryStarted : string := "soothe.cognition.branch.retry.started".
Definition EventMessageReceived : string := "soothe.protocol.message.received".
Definition EventMessageSent : string := "soothe.protocol.message.sent".
Definition EventFinalReport : string := "soothe.output.autonomous.final_report.reported".
Definition EventAutopilotStatusChanged : string := "soothe.system.autopilot.status.changed".
Definition EventAutopilotGoalCreated : string := "soothe.system.autopilot.goal.created".
Definition EventAutopilotGoalProgress : string := "soothe.system.autopilot.goal.reported".
Definition EventAutopilotGoalCompleted : string := "soothe.system.autopilot.goal.completed".
Definition EventAutopilotGoalSuspended : string := "soothe.system.autopilot.goal.suspended".
Definition EventAutopilotGoalBlocked : string := "soothe.system.autopilot.goal.blocked".
Definition EventAutopilotDreamingEntered : string := "soothe.system.autopilot.dreaming.started".
Definition EventAutopilotDreamingExited : string := "soothe.system.autopilot.dreaming.completed".
Definition EventGeneralFailed : string := "soothe.error.general.failed".

(** * Namespaces *)

(** The loop of [splitNamespace], at index [i] with the segment starting at [start];
    [len(ns) - i] steps are left. *)
Fixpoint split_loop (fuel : nat) (ns : list ascii) (i start : nat) (parts : list string)
    : list string * nat :=
  match fuel with
  | O => (parts, start)
  | S fuel =>
      match ns !! i with
      | None => (parts, start)
      | Some c =>
          if Ascii.eqb c "."%char
          then split_loop fuel ns (S i) (S i) (parts ++ [of_bytes (slice ns start i)])
          else split_loop fuel ns (S i) start parts
      end
  end.

Definition splitNamespace (ns : string) : list string :=
  let l := to_bytes ns in
  let '(parts, start) := split_loop (length l) l 0 0 [] in
  parts ++ [of_bytes (slice l start (length l))].

(** The Go results [domain, component, action] when [ok], [None] otherwise. *)
Definition ParseNamespace (ns : string) : option (string * string * string) :=
  match splitNamespace ns with
  | p0 :: p1 :: p2 :: p3 :: _ =>
      if p0 <>s "soothe" then None
      else if p1 =s "internal" then None
      else Some (p1, p2, p3)
  | _ => None
  end.

(** * Lemmas *)

(** The bytes of the current segment, then the rest. *)
Lemma Split_bytes_cons (cur : list ascii) (rest : list ascii) :
  "."%char ∉ cur →
  Split (of_bytes (cur ++ "."%char :: rest)) "."%char =
  of_bytes cur :: Split (of_bytes rest) "."%char.
Proof.
  intros Hc.
  replace (of_bytes (cur ++ "."%char :: rest))
    with (of_bytes cur +:+ String "."%char (of_bytes rest)).
  - rewrite Split_app, Split_solid; [done|]. by rewrite to_of_bytes.
  - apply to_bytes_inj. rewrite to_bytes_app. simpl. by rewrite !to_of_bytes.
Qed.

Lemma slice_snoc (l : list ascii) start i c :
  start ≤ i → l !! i = Some c → slice l start (S i) = slice l start i ++ [c].
Proof.
  intros Hle Hi. unfold slice. replace (S i - start) with (S (i - start)) by lia.
  rewrite (take_S_r _ _ c); [done|]. rewrite lookup_drop.
  by replace (start + (i - start)) with i by lia.
Qed.

Lemma split_loop_correct fuel l i start parts :
  i + fuel = length l → start ≤ i →
  "."%char ∉ slice l start i →
  let '(ps, s) := split_loop fuel l i start parts in
  ps ++ [of_bytes (slice l s (length l))] =
  parts ++ Split (of_bytes (drop start l)) "."%char.
Proof.
  revert i start parts. induction fuel as [|fuel IH]; intros i start parts Hf Hle Hdot; simpl.
  - replace i with (length l) in Hdot by lia. f_equal.
    unfold slice in *. rewrite take_ge in Hdot by (rewrite length_drop; lia).
    rewrite take_ge by (rewrite length_drop; lia).
    rewrite Split_solid; [done|]. by rewrite to_of_bytes.
  - destruct (lookup_lt_is_Some_2 l i) as [c Hc]; [lia|]. rewrite Hc.
    destruct (Ascii.eqb_spec c "."%char) as [->|Hne].
    + specialize (IH (S i) (S i) (parts ++ [of_bytes (slice l start i)])).
      destruct (split_loop fuel l (S i) (S i) _) as [ps s].
      rewrite IH; [|lia|lia|unfold slice; rewrite Nat.sub_diag; set_solver].
      rewrite <-app_assoc. f_equal. simpl.
      rewrite <-Split_bytes_cons by done. f_equal. f_equal.
      rewrite <-(take_drop (i - start) (drop start l)). unfold slice. f_equal.
      rewrite drop_drop. replace (start + (i - start)) with i by lia.
      by rewrite (drop_S _ _ _ Hc).
    + apply IH; [lia|lia|]. rewrite (slice_snoc _ _ _ c) by done.
      rewrite not_elem_of_app, list_elem_of_singleton. split; [done|congruence].
Qed.

Lemma splitNamespace_Split ns : splitNamespace ns = Split ns "."%char.
Proof.
  unfold splitNamespace.
  pose proof (split_loop_correct (length (to_bytes ns)) (to_bytes ns) 0 0 []) as H.
  destruct (split_loop _ _ _ _ _) as [ps s]. rewrite H; [|done|done|].
  - by rewrite drop_0, of_to_bytes.
  - unfold slice. set_solver.
Qed.
