(* ===== verification/TurnId.v ===== *)
(** Turn identities (turn_boundary.go): the wire form of a turn id, the turn id and
    sequence number of a frame, and the gates for the frames that may end a turn. *)

From Stdlib Require Import SpecFloat.
From S2P Require Import Prelude GoStr Value.

(** * Definitions *)

Definition FormatTurnID (loopID : string) (generation : Z) : string :=
  let lid := TrimSpace loopID in
  if (lid =s "") || (generation <=? 0)%Z then ""
  else lid +:+ String ":"%char (Itoa generation).

Definition ParseTurnGeneration (turnID : string) : Z :=
  let raw := TrimSpace turnID in
  if (raw =s "") || negb (Contains raw ":") then (-1)%Z
  else
    let parts := Split raw ":"%char in
    let suffix := default "" (last parts) in
    match Atoi suffix with
    | Some gen => if (gen <=? 0)%Z then (-1)%Z else gen
    | None => (-1)%Z
    end.

(** The trimmed string at [turn_id], when it is a string and not blank. *)
Definition turn_id_field (m : gomap) : option string :=
  match to_str (mget m "turn_id") with
  | Some tid => let t := TrimSpace tid in if t =s "" then None else Some t
  | None => None
  end.

Definition FrameTurnID (frame : gomap) : string :=
  match turn_id_field frame with
  | Some t => t
  | None =>
      match to_map (mget frame "data") with
      | Some data => default "" (turn_id_field data)
      | None => ""
      end
  end.

Definition FrameSeq (frame : gomap) : Z :=
  match mget frame "seq" with
  | VInt v => if (0 <=? v)%Z then v else (-1)%Z
  | VInt64 v => if (0 <=? v)%Z then v else (-1)%Z
  | VFloat v =>
      if SFleb (S754_zero false) v && SFeqb v (float_of_int (int_of_float v))
      then int_of_float v else (-1)%Z
  | _ => (-1)%Z
  end.

Definition TurnIDsMatch (expected candidate : string) : bool :=
  let exp := TrimSpace expected in
  let cand := TrimSpace candidate in
  (exp <>s "") && (cand <>s "") && (exp =s cand).

Definition IsTurnTerminalAllowed (expectedTurnID frameTurnID : string)
    (queryStarted turnProgressSeen : bool) : bool :=
  if negb queryStarted || negb turnProgressSeen then false
  else TurnIDsMatch expectedTurnID frameTurnID.

Definition IsIdleTerminalAllowed (expectedTurnID frameTurnID : string)
    (queryStarted turnProgressSeen cancellationSeen : bool) : bool :=
  if negb queryStarted || (TrimSpace expectedTurnID =s "") then false
  else
    let cand := TrimSpace frameTurnID in
    if cand <>s "" then
      if negb (TurnIDsMatch expectedTurnID cand) then false
      else turnProgressSeen || cancellationSeen
    else cancellationSeen.

(** * Lemmas *)

Lemma TurnIDsMatch_spec e c :
  TurnIDsMatch e c = true ↔ TrimSpace e = TrimSpace c ∧ TrimSpace e ≠ "".
Proof.
  unfold TurnIDsMatch. rewrite !andb_true_iff, !negb_true_iff, !String.eqb_neq, String.eqb_eq.
  split; [tauto|]. intros [E H]. rewrite <-E. tauto.
Qed.

Lemma TurnIDsMatch_trim e c : TurnIDsMatch e (TrimSpace c) = TurnIDsMatch e c.
Proof. unfold TurnIDsMatch. by rewrite TrimSpace_idemp. Qed.

Lemma TurnIDsMatch_refl e : TrimSpace e ≠ "" → TurnIDsMatch e e = true.
Proof. intros. by apply TurnIDsMatch_spec. Qed.

#[export] Hint Rewrite TurnIDsMatch_trim : go_simpl.

Lemma turn_id_field_trimmed m t : turn_id_field m = Some t → trimmed t ∧ t ≠ "".
Proof.
  unfold turn_id_field. destruct (to_str _) as [tid|]; [|done].
  destruct (TrimSpace tid =s "") eqn:E; [done|]. intros [= <-].
  split; [auto with go|]. by apply String.eqb_neq.
Qed.

(** What [FrameTurnID] returns is already trimmed. *)
Lemma FrameTurnID_trimmed frame : TrimSpace (FrameTurnID frame) = FrameTurnID frame.
Proof.
  unfold FrameTurnID. destruct (turn_id_field frame) as [t|] eqn:E.
  { by apply trimmed_id, (turn_id_field_trimmed _ _ E). }
  destruct (to_map _) as [data|]; [|done].
  destruct (turn_id_field data) as [t|] eqn:E'; [|done].
  by apply trimmed_id, (turn_id_field_trimmed _ _ E').
Qed.

#[export] Hint Rewrite FrameTurnID_trimmed : go_simpl.

Lemma digit_solid c : is_digit c = true → solid c ∧ c ≠ ":"%char.
Proof.
  intros H. destruct c as [[] [] [] [] [] [] [] []]; try discriminate H;
    (split; [by_compute|done]).
Qed.

(** The text of a well-formed turn id is trimmed and its last segment is the
    generation. *)
Lemma FormatTurnID_shape lid g :
  TrimSpace lid ≠ "" → (0 < g)%Z →
  let s := FormatTurnID lid g in
  s = TrimSpace lid +:+ String ":"%char (Itoa g) ∧ trimmed s ∧
  last (Split s ":"%char) = Some (Itoa g).
Proof.
  intros Hl Hg. unfold FormatTurnID. simpl.
  rewrite (proj2 (String.eqb_neq _ _)) by done.
  destruct (Z.leb_spec g 0); [lia|]. simpl. split; [done|].
  destruct (Itoa_digits g Hg) as [Hd Hne].
  split.
  - destruct (to_bytes (Itoa g)) as [|c r _] eqn:E using rev_ind.
    { destruct Hne. by apply to_bytes_inj. }
    assert (Itoa g = of_bytes r +:+ String c "") as ->.
    { apply to_bytes_inj. by rewrite to_bytes_app, E, to_of_bytes. }
    apply Forall_app in Hd as [_ Hc]. rewrite Forall_singleton in Hc.
    apply trimmed_app; [apply trimmed_TrimSpace| |apply (digit_solid _ Hc)].
    by_compute.
  - apply Split_last. intros Hin. rewrite Forall_forall in Hd.
    apply Hd, digit_solid in Hin as [_ Hin]. done.
Qed.

Lemma FormatTurnID_nonempty lid g :
  FormatTurnID lid g ≠ "" → TrimSpace lid ≠ "" ∧ (0 < g)%Z.
Proof.
  unfold FormatTurnID. destruct (TrimSpace lid =s "") eqn:E; [done|].
  destruct (Z.leb_spec g 0); [done|]. simpl. intros _. split; [|lia].
  by apply String.eqb_neq.
Qed.

Lemma TrimSpace_nonempty s : TrimSpace s ≠ "" → s ≠ "".
Proof. by intros H ->. Qed.

(** ** Properties *)

(** Formatting a turn id and reading its generation back gives the generation. *)
Lemma ParseTurnGeneration_FormatTurnID (lid : string) (g : Z) :
  TrimSpace lid ≠ "" → (0 < g <= max_int)%Z →
  ParseTurnGeneration (FormatTurnID lid g) = g.
Proof.
  intros Hl Hg. destruct (FormatTurnID_shape lid g Hl) as (E & Ht & Hlast); [lia|].
  unfold ParseTurnGeneration. rewrite (trimmed_id _ Ht), Hlast. simpl.
  rewrite Atoi_Itoa by lia.
  assert ((FormatTurnID lid g =s "") = false) as ->.
  { apply String.eqb_neq. rewrite E. by destruct (TrimSpace lid). }
  assert (Contains (FormatTurnID lid g) ":" = true) as ->.
  { apply Contains_spec. rewrite E. by exists (TrimSpace lid), (Itoa g). }
  simpl. destruct (Z.leb_spec g 0); [lia|done].
Qed.

Lemma ParseTurnGeneration_range s :
  ParseTurnGeneration s = (-1)%Z ∨ (0 < ParseTurnGeneration s <= max_int)%Z.
Proof.
  unfold ParseTurnGeneration. destruct (_ || _); [by left|].
  destruct (Atoi _) as [z|] eqn:E; [|by left].
  apply Atoi_range in E. destruct (Z.leb_spec z 0); [by left|right; lia].
Qed.

#[export] Hint Resolve ParseTurnGeneration_range TrimSpace_nonempty : go.

(** A well-formed turn id determines its generation and its loop: parsing gives the
    generation back, and no other loop and generation format to the same id. *)
Theorem turn_id_roundtrip (lid : string) (g : Z)
    (Hl : TrimSpace lid ≠ "") (Hg : (0 < g <= max_int)%Z) :
  ParseTurnGeneration (FormatTurnID lid g) = g ∧
  ∀ lid' g', (g' <= max_int)%Z → FormatTurnID lid' g' = FormatTurnID lid g →
    g' = g ∧ TrimSpace lid' = TrimSpace lid.
Proof.
  pose proof (ParseTurnGeneration_FormatTurnID lid g Hl Hg) as Hp. split; [done|].
  intros lid' g' Hg' E. destruct (FormatTurnID_shape lid g Hl) as (E1 & _ & _); [lia|].
  assert (FormatTurnID lid' g' ≠ "") as Hne by (rewrite E, E1; by destruct (TrimSpace lid)).
  apply FormatTurnID_nonempty in Hne as [Hl' H0].
  assert (g' = g) as ->.
  { rewrite <-Hp, <-E. symmetry. apply ParseTurnGeneration_FormatTurnID; [done|lia]. }
  split; [done|]. destruct (FormatTurnID_shape lid' g Hl') as (E2 & _ & _); [lia|].
  rewrite E1, E2 in E. apply (f_equal to_bytes) in E. rewrite !to_bytes_app in E.
  apply to_bytes_inj. by apply app_inv_tail in E.
Qed.

Lemma turn_id_roundtrip_witness :
  ParseTurnGeneration (FormatTurnID " loop:a " 17) = 17%Z.
Proof. apply turn_id_roundtrip; [vm_compute; discriminate|vm_compute; split; [reflexivity|discriminate]]. Defined.
