(* ===== verification/StreamTerminal.v ===== *)
(** Turn terminals (stream_terminal.go): the custom payloads that end a turn, the
    chunks that prove a turn has progressed, the leftovers that may be peeled off
    before a turn, and the frames whose delivery the daemon must be told of. *)

From S2P Require Import Prelude GoStr Value Events.

(** * Definitions *)

Definition STREAM_END : string := "soothe.stream.end".

Definition turnEndCustomTypes : gset string :=
  {[ STREAM_END; EventStrangeLoopCompleted ]}.

Definition turnProgressCustomTypes : gset string :=
  {[ EventPlanCreated; EventStrangeLoopStepStarted; EventStrangeLoopStepQueued;
     EventStrangeLoopStepCompleted; EventCardCreated; EventCardUpdated;
     EventCardFinalized ]}.

Definition staleTurnPendingTypes : gset string :=
  {[ "connection_ack"; EventCardReplayBegin; EventCardReplayEnd; EventCardCreated;
     "complete" ]}.

Definition IsTurnEndCustomData (data : value) : bool :=
  match asMap data with
  | None => false
  | Some _ as m =>
      let customType := TrimSpace (sget m "type") in
      if negb (bool_decide (customType ∈ turnEndCustomTypes)) then false
      else if customType =s STREAM_END then
        let scope := ToLower (TrimSpace (sget m "scope")) in
        let scope := if scope =s "" then "turn" else scope in
        scope =s "turn"
      else true
  end.

Definition IsTurnProgressChunk (mode : string) (data : value) : bool :=
  if (mode =s "messages") || (mode =s "updates") then true
  else if mode <>s "custom" then false
  else if IsTurnEndCustomData data then false
  else
    match asMap data with
    | None => false
    | Some _ as m =>
        let customType := TrimSpace (sget m "type") in
        if bool_decide (customType ∈ turnProgressCustomTypes) then true
        else HasPrefix customType "soothe.cognition.strange_loop.step"
    end.

Definition stale_label_body (rec : gomap → string) (event : gomap) : string :=
  match event with
  | None => ""
  | Some _ =>
      let eventType := sget event "type" in
      if bool_decide (eventType ∈ staleTurnPendingTypes) then eventType
      else if eventType =s "next" then
        let payload := asMap (mget event "payload") in
        match payload with
        | None => ""
        | Some _ =>
            let staleMode := sget payload "mode" in
            if bool_decide (staleMode ∈ staleTurnPendingTypes) then staleMode
            else match to_map (mget payload "data") with
                 | Some inner => rec inner
                 | None => ""
                 end
        end
      else if eventType =s "event" then
        let mode := sget event "mode" in
        if (mode =s "custom") && IsTurnEndCustomData (mget event "data") then
          match to_map (mget event "data") with
          | Some m => TrimSpace (sget m "type")
          | None => ""
          end
        else ""
      else ""
  end.

Definition StalePendingFrameLabel : gomap → string := nfix "" stale_label_body.

(** The first message of a [messages] wire payload is a stream-end marker. *)
Definition messages_body_terminal (data : value) : bool :=
  match to_arr data with
  | None | Some [] => false
  | Some (x :: _) =>
      let body := asMap x in
      match body with
      | None => false
      | Some _ =>
          let t := sget body "type" in
          (t =s STREAM_END) || Contains t "stream.end"
      end
  end.

Definition inboundNeedsAckFromEventShape (event : gomap) : bool :=
  let mode := sget event "mode" in
  let data := mget event "data" in
  if (mode =s "custom") && IsTurnEndCustomData data then true
  else if mode =s "messages" then messages_body_terminal data
  else false.

Definition InboundNeedsDeliveryAck (event : gomap) : bool :=
  match event with
  | None => false
  | Some _ =>
      let t := sget event "type" in
      if t =s "complete" then true
      else if t =s "next" then
        let payload := asMap (mget event "payload") in
        match payload with
        | None => false
        | Some _ =>
            let inner := asMap (mget payload "data") in
            match inner with
            | None => false
            | Some _ =>
                let mode := sget payload "mode" in
                if mode =s "event" then inboundNeedsAckFromEventShape inner else false
            end
        end
      else if t =s "event" then inboundNeedsAckFromEventShape event
      else false
  end.

Definition ExtractLoopIDFromInbound (event : gomap) : string :=
  match event with
  | None => ""
  | Some _ =>
      let id := TrimSpace (sget event "loop_id") in
      if id <>s "" then id
      else if sget event "type" =s "next" then
        let payload := asMap (mget event "payload") in
        match payload with
        | None => ""
        | Some _ =>
            let id := TrimSpace (sget payload "loop_id") in
            if id <>s "" then id
            else match to_map (mget payload "data") with
                 | Some inner => TrimSpace (sget inner "loop_id")
                 | None => ""
                 end
        end
      else ""
  end.

(** * Lemmas *)

Lemma stale_label_shallow : shallow stale_label_body.
Proof.
  intros r1 r2 m H. unfold stale_label_body.
  destruct m as [m|]; [|done].
  repeat case_match; try done. apply H. by eapply asMap_path.
Qed.

Lemma StalePendingFrameLabel_unfold event :
  StalePendingFrameLabel event = stale_label_body StalePendingFrameLabel event.
Proof. apply nfix_unfold, stale_label_shallow. Qed.

Lemma IsTurnEndCustomData_type data :
  IsTurnEndCustomData data = true →
  ∃ m, data = VMap (Some m) ∧ TrimSpace (sget (Some m) "type") ∈ turnEndCustomTypes.
Proof.
  unfold IsTurnEndCustomData. destruct (asMap data) as [m|] eqn:E; [|done].
  apply asMap_Some in E as ->. case_bool_decide as Ht; [|done]. intros _. eauto.
Qed.

Lemma turn_end_type_nonempty t : t ∈ turnEndCustomTypes → t ≠ "".
Proof. intros H ->. revert H. by_compute. Qed.

Lemma stale_type_nonempty t : t ∈ staleTurnPendingTypes → t ≠ "".
Proof. intros H ->. revert H. by_compute. Qed.

(** A turn terminal never counts as progress of the turn it would end. *)
Lemma turn_end_not_progress data :
  IsTurnEndCustomData data = true → IsTurnProgressChunk "custom" data = false.
Proof. unfold IsTurnProgressChunk. simpl. by intros ->. Qed.

(** ** What may be peeled *)

(** The frame of [next] envelopes nested in one another. *)
Inductive unwraps : gomap → gomap → Prop :=
  | unwraps_here event : unwraps event event
  | unwraps_next event payload inner frame :
      sget event "type" = "next" →
      mget event "payload" = VMap payload → mget payload "data" = VMap inner →
      unwraps inner frame → unwraps event frame.

(** The frames a turn may start without: handshake and card-replay control, closed
    subscriptions, and terminals of an earlier turn. *)
Inductive leftover : gomap → Prop :=
  | leftover_control frame :
      sget frame "type" ∈ staleTurnPendingTypes → leftover frame
  | leftover_next_mode frame payload :
      sget frame "type" = "next" → mget frame "payload" = VMap payload →
      sget payload "mode" ∈ staleTurnPendingTypes → leftover frame
  | leftover_terminal frame :
      sget frame "type" = "event" → sget frame "mode" = "custom" →
      IsTurnEndCustomData (mget frame "data") = true → leftover frame.

Lemma StalePendingFrameLabel_leftover event :
  StalePendingFrameLabel event ≠ "" → ∃ frame, unwraps event frame ∧ leftover frame.
Proof.
  induction event as [event IH] using depth_ind.
  rewrite StalePendingFrameLabel_unfold. unfold stale_label_body.
  destruct event as [m|]; [|done]. set (event := Some m) in *.
  case_bool_decide as Ht.
  { intros _. exists event. split; [constructor|by apply leftover_control]. }
  destruct (sget event "type" =s "next") eqn:En; bool_to_prop.
  - destruct (asMap (mget event "payload")) as [p|] eqn:Ep; [|done].
    apply asMap_Some in Ep. case_bool_decide as Hm.
    { intros _. exists event. split; [constructor|by eapply leftover_next_mode]. }
    destruct (to_map _) as [inner|] eqn:Ei; [|done]. apply to_map_Some in Ei.
    intros Hl. destruct (IH inner) as (frame & Hu & Hf); [by eapply vdepth_path|done|].
    exists frame. split; [by eapply unwraps_next|done].
  - destruct (sget event "type" =s "event") eqn:Ee; [|done].
    destruct (_ && _) eqn:Ec; [|done]. bool_to_prop. intros _.
    exists event. split; [constructor|by apply leftover_terminal].
Qed.

Lemma leftover_StalePendingFrameLabel event frame :
  unwraps event frame → leftover frame → event ≠ None →
  StalePendingFrameLabel event ≠ "".
Proof.
  intros Hu Hf. induction Hu as [event|event payload inner frame Ht Hp Hi Hu IH].
  - intros Hne. rewrite StalePendingFrameLabel_unfold. unfold stale_label_body.
    destruct event as [m|]; [|done]. case_bool_decide as Hs; [by apply stale_type_nonempty|].
    inversion Hf as [? H|? p H Hp Hm|? H Hm Hd]; subst; [done| |].
    + rewrite H, Hp. simpl. destruct p as [p|].
      2:{ by apply stale_type_nonempty in Hm. }
      simpl. rewrite bool_decide_eq_true_2 by done. by apply stale_type_nonempty.
    + rewrite H, Hm, Hd. simpl.
      apply IsTurnEndCustomData_type in Hd as (d & -> & Hd). simpl.
      by apply turn_end_type_nonempty.
  - intros Hne. specialize (IH Hf). rewrite StalePendingFrameLabel_unfold.
    unfold stale_label_body. destruct event as [m|]; [|done].
    rewrite Ht, Hp. destruct payload as [p|]; [|done]. simpl.
    case_bool_decide; [done|].
    case_bool_decide as Hs; [by apply stale_type_nonempty|]. rewrite Hi. simpl.
    apply IH. intros ->. inversion Hu; subst; [|done].
    inversion Hf as [? Hm|? ? Hm|? Hm]; subst; [by apply stale_type_nonempty in Hm|done..].
Qed.

(** * Properties *)

(** What may be peeled before a turn is exactly the leftovers of an earlier one, under
    any nesting of [next] envelopes. *)
Theorem stale_label_exact (event : gomap) (Hev : event ≠ None) :
  StalePendingFrameLabel event ≠ "" ↔ ∃ frame, unwraps event frame ∧ leftover frame.
Proof.
  split; [apply StalePendingFrameLabel_leftover|].
  intros (frame & Hu & Hl). by eapply leftover_StalePendingFrameLabel.
Qed.

Lemma stale_label_exact_witness :
  ∃ frame, unwraps (Some (mlit [("type", VStr "connection_ack")])) frame ∧ leftover frame.
Proof. apply stale_label_exact; [discriminate|vm_compute; discriminate]. Defined.
