(* ===== verification/InboundPriority.v ===== *)
(** Drop priorities of inbound frames (inbound_priority.go), and how they relate to
    the frames the daemon waits for an acknowledgement of (stream_terminal.go). *)

From S2P Require Import Prelude GoStr Value Events StreamTerminal.

(** * Definitions *)

Definition DropPriorityCritical : Z := 0.
Definition DropPriorityHigh : Z := 1.
Definition DropPriorityNormal : Z := 2.
Definition DefaultInboundMaxSize : Z := 20000.

Definition hasPrefix (s pre : string) : bool :=
  let l := to_bytes s in
  let n := length (to_bytes pre) in
  (n <=? length l)%nat && bool_decide (slice l 0 n = to_bytes pre).

(** The loop of [indexOf], from index [i]. *)
Fixpoint indexOf_loop (fuel : nat) (s sub : list ascii) (i : nat) : Z :=
  match fuel with
  | O => -1
  | S fuel =>
      if (i + length sub <=? length s)%nat then
        if bool_decide (slice s i (i + length sub) = sub) then Z.of_nat i
        else indexOf_loop fuel s sub (S i)
      else -1
  end%Z.

Definition indexOf (s sub : string) : Z :=
  indexOf_loop (S (length (to_bytes s))) (to_bytes s) (to_bytes sub) 0.

Definition containsStr (s sub : string) : bool :=
  (length (to_bytes sub) =? 0)%nat ||
  ((length (to_bytes sub) <=? length (to_bytes s))%nat && (0 <=? indexOf s sub)%Z).

Definition messagesWireTerminal (data : value) : bool :=
  match to_arr data with
  | None | Some [] => false
  | Some (x :: _) =>
      match asMap x with
      | None => false
      | Some _ as body =>
          let t := sget body "type" in
          (t =s STREAM_END) || containsStr t "stream.end"
      end
  end.

(** [arr[0]["phase"] == "goal_completion"], when there is such a map. *)
Definition first_phase_goal (data : value) : bool :=
  match to_arr data with
  | None | Some [] => false
  | Some (x :: _) =>
      match to_map x with
      | Some first => sget first "phase" =s "goal_completion"
      | None => false
      end
  end.

(** The part of the function after the [next] envelope, which has set [eventType]. *)
Definition priority_tail (event : gomap) (eventType : string) : Z :=
  if (eventType =s "complete") || (eventType =s "error") || (eventType =s "connection_ack")
  then DropPriorityCritical
  else if (eventType =s "status") &&
          bool_decide (sget event "state" ∈ ["idle"; "running"; "stopped"; "detached"])
  then DropPriorityCritical
  else if eventType =s "event" then
    let mode := sget event "mode" in
    let data := mget event "data" in
    let custom :=
      if mode =s "custom" then
        if IsTurnEndCustomData data then Some DropPriorityCritical
        else match to_map data with
             | Some m =>
                 let customType := sget m "type" in
                 if hasPrefix customType "soothe.cognition." then Some DropPriorityHigh
                 else if hasPrefix customType "soothe.error." || (customType =s "stream_degraded")
                 then Some DropPriorityCritical
                 else if customType =s "soothe.ux.stream_tool_wire.tool_call_updates_batch"
                 then Some DropPriorityHigh
                 else None
             | None => None
             end
      else None in
    match custom with
    | Some p => p
    | None =>
        if (mode =s "messages") && (messagesWireTerminal data || first_phase_goal data)
        then DropPriorityCritical
        else DropPriorityNormal
    end
  else DropPriorityNormal.

Definition priority_body (rec : gomap → Z) (event : gomap) : Z :=
  match event with
  | None => DropPriorityCritical
  | Some _ =>
      let eventType := sget event "type" in
      if (eventType =s "event_batch") || (eventType =s "tool_call_updates_batch")
      then DropPriorityHigh
      else if eventType =s "next" then
        let payload := asMap (mget event "payload") in
        match payload with
        | None => priority_tail event eventType
        | Some _ =>
            let innerMode := sget payload "mode" in
            let innerData := mget payload "data" in
            if (innerMode =s "messages") &&
               (messagesWireTerminal innerData || first_phase_goal innerData)
            then DropPriorityCritical
            else if sget payload "type" =s "complete" then DropPriorityCritical
            else match to_map innerData with
                 | Some inner => rec inner
                 | None => priority_tail event (sget payload "type")
                 end
        end
      else priority_tail event eventType
  end.

Definition InboundFrameDropPriority : gomap → Z := nfix 0%Z priority_body.

(** * The substring search *)

Lemma slice_0 {A} (l : list A) n : slice l 0 n = take n l.
Proof. unfold slice. by rewrite drop_0, Nat.sub_0_r. Qed.

Lemma take_prefix_eq {A} (l k : list A) : take (length k) l = k ↔ k `prefix_of` l.
Proof.
  split.
  - intros <-. apply prefix_take.
  - intros [r ->]. by rewrite take_app_length.
Qed.

Lemma to_bytes_prefix s pre : to_bytes pre `prefix_of` to_bytes s ↔ HasPrefix s pre = true.
Proof.
  rewrite HasPrefix_spec. split.
  - intros [k Hk]. exists (of_bytes k). apply to_bytes_inj.
    by rewrite to_bytes_app, to_of_bytes.
  - intros [r ->]. rewrite to_bytes_app. by eexists.
Qed.

(** The loop stops at the least index where [sub] occurs. *)
Lemma indexOf_loop_spec fuel s sub i :
  length s < i + fuel →
  let r := indexOf_loop fuel s sub i in
  (r = (-1)%Z ∧ ∀ j, i ≤ j → ¬ (sub `prefix_of` drop j s ∧ j ≤ length s)) ∨
  (∃ k, r = Z.of_nat k ∧ i ≤ k ≤ length s ∧ sub `prefix_of` drop k s ∧
        ∀ j, i ≤ j < k → ¬ sub `prefix_of` drop j s).
Proof.
  revert i. induction fuel as [|fuel IH]; intros i Hf; simpl.
  { left. split; [done|]. intros j Hj [_ Hl]. lia. }
  destruct (Nat.leb_spec (i + length sub) (length s)) as [Hle|Hgt].
  - case_bool_decide as Heq; unfold slice in Heq;
      replace (i + length sub - i) with (length sub) in Heq by lia;
      rewrite take_prefix_eq in Heq.
    + right. exists i. split; [done|]. split; [lia|]. split; [done|]. intros; lia.
    + destruct (IH (S i)) as [[-> Hn]|(k & -> & Hk & Hp & Hn)]; [lia| |].
      * left. split; [done|]. intros j Hj. destruct (decide (j = i)) as [->|]; [tauto|].
        apply Hn. lia.
      * right. exists k. split; [done|]. split; [lia|]. split; [done|].
        intros j Hj. destruct (decide (j = i)) as [->|]; [done|]. apply Hn. lia.
  - left. split; [done|]. intros j Hj [Hp Hl].
    apply prefix_length in Hp. rewrite length_drop in Hp. lia.
Qed.

Lemma Contains_drop s sub :
  Contains s sub = true ↔ ∃ k, k ≤ length (to_bytes s) ∧ to_bytes sub `prefix_of` drop k (to_bytes s).
Proof.
  rewrite Contains_spec. split.
  - intros (p & q & ->). exists (length (to_bytes p)).
    rewrite !to_bytes_app, length_app, drop_app_length. split; [lia|by eexists].
  - intros (k & Hk & [r Hr]). exists (of_bytes (take k (to_bytes s))), (of_bytes r).
    apply to_bytes_inj. rewrite !to_bytes_app, !to_of_bytes, <-Hr. by rewrite take_drop.
Qed.

Lemma hasPrefix_HasPrefix s pre : hasPrefix s pre = HasPrefix s pre.
Proof.
  apply eq_true_iff_eq. rewrite <-to_bytes_prefix. unfold hasPrefix.
  rewrite andb_true_iff, Nat.leb_le, slice_0, bool_decide_eq_true, take_prefix_eq.
  split; [tauto|]. intros H. split; [|done]. by apply prefix_length.
Qed.

Lemma containsStr_Contains s sub : containsStr s sub = Contains s sub.
Proof.
  apply eq_true_iff_eq. rewrite Contains_drop. unfold containsStr, indexOf.
  rewrite orb_true_iff, andb_true_iff, Nat.eqb_eq, Nat.leb_le, Z.leb_le.
  destruct (indexOf_loop_spec (S (length (to_bytes s))) (to_bytes s) (to_bytes sub) 0)
    as [[E Hn]|(k & E & Hk & Hp & _)]; [lia| |]; rewrite E.
  - split; [|intros (k & Hk & Hp); by destruct (Hn k); [lia|]].
    intros [H0|[_ H]]; [|lia]. exists 0. split; [lia|].
    destruct (to_bytes sub); [apply prefix_nil|done].
  - split; [intros _; exists k; split; [lia|done]|]. intros _. right. split; [|lia].
    apply prefix_length in Hp. rewrite length_drop in Hp. lia.
Qed.

Lemma messagesWireTerminal_body data :
  messagesWireTerminal data = messages_body_terminal data.
Proof.
  unfold messagesWireTerminal, messages_body_terminal.
  destruct (to_arr data) as [[|x l]|]; try done.
  destruct (asMap x); [|done]. by rewrite containsStr_Contains.
Qed.

(** * The priority *)

Lemma priority_shallow : shallow priority_body.
Proof.
  intros r1 r2 m H. unfold priority_body. destruct m as [m|]; [|done].
  repeat case_match; try done. apply H. by eapply asMap_path.
Qed.

Lemma InboundFrameDropPriority_unfold event :
  InboundFrameDropPriority event = priority_body InboundFrameDropPriority event.
Proof. apply nfix_unfold, priority_shallow. Qed.

Definition is_priority (p : Z) : Prop :=
  p = DropPriorityCritical ∨ p = DropPriorityHigh ∨ p = DropPriorityNormal.

Lemma priority_tail_range event t : is_priority (priority_tail event t).
Proof.
  unfold priority_tail, is_priority.
  repeat case_match; simplify_eq; tauto.
Qed.

Lemma InboundFrameDropPriority_range event : is_priority (InboundFrameDropPriority event).
Proof.
  induction event as [event IH] using depth_ind.
  rewrite InboundFrameDropPriority_unfold. unfold priority_body.
  destruct event as [m|]; [|by left].
  repeat case_match; try apply priority_tail_range; try (unfold is_priority; tauto).
  apply IH. by eapply asMap_path.
Qed.

#[export] Hint Resolve InboundFrameDropPriority_range : go.

(** Acknowledged event shapes are critical once their type says [event]. *)
Lemma event_shape_critical event :
  inboundNeedsAckFromEventShape event = true →
  priority_tail event "event" = DropPriorityCritical.
Proof.
  unfold inboundNeedsAckFromEventShape, priority_tail. simpl.
  destruct (sget event "mode" =s "custom") eqn:Ec; simpl.
  - destruct (IsTurnEndCustomData _); [done|]. bool_to_prop. by rewrite Ec.
  - rewrite messagesWireTerminal_body. destruct (_ =s "messages"); [|done].
    by intros ->.
Qed.

(** ** Properties *)

Lemma InboundFrameDropPriority_event event :
  sget event "type" = "event" → InboundFrameDropPriority event = priority_tail event "event".
Proof.
  intros H. rewrite InboundFrameDropPriority_unfold. destruct event as [m|]; [|done].
  unfold priority_body. by rewrite H.
Qed.

(** The type the event inside a [next] envelope declares. *)
Definition next_inner_type (event : gomap) : string :=
  sget (asMap (mget (asMap (mget event "payload")) "data")) "type".

(** A frame the daemon waits for an acknowledgement of is never a drop candidate,
    provided the event inside a [next] envelope says it is one. *)
Theorem ack_frames_critical (event : gomap)
    (Hack : InboundNeedsDeliveryAck event = true)
    (Hinner : sget event "type" = "next" → next_inner_type event = "event") :
  InboundFrameDropPriority event = DropPriorityCritical.
Proof.
  unfold InboundNeedsDeliveryAck in Hack. destruct event as [m|] eqn:Em; [|done].
  rewrite <-Em in *. destruct (sget event "type" =s "complete") eqn:E1; bool_to_prop.
  { rewrite InboundFrameDropPriority_unfold. unfold priority_body. by rewrite E1, Em. }
  destruct (sget event "type" =s "next") eqn:E2; bool_to_prop.
  - specialize (Hinner E2). unfold next_inner_type in Hinner.
    destruct (asMap (mget event "payload")) as [p|] eqn:Ep; [|done].
    destruct (asMap (mget (Some p) "data")) as [d|] eqn:Ed; [|done].
    destruct (sget (Some p) "mode" =s "event") eqn:Emode; [|done]. bool_to_prop.
    rewrite InboundFrameDropPriority_unfold. unfold priority_body.
    rewrite E2, Ep, Emode, (asMap_Some _ _ Ed). rewrite Em. simpl.
    destruct (_ =s "complete"); [done|].
    rewrite InboundFrameDropPriority_event by done. by apply event_shape_critical.
  - destruct (sget event "type" =s "event") eqn:E3; [|done]. bool_to_prop.
    rewrite InboundFrameDropPriority_event by done. by apply event_shape_critical.
Qed.

Definition ack_frame : gomap :=
  Some (mlit [("type", VStr "next");
    ("payload", obj [("mode", VStr "event");
      ("data", obj [("type", VStr "event"); ("mode", VStr "custom"); ("loop_id", VStr "L1");
        ("data", obj [("type", VStr STREAM_END); ("turn_id", VStr "L1:1")])])])]).

Lemma ack_frames_critical_witness :
  InboundNeedsDeliveryAck ack_frame = true ∧
  InboundFrameDropPriority ack_frame = DropPriorityCritical.
Proof.
  split; [vm_compute; reflexivity|].
  apply ack_frames_critical; [vm_compute; reflexivity|].
  intros _. vm_compute. reflexivity.
Defined.

(** The proviso is needed: the same terminal without a type inside its envelope is
    acknowledged to the daemon, and yet is an ordinary drop candidate. *)
Definition untyped_ack_frame : gomap :=
  Some (mlit [("type", VStr "next");
    ("payload", obj [("mode", VStr "event");
      ("data", obj [("mode", VStr "custom"); ("loop_id", VStr "L1");
        ("data", obj [("type", VStr STREAM_END)])])])]).

Lemma untyped_ack_frame_droppable :
  InboundNeedsDeliveryAck untyped_ack_frame = true ∧
  InboundFrameDropPriority untyped_ack_frame = DropPriorityNormal.
Proof. split; vm_compute; reflexivity. Qed.

(** A status carried in the payload of a [next] envelope, without a [data] map, is
    judged by the envelope's own state, which it has not. *)
Lemma status_payload_droppable state :
  InboundFrameDropPriority
    (Some (mlit [("type", VStr "next");
       ("payload", obj [("type", VStr "status"); ("state", VStr state)])])) =
  DropPriorityNormal.
Proof.
  rewrite InboundFrameDropPriority_unfold. reflexivity.
Qed.

(** The hand-written byte searches agree with the standard library's [strings]
    functions the acknowledgement side uses on the same messages. *)
Theorem string_search_correct (s sub : string) :
  hasPrefix s sub = HasPrefix s sub ∧ containsStr s sub = Contains s sub ∧
  (indexOf s sub = (-1)%Z ∧ Contains s sub = false ∨
   ∃ k, indexOf s sub = Z.of_nat k ∧
     to_bytes sub `prefix_of` drop k (to_bytes s) ∧
     ∀ j, j < k → ¬ to_bytes sub `prefix_of` drop j (to_bytes s)).
Proof.
  split; [apply hasPrefix_HasPrefix|]. split; [apply containsStr_Contains|].
  unfold indexOf.
  destruct (indexOf_loop_spec (S (length (to_bytes s))) (to_bytes s) (to_bytes sub) 0)
    as [[E Hn]|(k & E & Hk & Hp & Hn)]; [lia| |]; rewrite E.
  - left. split; [done|]. apply not_true_iff_false. intros (k & Hk & Hp)%Contains_drop.
    apply (Hn k); [lia|done].
  - right. exists k. split; [done|]. split; [done|]. intros j Hj. apply Hn. lia.
Qed.
