(* ===== verification/Pending.v ===== *)
(** The pending-event buffer of the client (client.go): the bounded queue that
    [PushPendingEvent] and [PeelStalePendingControlEvents] fill and [ReadEvent]
    drains, with its priority-aware overflow policy. The queue is written against an
    interface of frames with a drop priority; the instance is the client's. *)

From S2P Require Import Prelude GoStr Value StreamTerminal InboundPriority.

(** * The interface *)

(** Frames with a drop priority in the three classes of the protocol. *)
Class DropPolicy (F : Type) := {
  drop_priority : F → Z;
  drop_priority_range : ∀ f, is_priority (drop_priority f);
}.

#[export] Instance frame_policy : DropPolicy gomap := {|
  drop_priority := InboundFrameDropPriority;
  drop_priority_range := InboundFrameDropPriority_range;
|}.

(** * Definitions *)

(** The fields of [Client] the queue uses; [degraded] logs the calls of the
    stream-degraded hook, and [hooked] tells whether one is registered. *)
Record inbound (F : Type) := Inbound {
  pendingEvents : list F;
  inboundMaxSize : Z;
  inboundDropped : Z;
  hooked : bool;
  degraded : list (Z * string);
}.

Arguments Inbound {F}.
Arguments pendingEvents {F}.
Arguments inboundMaxSize {F}.
Arguments inboundDropped {F}.
Arguments hooked {F}.
Arguments degraded {F}.

Section queue.
Context {F : Type} `{!DropPolicy F}.
Implicit Types (c : inbound F) (ev : F) (q : list F).

Definition new_inbound : inbound F := Inbound [] DefaultInboundMaxSize 0 false [].

Definition set_pending q c : inbound F :=
  Inbound q (inboundMaxSize c) (inboundDropped c) (hooked c) (degraded c).

Definition SetInboundMaxSize (n : Z) c : inbound F :=
  if (0 <? n)%Z
  then Inbound (pendingEvents c) n (inboundDropped c) (hooked c) (degraded c)
  else c.

Definition SetStreamDegradedCallback (set : bool) c : inbound F :=
  Inbound (pendingEvents c) (inboundMaxSize c) (inboundDropped c) set (degraded c).

Definition noteInboundDropLocked c : inbound F :=
  let n := (inboundDropped c + 1)%Z in
  Inbound (pendingEvents c) (inboundMaxSize c) n (hooked c)
    (if hooked c && (n =? 1)%Z
     then degraded c ++ [(1%Z, "inbound_queue_overflow")] else degraded c).

(** The scan for the first frame of the highest priority; [i] is the index of the
    head of [q]. *)
Fixpoint scan_drop q (i dropIdx dropPri : Z) : Z * Z :=
  match q with
  | [] => (dropIdx, dropPri)
  | item :: q =>
      let p := drop_priority item in
      if (dropPri <? p)%Z then scan_drop q (i + 1) i p
      else scan_drop q (i + 1) dropIdx dropPri
  end%Z.

Definition capacity c : Z :=
  if (inboundMaxSize c <=? 0)%Z then DefaultInboundMaxSize else inboundMaxSize c.

Definition enqueuePendingLocked ev c : inbound F :=
  let max := capacity c in
  let q := pendingEvents c in
  if (Z.of_nat (length q) <? max)%Z then set_pending (q ++ [ev]) c
  else
    let '(dropIdx, dropPri) := scan_drop q 0 (-1) (-1) in
    let incomingPri := drop_priority ev in
    if ((0 <=? dropIdx) && (DropPriorityNormal <=? dropPri))%Z then
      let k := Z.to_nat dropIdx in
      noteInboundDropLocked (set_pending ((take k q ++ drop (S k) q) ++ [ev]) c)
    else if (DropPriorityNormal <=? incomingPri)%Z then
      noteInboundDropLocked c
    else
      let c :=
        match q with
        | [] => c
        | _ :: q' => noteInboundDropLocked (set_pending q' c)
        end in
      set_pending (pendingEvents c ++ [ev]) c.

(** The head of the queue, as [ReadEvent] and [ReadEventWithTimeout] take it. *)
Definition pop_pending c : option (F * inbound F) :=
  match pendingEvents c with
  | [] => None
  | ev :: q => Some (ev, set_pending q c)
  end.

(** ** The abstract policy *)

Definition normal ev : Prop := drop_priority ev = DropPriorityNormal.

(** [admits room q ev q' dropped]: what a bounded buffer may do with an incoming
    frame. It appends while there is room; else it gives up its oldest droppable
    frame; else a droppable incoming frame; else its oldest frame. *)
Inductive admits (room : bool) q ev : list F → list F → Prop :=
  | admits_room :
      room = true → admits room q ev (q ++ [ev]) []
  | admits_evict a x b :
      room = false → q = a ++ x :: b → normal x → Forall (λ y, ¬ normal y) a →
      admits room q ev (a ++ b ++ [ev]) [x]
  | admits_refuse :
      room = false → Forall (λ y, ¬ normal y) q → normal ev → admits room q ev q [ev]
  | admits_force x b :
      room = false → q = x :: b → Forall (λ y, ¬ normal y) q → ¬ normal ev →
      admits room q ev (b ++ [ev]) [x].

(** ** The scan *)

Lemma priority_le ev : (0 <= drop_priority ev <= 2)%Z.
Proof.
  destruct (drop_priority_range ev) as [-> | [-> | ->]];
    unfold DropPriorityCritical, DropPriorityHigh, DropPriorityNormal; lia.
Qed.

Lemma normal_iff ev : normal ev ↔ (2 <= drop_priority ev)%Z.
Proof. unfold normal, DropPriorityNormal. pose proof (priority_le ev). lia. Qed.

Lemma scan_drop_settled q i idx : scan_drop q i idx 2 = (idx, 2%Z).
Proof.
  revert i. induction q as [|y q IH]; intros i; simpl; [done|].
  pose proof (priority_le y). destruct (Z.ltb_spec 2 (drop_priority y)); [lia|apply IH].
Qed.

Lemma scan_drop_normal q a x b i idx pri :
  q = a ++ x :: b → normal x → Forall (λ y, ¬ normal y) a → (pri < 2)%Z →
  scan_drop q i idx pri = ((i + Z.of_nat (length a))%Z, 2%Z).
Proof.
  intros -> Hx Ha. revert i idx pri. induction Ha as [|y a Hy Ha IH]; intros i idx pri Hp; simpl.
  - rewrite Hx. unfold DropPriorityNormal.
    destruct (Z.ltb_spec pri 2); [|lia]. rewrite scan_drop_settled. f_equal. lia.
  - rewrite normal_iff in Hy. case_match; rewrite IH by lia; f_equal; lia.
Qed.

Lemma scan_drop_none q i idx pri :
  Forall (λ y, ¬ normal y) q → (pri < 2)%Z → ((scan_drop q i idx pri).2 < 2)%Z.
Proof.
  intros Hq. revert i idx pri. induction Hq as [|y q Hy Hq IH]; intros i idx pri Hp; simpl.
  - done.
  - rewrite normal_iff in Hy. case_match; apply IH; lia.
Qed.

Lemma normal_dec q :
  Forall (λ y, ¬ normal y) q ∨ ∃ a x b, q = a ++ x :: b ∧ normal x ∧ Forall (λ y, ¬ normal y) a.
Proof.
  induction q as [|y q IH]; [by left|].
  destruct (decide (drop_priority y = DropPriorityNormal)) as [Hy|Hy].
  - right. exists [], y, q. split; [done|]. split; [done|constructor].
  - destruct IH as [IH|(a & x & b & -> & Hx & Ha)]; [left; by constructor|].
    right. exists (y :: a), x, b. split; [done|]. split; [done|by constructor].
Qed.

(** ** Refinement *)

Definition has_room c : bool := (Z.of_nat (length (pendingEvents c)) <? capacity c)%Z.

Lemma note_pending c : pendingEvents (noteInboundDropLocked c) = pendingEvents c.
Proof. done. Qed.

Lemma capacity_pos c : (0 < capacity c)%Z.
Proof. unfold capacity, DefaultInboundMaxSize. destruct (Z.leb_spec (inboundMaxSize c) 0); lia. Qed.

Lemma enqueue_admits ev c :
  ∃ dropped,
    admits (has_room c) (pendingEvents c) ev (pendingEvents (enqueuePendingLocked ev c)) dropped ∧
    inboundDropped (enqueuePendingLocked ev c) = (inboundDropped c + Z.of_nat (length dropped))%Z ∧
    inboundMaxSize (enqueuePendingLocked ev c) = inboundMaxSize c.
Proof.
  unfold enqueuePendingLocked, has_room.
  destruct (_ <? capacity c)%Z eqn:Hroom.
  { exists []. split; [by constructor|]. split; simpl; [lia|done]. }
  destruct (normal_dec (pendingEvents c)) as [Hq|(a & x & b & Hq & Hx & Ha)].
  - pose proof (scan_drop_none (pendingEvents c) 0 (-1) (-1) Hq) as Hs.
    destruct (scan_drop _ 0 (-1) (-1)) as [idx pri]. simpl in Hs.
    assert ((DropPriorityNormal <=? pri)%Z = false) as ->
      by (apply Z.leb_gt; unfold DropPriorityNormal; lia).
    rewrite andb_false_r.
    destruct (Z.leb_spec DropPriorityNormal (drop_priority ev)) as [Hi|Hi].
    + exists [ev]. split; [|done]. apply admits_refuse; [done..|]. by apply normal_iff.
    + destruct (pendingEvents c) as [|x b] eqn:Hc.
      { pose proof (capacity_pos c). simpl in Hroom. apply Z.ltb_ge in Hroom. lia. }
      exists [x]. split; [|done]. apply (admits_force _ _ _ x b); [done..|].
      rewrite normal_iff. unfold DropPriorityNormal in Hi. lia.
  - rewrite (scan_drop_normal _ a x b) by (done || lia).
    assert (((0 <=? 0 + Z.of_nat (length a)) && (DropPriorityNormal <=? 2))%Z = true) as ->
      by (unfold DropPriorityNormal; bool_to_prop; apply Z.leb_le; lia).
    rewrite Z.add_0_l, Nat2Z.id. exists [x]. split; [|done].
    rewrite note_pending, Hq. simpl. rewrite take_app_length.
    replace (drop (S (length a)) (a ++ x :: b)) with b.
    + rewrite <-app_assoc. by apply (admits_evict _ _ _ a x b).
    + rewrite (cons_middle x a b), app_assoc, drop_app_length'; [done|].
      rewrite length_app. simpl. lia.
Qed.

Lemma admits_conserves room q ev q' dropped :
  admits room q ev q' dropped →
  q ++ [ev] ≡ₚ q' ++ dropped ∧ q' `sublist_of` q ++ [ev] ∧ length dropped ≤ 1.
Proof.
  destruct 1 as [Hr|a x b Hr -> Hx Ha|Hr Hq Hev|x b Hr -> Hq Hev]; simpl.
  - rewrite app_nil_r. split; [done|]. split; [done|lia].
  - split.
    + transitivity (x :: a ++ b ++ [ev]).
      * rewrite <-app_assoc. symmetry. apply Permutation_middle.
      * apply Permutation_cons_append.
    + split; [|lia]. rewrite <-app_assoc. simpl. apply sublist_app; [done|].
      apply sublist_cons. done.
  - split; [done|]. split; [by apply sublist_inserts_r|lia].
  - split; [apply (Permutation_cons_append (b ++ [ev]))|]. split; [by apply sublist_cons|lia].
Qed.

Lemma admits_length room q ev q' dropped :
  admits room q ev q' dropped →
  length q' = if room then S (length q) else length q.
Proof.
  destruct 1 as [->|a x b -> -> Hx Ha| -> Hq Hev|x b -> -> Hq Hev];
    rewrite ?length_app; simpl; rewrite ?length_app; simpl; lia.
Qed.

Lemma admits_keeps room q ev q' dropped y :
  admits room q ev q' dropped → y ∈ dropped → ¬ normal y →
  Forall (λ z, ¬ normal z) (q ++ [ev]) ∧ head q = Some y.
Proof.
  destruct 1 as [->|a x b -> -> Hx Ha| -> Hq Hev|x b -> -> Hq Hev].
  - intros Hy. by apply not_elem_of_nil in Hy.
  - intros ->%list_elem_of_singleton. done.
  - intros ->%list_elem_of_singleton. done.
  - intros ->%list_elem_of_singleton _. split; [|done].
    apply Forall_app. split; [done|by constructor].
Qed.
End queue.

#[export] Hint Resolve priority_le : go.

(** * Runs *)

(** The operations of the client on its queue, in the order their critical sections
    run. *)
Inductive queue_op (F : Type) :=
  | OpPush (ev : F)
  | OpPop
  | OpResize (n : Z)
  | OpHook (set : bool).

Arguments OpPush {F}.
Arguments OpPop {F}.
Arguments OpResize {F}.
Arguments OpHook {F}.

Section runs.
Context {F : Type} `{!DropPolicy F}.
Implicit Types (c : inbound F) (ops : list (queue_op F)).

(** The frames read, and the queue after the operations. *)
Fixpoint run ops c : list F * inbound F :=
  match ops with
  | [] => ([], c)
  | op :: ops =>
      match op with
      | OpPush ev => run ops (enqueuePendingLocked ev c)
      | OpPop =>
          match pop_pending c with
          | None => run ops c
          | Some (ev, c) => let '(read, c) := run ops c in (ev :: read, c)
          end
      | OpResize n => run ops (SetInboundMaxSize n c)
      | OpHook set => run ops (SetStreamDegradedCallback set c)
      end
  end.

Definition pushed ops : list F := omap (λ op, if op is OpPush ev then Some ev else None) ops.

(** The counter is the number of drops, and the hook has run at most once. *)
Definition counted c : Prop :=
  (0 <= inboundDropped c)%Z ∧ length (degraded c) ≤ 1 ∧
  (inboundDropped c = 0%Z → degraded c = []).

Lemma note_counted c : counted c → counted (noteInboundDropLocked c).
Proof.
  intros (H0 & H1 & H2). unfold counted, noteInboundDropLocked. simpl.
  split; [lia|]. split; [|lia].
  destruct (hooked c); simpl; [|done]. destruct (Z.eqb_spec (inboundDropped c + 1) 1); [|done].
  rewrite H2 by lia. simpl. lia.
Qed.

Lemma enqueue_counted ev c : counted c → counted (enqueuePendingLocked ev c).
Proof.
  intros Hc. unfold enqueuePendingLocked. destruct (_ <? _)%Z; [exact Hc|].
  destruct (scan_drop _ _ _ _) as [idx pri].
  destruct (_ && _); [by apply (note_counted (set_pending _ c))|].
  destruct (_ <=? _)%Z; [by apply note_counted|].
  destruct (pendingEvents c); [exact Hc|]. by apply (note_counted (set_pending _ c)).
Qed.

Lemma run_accounting_from ops c :
  counted c →
  ∃ dropped,
    pushed ops ++ pendingEvents c ≡ₚ (run ops c).1 ++ pendingEvents (run ops c).2 ++ dropped ∧
    inboundDropped (run ops c).2 = (inboundDropped c + Z.of_nat (length dropped))%Z ∧
    counted (run ops c).2.
Proof.
  revert c. induction ops as [|op ops IH]; intros c Hc.
  { exists []. simpl. rewrite app_nil_r. split; [done|]. split; [lia|done]. }
  destruct op as [ev| |n|set]; simpl.
  - destruct (enqueue_admits ev c) as (d1 & Ha & Hd & _).
    destruct (IH (enqueuePendingLocked ev c)) as (d2 & Hp & Hd2 & Hc2);
      [by apply enqueue_counted|].
    exists (d2 ++ d1). split; [|split; [rewrite length_app; lia|done]].
    apply admits_conserves in Ha as (Ha & _).
    rewrite !app_assoc. rewrite app_assoc in Hp. rewrite <-Hp.
    rewrite <-app_assoc, <-Ha. by rewrite Permutation_cons_append, <-app_assoc.
  - unfold pop_pending. destruct (pendingEvents c) as [|ev q] eqn:Eq.
    + destruct (IH c Hc) as (d & Hp & ?). rewrite Eq in Hp. by exists d.
    + destruct (IH (set_pending q c)) as (d & Hp & Hd & Hc'); [done|].
      destruct (run ops (set_pending q c)) as [read c']. simpl in *.
      exists d. split; [|done]. by rewrite <-Permutation_middle, Hp.
  - assert (counted (SetInboundMaxSize n c)) as Hc'.
    { unfold SetInboundMaxSize. by destruct (0 <? n)%Z. }
    destruct (IH _ Hc') as (d & Hp & Hd & ?). exists d.
    unfold SetInboundMaxSize in *. by destruct (0 <? n)%Z.
  - by apply (IH (SetStreamDegradedCallback set c)).
Qed.

Definition resizes_below (B : Z) ops : Prop :=
  Forall (λ op, if op is OpResize n then (n <= B)%Z else True) ops.

Lemma run_bounded_from B ops c :
  (DefaultInboundMaxSize <= B)%Z → (inboundMaxSize c <= B)%Z → resizes_below B ops →
  (Z.of_nat (length (pendingEvents c)) <= B)%Z →
  (Z.of_nat (length (pendingEvents (run ops c).2)) <= B)%Z.
Proof.
  intros HB Hm Hops. revert c Hm. induction Hops as [|op ops Hop Hops IH]; intros c Hm Hl; [done|].
  destruct op as [ev| |n|set]; simpl.
  - destruct (enqueue_admits ev c) as (d & Ha & _ & Hmax).
    apply IH; [by rewrite Hmax|]. apply admits_length in Ha. rewrite Ha.
    unfold has_room. destruct (Z.ltb_spec (Z.of_nat (length (pendingEvents c))) (capacity c));
      [|done]. unfold capacity in *. destruct (inboundMaxSize c <=? 0)%Z; lia.
  - unfold pop_pending. destruct (pendingEvents c) as [|ev q] eqn:Eq; [apply IH; [done|by rewrite Eq]|].
    specialize (IH (set_pending q c) Hm). simpl in *.
    destruct (run ops (set_pending q c)) as [read c']. apply IH. lia.
  - unfold SetInboundMaxSize. destruct (Z.ltb_spec 0 n); apply IH; done.
  - by apply IH.
Qed.
End runs.

(** ** Properties *)

(** C1. A push does what the abstract bounded buffer allows and counts what it dropped:
    it loses at most one frame, keeps the arrival order of the rest, and gives up a
    frame that is not droppable only when nothing it holds is, and then the oldest. *)
Theorem enqueue_refines (c : inbound gomap) (ev : gomap) :
  let c' := enqueuePendingLocked ev c in
  ∃ dropped,
    admits (has_room c) (pendingEvents c) ev (pendingEvents c') dropped ∧
    inboundDropped c' = (inboundDropped c + Z.of_nat (length dropped))%Z ∧
    pendingEvents c' `sublist_of` pendingEvents c ++ [ev] ∧
    pendingEvents c ++ [ev] ≡ₚ pendingEvents c' ++ dropped ∧
    (∀ y, y ∈ dropped → ¬ normal y →
       Forall (λ z, ¬ normal z) (pendingEvents c ++ [ev]) ∧ head (pendingEvents c) = Some y).
Proof.
  destruct (enqueue_admits ev c) as (d & Ha & Hd & _). exists d.
  destruct (admits_conserves _ _ _ _ _ Ha) as (Hp & Hs & _).
  repeat (split; [done|]). intros y. by apply (admits_keeps _ _ _ _ _ _ Ha).
Qed.

(** Over any sequence of pushes, reads, resizes and hook registrations, every frame
    pushed was read, is still pending, or was counted as dropped, once each; the
    degraded hook ran at most once; and the buffer never outgrows the largest
    capacity it was given. *)
Theorem queue_run_accounting (ops : list (queue_op gomap)) (B : Z)
    (HB : (DefaultInboundMaxSize <= B)%Z) (Hops : resizes_below B ops) :
  let '(read, c) := run ops new_inbound in
  (∃ dropped,
    pushed ops ≡ₚ read ++ pendingEvents c ++ dropped ∧
    inboundDropped c = Z.of_nat (length dropped)) ∧
  length (degraded c) ≤ 1 ∧
  (Z.of_nat (length (pendingEvents c)) <= B)%Z.
Proof.
  pose proof (run_accounting_from ops new_inbound) as (d & Hp & Hd & Hc).
  { unfold counted. simpl. split; [lia|]. split; [lia|done]. }
  pose proof (run_bounded_from B ops new_inbound HB HB Hops) as Hb.
  destruct (run ops new_inbound) as [read c]. simpl in *.
  rewrite app_nil_r in Hp. split; [exists d; split; [done|lia]|]. split; [apply Hc|].
  apply Hb. unfold DefaultInboundMaxSize in HB. lia.
Qed.

Definition chunk (n : Z) : gomap :=
  Some (mlit [("type", VStr "event"); ("mode", VStr "updates"); ("seq", VInt n)]).
Definition error_frame : gomap := Some (mlit [("type", VStr "error")]).
Definition batch_frame : gomap := Some (mlit [("type", VStr "tool_call_updates_batch")]).

Lemma queue_run_accounting_witness :
  (let '(read, c) := run [OpResize 1; OpPush (chunk 1); OpPush (chunk 2); OpPop] new_inbound in
   (∃ dropped, [chunk 1; chunk 2] ≡ₚ read ++ pendingEvents c ++ dropped ∧
      inboundDropped c = Z.of_nat (length dropped)) ∧
   length (degraded c) ≤ 1 ∧ (Z.of_nat (length (pendingEvents c)) <= 20000)%Z).
Proof.
  apply (queue_run_accounting [OpResize 1; OpPush (chunk 1); OpPush (chunk 2); OpPop] 20000).
  - vm_compute. discriminate.
  - repeat constructor. simpl. lia.
Defined.

(** A full buffer of frames that must not be dropped gives one up all the same, even
    for an incoming frame of a lesser class, and counts it. *)
Theorem critical_frame_evicted :
  let c := enqueuePendingLocked error_frame (SetInboundMaxSize 1 new_inbound) in
  let c' := enqueuePendingLocked batch_frame c in
  InboundFrameDropPriority error_frame = DropPriorityCritical ∧
  InboundFrameDropPriority batch_frame = DropPriorityHigh ∧
  pendingEvents c = [error_frame] ∧ pendingEvents c' = [batch_frame] ∧
  inboundDropped c' = 1%Z.
Proof. vm_compute. repeat split. Qed.
