(* ===== verification/DeliveryAck.v ===== *)
(** Delivery acknowledgements (client.go): the per-loop counters of terminal frames
    received and acknowledged, and the goroutines that send [delivery_ack]. The reader
    and the goroutines interleave at their critical sections; between committing a
    sequence number and writing it to the socket a goroutine holds no lock. *)

From S2P Require Import Prelude GoStr Value StreamTerminal.

(** * Definitions *)

(** A goroutine of [sendDeliveryAck(loopID, seq)] is [spawned] until it has taken the
    lock, then [committed] until its notification is on the [wire]. *)
Record acks := Acks {
  deliveryRecvSeq : gmap string Z;
  deliveryAckedSeq : gmap string Z;
  spawned : list (string * Z);
  committed : list (string * Z);
  wire : list (string * Z);
}.

Definition new_acks : acks := Acks ∅ ∅ [] [] [].

(** [m[loopID]] of a [map[string]int]. *)
Definition seq_of (m : gmap string Z) (l : string) : Z := default 0%Z (m !! l).

(** The counting of one terminal frame of [loopID]. *)
Definition bump (loopID : string) (st : acks) : acks :=
  let seq := (seq_of (deliveryRecvSeq st) loopID + 1)%Z in
  let recv := <[loopID := seq]> (deliveryRecvSeq st) in
  let acked := seq_of (deliveryAckedSeq st) loopID in
  if (seq <=? acked)%Z
  then Acks recv (deliveryAckedSeq st) (spawned st) (committed st) (wire st)
  else Acks recv (deliveryAckedSeq st) (spawned st ++ [(loopID, seq)]) (committed st) (wire st).

Definition track_body (rec : gomap → acks → acks) (event : gomap) (st : acks) : acks :=
  match event with
  | None => st
  | Some _ =>
      if sget event "type" =s "event_batch" then
        match to_arr (mget event "events") with
        | Some sub =>
            foldl (λ st item, match to_map item with Some m => rec m st | None => st end) st sub
        | None => st
        end
      else if negb (InboundNeedsDeliveryAck event) then st
      else
        let loopID := ExtractLoopIDFromInbound event in
        if loopID =s "" then st else bump loopID st
  end.

Definition trackInboundDeliveryAck : gomap → acks → acks := nfix (λ st, st) track_body.

(** The critical section of [sendDeliveryAck]: the goroutine to run next, or [None]
    when it returns early. *)
Definition sendDeliveryAck_lock (loopID : string) (seq : Z) (st : acks) : acks :=
  if (seq <=? seq_of (deliveryAckedSeq st) loopID)%Z then st
  else Acks (deliveryRecvSeq st) (<[loopID := seq]> (deliveryAckedSeq st))
            (spawned st) (committed st ++ [(loopID, seq)]) (wire st).

Definition set_spawned (l : list (string * Z)) (st : acks) : acks :=
  Acks (deliveryRecvSeq st) (deliveryAckedSeq st) l (committed st) (wire st).

(** The steps of the system: the reader counts a frame, a spawned goroutine runs its
    critical section, a committed one writes its notification. *)
Inductive ack_step : acks → acks → Prop :=
  | step_track event st : ack_step st (trackInboundDeliveryAck event st)
  | step_lock st a b loopID seq :
      spawned st = a ++ (loopID, seq) :: b →
      ack_step st (sendDeliveryAck_lock loopID seq (set_spawned (a ++ b) st))
  | step_notify st a b loopID seq :
      committed st = a ++ (loopID, seq) :: b →
      ack_step st (Acks (deliveryRecvSeq st) (deliveryAckedSeq st) (spawned st)
                        (a ++ b) (wire st ++ [(loopID, seq)])).

(** The goroutine steps alone. *)
Inductive go_step : acks → acks → Prop :=
  | go_lock st a b loopID seq :
      spawned st = a ++ (loopID, seq) :: b →
      go_step st (sendDeliveryAck_lock loopID seq (set_spawned (a ++ b) st))
  | go_notify st a b loopID seq :
      committed st = a ++ (loopID, seq) :: b →
      go_step st (Acks (deliveryRecvSeq st) (deliveryAckedSeq st) (spawned st)
                       (a ++ b) (wire st ++ [(loopID, seq)])).

(** * Counting *)

(** The loops a frame counts for, batches flattened. *)
Definition ack_loops_body (rec : gomap → list string) (event : gomap) : list string :=
  match event with
  | None => []
  | Some _ =>
      if sget event "type" =s "event_batch" then
        match to_arr (mget event "events") with
        | Some sub => concat ((λ item, from_option rec [] (to_map item)) <$> sub)
        | None => []
        end
      else if InboundNeedsDeliveryAck event then
        let loopID := ExtractLoopIDFromInbound event in
        if loopID =s "" then [] else [loopID]
      else []
  end.

Definition ack_loops : gomap → list string := nfix [] ack_loops_body.

Lemma vdepth_events event sub item m :
  to_arr (mget event "events") = Some sub → item ∈ sub → to_map item = Some m →
  vdepth (VMap m) < vdepth (VMap event).
Proof.
  intros Hs Hi ->%to_map_Some. destruct (mget event "events") eqn:E; simplify_eq/=.
  pose proof (vdepth_mget _ _ _ E ltac:(done)).
  pose proof (vdepth_elem _ _ Hi). simpl in *. lia.
Qed.

Lemma foldl_ext_elem {A B} (f g : A → B → A) (l : list B) a :
  (∀ a b, b ∈ l → f a b = g a b) → foldl f a l = foldl g a l.
Proof.
  revert a. induction l as [|b l IH]; intros a H; [done|]. simpl.
  rewrite H by set_solver. apply IH. set_solver.
Qed.

Lemma track_shallow : shallow_for track_body (pointwise_relation acks eq).
Proof.
  intros r1 r2 m H st. unfold track_body.
  destruct m as [m|]; [|done]. destruct (_ =s "event_batch"); [|done].
  destruct (to_arr _) as [sub|] eqn:E; [|done]. apply foldl_ext_elem.
  intros a item Hi. destruct (to_map item) as [m'|] eqn:Em; [|done].
  apply H. by eapply vdepth_events.
Qed.

Lemma track_unfold event st :
  trackInboundDeliveryAck event st = track_body trackInboundDeliveryAck event st.
Proof. apply (nfix_unfold_for _ _ _ track_shallow). Qed.

Lemma ack_loops_shallow : shallow ack_loops_body.
Proof.
  intros r1 r2 m H. unfold ack_loops_body.
  destruct m as [m|]; [|done]. destruct (_ =s "event_batch"); [|done].
  destruct (to_arr _) as [sub|] eqn:E; [|done]. f_equal.
  apply list_fmap_ext. intros i item Hi%list_elem_of_lookup_2.
  destruct (to_map item) as [m'|] eqn:Em; [|done]. simpl. apply H. by eapply vdepth_events.
Qed.

Lemma ack_loops_unfold event : ack_loops event = ack_loops_body ack_loops event.
Proof. apply nfix_unfold, ack_loops_shallow. Qed.

(** Tracking a frame counts each of its terminals once, in order. *)
Lemma track_bumps event st :
  trackInboundDeliveryAck event st = foldl (λ st l, bump l st) st (ack_loops event).
Proof.
  revert st. induction event as [event IH] using depth_ind. intros st.
  rewrite track_unfold, ack_loops_unfold. unfold track_body, ack_loops_body.
  destruct event as [m|]; [|done]. destruct (_ =s "event_batch").
  - destruct (to_arr _) as [sub|] eqn:E; [|done].
    assert (∀ item, item ∈ sub → ∀ st,
      match to_map item with Some m' => trackInboundDeliveryAck m' st | None => st end =
      foldl (λ st l, bump l st) st (from_option ack_loops [] (to_map item))) as Hsub.
    { intros item Hi st'. destruct (to_map item) as [m'|] eqn:Em; [|done].
      apply IH. by eapply vdepth_events. }
    clear E IH. revert st. induction sub as [|item sub IHs]; intros st; [done|]. simpl.
    rewrite foldl_app, <-Hsub by set_solver. apply IHs. intros. apply Hsub. set_solver.
  - destruct (InboundNeedsDeliveryAck _); [|done]. simpl. by destruct (_ =s "").
Qed.

(** * The invariant *)

Definition tasks (st : acks) : list (string * Z) := spawned st ++ committed st ++ wire st.

Record ack_inv (st : acks) : Prop := {
  inv_le l : (0 <= seq_of (deliveryAckedSeq st) l <= seq_of (deliveryRecvSeq st) l)%Z;
  inv_bounds l s : (l, s) ∈ tasks st → (1 <= s <= seq_of (deliveryRecvSeq st) l)%Z;
  inv_nodup : NoDup (tasks st);
  inv_committed l s :
    (l, s) ∈ committed st ++ wire st → (s <= seq_of (deliveryAckedSeq st) l)%Z;
  inv_latest l :
    (0 < seq_of (deliveryAckedSeq st) l)%Z →
    (l, seq_of (deliveryAckedSeq st) l) ∈ committed st ++ wire st;
  inv_pending l :
    (seq_of (deliveryAckedSeq st) l < seq_of (deliveryRecvSeq st) l)%Z →
    (l, seq_of (deliveryRecvSeq st) l) ∈ spawned st;
}.

Lemma seq_of_insert m l s l' : seq_of (<[l := s]> m) l' = if decide (l = l') then s else seq_of m l'.
Proof. unfold seq_of. rewrite lookup_insert. by case_decide. Qed.

Lemma ack_inv_new : ack_inv new_acks.
Proof.
  assert (∀ l, seq_of ∅ l = 0%Z) as Hz by done.
  split; unfold tasks; simpl; try (intros; rewrite ?Hz in *; lia); [|constructor|];
    by intros l s ?%not_elem_of_nil.
Qed.

Lemma bump_inv l st : ack_inv st → ack_inv (bump l st).
Proof.
  intros [Hle Hb Hnd Hc Hl Hp]. unfold bump.
  pose proof (Hle l) as Hl0. destruct (Z.leb_spec
    (seq_of (deliveryRecvSeq st) l + 1) (seq_of (deliveryAckedSeq st) l)); [lia|].
  set (n := (seq_of (deliveryRecvSeq st) l + 1)%Z) in *.
  assert (Ht : ∀ x, x ∈ (spawned st ++ [(l, n)]) ++ committed st ++ wire st ↔
               x ∈ tasks st ∨ x = (l, n)) by (unfold tasks; set_solver).
  split; unfold tasks; simpl.
  - intros l'. rewrite seq_of_insert. specialize (Hle l'). case_decide; subst; lia.
  - intros l' s Hin. rewrite seq_of_insert. apply Ht in Hin as [Hin|[= -> ->]].
    + specialize (Hb _ _ Hin). case_decide; subst; lia.
    + rewrite decide_True by done. lia.
  - rewrite <-app_assoc. simpl. rewrite <-Permutation_middle. apply NoDup_cons. split; [|exact Hnd].
    intros Hin%Hb. lia.
  - exact Hc.
  - exact Hl.
  - intros l'. rewrite seq_of_insert. case_decide as E; [subst; set_solver|].
    intros H'. apply Hp in H'. set_solver.
Qed.

Lemma track_inv event st : ack_inv st → ack_inv (trackInboundDeliveryAck event st).
Proof.
  rewrite track_bumps. revert st. induction (ack_loops event) as [|l ls IH]; intros st H; [done|].
  simpl. by apply IH, bump_inv.
Qed.

Lemma tasks_remove {A} (a b c : list A) x : NoDup ((a ++ x :: b) ++ c) → NoDup ((a ++ b) ++ c).
Proof. rewrite <-!app_assoc. simpl. rewrite <-Permutation_middle. by intros [_ ?]%NoDup_cons. Qed.

Lemma lock_inv st a b l s :
  spawned st = a ++ (l, s) :: b → ack_inv st →
  ack_inv (sendDeliveryAck_lock l s (set_spawned (a ++ b) st)).
Proof.
  intros Hs [Hle Hb Hnd Hc Hl Hp]. unfold sendDeliveryAck_lock. simpl.
  unfold tasks in Hb, Hnd. rewrite Hs in Hb, Hnd, Hp.
  destruct (Z.leb_spec s (seq_of (deliveryAckedSeq st) l)) as [Hd|Hd].
  - split; unfold tasks; simpl; auto.
    + intros l' s' Hin. apply Hb. set_solver.
    + by eapply tasks_remove.
    + intros l' H'. pose proof (Hp l' H') as Hin.
      apply elem_of_app in Hin as [Hin|[E|Hin]%elem_of_cons]; [set_solver| |set_solver].
      injection E as -> E. lia.
  - assert (1 <= s <= seq_of (deliveryRecvSeq st) l)%Z as Hsr by (apply Hb; set_solver).
    split; unfold tasks; simpl.
    + intros l'. rewrite seq_of_insert. specialize (Hle l'). case_decide; subst; lia.
    + intros l' s' Hin. apply Hb. set_solver.
    + rewrite <-(app_assoc (committed st)). simpl. rewrite <-(Permutation_middle (committed st)).
      rewrite <-(Permutation_middle (a ++ b)).
      rewrite <-app_assoc in Hnd. simpl in Hnd. rewrite <-Permutation_middle in Hnd.
      by rewrite <-app_assoc.
    + intros l' s' Hin. rewrite seq_of_insert.
      assert ((l', s') ∈ committed st ++ wire st ∨ (l', s') = (l, s)) as [Hin'|[= -> ->]]
        by set_solver.
      * specialize (Hc _ _ Hin'). case_decide; subst; lia.
      * rewrite decide_True by done. lia.
    + intros l'. rewrite seq_of_insert. case_decide as E; [subst; set_solver|].
      intros H'. apply Hl in H'. set_solver.
    + intros l'. rewrite seq_of_insert. intros H'.
      assert (seq_of (deliveryAckedSeq st) l' < seq_of (deliveryRecvSeq st) l')%Z as H''
        by (case_decide; subst; lia).
      apply Hp in H''. apply elem_of_app in H'' as [Hin|[E|Hin]%elem_of_cons];
        [set_solver| |set_solver].
      injection E as -> E. case_decide; [lia|done].
Qed.

Lemma notify_inv st a b l s :
  committed st = a ++ (l, s) :: b → ack_inv st →
  ack_inv (Acks (deliveryRecvSeq st) (deliveryAckedSeq st) (spawned st) (a ++ b)
                (wire st ++ [(l, s)])).
Proof.
  intros Hs [Hle Hb Hnd Hc Hl Hp]. unfold tasks in *. rewrite Hs in *.
  split; unfold tasks; simpl; auto.
  - intros l' s' Hin. apply Hb. set_solver.
  - eapply NoDup_Permutation_proper; [|exact Hnd]. apply Permutation_app_head.
    rewrite <-!app_assoc. simpl. apply Permutation_app_head.
    rewrite (app_assoc b). symmetry. apply Permutation_cons_append.
  - intros l' s' Hin. apply Hc. set_solver.
  - intros l' H'. specialize (Hl l' H'). set_solver.
Qed.

Lemma ack_step_inv st st' : ack_step st st' → ack_inv st → ack_inv st'.
Proof. destruct 1; eauto using track_inv, lock_inv, notify_inv. Qed.

Lemma reachable_inv st : rtc ack_step new_acks st → ack_inv st.
Proof.
  intros H. cut (ack_inv new_acks → ack_inv st); [intros Hc; apply Hc, ack_inv_new|].
  induction H as [|st1 st2 st3 Hs _ IH]; [done|]. intros Hi. by apply IH, (ack_step_inv st1).
Qed.

(** ** Running the goroutines to the end *)

Definition idle (st : acks) : Prop := spawned st = [] ∧ committed st = [].

(** The critical sections and writes left to run. *)
Definition work (st : acks) : nat := 2 * length (spawned st) + length (committed st).

Lemma go_step_ack st st' : go_step st st' → ack_step st st'.
Proof. destruct 1; by constructor. Qed.

Lemma go_step_work st st' : go_step st st' → work st' < work st.
Proof.
  destruct 1 as [st a b l s Hs|st a b l s Hs]; unfold work, sendDeliveryAck_lock; simpl.
  - destruct (_ <=? _)%Z; simpl; rewrite Hs, ?length_app; simpl; rewrite ?length_app; lia.
  - rewrite Hs, ?length_app; simpl; rewrite ?length_app; lia.
Qed.

Lemma go_step_recv st st' : go_step st st' → deliveryRecvSeq st' = deliveryRecvSeq st.
Proof. destruct 1; unfold sendDeliveryAck_lock; simpl; [by destruct (_ <=? _)%Z|done]. Qed.

Lemma go_step_exists st : ¬ idle st → ∃ st', go_step st st'.
Proof.
  unfold idle. destruct st as [rc ac sp cm wr]. simpl. intros Hn.
  destruct sp as [|[l s] sp].
  - destruct cm as [|[l s] cm]; [tauto|]. eexists. by apply (go_notify _ [] cm l s).
  - eexists. by apply (go_lock _ [] sp l s).
Qed.

Lemma idle_dec st : {idle st} + {¬ idle st}.
Proof.
  unfold idle. destruct (spawned st); [|by right; intros [? _]].
  destruct (committed st); [by left|by right; intros [_ ?]].
Qed.


Lemma go_finish_work n st : work st ≤ n → ∃ st', rtc go_step st st' ∧ idle st'.
Proof.
  revert st. induction n as [|n IH]; intros st Hn; (destruct (idle_dec st) as [Hi|Hi];
    [by exists st|]); destruct (go_step_exists st Hi) as [st1 Hs];
    pose proof (go_step_work _ _ Hs); [lia|].
  destruct (IH st1) as (st' & Hr & Hi'); [lia|]. exists st'. split; [|done].
  by eapply rtc_l.
Qed.

Lemma go_steps_recv st st' : rtc go_step st st' → deliveryRecvSeq st' = deliveryRecvSeq st.
Proof. induction 1 as [|st1 st2 st3 Hs _ IH]; [done|]. by rewrite IH, (go_step_recv _ _ Hs). Qed.

Lemma idle_complete st l :
  ack_inv st → idle st → (0 < seq_of (deliveryRecvSeq st) l)%Z →
  (l, seq_of (deliveryRecvSeq st) l) ∈ wire st.
Proof.
  intros [Hle _ _ _ Hl Hp] [Hs Hc] H. rewrite Hs in Hp. rewrite Hc in Hl. simpl in Hl.
  assert (seq_of (deliveryAckedSeq st) l = seq_of (deliveryRecvSeq st) l) as E.
  { destruct (Z.lt_ge_cases (seq_of (deliveryAckedSeq st) l) (seq_of (deliveryRecvSeq st) l))
      as [Hlt|Hge]; [by apply Hp, not_elem_of_nil in Hlt|]. specialize (Hle l). lia. }
  rewrite <-E. apply Hl. lia.
Qed.

(** ** Properties *)

(** The number of frames of the events that count for loop [l]. *)
Definition ack_count (l : string) (events : list gomap) : nat :=
  length (filter (λ l', l' = l) (concat (ack_loops <$> events))).

Lemma recv_bump l st :
  seq_of (deliveryRecvSeq (bump l st)) l = (seq_of (deliveryRecvSeq st) l + 1)%Z.
Proof. unfold bump. destruct (_ <=? _)%Z; simpl; by rewrite seq_of_insert, decide_True. Qed.

Lemma bumps_count ls st l :
  ack_inv st →
  seq_of (deliveryRecvSeq (foldl (λ st l, bump l st) st ls)) l =
  (seq_of (deliveryRecvSeq st) l + Z.of_nat (length (filter (λ l', l' = l) ls)))%Z.
Proof.
  revert st. induction ls as [|l0 ls IH]; intros st Hi; simpl; [lia|].
  rewrite IH by (by apply bump_inv). rewrite filter_cons.
  assert (seq_of (deliveryRecvSeq (bump l0 st)) l =
          if decide (l0 = l) then (seq_of (deliveryRecvSeq st) l + 1)%Z
          else seq_of (deliveryRecvSeq st) l) as ->.
  { unfold bump. destruct (_ <=? _)%Z; simpl; rewrite seq_of_insert; case_decide; by subst. }
  case_decide; simpl; lia.
Qed.

(** C15. In every interleaving of the reader with the acknowledging goroutines: a sequence
    number is notified at most once, only if that many terminals of its loop were
    received, and never twice; the acknowledged count never passes the received one. *)
Theorem delivery_ack_safe (st : acks) (Hst : rtc ack_step new_acks st) :
  NoDup (wire st) ∧
  (∀ l s, (l, s) ∈ wire st → (1 <= s <= seq_of (deliveryRecvSeq st) l)%Z) ∧
  (∀ l, (0 <= seq_of (deliveryAckedSeq st) l <= seq_of (deliveryRecvSeq st) l)%Z).
Proof.
  destruct (reachable_inv st Hst) as [Hle Hb Hnd _ _ _]. unfold tasks in *.
  split; [|split; [|done]].
  - rewrite !app_assoc in Hnd. by apply NoDup_app in Hnd as (_ & _ & Hnd).
  - intros l s H. apply Hb. set_solver.
Qed.


(** The received count of a loop is the number of its terminals among the frames read,
    batches flattened, whatever the goroutines did in between. *)
Theorem delivery_recv_counts (events : list gomap) (l : string) :
  seq_of (deliveryRecvSeq (foldl (λ st e, trackInboundDeliveryAck e st) new_acks events)) l =
  Z.of_nat (ack_count l events).
Proof.
  unfold ack_count.
  assert (∀ st, foldl (λ st e, trackInboundDeliveryAck e st) st events =
                foldl (λ st l, bump l st) st (concat (ack_loops <$> events))) as ->.
  { induction events as [|e events IH]; intros st; [done|]. simpl.
    by rewrite IH, track_bumps, foldl_app. }
  rewrite bumps_count by apply ack_inv_new. done.
Qed.

(** The notifications may reach the daemon out of order: the lock is released between
    committing a number and writing it. *)
Theorem delivery_ack_reordered :
  ∃ st, rtc ack_step new_acks st ∧ wire st = [("L1", 2%Z); ("L1", 1%Z)].
Proof.
  set (e := Some (mlit [("type", VStr "complete"); ("loop_id", VStr "L1")]) : gomap).
  eexists. split.
  - eapply rtc_l; [apply (step_track e)|]. eapply rtc_l; [apply (step_track e)|].
    eapply rtc_l; [by apply (step_lock _ [] [("L1", 2%Z)] "L1" 1%Z)|].
    eapply rtc_l; [by apply (step_lock _ [] [] "L1" 2%Z)|].
    eapply rtc_l; [by apply (step_notify _ [("L1", 1%Z)] [] "L1" 2%Z)|].
    eapply rtc_l; [by apply (step_notify _ [] [] "L1" 1%Z)|]. done.
  - done.
Qed.

Definition done_frame : gomap :=
  Some (mlit [("type", VStr "complete"); ("loop_id", VStr "L1")]).

(** One terminal counted, its goroutine through the lock and on the wire. *)
Definition acked_once : acks :=
  Acks {["L1" := 1%Z]} {["L1" := 1%Z]} [] [] [("L1", 1%Z)].

Lemma acked_once_reachable : rtc ack_step new_acks acked_once.
Proof.
  eapply rtc_l; [apply (step_track done_frame)|].
  eapply rtc_l; [by apply (step_lock _ [] [] "L1" 1%Z)|].
  eapply rtc_l; [by apply (step_notify _ [] [] "L1" 1%Z)|].
  match goal with
  | |- rtc _ ?x _ => assert (x = acked_once) as -> by (vm_compute; reflexivity)
  end.
  apply rtc_refl.
Qed.

Lemma delivery_ack_safe_witness :
  rtc ack_step new_acks acked_once ∧ NoDup (wire acked_once).
Proof.
  split; [apply acked_once_reachable|].
  apply (delivery_ack_safe acked_once acked_once_reachable).
Defined.

