(* ===== verification/Protocol.v ===== *)
(** The protocol-1 messages (protocol.go): the typed forms a decoded frame takes, their
    decoding from a parsed JSON value and their encoding back to one, the expansion of
    batches, and the accessors of loop ids, namespaces and assistant text. *)

From Stdlib Require Import SpecFloat.
From S2P Require Import Prelude GoStr Value Events.

(** * Types *)

Record ErrorObject := MkErrorObject {
  eo_Code : Z;
  eo_Message : string;
  eo_Data : gomap;
}.

Record Envelope := MkEnvelope {
  env_Proto : string;
  env_Type : string;
  env_Method : string;
  env_Params : gomap;
  env_ID : string;
  env_Result : gomap;
  env_Error : option ErrorObject;
  env_Payload : gomap;
  env_Receipt : string;
}.

(** A [time.Time] is held as its RFC 3339 text. *)
Record EventMessage := MkEventMessage {
  em_RequestID : string;
  em_Type : string;
  em_LoopID : string;
  em_TurnID : string;
  em_Seq : Z;
  em_Namespace : value;
  em_Mode : string;
  em_Data : value;
  em_Timestamp : string;
}.

Record StatusResponse := MkStatusResponse {
  st_RequestID : string;
  st_Type : string;
  st_State : string;
  st_LoopID : string;
  st_TurnID : string;
  st_Seq : Z;
  st_Workspace : string;
  st_InputHistory : list string;
  st_ConversationHistory : list value;
}.

Record ErrorResponse := MkErrorResponse {
  er_RequestID : string;
  er_Type : string;
  er_Code : string;
  er_Message : string;
  er_Details : gomap;
}.

Record LoopAIMessage := MkLoopAIMessage {
  ai_Type : string;
  ai_Content : value;
  ai_Phase : string;
}.

(** The dynamic types a message of the client can have. *)
Inductive message :=
  | MEnvelope (e : Envelope)
  | MEvent (e : EventMessage)
  | MStatus (s : StatusResponse)
  | MError (e : ErrorResponse)
  | MMap (m : gomap).

Definition zero_time : string := "0001-01-01T00:00:00Z".

(** * Decoding a JSON value into a struct field: [None] is a type error; a missing key
    and a [null] leave the zero value *)

Definition dec_str (v : value) : option string :=
  match v with VNil => Some "" | VStr s => Some s | _ => None end.

Definition dec_map (v : value) : option gomap :=
  match v with VNil => Some None | VMap m => Some m | _ => None end.

(** An integral number in range. *)
Definition dec_int (v : value) : option Z :=
  match v with
  | VNil => Some 0%Z
  | VFloat f => if SFeqb f (float_of_int (int_of_float f)) then Some (int_of_float f) else None
  | _ => None
  end.

Definition dec_arr (v : value) : option (list value) :=
  match v with VNil => Some [] | VArr l => Some l | _ => None end.

Definition dec_strs (v : value) : option (list string) := dec_arr v ≫= mapM dec_str.

Definition dec_error (v : value) : option (option ErrorObject) :=
  match v with
  | VNil => Some None
  | VMap m =>
      code ← dec_int (mget m "code");
      msg ← dec_str (mget m "message");
      data ← dec_map (mget m "data");
      Some (Some (MkErrorObject code msg data))
  | _ => None
  end.

Definition dec_envelope (m : gomap) : option Envelope :=
  proto ← dec_str (mget m "proto");
  typ ← dec_str (mget m "type");
  method ← dec_str (mget m "method");
  params ← dec_map (mget m "params");
  id ← dec_str (mget m "id");
  result ← dec_map (mget m "result");
  err ← dec_error (mget m "error");
  payload ← dec_map (mget m "payload");
  receipt ← dec_str (mget m "receipt");
  Some (MkEnvelope proto typ method params id result err payload receipt).

(** * [nextToEventMessage] *)

Definition nextToEventMessage (env : Envelope) : option EventMessage :=
  match env_Payload env with
  | None => None
  | Some _ as payload =>
      let project (m : gomap) (mode : string) :=
        MkEventMessage "" "event" (sget m "loop_id") "" 0 (mget m "namespace") mode
          (mget m "data") zero_time in
      let wrapped :=
        match to_map (mget payload "data") with
        | Some inner =>
            let innerType := sget inner "type" in
            if (innerType =s "event") || (innerType =s "") then
              if mhas inner "mode" then Some (project inner (sget inner "mode")) else None
            else None
        | None => None
        end in
      match wrapped with
      | Some em => Some em
      | None =>
          if bool_decide (is_Some (to_str (mget payload "mode"))) || mhas payload "data"
          then Some (project payload (sget payload "mode"))
          else None
      end
  end.

(** * [DecodeMessage] *)

Definition envelope_types : gset string :=
  {[ "connection_init"; "connection_ack"; "request"; "response"; "notification";
     "subscribe"; "error"; "complete"; "unsubscribe"; "ping"; "pong";
     "receipt_response"; "disconnect" ]}.

Section decode.
(** Parsing of a timestamp to its canonical text; [None] when it is not one. *)
Context (parse_time : string → option string).

Definition dec_time (v : value) : option string :=
  match v with VNil => Some zero_time | VStr s => parse_time s | _ => None end.

Definition dec_event (m : gomap) : option EventMessage :=
  rid ← dec_str (mget m "request_id");
  typ ← dec_str (mget m "type");
  loop ← dec_str (mget m "loop_id");
  turn ← dec_str (mget m "turn_id");
  seq ← dec_int (mget m "seq");
  mode ← dec_str (mget m "mode");
  ts ← dec_time (mget m "timestamp");
  Some (MkEventMessage rid typ loop turn seq (mget m "namespace") mode (mget m "data") ts).

Definition dec_status (m : gomap) : option StatusResponse :=
  rid ← dec_str (mget m "request_id");
  typ ← dec_str (mget m "type");
  state ← dec_str (mget m "state");
  loop ← dec_str (mget m "loop_id");
  turn ← dec_str (mget m "turn_id");
  seq ← dec_int (mget m "seq");
  ws ← dec_str (mget m "workspace");
  hist ← dec_strs (mget m "input_history");
  conv ← dec_arr (mget m "conversation_history");
  let loop := if loop =s "" then default "" (dec_str (mget m "loopId")) else loop in
  Some (MkStatusResponse rid typ state loop turn seq ws hist conv).

(** [DecodeMessage], from the parsed JSON value on; [None] is an error. *)
Definition DecodeMessage (v : value) : option message :=
  match v with
  | VNil | VMap _ =>
      let m := asMap v in
      _ ← dec_str (mget m "proto");
      typ ← dec_str (mget m "type");
      if bool_decide (typ ∈ envelope_types) then MEnvelope <$> dec_envelope m
      else if typ =s "next" then
        env ← dec_envelope m;
        match nextToEventMessage env with
        | Some em => Some (MEvent em)
        | None => Some (MEnvelope env)
        end
      else if typ =s "event" then MEvent <$> dec_event m
      else if typ =s "status" then MStatus <$> dec_status m
      else Some (MMap m)
  | _ => None
  end.

(** [ExpandWireMessages]: re-encoding a decoded sub-event and parsing it again gives
    the same JSON value. *)
Definition ExpandWireMessages (msg : message) : list message :=
  match msg with
  | MMap m =>
      if sget m "type" <>s "event_batch" then [msg]
      else match to_arr (mget m "events") with
           | None | Some [] => []
           | Some rawEvents =>
               omap (λ sub,
                 match sub with
                 | VMap _ => DecodeMessage sub
                 | _ => None
                 end) rawEvents
           end
  | _ => [msg]
  end.
End decode.

(** * Encoding a message as a JSON object, [omitempty] fields left out *)

Definition enc_str (k s : string) : list (string * value) :=
  if s =s "" then [] else [(k, VStr s)].
Definition enc_map (k : string) (m : gomap) : list (string * value) :=
  match m with
  | None => []
  | Some x => if bool_decide (x = ∅) then [] else [(k, VMap m)]
  end.
Definition enc_int (k : string) (z : Z) : list (string * value) :=
  if (z =? 0)%Z then [] else [(k, VFloat (float_of_int z))].
Definition enc_any (k : string) (v : value) : list (string * value) :=
  if is_nil v then [] else [(k, v)].
Definition enc_list (k : string) (l : list value) : list (string * value) :=
  match l with [] => [] | _ => [(k, VArr l)] end.

Definition enc_error (e : option ErrorObject) : list (string * value) :=
  match e with
  | None => []
  | Some e =>
      [("error", obj ([("code", VFloat (float_of_int (eo_Code e)));
                       ("message", VStr (eo_Message e))] ++ enc_map "data" (eo_Data e)))]
  end.

Definition enc_envelope (e : Envelope) : gmap string value :=
  mlit ([("proto", VStr (env_Proto e)); ("type", VStr (env_Type e))] ++
        enc_str "method" (env_Method e) ++ enc_map "params" (env_Params e) ++
        enc_str "id" (env_ID e) ++ enc_map "result" (env_Result e) ++
        enc_error (env_Error e) ++ enc_map "payload" (env_Payload e) ++
        enc_str "receipt" (env_Receipt e)).

Definition enc_event (e : EventMessage) : gmap string value :=
  mlit (enc_str "request_id" (em_RequestID e) ++ [("type", VStr (em_Type e))] ++
        enc_str "loop_id" (em_LoopID e) ++ enc_str "turn_id" (em_TurnID e) ++
        enc_int "seq" (em_Seq e) ++ enc_any "namespace" (em_Namespace e) ++
        enc_str "mode" (em_Mode e) ++
        [("data", em_Data e); ("timestamp", VStr (em_Timestamp e))]).

Definition enc_status (s : StatusResponse) : gmap string value :=
  mlit (enc_str "request_id" (st_RequestID s) ++
        [("type", VStr (st_Type s)); ("state", VStr (st_State s))] ++
        enc_str "loop_id" (st_LoopID s) ++ enc_str "turn_id" (st_TurnID s) ++
        enc_int "seq" (st_Seq s) ++ [("workspace", VStr (st_Workspace s))] ++
        enc_list "input_history" (VStr <$> st_InputHistory s) ++
        enc_list "conversation_history" (st_ConversationHistory s)).

Definition enc_errresp (e : ErrorResponse) : gmap string value :=
  mlit (enc_str "request_id" (er_RequestID e) ++
        [("type", VStr (er_Type e)); ("code", VStr (er_Code e));
         ("message", VStr (er_Message e))] ++ enc_map "details" (er_Details e)).

(** The map the readers route and return: the message marshalled and parsed back. *)
Definition wire_map (msg : message) : gomap :=
  match msg with
  | MEnvelope e => Some (enc_envelope e)
  | MEvent e => Some (enc_event e)
  | MStatus s => Some (enc_status s)
  | MError e => Some (enc_errresp e)
  | MMap m => m
  end.

(** * Accessors *)

(** The first non-empty string among the given keys. *)
Fixpoint first_str (m : gomap) (ks : list string) : option string :=
  match ks with
  | [] => None
  | k :: ks => if sget m k =s "" then first_str m ks else Some (sget m k)
  end.

(** The loop id inside a [next] payload: its data's, else its own. *)
Definition next_loop_id (payload : gomap) : option string :=
  match to_map (mget payload "data") with
  | Some (Some _ as data) =>
      match first_str data ["loop_id"; "loopId"] with
      | Some s => Some s
      | None => first_str payload ["loop_id"]
      end
  | _ => first_str payload ["loop_id"]
  end.

Definition ExtractSootheLoopID (msg : message) : option string :=
  match msg with
  | MEnvelope m =>
      if env_Type m =s "next" then next_loop_id (env_Payload m)
      else if env_Type m =s "status" then first_str (env_Params m) ["loop_id"]
      else None
  | MStatus m => if st_LoopID m =s "" then None else Some (st_LoopID m)
  | MEvent m =>
      if em_LoopID m <>s "" then Some (em_LoopID m)
      else first_str (asMap (em_Data m)) ["loop_id"; "loopId"]
  | MMap m =>
      if sget m "type" =s "next" then
        match to_map (mget m "payload") with
        | Some payload => next_loop_id payload
        | None => None
        end
      else first_str m ["loop_id"; "loopId"]
  | MError _ => None
  end.

Definition EventType (e : EventMessage) : string :=
  let t := sget (asMap (em_Data e)) "type" in
  if t <>s "" then t else asString (em_Namespace e).

Definition NamespaceParts (e : EventMessage) : list string :=
  match em_Namespace e with
  | VStrs ns => ns
  | VArr ns => omap to_str ns
  | VStr ns => if ns =s "" then [] else Split ns "."%char
  | _ => []
  end.

Definition isLoopAssistantPhase (phase : string) : bool :=
  bool_decide (phase ∈ ["goal_completion"; "quiz"; "autonomous_goal"; "text_completion";
    "image_to_text"; "ocr"; "embed"; "plan_direct"; "chitchat"]).

Definition IsLoopAssistantPhase (phase : string) : bool := isLoopAssistantPhase phase.

(** [EventMessage.LoopAIMessage] *)
Definition EventLoopAIMessage (e : EventMessage) : option LoopAIMessage :=
  if em_Mode e <>s "messages" then None
  else match to_arr (em_Data e) with
       | Some (VMap msgMap :: _) =>
           let phase := sget msgMap "phase" in
           if phase =s "" then None
           else if negb (isLoopAssistantPhase phase) then None
           else
             let t := sget msgMap "type" in
             Some (MkLoopAIMessage (if t =s "" then "ai" else t) (mget msgMap "content") phase)
       | _ => None
       end.

(** The text a content item contributes. *)
Definition item_text (item : value) : string :=
  match item with
  | VStr s => s
  | VMap blk => sget blk "text"
  | _ => ""
  end.

Definition LoopAIText (m : LoopAIMessage) : string :=
  match ai_Content m with
  | VStr c => c
  | VArr c => String.concat "" (item_text <$> c)
  | VMap blk => sget blk "text"
  | _ => ""
  end.

(** [SplitSootheWirePayload]: the JSON texts of one WebSocket message. *)
Definition newline : ascii := "010"%char.

Definition SplitSootheWirePayload (data : string) : list string :=
  let s := TrimSpace data in
  if s =s "" then []
  else
    let out := filter (λ line, line ≠ "") (TrimSpace <$> Split s newline) in
    match out with [] => [data] | _ => out end.

(** * Constructors of outgoing messages; [newID] is the fresh UUID the call draws *)

Definition ProtoVersion : string := "1".
Definition ClientVersion : string := "0.4.17".
Definition DefaultClientCapabilities : list string :=
  ["streaming"; "batch"; "heartbeat"; "receipts"].

Definition NewRequestEnvelope (newID method : string) (params : gomap) : Envelope :=
  MkEnvelope ProtoVersion "request" method params newID None None None "".
Definition NewRequestEnvelopeWithID (newID method : string) (params : gomap) (id : string) : Envelope :=
  let id := if id =s "" then newID else id in
  MkEnvelope ProtoVersion "request" method params id None None None "".
Definition NewNotificationEnvelope (method : string) (params : gomap) : Envelope :=
  MkEnvelope ProtoVersion "notification" method params "" None None None "".
Definition NewSubscribeEnvelope (newID method : string) (params : gomap) : Envelope :=
  MkEnvelope ProtoVersion "subscribe" method params newID None None None "".
Definition NewUnsubscribeEnvelope (id : string) : Envelope :=
  MkEnvelope ProtoVersion "unsubscribe" "" None id None None None "".
Definition NewConnectionInitEnvelope : Envelope :=
  MkEnvelope ProtoVersion "connection_init" ""
    (Some (mlit [("client_version", VStr ClientVersion);
                 ("client_name", VStr "soothe-client-go");
                 ("accept_proto", VStrs [ProtoVersion]);
                 ("capabilities", VStrs DefaultClientCapabilities)]))
    "" None None None "".
Definition NewPingEnvelope : Envelope :=
  MkEnvelope ProtoVersion "ping" "" None "" None None None "".
Definition NewPongEnvelope : Envelope :=
  MkEnvelope ProtoVersion "pong" "" None "" None None None "".
Definition NewDisconnectEnvelope : Envelope :=
  MkEnvelope ProtoVersion "disconnect" "" None "" None None None "".

(** * Lemmas *)

(** ** Lookups in literals *)

Lemma lookup_mlit_cons k v l k' :
  mlit ((k, v) :: l) !! k' = if decide (k = k') then Some v else mlit l !! k'.
Proof.
  unfold mlit. simpl. rewrite lookup_insert. done.
Qed.

Lemma lookup_mlit_app l l' k :
  mlit (l ++ l') !! k = match mlit l !! k with Some v => Some v | None => mlit l' !! k end.
Proof.
  induction l as [|[k0 v0] l IH]; [done|].
  change (((k0, v0) :: l) ++ l') with ((k0, v0) :: (l ++ l')).
  rewrite !lookup_mlit_cons. by case_decide.
Qed.

Lemma lookup_enc_str k s k' :
  mlit (enc_str k s) !! k' = if decide (k = k') then (if s =s "" then None else Some (VStr s)) else None.
Proof. unfold enc_str. destruct (s =s ""); [by case_decide|apply lookup_mlit_cons]. Qed.

(** [omitempty]: an empty map is left out. *)
Definition omit_empty (m : gomap) : gomap :=
  match m with
  | None => None
  | Some x => if bool_decide (x = ∅) then None else Some x
  end.

Definition opt_map (m : gomap) : option value := (λ x, VMap (Some x)) <$> omit_empty m.

Lemma lookup_enc_map k m k' :
  mlit (enc_map k m) !! k' = if decide (k = k') then opt_map m else None.
Proof.
  unfold enc_map, opt_map, omit_empty. destruct m as [m|]; [|by case_decide].
  destruct (bool_decide _); [by case_decide|apply lookup_mlit_cons].
Qed.

Definition error_value (e : ErrorObject) : value :=
  obj ([("code", VFloat (float_of_int (eo_Code e))); ("message", VStr (eo_Message e))] ++
       enc_map "data" (eo_Data e)).

Lemma lookup_enc_error e k' :
  mlit (enc_error e) !! k' = if decide ("error" = k') then error_value <$> e else None.
Proof. destruct e; [apply lookup_mlit_cons|by case_decide]. Qed.

Ltac enc_lookup :=
  rewrite ?lookup_mlit_app, ?lookup_mlit_cons, ?lookup_enc_str, ?lookup_enc_map,
    ?lookup_enc_error;
  repeat (first [rewrite decide_True by done | rewrite decide_False by done]).

(** What the encoding of an envelope holds under each of its keys. *)
Lemma enc_envelope_get e :
  let m := Some (enc_envelope e) in
  mget m "proto" = VStr (env_Proto e) ∧ mget m "type" = VStr (env_Type e) ∧
  dec_str (mget m "method") = Some (env_Method e) ∧
  dec_str (mget m "id") = Some (env_ID e) ∧
  dec_str (mget m "receipt") = Some (env_Receipt e) ∧
  mget m "params" = default VNil (opt_map (env_Params e)) ∧
  mget m "result" = default VNil (opt_map (env_Result e)) ∧
  mget m "payload" = default VNil (opt_map (env_Payload e)) ∧
  mget m "error" = default VNil (error_value <$> env_Error e).
Proof.
  unfold mget, enc_envelope. cbn [mbind option_bind].
  repeat split; enc_lookup; try done;
    repeat match goal with |- context [?s =s ""] => destruct (String.eqb_spec s "") as [E|E] end;
    try rewrite E; try done; try (by destruct (opt_map _)); by destruct (env_Error e).
Qed.

Lemma dec_opt_map m : dec_map (default VNil (opt_map m)) = Some (omit_empty m).
Proof. unfold opt_map. by destruct (omit_empty m). Qed.

Lemma asMap_opt_map m : asMap (default VNil (opt_map m)) = omit_empty m.
Proof. unfold opt_map. by destruct (omit_empty m). Qed.

(** The envelope another decoder reads: empty maps are absent. *)
Definition normal_error (e : ErrorObject) : ErrorObject :=
  MkErrorObject (eo_Code e) (eo_Message e) (omit_empty (eo_Data e)).
Definition normal_envelope (e : Envelope) : Envelope :=
  MkEnvelope (env_Proto e) (env_Type e) (env_Method e) (omit_empty (env_Params e)) (env_ID e)
    (omit_empty (env_Result e)) (normal_error <$> env_Error e) (omit_empty (env_Payload e))
    (env_Receipt e).

(** A code [float64] holds exactly. *)
Definition exact_code (e : Envelope) : Prop :=
  match env_Error e with Some o => (Z.abs (eo_Code o) < 2 ^ 53)%Z | None => True end.

Lemma error_value_get e :
  mget (asMap (error_value e)) "code" = VFloat (float_of_int (eo_Code e)) ∧
  mget (asMap (error_value e)) "message" = VStr (eo_Message e) ∧
  mget (asMap (error_value e)) "data" = default VNil (opt_map (eo_Data e)).
Proof.
  change (asMap (error_value e)) with
    (Some (mlit ([("code", VFloat (float_of_int (eo_Code e))); ("message", VStr (eo_Message e))] ++
                 enc_map "data" (eo_Data e)))).
  unfold mget. cbn [mbind option_bind].
  repeat split; enc_lookup; [done..|]. by destruct (opt_map (eo_Data e)).
Qed.

Lemma dec_int_of_int z : (Z.abs z < 2 ^ 53)%Z → dec_int (VFloat (float_of_int z)) = Some z.
Proof.
  intros Hz. unfold dec_int. rewrite int_of_float_of_int by done.
  by rewrite (SFeqb_refl _ z) by by apply float_trunc_of_int.
Qed.

Lemma dec_error_value o :
  (Z.abs (eo_Code o) < 2 ^ 53)%Z → dec_error (error_value o) = Some (Some (normal_error o)).
Proof.
  intros Hc. destruct (error_value_get o) as (F1 & F2 & F3).
  change (dec_error (error_value o)) with
    (code ← dec_int (mget (asMap (error_value o)) "code");
     msg ← dec_str (mget (asMap (error_value o)) "message");
     data ← dec_map (mget (asMap (error_value o)) "data");
     Some (Some (MkErrorObject code msg data))).
  rewrite F1, F2, F3, dec_int_of_int by done. cbn [mbind option_bind dec_str].
  by rewrite dec_opt_map.
Qed.

Lemma dec_enc_envelope e :
  exact_code e → dec_envelope (Some (enc_envelope e)) = Some (normal_envelope e).
Proof.
  intros Hc. destruct (enc_envelope_get e) as (E1 & E2 & E3 & E4 & E5 & E6 & E7 & E8 & E9).
  unfold dec_envelope. rewrite E1, E2, E3, E4, E5, E6, E7, E8, E9.
  cbn [mbind option_bind dec_str]. rewrite !dec_opt_map. cbn [mbind option_bind].
  unfold normal_envelope, exact_code in *. destruct (env_Error e) as [o|]; [|done].
  change (default VNil (error_value <$> Some o)) with (error_value o).
  by rewrite dec_error_value.
Qed.

(** What the encodings of the other messages hold under the keys a reader looks at. *)
Lemma enc_event_get e :
  let m := Some (enc_event e) in
  sget m "type" = em_Type e ∧ sget m "id" = "" ∧ sget m "loop_id" = em_LoopID e ∧
  sget m "loopId" = "" ∧ sget m "turn_id" = em_TurnID e ∧ mget m "data" = em_Data e.
Proof.
  assert (∀ k, k ≠ "seq" → mlit (enc_int "seq" (em_Seq e)) !! k = None) as Hs.
  { intros k Hk. unfold enc_int. branch; [done|]. rewrite lookup_mlit_cons. by case_decide. }
  assert (∀ k, k ≠ "namespace" → mlit (enc_any "namespace" (em_Namespace e)) !! k = None) as Hn.
  { intros k Hk. unfold enc_any. branch; [done|]. rewrite lookup_mlit_cons. by case_decide. }
  unfold sget, mget, enc_event. cbn [mbind option_bind].
  repeat split; enc_lookup; rewrite ?Hs, ?Hn by done; enc_lookup; try done;
    match goal with |- context [?s =s ""] => destruct (String.eqb_spec s "") as [E|E] end;
    rewrite ?E; done.
Qed.

Lemma lookup_enc_list k l k' : k ≠ k' → mlit (enc_list k l) !! k' = None.
Proof. intros Hk. unfold enc_list. destruct l; [done|]. rewrite lookup_mlit_cons. by case_decide. Qed.

Lemma lookup_enc_int k z k' : k ≠ k' → mlit (enc_int k z) !! k' = None.
Proof. intros Hk. unfold enc_int. branch; [done|]. rewrite lookup_mlit_cons. by case_decide. Qed.

Lemma enc_status_get s :
  let m := Some (enc_status s) in
  sget m "type" = st_Type s ∧ sget m "id" = "" ∧ sget m "loop_id" = st_LoopID s ∧
  sget m "loopId" = "" ∧ sget m "turn_id" = st_TurnID s.
Proof.
  unfold sget, mget, enc_status. cbn [mbind option_bind].
  repeat split; enc_lookup; rewrite ?lookup_enc_list, ?lookup_enc_int by done; enc_lookup;
    rewrite ?lookup_enc_list by done; try done;
    match goal with |- context [?s =s ""] => destruct (String.eqb_spec s "") as [E|E] end;
    rewrite ?E; done.
Qed.

Lemma enc_envelope_sget e :
  let m := Some (enc_envelope e) in
  sget m "type" = env_Type e ∧ sget m "id" = env_ID e ∧ sget m "loop_id" = "" ∧
  sget m "loopId" = "" ∧ asMap (mget m "payload") = omit_empty (env_Payload e).
Proof.
  destruct (enc_envelope_get e) as (_ & E2 & _ & E4 & _ & _ & _ & E8 & _). cbv zeta.
  rewrite E8, asMap_opt_map. unfold sget at 1. rewrite E2. split; [done|]. split.
  { unfold sget. destruct (mget _ "id"); simplify_eq/=; done. }
  unfold sget, mget, enc_envelope. cbn [mbind option_bind].
  repeat split; enc_lookup; done.
Qed.

Section decode_lemmas.
Context (parse_time : string → option string).

(** The shape of what [DecodeMessage] yields, by the frame's type. *)
Lemma DecodeMessage_inv v msg :
  DecodeMessage parse_time v = Some msg →
  ∃ typ, dec_str (mget (asMap v) "type") = Some typ ∧
  match msg with
  | MEnvelope e => dec_envelope (asMap v) = Some e ∧ env_Type e = typ ∧
      (typ ∈ envelope_types ∨ typ = "next" ∧ nextToEventMessage e = None)
  | MEvent em =>
      typ = "next" ∧ (∃ e, dec_envelope (asMap v) = Some e ∧ nextToEventMessage e = Some em) ∨
      typ = "event" ∧ em_Type em = "event" ∧ dec_event parse_time (asMap v) = Some em
  | MStatus s => typ = "status" ∧ st_Type s = "status" ∧ dec_status (asMap v) = Some s
  | MError _ => False
  | MMap m => m = asMap v ∧ typ ≠ "next" ∧ typ ∉ envelope_types
  end.
Proof.
  intros H.
  assert (∃ p typ, dec_str (mget (asMap v) "proto") = Some p ∧
    dec_str (mget (asMap v) "type") = Some typ) as (p & typ & Hp & Ht).
  { destruct v; try done; unfold DecodeMessage in H; cbv zeta in H;
      apply bind_Some in H as (p & Hp & H); apply bind_Some in H as (typ & Ht & H); eauto. }
  assert (Henv : ∀ e, dec_envelope (asMap v) = Some e → env_Type e = typ).
  { unfold dec_envelope. intros e He. rewrite Hp, Ht in He. cbn [mbind option_bind] in He.
    repeat (apply bind_Some in He as (? & _ & He)). by simplify_eq/=. }
  exists typ. split; [done|].
  assert (DecodeMessage parse_time v = 
    if bool_decide (typ ∈ envelope_types) then MEnvelope <$> dec_envelope (asMap v)
    else if typ =s "next" then
      env ← dec_envelope (asMap v);
      match nextToEventMessage env with Some em => Some (MEvent em) | None => Some (MEnvelope env) end
    else if typ =s "event" then MEvent <$> dec_event parse_time (asMap v)
    else if typ =s "status" then MStatus <$> dec_status (asMap v)
    else Some (MMap (asMap v))) as E.
  { destruct v; try done; unfold DecodeMessage; cbv zeta; rewrite Hp, Ht; done. }
  rewrite E in H. clear E. case_bool_decide as Hty.
  { apply fmap_Some in H as (e & He & ->). auto. }
  destruct (String.eqb_spec typ "next") as [Hx|Hn].
  { subst typ. apply bind_Some in H as (e & He & H).
    destruct (nextToEventMessage e) as [em|] eqn:Em; simplify_eq; eauto 6. }
  destruct (String.eqb_spec typ "event") as [Hx|He].
  { subst typ. apply fmap_Some in H as (e & He & ->). right. split; [done|]. split; [|done].
    unfold dec_event in He. rewrite Ht in He.
    repeat (apply bind_Some in He as (? & ? & He)). by simplify_eq/=. }
  destruct (String.eqb_spec typ "status") as [Hx|Hs]; [|by simplify_eq].
  subst typ. apply fmap_Some in H as (s & Hs0 & ->). split; [done|]. split; [|done].
  unfold dec_status in Hs0. rewrite Ht in Hs0.
  repeat (apply bind_Some in Hs0 as (? & ? & Hs0)). by simplify_eq/=.
Qed.
End decode_lemmas.

(** A projected [next] event carries neither turn id nor sequence number. *)
Lemma nextToEventMessage_inv e em :
  nextToEventMessage e = Some em →
  em_Type em = "event" ∧ em_TurnID em = "" ∧ em_Seq em = 0%Z ∧ em_RequestID em = "".
Proof.
  unfold nextToEventMessage. destruct (env_Payload e) as [p|]; [|done]. cbv zeta.
  destruct (to_map _) as [inner|]; [destruct (_ || _); [destruct (mhas inner "mode")|]|];
    intros H; branches_in H; by simplify_eq.
Qed.

Lemma first_str_none m ks : Forall (λ k, sget m k = "") ks → first_str m ks = None.
Proof. induction 1 as [|k ks Hk _ IH]; [done|]. simpl. by rewrite Hk. Qed.

Lemma next_loop_id_omit p : next_loop_id (omit_empty p) = next_loop_id p.
Proof. destruct p as [m|]; [|done]. simpl. case_bool_decide; [by subst|done]. Qed.

(** * Properties *)


(** A newline-delimited payload splits into exactly the lines it was joined from. *)
Theorem ndjson_roundtrip (lines : list string)
    (Hl : Forall (λ l, trimmed l ∧ l ≠ "" ∧ newline ∉ to_bytes l) lines) :
  SplitSootheWirePayload (Join lines newline) = lines.
Proof.
  destruct (decide (lines = [])) as [->|Hne]; [done|].
  assert (Forall (λ l, trimmed l ∧ l ≠ "") lines) as H1
    by (eapply Forall_impl; [exact Hl|naive_solver]).
  assert (Forall (λ l, newline ∉ to_bytes l) lines) as H2
    by (eapply Forall_impl; [exact Hl|naive_solver]).
  destruct (trimmed_Join lines newline newline_lone H1 Hne) as [Ht Hj].
  unfold SplitSootheWirePayload. rewrite trimmed_id by done. cbv zeta.
  rewrite (proj2 (String.eqb_neq _ _) Hj), Split_Join by done.
  assert (TrimSpace <$> lines = lines) as ->.
  { clear -H1. induction H1 as [|l ls [Hl _] _ IH]; [done|]. csimpl. by rewrite IH, trimmed_id. }
  assert (filter (λ line, line ≠ "") lines = lines) as ->; [|by destruct lines].
  clear -H1. induction H1 as [|l ls [_ Hl] _ IH]; [done|].
  rewrite filter_cons, decide_True by done. by rewrite IH.
Qed.

(** The two representations of a frame agree on its loop: whatever id the untyped map
    of a decoded message shows, the typed message shows too. *)
Theorem loop_id_typed_map (parse_time : string → option string) (v : value) (msg : message)
    (id : string) (Hd : DecodeMessage parse_time v = Some msg)
    (Hid : ExtractSootheLoopID (MMap (wire_map msg)) = Some id) :
  ExtractSootheLoopID msg = Some id.
Proof.
  destruct (DecodeMessage_inv _ _ _ Hd) as (typ & _ & Hm). clear Hd.
  unfold ExtractSootheLoopID in Hid |- *. destruct msg as [e|em|s|er|m]; simpl wire_map in *.
  - destruct Hm as (_ & Hty & Hcase). destruct (enc_envelope_sget e) as (T & _ & L1 & L2 & P).
    rewrite T in Hid. subst typ. destruct (env_Type e =s "next").
    + destruct (to_map (mget (Some (enc_envelope e)) "payload")) as [p|] eqn:Ep; [|done].
      rewrite <-(next_loop_id_omit (env_Payload e)), <-P. unfold asMap. by rewrite Ep.
    + rewrite first_str_none in Hid by auto. done.
  - assert (em_Type em = "event") as Hty.
    { destruct Hm as [(_ & e & _ & He)|(_ & ? & _)]; [|done].
      by apply nextToEventMessage_inv in He as [? _]. }
    destruct (enc_event_get em) as (T & _ & L1 & L2 & _). rewrite T, Hty in Hid.
    simpl in Hid. rewrite L1, L2 in Hid. simpl in Hid. by destruct (em_LoopID em =s "").
  - destruct Hm as (_ & Hty & _). destruct (enc_status_get s) as (T & _ & L1 & L2 & _).
    rewrite T, Hty in Hid. simpl in Hid. by rewrite L1, L2 in Hid.
  - done.
  - done.
Qed.

(** A stream event that arrives inside a [next] frame is handed on without a turn id and
    a sequence number, whatever its frame says; one that arrives as an [event] frame keeps
    its turn id. *)
Theorem next_event_loses_turn (parse_time : string → option string) (v : value)
    (em : EventMessage) (Hd : DecodeMessage parse_time v = Some (MEvent em)) :
  (sget (asMap v) "type" = "next" ∧ em_TurnID em = "" ∧ em_Seq em = 0%Z) ∨
  (sget (asMap v) "type" = "event" ∧ em_TurnID em = sget (asMap v) "turn_id").
Proof.
  destruct (DecodeMessage_inv _ _ _ Hd) as (typ & Ht & Hm).
  assert (sget (asMap v) "type" = typ ∨ typ = "") as Hty.
  { unfold sget. destruct (mget (asMap v) "type"); simplify_eq/=; auto. }
  destruct Hm as [(-> & e & _ & He)|(-> & _ & He)]; [left|right].
  - apply nextToEventMessage_inv in He as (_ & ? & ? & _). by destruct Hty.
  - split; [by destruct Hty|]. unfold dec_event in He.
    do 3 apply bind_Some in He as (? & _ & He). apply bind_Some in He as (turn & Hturn & He).
    do 3 apply bind_Some in He as (? & _ & He). simplify_eq/=.
    unfold sget. by destruct (mget (asMap v) "turn_id"); simplify_eq/=.
Qed.

Definition sample_envelope : Envelope :=
  MkEnvelope "1" "error" "loop_get" (Some (mlit [("loop_id", VStr "L1")])) "r1" None
    (Some (MkErrorObject (-32200) "loop not found" None)) None "".


Lemma ndjson_roundtrip_witness :
  SplitSootheWirePayload (Join ["[1]"; "{}"] newline) = ["[1]"; "{}"].
Proof.
  apply ndjson_roundtrip.
  repeat (constructor; [split; [split; by_compute|split; by_compute]|]). constructor.
Defined.

Lemma loop_id_typed_map_witness :
  ∃ msg, DecodeMessage Some (obj [("type", VStr "status"); ("state", VStr "idle"); ("loop_id", VStr "L1")]) =
      Some msg ∧ ExtractSootheLoopID msg = Some "L1".
Proof.
  eexists. split; [vm_compute; reflexivity|].
  apply (loop_id_typed_map Some
    (obj [("type", VStr "status"); ("state", VStr "idle"); ("loop_id", VStr "L1")])); by vm_compute.
Defined.

(** A [next] frame that carries a turn id around an event. *)
Definition next_event : value :=
  obj [("type", VStr "next"); ("id", VStr "s1"); ("turn_id", VStr "L1:3"); ("seq", VInt 7);
       ("payload", obj [("mode", VStr "messages"); ("loop_id", VStr "L1"); ("turn_id", VStr "L1:3");
                        ("data", VArr [])])].

Lemma next_event_loses_turn_witness :
  ∃ em, DecodeMessage Some next_event = Some (MEvent em) ∧ em_TurnID em = "" ∧ em_Seq em = 0%Z.
Proof.
  eexists. split; [vm_compute; reflexivity|].
  destruct (next_event_loses_turn Some next_event _ ltac:(vm_compute; reflexivity)) as [(_ & H)|[H _]];
    [exact H|discriminate H].
Defined.
