(* ===== verification/GoChan.v ===== *)
(** Go channels, as far as the client's non-blocking operations on buffered channels
    see them: [select] with a [default] case around a send or a receive, and
    [close]. *)

From S2P Require Import Prelude.

Record chan (A : Type) := Chan {
  buf : list A;
  cap : nat;
  closed : bool;
}.

Arguments Chan {A}.
Arguments buf {A}.
Arguments cap {A}.
Arguments closed {A}.

Section chan.
Context {A : Type}.
Implicit Types (ch : chan A) (x : A).

Definition make_chan (n : nat) : chan A := Chan [] n false.

(** [select { case ch <- x: default: }]; a send on a closed channel panics,
    [None]. A full channel drops [x]. *)
Definition try_send x ch : option (chan A) :=
  if closed ch then None
  else if (length (buf ch) <? cap ch)%nat
  then Some (Chan (buf ch ++ [x]) (cap ch) (closed ch))
  else Some ch.

(** [select { case x := <-ch: default: }]. *)
Definition try_recv ch : option A * chan A :=
  match buf ch with
  | [] => (None, ch)
  | x :: l => (Some x, Chan l (cap ch) (closed ch))
  end.

(** [close(ch)]; closing a closed channel panics, [None]. *)
Definition close_chan ch : option (chan A) :=
  if closed ch then None else Some (Chan (buf ch) (cap ch) true).

(** ** Lemmas *)

Definition chan_ok ch : Prop := closed ch = false ∧ length (buf ch) ≤ cap ch.

Lemma try_send_open x ch :
  closed ch = false →
  try_send x ch = Some (Chan (take (cap ch `max` length (buf ch)) (buf ch ++ [x])) (cap ch) false).
Proof.
  destruct ch as [l n c]. simpl. intros ->. unfold try_send. simpl.
  destruct (Nat.ltb_spec (length l) n); do 2 f_equal.
  - rewrite take_ge; [done|]. rewrite length_app. simpl. lia.
  - rewrite Nat.max_r, take_app_length by lia. done.
Qed.

Lemma try_send_ok x ch ch' :
  try_send x ch = Some ch' → chan_ok ch → chan_ok ch' ∧ cap ch' = cap ch.
Proof.
  unfold try_send, chan_ok. intros H [Hc Hl]. rewrite Hc in H.
  destruct (Nat.ltb_spec (length (buf ch)) (cap ch)); simplify_eq/=; [|tauto].
  rewrite length_app. simpl. split; [|done]. split; [done|lia].
Qed.

Lemma try_send_elem x ch ch' y :
  try_send x ch = Some ch' → y ∈ buf ch' → y ∈ buf ch ∨ y = x.
Proof.
  unfold try_send. destruct (closed ch); [done|].
  destruct (_ <? _)%nat; intros [= <-]; simpl; [|tauto].
  rewrite elem_of_app, list_elem_of_singleton. done.
Qed.

Lemma try_recv_ok ch : chan_ok ch → chan_ok (try_recv ch).2 ∧ cap (try_recv ch).2 = cap ch.
Proof.
  unfold chan_ok, try_recv. destruct (buf ch) as [|x l] eqn:E; simpl; rewrite ?E; simpl;
    intros [? ?]; split; try split; try done; lia.
Qed.

Lemma make_chan_ok n : chan_ok (make_chan n).
Proof. split; simpl; [done|lia]. Qed.
End chan.

#[export] Hint Resolve try_send_ok try_recv_ok make_chan_ok : go.
