(* ===== verification/Mux.v ===== *)
(** The multiplexer of pending requests and subscriptions (multiplexer.go): which
    waiter a frame is delivered to, and what becomes of the frames nobody waits for.
    Waiters are objects that callers hold by reference, so they live in a store and
    the tables hold addresses. *)

From S2P Require Import Prelude GoStr Value GoChan.

(** * Definitions *)

(** [DaemonError] of errors.go. *)
Record DaemonError := MkDaemonError {
  Code : Z;
  Message : string;
  Data : gomap;
}.

Record pendingCall := PendingCall {
  pc_id : string;
  replyCh : chan gomap;
  errCh : chan DaemonError;
}.

Record pendingSubscription := PendingSubscription {
  ps_id : string;
  streamCh : chan gomap;
  ps_done : bool;
}.

Record mux := Mux {
  rpcs : gmap string nat;
  subs : gmap string nat;
  receipts : gmap string nat;
  calls : gmap nat pendingCall;
  streams : gmap nat pendingSubscription;
  receipt_chans : gmap nat (chan gomap);
  next_addr : nat;
}.

Definition newMux : mux := Mux ∅ ∅ ∅ ∅ ∅ ∅ 0.

(** Field updates. *)
Definition set_rpcs t m := Mux t (subs m) (receipts m) (calls m) (streams m) (receipt_chans m) (next_addr m).
Definition set_subs t m := Mux (rpcs m) t (receipts m) (calls m) (streams m) (receipt_chans m) (next_addr m).
Definition set_calls t m := Mux (rpcs m) (subs m) (receipts m) t (streams m) (receipt_chans m) (next_addr m).
Definition set_streams t m := Mux (rpcs m) (subs m) (receipts m) (calls m) t (receipt_chans m) (next_addr m).
Definition set_receipt_chans t m := Mux (rpcs m) (subs m) (receipts m) (calls m) (streams m) t (next_addr m).

Definition registerRPC (id : string) (m : mux) : nat * mux :=
  let pc := next_addr m in
  (pc, Mux (<[id := pc]> (rpcs m)) (subs m) (receipts m)
           (<[pc := PendingCall id (make_chan 1) (make_chan 1)]> (calls m))
           (streams m) (receipt_chans m) (S pc)).

(** The unregister function [registerRPC] returns. *)
Definition unregisterRPC (id : string) (pc : nat) (m : mux) : mux :=
  if bool_decide (rpcs m !! id = Some pc) then set_rpcs (delete id (rpcs m)) m else m.

Definition registerSubscription (id : string) (m : mux) : nat * mux :=
  let ps := next_addr m in
  (ps, Mux (rpcs m) (<[id := ps]> (subs m)) (receipts m) (calls m)
           (<[ps := PendingSubscription id (make_chan 16) false]> (streams m))
           (receipt_chans m) (S ps)).

(** The unregister function [registerSubscription] returns; closing [done] a second
    time panics, [None]. *)
Definition unregisterSubscription (id : string) (ps : nat) (m : mux) : option mux :=
  let m := if bool_decide (subs m !! id = Some ps) then set_subs (delete id (subs m)) m else m in
  match streams m !! ps with
  | Some s =>
      if ps_done s then None
      else Some (set_streams
             (<[ps := PendingSubscription (ps_id s) (streamCh s) true]> (streams m)) m)
  | None => None
  end.

(** The structured error of an [error] frame. *)
Definition frame_error (frame : gomap) : DaemonError :=
  let errObj := asMap (mget frame "error") in
  MkDaemonError
    (match to_float (mget errObj "code") with
     | Some ic => int_of_float ic
     | None => (-32603)%Z
     end)
    (sget errObj "message") (asMap (mget errObj "data")).

(** The result a [response] frame delivers: its [result] object, else the frame. *)
Definition frame_result (frame : gomap) : gomap :=
  match asMap (mget frame "result") with
  | None => frame
  | Some r => Some r
  end.

(** What [route] finds under the lock: the waiter of a frame, held by address. *)
Inductive target :=
  | NoWaiter
  | ToCall (pc : nat)
  | ToStream (ps : nat)
  | ToReceipt (ch : nat).

Definition route_lookup (frame : gomap) (m : mux) : target :=
  match frame with
  | None => NoWaiter
  | Some _ =>
      let typ := sget frame "type" in
      let id := sget frame "id" in
      if (typ =s "response") || (typ =s "error") then
        if id =s "" then NoWaiter else from_option ToCall NoWaiter (rpcs m !! id)
      else if (typ =s "next") || (typ =s "complete") then
        if id =s "" then NoWaiter else from_option ToStream NoWaiter (subs m !! id)
      else if typ =s "receipt_response" then
        let rid := sget frame "receipt" in
        if rid =s "" then NoWaiter else from_option ToReceipt NoWaiter (receipts m !! rid)
      else NoWaiter
  end.

(** The delivery after the lock is released: whether the frame was consumed, and the
    store. [None] is a panic. *)
Definition route_deliver (frame : gomap) (t : target) (m : mux) : option (bool * mux) :=
  match t with
  | NoWaiter => Some (false, m)
  | ToCall a =>
      pc ← calls m !! a;
      if sget frame "type" =s "error" then
        ch ← try_send (frame_error frame) (errCh pc);
        Some (true, set_calls (<[a := PendingCall (pc_id pc) (replyCh pc) ch]> (calls m)) m)
      else
        ch ← try_send (frame_result frame) (replyCh pc);
        Some (true, set_calls (<[a := PendingCall (pc_id pc) ch (errCh pc)]> (calls m)) m)
  | ToStream a =>
      ps ← streams m !! a;
      if ps_done ps then Some (true, m)
      else
        ch ← try_send frame (streamCh ps);
        Some (true, set_streams (<[a := PendingSubscription (ps_id ps) ch (ps_done ps)]> (streams m)) m)
  | ToReceipt a =>
      ch ← receipt_chans m !! a;
      ch ← try_send frame ch;
      Some (true, set_receipt_chans (<[a := ch]> (receipt_chans m)) m)
  end.

(** [route], when nothing runs between its two halves. *)
Definition route (frame : gomap) (m : mux) : option (bool * mux) :=
  route_deliver frame (route_lookup frame m) m.

(** A waiter's non-blocking receive on its reply, error and stream channels. *)
Definition recv_reply (pc : nat) (m : mux) : option gomap * mux :=
  match calls m !! pc with
  | None => (None, m)
  | Some c =>
      let '(r, ch) := try_recv (replyCh c) in
      (r, set_calls (<[pc := PendingCall (pc_id c) ch (errCh c)]> (calls m)) m)
  end.

Definition recv_err (pc : nat) (m : mux) : option DaemonError * mux :=
  match calls m !! pc with
  | None => (None, m)
  | Some c =>
      let '(r, ch) := try_recv (errCh c) in
      (r, set_calls (<[pc := PendingCall (pc_id c) (replyCh c) ch]> (calls m)) m)
  end.

Definition recv_stream (ps : nat) (m : mux) : option gomap * mux :=
  match streams m !! ps with
  | None => (None, m)
  | Some s =>
      let '(r, ch) := try_recv (streamCh s) in
      (r, set_streams (<[ps := PendingSubscription (ps_id s) ch (ps_done s)]> (streams m)) m)
  end.

(** * Steps and the invariant *)

Definition call_type (frame : gomap) : Prop :=
  sget frame "type" = "response" ∨ sget frame "type" = "error".

Definition stream_type (frame : gomap) : Prop :=
  sget frame "type" = "next" ∨ sget frame "type" = "complete".

(** A target some lookup of [frame] may have returned, now or earlier. *)
Definition looked_up (frame : gomap) (t : target) (m : mux) : Prop :=
  match t with
  | NoWaiter => True
  | ToCall a => call_type frame ∧ ∃ c, calls m !! a = Some c ∧ pc_id c = sget frame "id"
  | ToStream a => stream_type frame ∧ ∃ s, streams m !! a = Some s ∧ ps_id s = sget frame "id"
  | ToReceipt a => is_Some (receipt_chans m !! a)
  end.

(** The critical sections of the readers and the waiters. A delivery may come any time
    after its lookup: the lock is not held in between. *)
Inductive mux_step : mux → mux → Prop :=
  | step_register id m : mux_step m (registerRPC id m).2
  | step_unregister id pc m : mux_step m (unregisterRPC id pc m)
  | step_subscribe id m : mux_step m (registerSubscription id m).2
  | step_unsubscribe id ps s m m' :
      streams m !! ps = Some s → ps_id s = id →
      unregisterSubscription id ps m = Some m' → mux_step m m'
  | step_deliver frame t b m m' :
      looked_up frame t m → route_deliver frame t m = Some (b, m') → mux_step m m'
  | step_reply pc m : mux_step m (recv_reply pc m).2
  | step_err pc m : mux_step m (recv_err pc m).2
  | step_stream ps m : mux_step m (recv_stream ps m).2.

Definition call_ok (c : pendingCall) : Prop :=
  chan_ok (replyCh c) ∧ chan_ok (errCh c) ∧ cap (replyCh c) = 1 ∧ cap (errCh c) = 1.

Definition sub_ok (s : pendingSubscription) : Prop :=
  chan_ok (streamCh s) ∧ cap (streamCh s) = 16 ∧
  ∀ frame, frame ∈ buf (streamCh s) → stream_type frame ∧ sget frame "id" = ps_id s.

(** Every waiter's channels are open and within their capacity, a stream holds frames
    of its own subscription only, nobody waits for receipts, the tables point to
    waiters of the right id, and addresses are fresh. *)
Record mux_inv (m : mux) : Prop := {
  inv_calls a c : calls m !! a = Some c → call_ok c ∧ a < next_addr m;
  inv_streams a s : streams m !! a = Some s → sub_ok s ∧ a < next_addr m;
  inv_receipts : receipts m = ∅ ∧ receipt_chans m = ∅;
  inv_subs id a : subs m !! id = Some a → ∃ s, streams m !! a = Some s ∧ ps_id s = id ∧ ps_done s = false;
  inv_rpcs id a : rpcs m !! id = Some a → ∃ c, calls m !! a = Some c ∧ pc_id c = id;
}.

(** * Lemmas *)

Lemma mux_inv_new : mux_inv newMux.
Proof. split; [done..|split; done|done|done]. Qed.

(** Replacing a waiter by one with the same id keeps the invariant. *)
Lemma update_call_inv m a c c' :
  mux_inv m → calls m !! a = Some c → call_ok c' → pc_id c' = pc_id c →
  mux_inv (set_calls (<[a := c']> (calls m)) m).
Proof.
  intros [Hc Hs Hr Hl Hp] Ha Hok Hid. split; simpl; auto.
  - intros a' c''. rewrite lookup_insert. case_decide; [|apply Hc].
    intros [= <-]. subst. split; [done|]. by apply (Hc _ c).
  - intros id a' H. destruct (Hp _ _ H) as (c0 & H0 & <-). rewrite lookup_insert.
    case_decide; subst; [|by exists c0]. simplify_eq. by exists c'.
Qed.

Lemma update_stream_inv m a s s' :
  mux_inv m → streams m !! a = Some s → sub_ok s' → ps_id s' = ps_id s → ps_done s' = ps_done s →
  mux_inv (set_streams (<[a := s']> (streams m)) m).
Proof.
  intros [Hc Hs Hr Hl Hp] Ha Hok Hid Hd. split; simpl; auto.
  - intros a' s''. rewrite lookup_insert. case_decide; [|apply Hs].
    intros [= <-]. subst. split; [done|]. by apply (Hs _ s).
  - intros id a' H. destruct (Hl _ _ H) as (s0 & H0 & <- & Hd0). rewrite lookup_insert.
    case_decide; subst; [|by exists s0]. simplify_eq. exists s'.
    split; [done|]. by rewrite Hid, Hd.
Qed.

Lemma register_inv id m : mux_inv m → mux_inv (registerRPC id m).2.
Proof.
  intros [Hc Hs Hr Hl Hp]. split; simpl; auto.
  - intros a c. rewrite lookup_insert. case_decide as E.
    + intros [= <-]. split; [|lia]. repeat split; simpl; lia.
    + intros H. destruct (Hc _ _ H). split; [done|lia].
  - intros a s H. destruct (Hs _ _ H). split; [done|lia].
  - intros id' a. rewrite !lookup_insert. case_decide as E.
    + intros [= <-]. subst. rewrite decide_True by done. by eexists.
    + intros H. destruct (Hp _ _ H) as (c & Hcc & <-). exists c. split; [|done].
      rewrite decide_False; [done|]. apply Hc in Hcc as [_ ?]. lia.
Qed.

Lemma subscribe_inv id m : mux_inv m → mux_inv (registerSubscription id m).2.
Proof.
  intros [Hc Hs Hr Hl Hp]. split; simpl; auto.
  - intros a c H. destruct (Hc _ _ H). split; [done|lia].
  - intros a s. rewrite lookup_insert. case_decide as E.
    + intros [= <-]. split; [|lia]. split; [apply make_chan_ok|]. split; [done|].
      intros frame H. by apply not_elem_of_nil in H.
    + intros H. destruct (Hs _ _ H). split; [done|lia].
  - intros id' a. rewrite !lookup_insert. case_decide as E.
    + intros [= <-]. subst. rewrite decide_True by done. by eexists.
    + intros H. destruct (Hl _ _ H) as (s & Hss & <- & Hd). exists s. split; [|done].
      rewrite decide_False; [done|]. apply Hs in Hss as [_ ?]. lia.
Qed.

Lemma unregister_inv id pc m : mux_inv m → mux_inv (unregisterRPC id pc m).
Proof.
  intros H. unfold unregisterRPC. case_bool_decide; [|done].
  destruct H as [Hc Hs Hr Hl Hp]. split; simpl; auto.
  intros id' a. rewrite lookup_delete. case_decide; [done|]. apply Hp.
Qed.

Lemma unsubscribe_inv id ps s m m' :
  streams m !! ps = Some s → ps_id s = id →
  unregisterSubscription id ps m = Some m' → mux_inv m → mux_inv m'.
Proof.
  intros Hps Hid Hu [Hc Hs Hr Hl Hp]. unfold unregisterSubscription in Hu.
  assert (Hst : ∀ x, streams (if bool_decide (subs m !! id = Some ps)
    then set_subs (delete id (subs m)) m else m) !! x = streams m !! x)
    by (intros; by case_bool_decide).
  rewrite Hst, Hps in Hu. destruct (ps_done s); [done|]. injection Hu as <-.
  clear Hst. case_bool_decide as Hsub; split; simpl; auto.
  - intros a s0. rewrite lookup_insert. case_decide; [|apply Hs].
    intros [= <-]. subst. apply (Hs _ _ Hps).
  - intros id' a. rewrite lookup_insert, lookup_delete. case_decide; [done|]. intros H'.
    destruct (Hl _ _ H') as (s0 & H0 & Hi0 & Hd0). case_decide; [|by exists s0].
    subst. simplify_eq.
  - intros a s0. rewrite lookup_insert. case_decide; [|apply Hs].
    intros [= <-]. subst. apply (Hs _ _ Hps).
  - intros id' a H'. rewrite lookup_insert. destruct (Hl _ _ H') as (s0 & H0 & Hi0 & Hd0).
    case_decide; [|by exists s0]. subst. by simplify_eq.
Qed.

Lemma deliver_inv frame t b m m' :
  looked_up frame t m → route_deliver frame t m = Some (b, m') → mux_inv m → mux_inv m'.
Proof.
  intros Hl Hd Hi. destruct t as [|a|a|a]; simpl in Hd.
  - by simplify_eq.
  - destruct (calls m !! a) as [c|] eqn:Ha; [|done]. simpl in Hd.
    destruct (inv_calls _ Hi _ _ Ha) as [(Hr & He & Hcr & Hce) _].
    destruct (_ =s "error").
    + destruct (try_send _ (errCh c)) as [ch|] eqn:Es; [|done]. simplify_eq/=.
      eapply update_call_inv; [done..| |done].
      destruct (try_send_ok _ _ _ Es He) as [? ?]. unfold call_ok; simpl. rewrite Hce in *. tauto.
    + destruct (try_send _ (replyCh c)) as [ch|] eqn:Es; [|done]. simplify_eq/=.
      eapply update_call_inv; [done..| |done].
      destruct (try_send_ok _ _ _ Es Hr) as [? ?]. unfold call_ok; simpl. rewrite Hcr in *. tauto.
  - destruct Hl as [Ht (s & Ha & Hid)]. rewrite Ha in Hd. simpl in Hd.
    destruct (inv_streams _ Hi _ _ Ha) as [(Hok & Hcap & Hbuf) _].
    destruct (ps_done s) eqn:Edone; [by simplify_eq|].
    destruct (try_send _ _) as [ch|] eqn:Es; [|done]. simplify_eq/=.
    eapply update_stream_inv; [done..| |done|done].
    destruct (try_send_ok _ _ _ Es Hok) as [? ?]. split; [done|]. split; [simpl; congruence|].
    intros fr Hfr. simpl in *. destruct (try_send_elem _ _ _ _ Es Hfr) as [?| ->]; auto.
  - destruct (inv_receipts _ Hi) as [_ Hr]. rewrite Hr in Hd. by rewrite lookup_empty in Hd.
Qed.

Lemma recv_reply_inv pc m : mux_inv m → mux_inv (recv_reply pc m).2.
Proof.
  intros Hi. unfold recv_reply. destruct (calls m !! pc) as [c|] eqn:Ha; [|done].
  destruct (inv_calls _ Hi _ _ Ha) as [(Hr & He & Hcr & Hce) _].
  pose proof (try_recv_ok _ Hr) as [Hok Hcap]. destruct (try_recv _) as [r ch]. simpl in *.
  eapply update_call_inv; [done..| |done]. unfold call_ok; simpl. rewrite Hcr in *. tauto.
Qed.

Lemma recv_err_inv pc m : mux_inv m → mux_inv (recv_err pc m).2.
Proof.
  intros Hi. unfold recv_err. destruct (calls m !! pc) as [c|] eqn:Ha; [|done].
  destruct (inv_calls _ Hi _ _ Ha) as [(Hr & He & Hcr & Hce) _].
  pose proof (try_recv_ok _ He) as [Hok Hcap]. destruct (try_recv _) as [r ch]. simpl in *.
  eapply update_call_inv; [done..| |done]. unfold call_ok; simpl. rewrite Hce in *. tauto.
Qed.

Lemma recv_stream_inv ps m : mux_inv m → mux_inv (recv_stream ps m).2.
Proof.
  intros Hi. unfold recv_stream. destruct (streams m !! ps) as [s|] eqn:Ha; [|done].
  destruct (inv_streams _ Hi _ _ Ha) as [(Hok & Hcap & Hbuf) _].
  pose proof (try_recv_ok _ Hok) as [Hok' Hcap'].
  assert (∀ x, x ∈ buf (try_recv (streamCh s)).2 → x ∈ buf (streamCh s)) as Hsub.
  { intros x. unfold try_recv. destruct (buf (streamCh s)) as [|y l] eqn:E; simpl; [by rewrite E|].
    apply list_elem_of_further. }
  destruct (try_recv _) as [r ch]. simpl in *.
  eapply update_stream_inv; [done..| |done|done]. split; [done|]. split; [by rewrite <-Hcap|].
  intros fr Hfr. by apply Hbuf, Hsub.
Qed.

Lemma mux_step_inv m m' : mux_step m m' → mux_inv m → mux_inv m'.
Proof.
  destruct 1; eauto using register_inv, unregister_inv, subscribe_inv, unsubscribe_inv,
    deliver_inv, recv_reply_inv, recv_err_inv, recv_stream_inv.
Qed.

Lemma mux_reachable_inv m : rtc mux_step newMux m → mux_inv m.
Proof.
  intros H. cut (mux_inv newMux → mux_inv m); [intros Hc; apply Hc, mux_inv_new|].
  induction H as [|m1 m2 m3 Hs _ IH]; [done|]. intros Hi. by apply IH, (mux_step_inv m1).
Qed.

(** ** Routing *)

(** Whether somebody waits for [frame]. *)
Definition awaited (frame : gomap) (m : mux) : bool :=
  match route_lookup frame m with NoWaiter => false | _ => true end.

Lemma route_lookup_spec frame m :
  mux_inv m →
  match route_lookup frame m with
  | NoWaiter => True
  | ToCall a => call_type frame ∧ sget frame "id" ≠ "" ∧ rpcs m !! sget frame "id" = Some a
  | ToStream a => stream_type frame ∧ sget frame "id" ≠ "" ∧ subs m !! sget frame "id" = Some a
  | ToReceipt _ => False
  end.
Proof.
  intros Hi. unfold route_lookup, call_type, stream_type. destruct frame as [fr|]; [|done].
  destruct (_ || _) eqn:E1.
  { destruct (_ =s "") eqn:Eid; [done|]. bool_to_prop.
    destruct (rpcs m !! _) eqn:El; [simpl|done].
    apply orb_true_iff in E1. rewrite !String.eqb_eq in E1. done. }
  destruct (_ || _) eqn:E2 in |- *.
  { destruct (_ =s "") eqn:Eid; [done|]. bool_to_prop.
    destruct (subs m !! _) eqn:El; [simpl|done].
    apply orb_true_iff in E2. rewrite !String.eqb_eq in E2. done. }
  destruct (_ =s "receipt_response"); [|done]. destruct (_ =s ""); [done|].
  destruct (inv_receipts _ Hi) as [-> _]. by rewrite lookup_empty.
Qed.

(** A lookup is remembered correctly: the waiter it found still has the frame's id. *)
Lemma route_lookup_looked_up frame m : mux_inv m → looked_up frame (route_lookup frame m) m.
Proof.
  intros Hi. pose proof (route_lookup_spec frame m Hi) as H.
  destruct (route_lookup frame m) as [|a|a|a]; simpl in *; [done| | |done].
  - destruct H as (Ht & _ & Ha). split; [done|]. by apply (inv_rpcs _ Hi) in Ha.
  - destruct H as (Ht & _ & Ha). split; [done|].
    apply (inv_subs _ Hi) in Ha as (s & ? & ? & _). by exists s.
Qed.

(** In a reachable store a delivery never panics, and consumes the frame exactly when
    a waiter was found. *)
Lemma deliver_total frame t m :
  mux_inv m → looked_up frame t m →
  ∃ m', route_deliver frame t m = Some (match t with NoWaiter => false | _ => true end, m').
Proof.
  intros Hi Hl. destruct t as [|a|a|a]; simpl.
  - by eexists.
  - destruct Hl as [_ (c & Ha & _)]. rewrite Ha. simpl.
    destruct (inv_calls _ Hi _ _ Ha) as [((Hr & _) & (He & _) & _ & _) _].
    destruct (_ =s "error"); rewrite try_send_open by done; by eexists.
  - destruct Hl as [_ (s & Ha & _)]. rewrite Ha. simpl.
    destruct (inv_streams _ Hi _ _ Ha) as [((Ho & _) & _) _].
    destruct (ps_done s); [by eexists|]. rewrite try_send_open by done. by eexists.
  - destruct (inv_receipts _ Hi) as [_ Hr]. simpl in Hl.
    rewrite Hr, lookup_empty in Hl. by destruct Hl.
Qed.

Lemma route_unconsumed frame m m' : route frame m = Some (false, m') → m' = m.
Proof.
  unfold route, route_deliver. destruct (route_lookup frame m) as [|a|a|a]; intros H;
    repeat (branch_in H; simplify_eq/=; try done);
    repeat match goal with
    | H : _ ≫= _ = Some _ |- _ => apply bind_Some in H as (? & _ & H)
    end; repeat (branch_in H; simplify_eq/=);
    repeat match goal with
    | H : _ ≫= _ = Some _ |- _ => apply bind_Some in H as (? & _ & H)
    end; simplify_eq/=; done.
Qed.

(** Routing a sequence of frames with nothing in between. *)
Fixpoint route_all (frames : list gomap) (m : mux) : option mux :=
  match frames with
  | [] => Some m
  | frame :: frames =>
      match route frame m with
      | Some (_, m) => route_all frames m
      | None => None
      end
  end.

Definition is_reply (typ id : string) (frame : gomap) : bool :=
  match frame with
  | None => false
  | Some _ => (sget frame "type" =s typ) && (sget frame "id" =s id)
  end.

(** A list of offers to an open channel keeps what fits, in order. *)
Definition offers {A} (ch : chan A) (xs : list A) : list A := take (cap ch) (buf ch ++ xs).

Lemma offers_nil {A} (ch : chan A) : chan_ok ch → offers ch [] = buf ch.
Proof. intros [_ H]. unfold offers. by rewrite app_nil_r, take_ge. Qed.

Lemma try_send_offers {A} (x : A) ch :
  chan_ok ch → try_send x ch = Some (Chan (offers ch [x]) (cap ch) false).
Proof.
  intros [Hc Hl]. rewrite try_send_open by done. unfold offers. by rewrite Nat.max_l by lia.
Qed.

Lemma offers_offers {A} (ch : chan A) xs ys :
  chan_ok ch → take (cap ch) (offers ch xs ++ ys) = offers ch (xs ++ ys).
Proof.
  intros [_ Hl]. unfold offers. rewrite app_assoc.
  destruct (decide (length (buf ch ++ xs) ≤ cap ch)).
  - by rewrite (take_ge (buf ch ++ xs)) by done.
  - rewrite (take_app_le _ ys) by (rewrite length_take; lia).
    rewrite (take_app_le _ ys) by lia. by rewrite take_take, Nat.min_id.
Qed.

Section one_call.
Context (id : string) (pc : nat) (c : pendingCall) (m : mux).
Context (Hi : mux_inv m) (Hid : id ≠ "") (Hpc : rpcs m !! id = Some pc)
  (Hc : calls m !! pc = Some c).

Lemma pc_id_eq : pc_id c = id.
Proof using All. destruct (inv_rpcs _ Hi _ _ Hpc) as (c' & ? & <-). by simplify_eq. Qed.

Lemma is_reply_lookup typ frame :
  typ = "response" ∨ typ = "error" → is_reply typ id frame = true →
  route_lookup frame m = ToCall pc ∧ sget frame "type" = typ.
Proof using Hid Hpc.
  intros Ht Hr. unfold is_reply in Hr. destruct frame as [fr|]; [|done].
  apply andb_true_iff in Hr as [H1 H2]. apply String.eqb_eq in H1, H2.
  split; [|done]. unfold route_lookup. rewrite H1, H2.
  rewrite (proj2 (String.eqb_neq id "")) by done. rewrite Hpc. by destruct Ht as [-> | ->].
Qed.

(** The waiter after one frame. *)
Definition after (frame : gomap) : pendingCall :=
  if is_reply "response" id frame then
    PendingCall (pc_id c) (Chan (offers (replyCh c) [frame_result frame]) 1 false) (errCh c)
  else if is_reply "error" id frame then
    PendingCall (pc_id c) (replyCh c) (Chan (offers (errCh c) [frame_error frame]) 1 false)
  else c.

Lemma lookup_not_reply a frame :
  route_lookup frame m = ToCall a → a ≠ pc →
  is_reply "response" id frame = false ∧ is_reply "error" id frame = false.
Proof using Hid Hpc.
  intros Hl Ha. split; apply not_true_iff_false; intros Hr;
    apply is_reply_lookup in Hr as [Hr _]; auto; congruence.
Qed.

Lemma lookup_reply frame :
  route_lookup frame m = ToCall pc →
  is_reply "response" id frame = true ∧ sget frame "type" = "response" ∨
  is_reply "response" id frame = false ∧ is_reply "error" id frame = true ∧
    sget frame "type" = "error".
Proof using All.
  intros El. pose proof (route_lookup_spec frame m Hi) as H. rewrite El in H.
  destruct H as (Ht & _ & Ha). destruct (inv_rpcs _ Hi _ _ Ha) as (c' & Hc' & Hid').
  rewrite Hc in Hc'. injection Hc' as <-. pose proof pc_id_eq as E.
  destruct frame as [fr|]; [|by destruct Ht as [H|H]; discriminate H].
  unfold is_reply. rewrite <-Hid', E, String.eqb_refl, !andb_true_r.
  destruct Ht as [-> | ->]; auto.
Qed.

Lemma route_call frame b m' :
  route frame m = Some (b, m') → rpcs m' !! id = Some pc ∧ calls m' !! pc = Some (after frame).
Proof using All.
  intros Hr. unfold route in Hr.
  destruct (inv_calls _ Hi _ _ Hc) as [(Hro & Heo & Hcr & Hce) _].
  pose proof (route_lookup_spec frame m Hi) as Hl.
  destruct (route_lookup frame m) as [|a|a|a] eqn:El; simpl in Hr; [| | |done].
  - injection Hr as <- <-. split; [done|]. unfold after.
    destruct (is_reply "response" id frame) eqn:E1.
    { apply is_reply_lookup in E1 as [E _]; [congruence|auto]. }
    destruct (is_reply "error" id frame) eqn:E2; [|done].
    apply is_reply_lookup in E2 as [E _]; [congruence|auto].
  - destruct (decide (a = pc)) as [->|Ha].
    + rewrite Hc in Hr. simpl in Hr. unfold after.
      destruct (lookup_reply frame El) as [[E1 Ety]|(E1 & E2 & Ety)];
        rewrite ?E1, ?E2; rewrite Ety in Hr; simpl in Hr;
        rewrite try_send_offers in Hr by done; simplify_eq/=;
        rewrite lookup_insert_eq, ?Hcr, ?Hce; done.
    + destruct (lookup_not_reply a frame El Ha) as [E1 E2]. unfold after. rewrite E1, E2.
      destruct (calls m !! a) as [ca|]; [|done]. simpl in Hr.
      destruct (_ =s "error"); (destruct (try_send _ _); [|done]); simplify_eq/=;
        by rewrite lookup_insert_ne.
  - assert (rpcs m' = rpcs m ∧ calls m' = calls m) as [-> ->].
    { destruct (streams m !! a) as [s|]; [|done]. simpl in Hr.
      destruct (ps_done s); [by simplify_eq|]. destruct (try_send _ _); [|done].
      by simplify_eq/=. }
    split; [done|]. unfold after. destruct Hl as (Ht & _ & _).
    destruct (is_reply "response" id frame) eqn:E1.
    { apply is_reply_lookup in E1 as [_ E]; [|auto]. destruct Ht; congruence. }
    destruct (is_reply "error" id frame) eqn:E2; [|done].
    apply is_reply_lookup in E2 as [_ E]; [|auto]. destruct Ht; congruence.
Qed.
End one_call.

Definition results (id : string) (frames : list gomap) : list gomap :=
  frame_result <$> filter (λ f, is_reply "response" id f = true) frames.
Definition errors (id : string) (frames : list gomap) : list DaemonError :=
  frame_error <$> filter (λ f, is_reply "error" id f = true) frames.

Lemma route_inv frame b m m' : mux_inv m → route frame m = Some (b, m') → mux_inv m'.
Proof. intros Hi Hr. eapply deliver_inv; [|exact Hr|done]. by apply route_lookup_looked_up. Qed.

(** A delivery leaves the tables alone. *)
Lemma deliver_tables frame t b m m' :
  route_deliver frame t m = Some (b, m') →
  rpcs m' = rpcs m ∧ subs m' = subs m ∧ receipts m' = receipts m.
Proof.
  destruct t as [|a|a|a]; simpl; intros H; [by simplify_eq|..];
    apply bind_Some in H as (w & _ & H); repeat branch_in H; simplify_eq/=; try done;
    apply bind_Some in H as (ch & _ & H); by simplify_eq/=.
Qed.

Lemma awaited_tables frame m m' :
  rpcs m' = rpcs m → subs m' = subs m → receipts m' = receipts m →
  awaited frame m' = awaited frame m.
Proof. intros H1 H2 H3. unfold awaited, route_lookup. by rewrite H1, H2, H3. Qed.

(** Routing never panics; it consumes what is awaited and changes nobody's
    registration. *)
Lemma route_total frame m :
  mux_inv m →
  ∃ m', route frame m = Some (awaited frame m, m') ∧ mux_inv m' ∧
    ∀ f, awaited f m' = awaited f m.
Proof.
  intros Hi. destruct (deliver_total frame (route_lookup frame m) m Hi (route_lookup_looked_up _ _ Hi))
    as [m' Hd].
  exists m'. split; [exact Hd|]. split; [by eapply route_inv|]. intros f.
  apply deliver_tables in Hd as (? & ? & ?). by apply awaited_tables.
Qed.

(** The reply channels of a waiter after any sequence of frames. *)
Lemma route_all_call id pc c frames m m' :
  mux_inv m → id ≠ "" → rpcs m !! id = Some pc → calls m !! pc = Some c →
  route_all frames m = Some m' →
  ∃ c', calls m' !! pc = Some c' ∧
    buf (replyCh c') = offers (replyCh c) (results id frames) ∧
    buf (errCh c') = offers (errCh c) (errors id frames).
Proof.
  revert c m. induction frames as [|f fs IH]; intros c m Hi Hid Hpc Hc Hr; simpl in Hr.
  - destruct (inv_calls _ Hi _ _ Hc) as [(Hro & Heo & _) _]. simplify_eq.
    exists c. unfold results, errors. simpl. by rewrite !offers_nil.
  - destruct (route f m) as [[b m1]|] eqn:E; [|done].
    destruct (inv_calls _ Hi _ _ Hc) as [(Hro & Heo & Hcr & Hce) _].
    destruct (route_call id pc c m Hi Hid Hpc Hc f b m1 E) as [Hpc1 Hc1].
    pose proof (route_inv _ _ _ _ Hi E) as Hi1.
    destruct (IH _ _ Hi1 Hid Hpc1 Hc1 Hr) as (c' & Hc' & Hr1 & He1). exists c'.
    split; [done|]. rewrite Hr1, He1. clear Hr1 He1. unfold results, errors, after. rewrite !filter_cons.
    destruct (is_reply "response" id f) eqn:E1.
    + assert (is_reply "error" id f = false) as E2.
      { destruct f; [|done]. unfold is_reply in *. apply andb_true_iff in E1 as [E1%String.eqb_eq _].
        by rewrite E1. }
      rewrite E2. rewrite decide_True, decide_False by done. simpl.
      split; [|done]. unfold offers at 1. simpl. rewrite <-Hcr. by rewrite offers_offers.
    + rewrite decide_False by done. destruct (is_reply "error" id f) eqn:E2.
      * rewrite decide_True by done. simpl. split; [done|].
        unfold offers at 1. simpl. rewrite <-Hce. by rewrite offers_offers.
      * by rewrite decide_False.
Qed.

(** ** Properties *)

(** C5. In every reachable state the router does not panic; it consumes a frame exactly
    when a waiter of the frame's id and kind is registered, and otherwise leaves the
    waiters as they were, so that the frame can flow on to the application. *)
Theorem route_complete (m : mux) (frame : gomap) (Hm : rtc mux_step newMux m) :
  ∃ m', route frame m = Some (awaited frame m, m') ∧
    (awaited frame m = false → m' = m) ∧
    (awaited frame m = true ↔
     frame ≠ None ∧ sget frame "id" ≠ "" ∧
     (call_type frame ∧ is_Some (rpcs m !! sget frame "id") ∨
      stream_type frame ∧ is_Some (subs m !! sget frame "id"))).
Proof.
  apply mux_reachable_inv in Hm as Hi.
  destruct (deliver_total frame (route_lookup frame m) m Hi (route_lookup_looked_up _ _ Hi))
    as [m' Hd].
  exists m'. split; [exact Hd|]. unfold awaited.
  split.
  { intros Hn. apply (route_unconsumed frame). unfold route. rewrite Hd. by rewrite Hn. }
  pose proof (route_lookup_spec frame m Hi) as Hl. clear Hd. split.
  - destruct (route_lookup frame m) as [|a|a|a] eqn:El; try done; intros _;
      (split; [by intros ->|]); destruct Hl as (Ht & Hne & Ha); (split; [done|]);
      [left|right]; by rewrite Ha.
  - intros (Hf & Hne & H). unfold route_lookup. destruct frame as [fr|]; [|done].
    rewrite (proj2 (String.eqb_neq _ _) Hne).
    destruct H as [[[-> | ->] [a ->]]|[[-> | ->] [a ->]]]; done.
Qed.

(** C12. A request gets its first response and its first error, and no later ones: after
    any frames, the waiter's channels hold the first result and the first error that
    carry its id, whoever else is waiting. *)
Theorem first_reply_wins (m : mux) (id : string) (frames : list gomap) (m' : mux)
    (Hm : rtc mux_step newMux m) (Hid : id ≠ "")
    (Hroute : route_all frames (registerRPC id m).2 = Some m') :
  (recv_reply (registerRPC id m).1 m').1 = head (results id frames) ∧
  (recv_err (registerRPC id m).1 m').1 = head (errors id frames).
Proof.
  apply mux_reachable_inv, (register_inv id) in Hm.
  destruct (route_all_call id (next_addr m) (PendingCall id (make_chan 1) (make_chan 1))
    frames _ m' Hm Hid) as (c & Hc & Hr & He); [| |exact Hroute|].
  { simpl. apply lookup_insert_eq. }
  { simpl. apply lookup_insert_eq. }
  unfold recv_reply, recv_err, try_recv. simpl. rewrite Hc, Hr, He. unfold offers. simpl.
  split; [by destruct (results id frames)|by destruct (errors id frames)].
Qed.

(** Whatever a subscription's stream yields is a [next] or [complete] frame of that
    subscription: an [error] frame never reaches a subscription waiter. *)
Theorem stream_frames_only (m m' : mux) (ps : nat) (s : pendingSubscription) (frame : gomap)
    (Hm : rtc mux_step newMux m) (Hs : streams m !! ps = Some s)
    (Hr : recv_stream ps m = (Some frame, m')) :
  (sget frame "type" = "next" ∨ sget frame "type" = "complete") ∧
  sget frame "id" = ps_id s.
Proof.
  apply mux_reachable_inv in Hm as Hi.
  destruct (inv_streams _ Hi _ _ Hs) as [(_ & _ & Hbuf) _].
  unfold recv_stream, try_recv in Hr. rewrite Hs in Hr.
  destruct (buf (streamCh s)) as [|y l] eqn:E; [done|]. simplify_eq/=.
  apply Hbuf. set_solver.
Qed.

Lemma unregister_other id pc m : rpcs m !! id ≠ Some pc → unregisterRPC id pc m = m.
Proof. intros H. unfold unregisterRPC. by rewrite bool_decide_eq_false_2. Qed.

Lemma unregister_registered id pc m :
  rpcs m !! id = Some pc → unregisterRPC id pc m = set_rpcs (delete id (rpcs m)) m.
Proof. intros H. unfold unregisterRPC. by rewrite bool_decide_eq_true_2. Qed.

(** Ending a wait removes its own registration and nobody else's: a newer request that
    reused the id stays registered. *)
Theorem unregister_own (m : mux) (id : string) :
  let '(pc1, m1) := registerRPC id m in
  let '(pc2, m2) := registerRPC id m1 in
  rpcs (unregisterRPC id pc1 m2) !! id = Some pc2 ∧
  rpcs (unregisterRPC id pc1 m1) = delete id (rpcs m) ∧
  rpcs (unregisterRPC id pc2 (unregisterRPC id pc1 m2)) = delete id (rpcs m).
Proof.
  simpl. rewrite !(unregister_other id (next_addr m) (Mux (<[id:=S (next_addr m)]> _) _ _ _ _ _ _))
    by (simpl; rewrite lookup_insert_eq; intros [=]; lia).
  simpl. split; [apply lookup_insert_eq|].
  rewrite !unregister_registered by (simpl; apply lookup_insert_eq). simpl.
  by rewrite insert_insert_eq, !delete_insert_eq.
Qed.

Definition reply_frame (id : string) : gomap :=
  Some (mlit [("type", VStr "response"); ("id", VStr id); ("result", obj [("ok", VBool true)])]).
Definition next_frame (id : string) : gomap :=
  Some (mlit [("type", VStr "next"); ("id", VStr id)]).

Lemma route_complete_witness :
  rtc mux_step newMux newMux ∧
  ∃ m', route (reply_frame "r1") newMux = Some (awaited (reply_frame "r1") newMux, m').
Proof.
  split; [apply rtc_refl|].
  destruct (route_complete newMux (reply_frame "r1") (rtc_refl _ _)) as (m' & H & _).
  by exists m'.
Defined.

Lemma first_reply_wins_witness :
  ∃ m', route_all [reply_frame "r0"; reply_frame "r1"; reply_frame "r1"]
          (registerRPC "r1" newMux).2 = Some m' ∧
        (recv_reply 0 m').1 = Some (Some (mlit [("ok", VBool true)])).
Proof.
  eexists. split; [vm_compute; reflexivity|].
  edestruct (first_reply_wins newMux "r1" [reply_frame "r0"; reply_frame "r1"; reply_frame "r1"])
    as [H _]; [apply rtc_refl|done|vm_compute; reflexivity|].
  etransitivity; [exact H|]. vm_compute. reflexivity.
Defined.

(** A subscription with one frame delivered. *)
Definition subscribed : mux :=
  set_streams {[0 := PendingSubscription "s1" (Chan [next_frame "s1"] 16 false) false]}
    (registerSubscription "s1" newMux).2.

Lemma subscribed_reachable : rtc mux_step newMux subscribed.
Proof.
  eapply rtc_l; [apply (step_subscribe "s1")|].
  eapply rtc_l; [|apply rtc_refl].
  apply (step_deliver (next_frame "s1") (ToStream 0) true).
  - split; [by left|]. by eexists.
  - vm_compute. reflexivity.
Qed.

Lemma stream_frames_only_witness :
  rtc mux_step newMux subscribed ∧ sget (next_frame "s1") "id" = "s1".
Proof.
  split; [apply subscribed_reachable|].
  destruct (stream_frames_only subscribed (recv_stream 0 subscribed).2 0
    (PendingSubscription "s1" (Chan [next_frame "s1"] 16 false) false) (next_frame "s1"))
    as [_ H]; [apply subscribed_reachable|reflexivity|reflexivity|exact H].
Defined.
