(* ===== verification/Heartbeat.v ===== *)
(** Daemon health tracking (heartbeat.go). Instants and durations are nanoseconds; the
    zero [time.Time] is instant 0, year 1, and [time.Since] saturates at the largest
    [time.Duration]. *)

From S2P Require Import Prelude GoStr Value.

(** * Definitions *)

Definition second : Z := 1000000000.

(** [time.Since(t)] at instant [now]. *)
Definition since (now t : Z) : Z := Z.max min_int (Z.min max_int (now - t)).

Record DaemonHealth := MkDaemonHealth {
  LastHeartbeat : Z;
  State : string;
  LoopID : string;
  IsAlive : bool;
}.

Record HeartbeatTracker := Tracker {
  lastHeartbeat : Z;
  daemonState : string;
  heartbeatLoopID : string;
  aliveThreshold : Z;
  startTime : Z;
}.

Definition NewHeartbeatTrackerWithThreshold (now threshold : Z) : HeartbeatTracker :=
  Tracker 0 "" "" threshold now.

Definition NewHeartbeatTracker (now : Z) : HeartbeatTracker :=
  Tracker 0 "" "" (15 * second) now.

Definition Update (now : Z) (data : gomap) (t : HeartbeatTracker) : HeartbeatTracker :=
  Tracker now
    (match to_str (mget data "state") with Some s => s | None => daemonState t end)
    (match to_str (mget data "loop_id") with Some s => s | None => heartbeatLoopID t end)
    (aliveThreshold t) (startTime t).

Definition GetHealth (now : Z) (t : HeartbeatTracker) : DaemonHealth :=
  let timeSinceLast := since now (lastHeartbeat t) in
  let timeSinceStart := since now (startTime t) in
  let gracePeriod := (20 * second)%Z in
  MkDaemonHealth (lastHeartbeat t) (daemonState t) (heartbeatLoopID t)
    ((timeSinceLast <? aliveThreshold t)%Z || (timeSinceStart <? gracePeriod)%Z).

Definition IsProcessing (t : HeartbeatTracker) : bool := daemonState t =s "running".
Definition IsIdle (t : HeartbeatTracker) : bool := daemonState t =s "idle".
Definition GetState (t : HeartbeatTracker) : string := daemonState t.
Definition GetLoopID (t : HeartbeatTracker) : string := heartbeatLoopID t.
Definition GetLastHeartbeat (t : HeartbeatTracker) : Z := lastHeartbeat t.

Definition SetAliveThreshold (threshold : Z) (t : HeartbeatTracker) : HeartbeatTracker :=
  Tracker (lastHeartbeat t) (daemonState t) (heartbeatLoopID t) threshold (startTime t).

Definition Reset_tracker (now : Z) (t : HeartbeatTracker) : HeartbeatTracker :=
  Tracker 0 "" "" (aliveThreshold t) now.

(** [ProcessHeartbeatEvent]: whether the event was a heartbeat, and the tracker. *)
Definition ProcessHeartbeatEvent (event : gomap) (t : HeartbeatTracker) : bool * HeartbeatTracker :=
  match to_str (mget event "type") with
  | Some eventType =>
      if eventType <>s "event" then (false, t)
      else match to_map (mget event "data") with
           | None => (false, t)
           | Some _ => (false, t)
           end
  | None => (false, t)
  end.

(** What the [select] of [WaitForAlive] wakes up for, with the instant it does. *)
Inductive wake := Deadline (now : Z) | CheckTick (now : Z).

Record HeartbeatError := MkHeartbeatError {
  he_LastHeartbeat : Z;
  he_State : string;
  he_Message : string;
}.

(** [None]: still waiting after these wake-ups. *)
Fixpoint WaitForAlive (wakes : list wake) (t : HeartbeatTracker) : option (option HeartbeatError) :=
  match wakes with
  | [] => None
  | Deadline now :: _ =>
      let health := GetHealth now t in
      Some (Some (MkHeartbeatError (LastHeartbeat health) (State health)
                    "timeout waiting for daemon to be alive"))
  | CheckTick now :: wakes =>
      if IsAlive (GetHealth now t) then Some None else WaitForAlive wakes t
  end.

(** Everything that can happen to a tracker once the client holds it. *)
Inductive tracker_op :=
  | OpFrame (event : gomap)
  | OpThreshold (threshold : Z)
  | OpUpdate (now : Z) (data : gomap)
  | OpReset (now : Z).

Definition tracker_run (ops : list tracker_op) (t : HeartbeatTracker) : HeartbeatTracker :=
  foldl (λ t op,
    match op with
    | OpFrame event => (ProcessHeartbeatEvent event t).2
    | OpThreshold d => SetAliveThreshold d t
    | OpUpdate now data => Update now data t
    | OpReset now => Reset_tracker now t
    end) t ops.

(** * Lemmas *)

Lemma ProcessHeartbeatEvent_inert event t : ProcessHeartbeatEvent event t = (false, t).
Proof. unfold ProcessHeartbeatEvent. by branches. Qed.

Lemma since_small now t d : (now - t < d)%Z → (0 < d <= max_int)%Z → (since now t <? d)%Z = true.
Proof. intros. apply Z.ltb_lt. unfold since, min_int, max_int in *. lia. Qed.

Lemma since_large now t d : (d <= now - t)%Z → (d <= max_int)%Z → (since now t <? d)%Z = false.
Proof. intros. apply Z.ltb_ge. unfold since, max_int in *. lia. Qed.

Definition passive (op : tracker_op) : bool :=
  match op with OpFrame _ | OpThreshold _ => true | _ => false end.

Lemma passive_run ops t :
  Forall (λ op, passive op = true) ops →
  lastHeartbeat (tracker_run ops t) = lastHeartbeat t ∧ startTime (tracker_run ops t) = startTime t ∧
  daemonState (tracker_run ops t) = daemonState t.
Proof.
  intros H. revert t. induction H as [|op ops Hop _ IH]; intros t; [done|].
  destruct op; try done; unfold tracker_run in *; simpl.
  - rewrite ProcessHeartbeatEvent_inert. apply IH.
  - destruct (IH (SetAliveThreshold threshold t)) as (-> & -> & ->). done.
Qed.

(** * Properties *)

(** The daemon counts as alive exactly while the last recorded heartbeat is younger than
    the threshold or the tracker younger than twenty seconds. *)
Theorem health_alive (t : HeartbeatTracker) (now : Z)
    (Hth : (0 < aliveThreshold t <= max_int)%Z) (Hstart : (startTime t <= now)%Z) :
  IsAlive (GetHealth now t) = true ↔
  (now < lastHeartbeat t + aliveThreshold t ∨ now < startTime t + 20 * second)%Z.
Proof.
  simpl. rewrite orb_true_iff.
  assert (0 < 20 * second <= max_int)%Z as H20 by (unfold second, max_int; lia).
  split.
  - intros [H|H]; [left|right]; apply Z.nle_gt; intros Hle;
      rewrite since_large in H by lia; done.
  - intros [H|H]; [left|right]; apply since_small; lia.
Qed.

(** Whatever frames the readers feed to a fresh tracker, and whatever thresholds are set
    meanwhile, it reports the daemon dead from twenty seconds on: no frame is a
    heartbeat to it. *)
Theorem frames_never_keep_alive (start now : Z) (ops : list tracker_op)
    (Hops : Forall (λ op, passive op = true) ops)
    (Hstart : (0 <= start)%Z) (Hnow : (start + 20 * second <= now)%Z)
    (Hera : (max_int <= now)%Z) :
  let t := tracker_run ops (NewHeartbeatTracker start) in
  (aliveThreshold t <= max_int)%Z →
  IsAlive (GetHealth now t) = false ∧ State (GetHealth now t) = "".
Proof.
  intros t Ht. destruct (passive_run ops (NewHeartbeatTracker start) Hops) as (H1 & H2 & H3).
  fold t in H1, H2, H3. simpl. rewrite H1, H2, H3. simpl. split; [|done].
  rewrite !since_large; [done|lia|unfold second, max_int; lia|lia|done].
Qed.

(** An update makes the daemon alive at once, with the state it names. *)
Theorem update_alive (t : HeartbeatTracker) (now : Z) (data : gomap) (st : string)
    (Hth : (0 < aliveThreshold t <= max_int)%Z) (Hst : mget data "state" = VStr st) :
  IsAlive (GetHealth now (Update now data t)) = true ∧
  State (GetHealth now (Update now data t)) = st ∧
  ∀ wakes, WaitForAlive (CheckTick now :: wakes) (Update now data t) = Some None.
Proof.
  assert (IsAlive (GetHealth now (Update now data t)) = true) as Ha.
  { simpl. rewrite since_small by lia. done. }
  split; [done|]. split; [simpl; by rewrite Hst|]. intros wakes. simpl in *. by rewrite Ha.
Qed.

Definition beat : gomap := Some (mlit [("type", VStr "event"); ("data", obj [("state", VStr "running")])]).

Lemma health_alive_witness : IsAlive (GetHealth 5 (NewHeartbeatTracker 0)) = true.
Proof. apply health_alive; [by vm_compute|by vm_compute|right; by vm_compute]. Defined.

Lemma frames_never_keep_alive_witness :
  IsAlive (GetHealth (max_int + 20 * second)
    (tracker_run [OpFrame beat; OpFrame beat] (NewHeartbeatTracker max_int))) = false.
Proof.
  apply (frames_never_keep_alive max_int (max_int + 20 * second) [OpFrame beat; OpFrame beat]);
    [by repeat constructor|by vm_compute|done|by vm_compute|by vm_compute].
Defined.

Lemma update_alive_witness :
  State (GetHealth 7 (Update 7 (Some (mlit [("state", VStr "idle")])) (NewHeartbeatTracker 0))) = "idle".
Proof. apply update_alive; [by vm_compute|by vm_compute]. Defined.
