(* ===== verification/Client.v ===== *)
(** The connection state of a client (client.go): the drop signal, the outgoing side of
    the socket, and the state-passing monad in which the readers and the request paths
    are written. A computation yields [None] when the Go code panics. *)

From S2P Require Import Prelude GoStr Value StreamTerminal InboundPriority Pending DeliveryAck.
From S2P Require Import Protocol GoChan Mux Heartbeat.

(** * The drop signal *)

Inductive DisconnectCause := DisconnectUnclean | DisconnectClean.

#[export] Instance DisconnectCause_eq_dec : EqDecision DisconnectCause.
Proof. solve_decision. Defined.

Definition DisconnectCause_String (d : DisconnectCause) : string :=
  match d with DisconnectClean => "clean" | DisconnectUnclean => "unclean" end.

(** [disconnOnce] tells whether the [sync.Once] has run. *)
Record disc := Disc {
  disconnCh : chan DisconnectCause;
  disconnOnce : bool;
  disconnCause : DisconnectCause;
  disconnected : bool;
}.

Definition new_disc : disc := Disc (make_chan 1) false DisconnectUnclean false.

Definition signal (cause : DisconnectCause) (d : disc) : option disc :=
  if disconnOnce d then Some d
  else
    ch ← try_send cause (disconnCh d);
    ch ← close_chan ch;
    Some (Disc ch true cause true).

(** * The client *)

(** What a read of the socket gives: a message, a deadline error, or any other error. *)
Inductive read_result := RData (data : string) | RTimeout | RFail.

(** [conn] is whether the client holds a socket. [sock_in] is what its reads will yield
    (a failure once exhausted), [sock_w] whether its writes succeed, [sock_out] the
    envelopes written so far. *)
Record client := Client {
  conn : bool;
  conn_closed : bool;
  sock_in : list read_result;
  sock_w : bool;
  sock_out : list Envelope;
  c_disc : disc;
  c_in : inbound gomap;
  c_acks : acks;
  c_mux : mux;
  tracker : option HeartbeatTracker;
  readerActive : bool;
  handshakeComplete : bool;
  readinessState : string;
  protocolVersion : string;
  negotiatedCapabilities : gset string;
  heartbeatIntervalMs : Z;
}.

(** [NewClient]. *)
Definition NewClient : client :=
  Client false false [] true [] new_disc new_inbound new_acks newMux None false false "" "" ∅ 0.

(** ** Field updates *)

Definition upd_conn o cl c := Client o cl (sock_in c) (sock_w c) (sock_out c) (c_disc c) (c_in c) (c_acks c) (c_mux c) (tracker c) (readerActive c) (handshakeComplete c) (readinessState c) (protocolVersion c) (negotiatedCapabilities c) (heartbeatIntervalMs c).
Definition upd_sock_in x c := Client (conn c) (conn_closed c) x (sock_w c) (sock_out c) (c_disc c) (c_in c) (c_acks c) (c_mux c) (tracker c) (readerActive c) (handshakeComplete c) (readinessState c) (protocolVersion c) (negotiatedCapabilities c) (heartbeatIntervalMs c).
Definition upd_sock_w x c := Client (conn c) (conn_closed c) (sock_in c) x (sock_out c) (c_disc c) (c_in c) (c_acks c) (c_mux c) (tracker c) (readerActive c) (handshakeComplete c) (readinessState c) (protocolVersion c) (negotiatedCapabilities c) (heartbeatIntervalMs c).
Definition upd_sock_out x c := Client (conn c) (conn_closed c) (sock_in c) (sock_w c) x (c_disc c) (c_in c) (c_acks c) (c_mux c) (tracker c) (readerActive c) (handshakeComplete c) (readinessState c) (protocolVersion c) (negotiatedCapabilities c) (heartbeatIntervalMs c).
Definition upd_disc x c := Client (conn c) (conn_closed c) (sock_in c) (sock_w c) (sock_out c) x (c_in c) (c_acks c) (c_mux c) (tracker c) (readerActive c) (handshakeComplete c) (readinessState c) (protocolVersion c) (negotiatedCapabilities c) (heartbeatIntervalMs c).
Definition upd_in x c := Client (conn c) (conn_closed c) (sock_in c) (sock_w c) (sock_out c) (c_disc c) x (c_acks c) (c_mux c) (tracker c) (readerActive c) (handshakeComplete c) (readinessState c) (protocolVersion c) (negotiatedCapabilities c) (heartbeatIntervalMs c).
Definition upd_acks x c := Client (conn c) (conn_closed c) (sock_in c) (sock_w c) (sock_out c) (c_disc c) (c_in c) x (c_mux c) (tracker c) (readerActive c) (handshakeComplete c) (readinessState c) (protocolVersion c) (negotiatedCapabilities c) (heartbeatIntervalMs c).
Definition upd_mux x c := Client (conn c) (conn_closed c) (sock_in c) (sock_w c) (sock_out c) (c_disc c) (c_in c) (c_acks c) x (tracker c) (readerActive c) (handshakeComplete c) (readinessState c) (protocolVersion c) (negotiatedCapabilities c) (heartbeatIntervalMs c).
Definition upd_tracker x c := Client (conn c) (conn_closed c) (sock_in c) (sock_w c) (sock_out c) (c_disc c) (c_in c) (c_acks c) (c_mux c) x (readerActive c) (handshakeComplete c) (readinessState c) (protocolVersion c) (negotiatedCapabilities c) (heartbeatIntervalMs c).
Definition upd_reader x c := Client (conn c) (conn_closed c) (sock_in c) (sock_w c) (sock_out c) (c_disc c) (c_in c) (c_acks c) (c_mux c) (tracker c) x (handshakeComplete c) (readinessState c) (protocolVersion c) (negotiatedCapabilities c) (heartbeatIntervalMs c).
Definition upd_shake h r p n hb c := Client (conn c) (conn_closed c) (sock_in c) (sock_w c) (sock_out c) (c_disc c) (c_in c) (c_acks c) (c_mux c) (tracker c) (readerActive c) h r p n hb.

(** ** The monad *)

Definition M (A : Type) : Type := client → option (A * client).

Definition ret {A} (x : A) : M A := λ c, Some (x, c).
Definition bind {A B} (m : M A) (f : A → M B) : M B := λ c,
  match m c with Some (x, c) => f x c | None => None end.

Notation "'let!' x ':=' m 'in' k" := (bind m (λ x, k))
  (at level 10, x pattern, m at level 100, k at level 200) : go_scope.
Notation "m ';;!' k" := (bind m (λ _, k)) (at level 100, k at level 200) : go_scope.

Definition get {A} (f : client → A) : M A := λ c, Some (f c, c).
Definition modify (f : client → client) : M unit := λ c, Some (tt, f c).

(** ** Operations *)

Definition signalDisconnect (cause : DisconnectCause) : M unit := λ c,
  match signal cause (c_disc c) with
  | Some d => Some (tt, upd_disc d c)
  | None => None
  end.

(** The errors of the client, by what the code puts in their text. *)
Inductive error :=
  | ErrNotConnected
  | ErrContext
  | ErrWrite
  | ErrReadTimeout
  | ErrTimeout (what : string)
  | ErrTimeoutAfter (timeout : Z) (what : string)
  | ErrConnectionClosed (what : string)
  | ErrDaemon (e : DaemonError)
  | ErrWrap (prefix : string) (e : error)
  | ErrMsg (text : string)
  | ErrReply (text : string) (reply : gomap)
  | ErrDial
  | ErrHandshake (code : Z) (text : string)
  | ErrStaleLoop (loopID : string) (e : error)
  | ErrConnection (url : string) (attempt : Z) (e : error).

(** [SendMessage] with a context that is done when [ctx_done]; the payload is an
    envelope, so marshalling does not fail. *)
Definition SendMessage (ctx_done : bool) (msg : Envelope) : M (option error) :=
  let! o := get conn in
  let! cl := get conn_closed in
  if negb o || cl then ret (Some ErrNotConnected)
  else if ctx_done then ret (Some (ErrWrap "soothe" ErrContext))
  else
    let! w := get sock_w in
    if w then
      modify (λ c, upd_sock_out (sock_out c ++ [msg]) c);;! ret None
    else signalDisconnect DisconnectUnclean;;! ret (Some ErrWrite).

Definition sendPong : M unit :=
  let! o := get conn in
  let! cl := get conn_closed in
  if negb o || cl then ret tt
  else
    let! w := get sock_w in
    if w then modify (λ c, upd_sock_out (sock_out c ++ [NewPongEnvelope]) c) else ret tt.

Definition Notify (ctx_done : bool) (method : string) (params : gomap) : M (option error) :=
  SendMessage ctx_done (NewNotificationEnvelope method params).

Definition isControlFrame (msg : message) : M bool :=
  match msg with
  | MEnvelope env =>
      if env_Type env =s "ping" then sendPong;;! ret true
      else if env_Type env =s "pong" then ret true
      else if env_Type env =s "disconnect" then
        signalDisconnect DisconnectClean;;! ret true
      else ret false
  | _ => ret false
  end.

Definition Close : M unit :=
  let! cl := get conn_closed in
  let! o := get conn in
  if cl || negb o then ret tt
  else modify (upd_conn false true);;! signalDisconnect DisconnectUnclean.

Definition IsConnected (c : client) : bool := conn c && negb (conn_closed c).
Definition IsDisconnected (c : client) : bool := disconnected (c_disc c).
Definition IsConnectionAlive (c : client) : bool := IsConnected c && negb (IsDisconnected c).
Definition IsHandshakeComplete (c : client) : bool := handshakeComplete c.
Definition ReadinessState (c : client) : string := readinessState c.
Definition Disconnected (c : client) : chan DisconnectCause := disconnCh (c_disc c).
Definition DisconnectCauseValue (c : client) : DisconnectCause := disconnCause (c_disc c).
Definition InboundDropped (c : client) : Z := inboundDropped (c_in c).

(** [PushPendingEvent]; a nil map is ignored. *)
Definition PushPendingEvent (ev : gomap) : M unit :=
  match ev with
  | None => ret tt
  | Some _ => modify (λ c, upd_in (enqueuePendingLocked ev (c_in c)) c)
  end.

(** ** Heartbeat tracking *)

Definition EnableHeartbeatTracking (now : Z) : M unit :=
  modify (λ c, match tracker c with
               | None => upd_tracker (Some (NewHeartbeatTracker now)) c
               | Some _ => c
               end).
Definition NewClientWithHeartbeat (now : Z) : client :=
  match EnableHeartbeatTracking now NewClient with Some (_, c) => c | None => NewClient end.
Definition EnableHeartbeatTrackingWithThreshold (now threshold : Z) : M unit :=
  modify (upd_tracker (Some (NewHeartbeatTrackerWithThreshold now threshold))).
Definition DisableHeartbeatTracking : M unit := modify (upd_tracker None).
Definition GetHeartbeatTracker (c : client) : option HeartbeatTracker := tracker c.
Definition GetDaemonHealth (now : Z) (c : client) : option DaemonHealth :=
  GetHealth now <$> tracker c.
Definition IsDaemonAlive (now : Z) (c : client) : bool :=
  from_option IsAlive false (GetDaemonHealth now c).

(** * The drop signal: lemmas and properties *)

(** The signal has not fired, or fired once with the cause that is recorded; the cause
    is in the channel until a consumer takes it. *)
Definition disc_inv (d : disc) : Prop :=
  cap (disconnCh d) = 1 ∧
  (if disconnOnce d
   then closed (disconnCh d) = true ∧ disconnected d = true ∧
        (buf (disconnCh d) = [] ∨ buf (disconnCh d) = [disconnCause d])
   else closed (disconnCh d) = false ∧ disconnected d = false ∧ buf (disconnCh d) = []).

Lemma disc_inv_new : disc_inv new_disc.
Proof. done. Qed.

Lemma signal_total cause d :
  disc_inv d →
  ∃ d', signal cause d = Some d' ∧ disc_inv d' ∧ disconnOnce d' = true ∧
    (if disconnOnce d then d' = d
     else buf (disconnCh d') = [cause] ∧ disconnCause d' = cause).
Proof.
  intros [Hcap Hd]. unfold signal. destruct d as [[b n cl] [] ca dn]; simpl in *.
  { eexists. split; [done|]. split; [by split|done]. }
  destruct Hd as (-> & -> & ->). subst n. simpl. eexists. split; [done|].
  repeat split; auto.
Qed.

(** What can happen to the signal: somebody fires it, or a consumer receives. *)
Inductive disc_step : disc → disc → Prop :=
  | disc_signal cause d d' : signal cause d = Some d' → disc_step d d'
  | disc_recv d :
      disc_step d (Disc (try_recv (disconnCh d)).2 (disconnOnce d) (disconnCause d) (disconnected d)).

Lemma disc_step_inv d d' : disc_step d d' → disc_inv d → disc_inv d'.
Proof.
  destruct 1 as [cause d d' Hs|d]; intros Hi.
  - destruct (signal_total cause d Hi) as (d1 & ? & ? & _). by simplify_eq.
  - destruct Hi as [Hcap Hd]. split; simpl.
    + unfold try_recv. by destruct (buf _).
    + destruct d as [[b n cl] [] ca dn]; simpl in *.
      * destruct Hd as (-> & -> & [-> | ->]); simpl; auto.
      * destruct Hd as (-> & -> & ->). done.
Qed.

Lemma disc_reachable_inv d : rtc disc_step new_disc d → disc_inv d.
Proof.
  intros H. cut (disc_inv new_disc → disc_inv d); [intros Hc; apply Hc, disc_inv_new|].
  induction H as [|d1 d2 d3 Hs _ IH]; [done|]. intros Hi. by apply IH, (disc_step_inv d1).
Qed.

(** The drop is signalled at most once, whoever signals and however often: no sequence
    of signals panics (a second [close] would), the first cause is the one recorded and
    delivered, the later ones change nothing. *)
Theorem disconnect_once (d : disc) (cause : DisconnectCause) (Hd : rtc disc_step new_disc d) :
  ∃ d', signal cause d = Some d' ∧
    closed (disconnCh d') = true ∧ disconnected d' = true ∧
    (disconnOnce d = true → d' = d) ∧
    (disconnOnce d = false → disconnCause d' = cause ∧ (try_recv (disconnCh d')).1 = Some cause) ∧
    ∀ cause', signal cause' d' = Some d'.
Proof.
  apply disc_reachable_inv in Hd.
  destruct (signal_total cause d Hd) as (d' & Hs & [Hcap Hi] & Ho & Hcase).
  exists d'. rewrite Ho in Hi. destruct Hi as (Hc & Hdn & _).
  split; [done|]. split; [done|]. split; [done|].
  split; [by intros E; rewrite E in Hcase|].
  split; [|intros c'; unfold signal; by rewrite Ho].
  intros E. rewrite E in Hcase. destruct Hcase as [Hb Hca]. split; [done|].
  unfold try_recv. by rewrite Hb.
Qed.

Lemma disconnect_once_witness :
  ∃ d', signal DisconnectClean new_disc = Some d' ∧ signal DisconnectUnclean d' = Some d'.
Proof.
  destruct (disconnect_once new_disc DisconnectClean (rtc_refl _ _)) as (d' & H & _ & _ & _ & _ & H').
  exists d'. split; [exact H|apply H'].
Defined.
