(* ===== verification/Reader.v ===== *)
(** Reading from the socket (client.go): [ReadEvent] and [ReadEventWithTimeout], the
    loop of [ReceiveMessages], the peeling of stale frames before a turn, and the
    handshake of [Connect]. *)

From S2P Require Import Prelude GoStr Value StreamTerminal InboundPriority Pending DeliveryAck.
From S2P Require Import Protocol GoChan Mux Heartbeat Client.

(** * Definitions *)

Section reader.
(** Parsing of a JSON text, [None] when it is malformed, and of a timestamp. *)
Context (parse_json : string → option value) (parse_time : string → option string).

(** The messages of one socket payload, lines decoded and batches expanded. *)
Definition decode_frame (frame : string) : list message :=
  match parse_json frame ≫= DecodeMessage parse_time with
  | None => []
  | Some msg => ExpandWireMessages parse_time msg
  end.

Definition payload_messages (data : string) : list message :=
  concat (decode_frame <$> SplitSootheWirePayload data).

Definition route_frame (m : gomap) : M bool := λ c,
  match route m (c_mux c) with
  | Some (b, mx) => Some (b, upd_mux mx c)
  | None => None
  end.

Definition track (m : gomap) : M unit :=
  modify (λ c, upd_acks (trackInboundDeliveryAck m (c_acks c)) c).

(** [conn.ReadMessage]. *)
Definition ReadMessage : M read_result := λ c,
  match sock_in c with
  | [] => Some (RFail, c)
  | r :: rest => Some (r, upd_sock_in rest c)
  end.

Definition pop_event : M (option gomap) := λ c,
  match pop_pending (c_in c) with
  | Some (ev, q) => Some (Some ev, upd_in q c)
  | None => Some (None, c)
  end.

(** The frames of a payload, up to the first that nobody waits for. *)
Fixpoint read_scan (msgs : list message) : M gomap :=
  match msgs with
  | [] => ret None
  | expanded :: msgs =>
      let! ctl := isControlFrame expanded in
      if ctl then read_scan msgs
      else
        let m := wire_map expanded in
        let! routed := route_frame m in
        if routed then read_scan msgs else (track m;;! ret m)
  end.

(** [ReadEvent]: the event, [None] when nil, and the error. *)
Definition ReadEvent : M (gomap * option error) :=
  let! head := pop_event in
  match head with
  | Some ev => track ev;;! ret (ev, None)
  | None =>
      let! o := get conn in
      if negb o then ret (None, Some ErrNotConnected)
      else
        let! r := ReadMessage in
        match r with
        | RTimeout => ret (None, Some ErrReadTimeout)
        | RFail => ret (None, None)
        | RData data => let! m := read_scan (payload_messages data) in ret (m, None)
        end
  end.

(** [ReadEventWithTimeout]; its deadline shows as an [RTimeout] of the socket. *)
Definition ReadEventWithTimeout : M (gomap * option error) :=
  let! head := pop_event in
  match head with
  | Some ev => ret (ev, None)
  | None =>
      let! o := get conn in
      if negb o then ret (None, Some ErrNotConnected)
      else
        let! r := ReadEvent in
        match r with
        | (_, Some ErrReadTimeout) => ret (None, None)
        | (_, Some e) => ret (None, Some e)
        | (ev, None) => ret (ev, None)
        end
  end.

(** ** [ReceiveMessages] *)

Definition process_heartbeat (m : gomap) : M unit :=
  modify (λ c, upd_tracker ((λ t, (ProcessHeartbeatEvent m t).2) <$> tracker c) c).

(** The messages of a payload the loop sends to its channel; [tracking] is whether a
    tracker was enabled when the loop started. *)
Fixpoint receive_scan (tracking : bool) (msgs : list message) : M (list message) :=
  match msgs with
  | [] => ret []
  | expanded :: msgs =>
      let! ctl := isControlFrame expanded in
      if ctl then receive_scan tracking msgs
      else
        let m := wire_map expanded in
        let! routed := route_frame m in
        if routed then receive_scan tracking msgs
        else
          track m;;!
          (if tracking then process_heartbeat m else ret tt);;!
          let! rest := receive_scan tracking msgs in ret (expanded :: rest)
  end.

(** The first iterations of the loop: [ctx] holds what [ctx.Done()] shows at the head
    of each. Returns what was sent and whether the loop has ended. *)
Fixpoint receive_loop (tracking : bool) (ctx : list bool) : M (list message * bool) :=
  match ctx with
  | [] => ret ([], false)
  | true :: _ => ret ([], true)
  | false :: ctx =>
      let! o := get conn in
      let! cl := get conn_closed in
      if cl || negb o then ret ([], true)
      else
        let! r := ReadMessage in
        match r with
        | RData data =>
            let! sent := receive_scan tracking (payload_messages data) in
            let! rest := receive_loop tracking ctx in
            ret (sent ++ rest.1, rest.2)
        | _ => signalDisconnect DisconnectUnclean;;! ret ([], true)
        end
  end.

Definition ReceiveMessages (ctx : list bool) : M (list message * bool * option error) :=
  let! o := get conn in
  let! cl := get conn_closed in
  if negb o || cl then ret ([], true, Some ErrNotConnected)
  else
    let! t := get tracker in
    modify (upd_reader true);;!
    let! r := receive_loop (bool_decide (is_Some t)) ctx in
    (if r.2 then modify (upd_reader false) else ret tt);;!
    ret (r, None).

(** ** [PeelStalePendingControlEvents] *)

Definition peel_pending : M (list string) := λ c,
  let q := pendingEvents (c_in c) in
  Some (filter (λ label, label ≠ "") (StalePendingFrameLabel <$> q),
        upd_in (set_pending (filter (λ ev, StalePendingFrameLabel ev = "") q) (c_in c)) c).

(** The live drain, at most [n] more reads. *)
Fixpoint peel_live (n : nat) (peeled : list string) : M (list string) :=
  match n with
  | O => ret peeled
  | S n =>
      let! r := ReadEventWithTimeout in
      match r with
      | (_, Some _) | (None, _) => ret peeled
      | (Some _ as ev, None) =>
          let label := StalePendingFrameLabel ev in
          if label <>s "" then peel_live n (peeled ++ [label])
          else
            modify (λ c, upd_in (enqueuePendingLocked ev (c_in c)) c);;! ret peeled
      end
  end.

Definition PeelStalePendingControlEvents : M (list string) :=
  let! peeled := peel_pending in peel_live 8 peeled.
End reader.

(** * Invariant and frame *)

Definition client_inv (c : client) : Prop := mux_inv (c_mux c) ∧ disc_inv (c_disc c).

(** What reading leaves as it was: the socket's ends, the buffer, the tracker, and who
    is waiting for what. *)
Record undisturbed (c c' : client) : Prop := {
  un_inv : client_inv c';
  un_conn : conn c' = conn c;
  un_closed : conn_closed c' = conn_closed c;
  un_sock_in : sock_in c' = sock_in c;
  un_sock_w : sock_w c' = sock_w c;
  un_in : c_in c' = c_in c;
  un_tracker : tracker c' = tracker c;
  un_shake : handshakeComplete c' = handshakeComplete c;
  un_waiters f : awaited f (c_mux c') = awaited f (c_mux c);
}.

Lemma undisturbed_refl c : client_inv c → undisturbed c c.
Proof. by split. Qed.

Lemma undisturbed_trans c1 c2 c3 : undisturbed c1 c2 → undisturbed c2 c3 → undisturbed c1 c3.
Proof.
  intros H1 H2. split; [apply H2|etrans; [apply H2|apply H1]..|].
  intros f. etrans; [apply H2|apply H1].
Qed.

Lemma signalDisconnect_total cause c :
  client_inv c → ∃ d, signalDisconnect cause c = Some (tt, upd_disc d c) ∧ disc_inv d ∧
    disconnected d = true ∧ closed (disconnCh d) = true.
Proof.
  intros [_ Hd]. destruct (signal_total cause _ Hd) as (d & Hs & Hi & Ho & _).
  exists d. unfold signalDisconnect. rewrite Hs. split; [done|]. split; [done|].
  destruct Hi as [_ Hi]. rewrite Ho in Hi. by destruct Hi as (? & ? & _).
Qed.

(** The messages the protocol layer consumes. *)
Definition control (msg : message) : bool :=
  match msg with
  | MEnvelope env => (env_Type env =s "ping") || (env_Type env =s "pong") || (env_Type env =s "disconnect")
  | _ => false
  end.

Definition is_ping (msg : message) : bool :=
  match msg with MEnvelope env => env_Type env =s "ping" | _ => false end.

Definition writable (c : client) : bool := conn c && negb (conn_closed c) && sock_w c.

(** The answers a client owes to the pings among some messages. *)
Definition pongs (c : client) (msgs : list message) : list Envelope :=
  if writable c then (λ _, NewPongEnvelope) <$> filter (λ msg, is_ping msg = true) msgs else [].

Lemma sendPong_spec c :
  sendPong c = Some (tt, if writable c then upd_sock_out (sock_out c ++ [NewPongEnvelope]) c else c).
Proof.
  unfold sendPong, writable, bind, get, modify, ret.
  destruct (conn c) eqn:?, (conn_closed c) eqn:?, (sock_w c) eqn:Ew; simpl;
    rewrite ?Ew; done.
Qed.

Lemma isControlFrame_spec msg c :
  client_inv c →
  ∃ c', isControlFrame msg c = Some (control msg, c') ∧ undisturbed c c' ∧
    c_acks c' = c_acks c ∧ sock_out c' = sock_out c ++ pongs c [msg] ∧
    (control msg = false → c' = c).
Proof.
  intros Hi. pose proof (undisturbed_refl c Hi) as Hr. pose proof Hi as [Hm Hd].
  assert (E : is_ping msg = false → sock_out c = sock_out c ++ pongs c [msg]).
  { intros Hp. unfold pongs. rewrite filter_cons, decide_False by (by rewrite Hp).
    destruct (writable c); by rewrite app_nil_r. }
  destruct msg as [env|em|s|e|m]; try (by exists c; rewrite <-E).
  simpl. unfold is_ping in E.
  destruct (String.eqb_spec (env_Type env) "ping") as [Hp|Hp]; simpl.
  { unfold bind. rewrite sendPong_spec. unfold pongs. simpl.
    rewrite filter_cons, decide_True by (simpl; by rewrite Hp).
    destruct (writable c); eexists; (split; [done|]); split; try (split; done); repeat split; try done.
    simpl. by rewrite app_nil_r. }
  specialize (E eq_refl).
  destruct (String.eqb_spec (env_Type env) "pong") as [Hq|Hq]; simpl; [by exists c; rewrite <-E|].
  destruct (String.eqb_spec (env_Type env) "disconnect") as [Hx|Hx]; simpl; [|by exists c; rewrite <-E].
  destruct (signalDisconnect_total DisconnectClean c Hi) as (d & Hs & Hdi & _).
  unfold bind, ret. rewrite Hs. eexists. split; [done|].
  split; [by split|]. by rewrite <-E.
Qed.

Lemma route_frame_spec m c :
  client_inv c →
  ∃ c', route_frame m c = Some (awaited m (c_mux c), c') ∧ undisturbed c c' ∧
    c_acks c' = c_acks c ∧ sock_out c' = sock_out c.
Proof.
  intros [Hm Hd]. destruct (route_total m (c_mux c) Hm) as (mx & Hr & Hmi & Ha).
  unfold route_frame. rewrite Hr. eexists. split; [done|]. split; [|done].
  by split.
Qed.

(** What of some messages is passed on: neither protocol control nor awaited. *)
Definition passed_on (c : client) (msgs : list message) : list message :=
  filter (λ msg, control msg = false ∧ awaited (wire_map msg) (c_mux c) = false) msgs.

Lemma passed_on_undisturbed c c' msgs : undisturbed c c' → passed_on c' msgs = passed_on c msgs.
Proof.
  intros H. unfold passed_on. induction msgs as [|msg msgs IH]; [done|].
  rewrite !filter_cons, IH. pose proof (un_waiters _ _ H (wire_map msg)) as E.
  destruct (decide _) as [D|D], (decide _) as [D'|D']; try done;
    exfalso; rewrite E in D; tauto.
Qed.

Lemma pongs_cons c msg msgs : pongs c (msg :: msgs) = pongs c [msg] ++ pongs c msgs.
Proof.
  unfold pongs. destruct (writable c); [|done]. rewrite <-fmap_app, <-filter_app. done.
Qed.

Lemma pongs_undisturbed c c' msgs : undisturbed c c' → pongs c' msgs = pongs c msgs.
Proof. intros [_ Hc Hl _ Hw _ _ _ _]. unfold pongs, writable. by rewrite Hc, Hl, Hw. Qed.

Lemma not_control_pongs c msg : control msg = false → pongs c [msg] = [].
Proof.
  intros H. unfold pongs. rewrite filter_cons, decide_False; [by destruct (writable c)|].
  unfold control, is_ping in *. destruct msg as [env| | | |]; try done.
  by destruct (env_Type env =s "ping").
Qed.

Definition track_all (msgs : list message) (a : acks) : acks :=
  foldl (λ a msg, trackInboundDeliveryAck (wire_map msg) a) a msgs.

(** One message through the reader, up to the decision what to do with it. *)
Lemma bind_eq {A B} (m : M A) (f : A → M B) c x c' :
  m c = Some (x, c') → bind m f c = f x c'.
Proof. unfold bind. by intros ->. Qed.

Lemma passed_on_cons c msg msgs :
  passed_on c (msg :: msgs) =
  if negb (control msg) && negb (awaited (wire_map msg) (c_mux c))
  then msg :: passed_on c msgs else passed_on c msgs.
Proof.
  unfold passed_on. rewrite filter_cons.
  destruct (control msg), (awaited _ _); case_decide; simpl; naive_solver.
Qed.

Lemma process_heartbeat_inert m c : process_heartbeat m c = Some (tt, c).
Proof.
  unfold process_heartbeat, modify. do 2 f_equal. destruct c as [? ? ? ? ? ? ? ? ? [t|]]; [|done].
  unfold upd_tracker. simpl. by rewrite ProcessHeartbeatEvent_inert.
Qed.

(** Offering a message to the protocol layer and to the waiters: whether it was used. *)
Definition consume (msg : message) : M bool :=
  let! ctl := isControlFrame msg in if ctl then ret true else route_frame (wire_map msg).

Lemma consume_spec msg c :
  client_inv c →
  ∃ c', consume msg c =
          Some (negb (negb (control msg) && negb (awaited (wire_map msg) (c_mux c))), c') ∧
    undisturbed c c' ∧ c_acks c' = c_acks c ∧ sock_out c' = sock_out c ++ pongs c [msg].
Proof.
  intros Hi. destruct (isControlFrame_spec msg c Hi) as (c1 & H1 & U1 & A1 & O1 & N1).
  unfold consume. rewrite (bind_eq _ _ _ _ _ H1).
  destruct (control msg) eqn:Ec; simpl; [by eexists|].
  rewrite (N1 eq_refl). destruct (route_frame_spec (wire_map msg) c Hi) as (c2 & H2 & U2 & A2 & O2).
  exists c2. rewrite negb_involutive. split; [done|]. split; [done|]. split; [done|].
  by rewrite O2, not_control_pongs, app_nil_r.
Qed.

Lemma read_scan_cons msg msgs c :
  read_scan (msg :: msgs) c =
  bind (consume msg) (λ b, if b then read_scan msgs
                           else track (wire_map msg);;! ret (wire_map msg)) c.
Proof.
  simpl. unfold consume, bind. destruct (isControlFrame msg c) as [[[] c1]|]; [done| |done].
  by destruct (route_frame _ c1) as [[[] c2]|].
Qed.

Lemma receive_scan_cons tracking msg msgs c :
  receive_scan tracking (msg :: msgs) c =
  bind (consume msg) (λ b, if b then receive_scan tracking msgs
    else track (wire_map msg);;!
         let! rest := receive_scan tracking msgs in ret (msg :: rest)) c.
Proof.
  simpl. unfold consume, bind. destruct (isControlFrame msg c) as [[[] c1]|]; [done| |done].
  destruct (route_frame _ c1) as [[[] c2]|]; [done| |done].
  unfold track, modify, ret. destruct tracking; [|done]. by rewrite process_heartbeat_inert.
Qed.

Lemma pongs_replicate c msgs : ∃ k, pongs c msgs = replicate k NewPongEnvelope.
Proof.
  unfold pongs. destruct (writable c); [|by exists 0].
  induction (filter _ msgs) as [|x l [k IH]]; [by exists 0|]. exists (S k). csimpl. by rewrite IH.
Qed.

(** ** The two readers *)

Lemma receive_scan_spec tracking msgs c :
  client_inv c →
  ∃ c', receive_scan tracking msgs c = Some (passed_on c msgs, c') ∧ undisturbed c c' ∧
    c_acks c' = track_all (passed_on c msgs) (c_acks c) ∧
    sock_out c' = sock_out c ++ pongs c msgs.
Proof.
  revert c. induction msgs as [|msg msgs IH]; intros c Hi.
  - exists c. split; [done|]. split; [by apply undisturbed_refl|]. split; [done|].
    unfold pongs. destruct (writable c); by rewrite app_nil_r.
  - destruct (consume_spec msg c Hi) as (c1 & H1 & U1 & A1 & O1).
    rewrite receive_scan_cons, (bind_eq _ _ _ _ _ H1), passed_on_cons, pongs_cons.
    destruct (negb (control msg) && _); simpl.
    + set (c2 := upd_acks (trackInboundDeliveryAck (wire_map msg) (c_acks c1)) c1).
      assert (undisturbed c c2) as U2 by (destruct U1; by split).
      destruct (IH c2 (un_inv _ _ U2)) as (c' & H' & U' & A' & O').
      exists c'. unfold bind at 1, track, modify. fold c2. unfold bind. rewrite H'.
      rewrite (passed_on_undisturbed _ _ _ U2), (pongs_undisturbed _ _ _ U2) in *.
      split; [done|]. split; [by eapply undisturbed_trans|].
      rewrite A', O'. simpl. by rewrite A1, O1, <-app_assoc.
    + destruct (IH c1 (un_inv _ _ U1)) as (c' & H' & U' & A' & O').
      exists c'. rewrite (passed_on_undisturbed _ _ _ U1), (pongs_undisturbed _ _ _ U1) in *.
      split; [done|]. split; [by eapply undisturbed_trans|].
      by rewrite A', O', A1, O1, <-app_assoc.
Qed.

Lemma read_scan_spec msgs c :
  client_inv c →
  ∃ c', read_scan msgs c = Some (from_option wire_map None (head (passed_on c msgs)), c') ∧
    undisturbed c c' ∧
    c_acks c' = from_option (λ msg, trackInboundDeliveryAck (wire_map msg) (c_acks c))
                  (c_acks c) (head (passed_on c msgs)) ∧
    ∃ k, sock_out c' = sock_out c ++ replicate k NewPongEnvelope.
Proof.
  revert c. induction msgs as [|msg msgs IH]; intros c Hi.
  - exists c. split; [done|]. split; [by apply undisturbed_refl|]. split; [done|].
    exists 0. by rewrite app_nil_r.
  - destruct (consume_spec msg c Hi) as (c1 & H1 & U1 & A1 & O1).
    destruct (pongs_replicate c [msg]) as [k Hk]. rewrite Hk in O1.
    rewrite read_scan_cons, (bind_eq _ _ _ _ _ H1), passed_on_cons.
    destruct (negb (control msg) && _); simpl.
    + eexists. split; [done|]. simpl. rewrite A1. split; [destruct U1; by split|].
      split; [done|]. by exists k.
    + destruct (IH c1 (un_inv _ _ U1)) as (c' & H' & U' & A' & k' & O').
      exists c'. rewrite (passed_on_undisturbed _ _ _ U1) in *.
      split; [done|]. split; [by eapply undisturbed_trans|]. rewrite A', A1. split; [done|].
      exists (k + k'). by rewrite O', O1, <-app_assoc, replicate_add.
Qed.

(** The payloads a socket yields before its first failure. *)
Fixpoint payloads (reads : list read_result) : list string :=
  match reads with
  | RData data :: reads => data :: payloads reads
  | _ => []
  end.

Lemma passed_on_app c a b : passed_on c (a ++ b) = passed_on c a ++ passed_on c b.
Proof. apply filter_app. Qed.

Lemma pongs_app c a b : pongs c (a ++ b) = pongs c a ++ pongs c b.
Proof. unfold pongs. destruct (writable c); [|done]. by rewrite filter_app, fmap_app. Qed.

Lemma track_all_app a b st : track_all (a ++ b) st = track_all b (track_all a st).
Proof. apply foldl_app. Qed.

Lemma upd_sock_in_undisturbed c c' l :
  undisturbed (upd_sock_in l c) c' → client_inv c' ∧ conn c' = conn c ∧
  conn_closed c' = conn_closed c ∧ sock_in c' = l ∧ c_in c' = c_in c ∧
  (∀ msgs, passed_on c' msgs = passed_on c msgs) ∧ (∀ msgs, pongs c' msgs = pongs c msgs).
Proof.
  intros U. split; [apply U|]. do 4 (split; [apply U|]). split; intros msgs.
  - rewrite (passed_on_undisturbed _ _ _ U). done.
  - rewrite (pongs_undisturbed _ _ _ U). done.
Qed.

Section readers.
Context (parse_json : string → option value) (parse_time : string → option string).
Local Abbreviation messages := (payload_messages parse_json parse_time).

Lemma receive_loop_spec tracking n c :
  client_inv c → conn c = true → conn_closed c = false → length (sock_in c) < n →
  let msgs := concat (messages <$> payloads (sock_in c)) in
  ∃ c', receive_loop parse_json parse_time tracking (replicate n false) c =
          Some ((passed_on c msgs, true), c') ∧
    disconnected (c_disc c') = true ∧ c_in c' = c_in c ∧
    c_acks c' = track_all (passed_on c msgs) (c_acks c) ∧
    sock_out c' = sock_out c ++ pongs c msgs.
Proof.
  revert c. induction n as [|n IH]; intros c Hi Ho Hcl Hn; [lia|]. simpl replicate.
  assert (Hend : ∀ l, ∃ c',
    (signalDisconnect DisconnectUnclean;;! ret ([] : list message, true)) (upd_sock_in l c) =
      Some (([], true), c') ∧ disconnected (c_disc c') = true ∧ c_in c' = c_in c ∧
    c_acks c' = c_acks c ∧ sock_out c' = sock_out c).
  { intros l. destruct (signalDisconnect_total DisconnectUnclean (upd_sock_in l c) Hi)
      as (d & Hs & _ & Hd & _). eexists. rewrite (bind_eq _ _ _ _ _ Hs). by split. }
  assert (Hnil : sock_out c = sock_out c ++ pongs c []).
  { unfold pongs. destruct (writable c); by rewrite app_nil_r. }
  simpl receive_loop. rewrite (bind_eq _ _ c true c) by (unfold get; by rewrite Ho).
  rewrite (bind_eq _ _ c false c) by (unfold get; by rewrite Hcl). cbn [negb orb].
  destruct (sock_in c) as [|[data| |] reads] eqn:Es; simpl payloads.
  - destruct (Hend []) as (c' & H' & Hd & Hin & Ha & Hso). exists c'.
    rewrite (bind_eq _ _ c RFail (upd_sock_in [] c))
      by (unfold ReadMessage; rewrite Es; by destruct c; simpl in *; subst).
    rewrite H'. simpl. by rewrite Hso, <-Hnil.
  - rewrite (bind_eq _ _ c (RData data) (upd_sock_in reads c))
      by (unfold ReadMessage; by rewrite Es).
    destruct (receive_scan_spec tracking (messages data) (upd_sock_in reads c) Hi)
      as (c1 & H1 & U1 & A1 & O1).
    rewrite (bind_eq _ _ _ _ _ H1).
    destruct (upd_sock_in_undisturbed _ _ _ U1) as (Hi1 & Ho1 & Hc1 & Hs1 & Hin1 & Hp1 & Hg1).
    destruct (IH c1) as (c' & H' & Hd & Hin & Ha & Hso); [done|congruence|congruence|..].
    { rewrite Hs1. simpl in Hn. lia. }
    exists c'. rewrite (bind_eq _ _ _ _ _ H'), Hs1, Hp1. unfold ret. simpl concat.
    rewrite passed_on_app, pongs_app, track_all_app. simpl fst. simpl snd.
    split; [done|]. split; [done|]. split; [congruence|].
    rewrite Ha, Hso, A1, O1, Hs1, Hp1, Hg1, <-app_assoc. done.
  - destruct (Hend reads) as (c' & H' & Hd & Hin & Ha & Hso). exists c'.
    rewrite (bind_eq _ _ c RTimeout (upd_sock_in reads c)) by (unfold ReadMessage; by rewrite Es).
    rewrite H'. simpl. by rewrite Hso, <-Hnil.
  - destruct (Hend reads) as (c' & H' & Hd & Hin & Ha & Hso). exists c'.
    rewrite (bind_eq _ _ c RFail (upd_sock_in reads c)) by (unfold ReadMessage; by rewrite Es).
    rewrite H'. simpl. by rewrite Hso, <-Hnil.
Qed.

(** With an empty buffer the event comes from the socket. *)
Lemma ReadEvent_read r c c1 :
  conn c = true → pendingEvents (c_in c) = [] → ReadMessage c = Some (r, c1) →
  ReadEvent parse_json parse_time c =
  match r with
  | RTimeout => Some ((None, Some ErrReadTimeout), c1)
  | RFail => Some ((None, None), c1)
  | RData data => bind (read_scan (messages data)) (λ m, ret (m, None)) c1
  end.
Proof.
  intros Ho Hp Hr. unfold ReadEvent.
  rewrite (bind_eq _ _ c None c) by (unfold pop_event, pop_pending; by rewrite Hp).
  rewrite (bind_eq _ _ c true c) by (unfold get; by rewrite Ho). cbn [negb].
  rewrite (bind_eq _ _ _ _ _ Hr). by destruct r.
Qed.

Lemma ReadEvent_pending ev q c :
  pendingEvents (c_in c) = ev :: q →
  ∃ c', ReadEvent parse_json parse_time c = Some ((ev, None), c') ∧
    c' = upd_acks (trackInboundDeliveryAck ev (c_acks c)) (upd_in (set_pending q (c_in c)) c).
Proof.
  intros Hp. unfold ReadEvent. rewrite (bind_eq _ _ c (Some ev) (upd_in (set_pending q (c_in c)) c))
    by (unfold pop_event, pop_pending; by rewrite Hp). by eexists.
Qed.

Lemma ReadEvent_data data rest c :
  client_inv c → conn c = true → pendingEvents (c_in c) = [] → sock_in c = RData data :: rest →
  ∃ c', ReadEvent parse_json parse_time c =
          Some ((from_option wire_map None (head (passed_on c (messages data))), None), c') ∧
    undisturbed (upd_sock_in rest c) c' ∧
    c_acks c' = from_option (λ msg, trackInboundDeliveryAck (wire_map msg) (c_acks c))
                  (c_acks c) (head (passed_on c (messages data))) ∧
    ∃ k, sock_out c' = sock_out c ++ replicate k NewPongEnvelope.
Proof.
  intros Hi Ho Hp Hs.
  rewrite (ReadEvent_read (RData data) c (upd_sock_in rest c) Ho Hp)
    by (unfold ReadMessage; by rewrite Hs).
  destruct (read_scan_spec (messages data) (upd_sock_in rest c) Hi) as (c' & H' & U' & A').
  rewrite (bind_eq _ _ _ _ _ H'). by exists c'.
Qed.

(** Reading never panics and leaves the connection and the handshake as they are. *)
Lemma ReadEvent_total c :
  client_inv c →
  ∃ r c', ReadEvent parse_json parse_time c = Some (r, c') ∧ client_inv c' ∧
    conn c' = conn c ∧ conn_closed c' = conn_closed c ∧
    handshakeComplete c' = handshakeComplete c.
Proof.
  intros Hi. destruct (pendingEvents (c_in c)) as [|ev q] eqn:Hp.
  2:{ destruct (ReadEvent_pending ev q c Hp) as (c' & -> & ->). by do 2 eexists. }
  destruct (conn c) eqn:Ho.
  2:{ unfold ReadEvent. rewrite (bind_eq _ _ c None c) by (unfold pop_event, pop_pending; by rewrite Hp).
      rewrite (bind_eq _ _ c false c) by (unfold get; by rewrite Ho). by do 2 eexists. }
  assert (∃ r c1, ReadMessage c = Some (r, c1) ∧ c1 = upd_sock_in (tail (sock_in c)) c)
    as (r & c1 & Hr & Hc1).
  { unfold ReadMessage. destruct (sock_in c) eqn:Hs; [|by do 2 eexists].
    exists RFail, c. split; [done|]. destruct c; simpl in *; by subst. }
  rewrite (ReadEvent_read _ _ _ Ho Hp Hr). destruct r as [data| |]; [|by subst; do 2 eexists..].
  destruct (read_scan_spec (messages data) c1) as (c' & H' & U' & _); [by subst|].
  rewrite (bind_eq _ _ _ _ _ H'). do 2 eexists. split; [done|]. subst c1. rewrite <-Ho.
  split; [apply U'|]. split; [apply U'|]. split; apply U'.
Qed.

(** What is left to read: an event shortens it. *)
Definition backlog (c : client) : nat := length (pendingEvents (c_in c)) + length (sock_in c).

Lemma ReadEvent_backlog c ev c1 :
  client_inv c → ReadEvent parse_json parse_time c = Some ((ev, None), c1) → ev ≠ None →
  backlog c1 < backlog c ∧ client_inv c1.
Proof.
  intros Hi Hr Hev. destruct (ReadEvent_total c Hi) as (r & c' & Hr' & Hi' & _).
  rewrite Hr in Hr'. simplify_eq. split; [|done]. clear Hi'. unfold backlog.
  destruct (pendingEvents (c_in c)) as [|e q] eqn:Hp.
  2:{ destruct (ReadEvent_pending e q c Hp) as (c2 & Hc2 & ->). rewrite Hr in Hc2.
      simplify_eq. simpl. lia. }
  destruct (conn c) eqn:Ho.
  2:{ exfalso. revert Hr. unfold ReadEvent.
      rewrite (bind_eq _ _ c None c) by (unfold pop_event, pop_pending; by rewrite Hp).
      rewrite (bind_eq _ _ c false c) by (unfold get; by rewrite Ho). done. }
  destruct (sock_in c) as [|[data| |] rest] eqn:Hs.
  - rewrite (ReadEvent_read RFail c c Ho Hp) in Hr by (unfold ReadMessage; by rewrite Hs). by simplify_eq.
  - destruct (ReadEvent_data data rest c Hi Ho Hp Hs) as (c2 & Hr2 & U & _).
    rewrite Hr in Hr2. simplify_eq. destruct (upd_sock_in_undisturbed _ _ _ U) as (_ & _ & _ & -> & -> & _).
    rewrite Hp. simpl. lia.
  - rewrite (ReadEvent_read RTimeout c (upd_sock_in rest c) Ho Hp) in Hr
      by (unfold ReadMessage; by rewrite Hs). by simplify_eq.
  - rewrite (ReadEvent_read RFail c (upd_sock_in rest c) Ho Hp) in Hr
      by (unfold ReadMessage; by rewrite Hs). by simplify_eq.
Qed.

Lemma ReadEvent_fail c :
  conn c = true → pendingEvents (c_in c) = [] → sock_in c = [] →
  ReadEvent parse_json parse_time c = Some ((None, None), c).
Proof.
  intros Ho Hp Hs. by rewrite (ReadEvent_read RFail c c Ho Hp) by (unfold ReadMessage; by rewrite Hs).
Qed.
End readers.

Section properties.
Context (parse_json : string → option value) (parse_time : string → option string).
Local Abbreviation messages := (payload_messages parse_json parse_time).
Local Abbreviation ReadEvent := (ReadEvent parse_json parse_time).
Local Abbreviation ReadEventWithTimeout := (ReadEventWithTimeout parse_json parse_time).
Local Abbreviation Peel := (PeelStalePendingControlEvents parse_json parse_time).

(** The message loop ends once the socket fails, without a panic; by then it has sent
    exactly the messages that are neither protocol control nor awaited by a request or
    subscription, in order; it has answered every ping while the socket was writable,
    counted every message it sent for delivery acknowledgement and nothing else,
    signalled the drop, and handed the socket back. *)
Theorem receive_messages_forwards (c : client) (n : nat)
    (Hi : client_inv c) (Hc : IsConnected c = true) (Hn : length (sock_in c) < n) :
  let msgs := concat (messages <$> payloads (sock_in c)) in
  ∃ c', ReceiveMessages parse_json parse_time (replicate n false) c =
          Some ((passed_on c msgs, true, None), c') ∧
    disconnected (c_disc c') = true ∧ readerActive c' = false ∧ c_in c' = c_in c ∧
    c_acks c' = track_all (passed_on c msgs) (c_acks c) ∧
    sock_out c' = sock_out c ++ pongs c msgs.
Proof.
  intros msgs. unfold IsConnected in Hc. bool_to_prop. unfold ReceiveMessages.
  rewrite (bind_eq _ _ c true c) by (unfold get; congruence).
  rewrite (bind_eq _ _ c false c) by (unfold get; congruence). cbn [negb orb].
  rewrite (bind_eq _ _ c (tracker c) c) by done.
  rewrite (bind_eq _ _ c tt (upd_reader true c)) by done.
  destruct (receive_loop_spec parse_json parse_time (bool_decide (is_Some (tracker c))) n
    (upd_reader true c) Hi ltac:(done) ltac:(done) Hn) as (c' & H' & Hd & Hin & Ha & Hso).
  rewrite (bind_eq _ _ _ _ _ H'). simpl snd. cbv iota.
  rewrite (bind_eq _ _ c' tt (upd_reader false c')) by done.
  eexists. split; [done|]. done.
Qed.

(** [ReadEvent] yields the first message the loop would have sent from the next
    payload, and drops the others: they are neither buffered nor acknowledged. *)
Theorem read_event_drops_rest (c : client) (data : string) (rest : list read_result)
    (Hi : client_inv c) (Ho : conn c = true) (Hp : pendingEvents (c_in c) = [])
    (Hs : sock_in c = RData data :: rest) :
  ∃ sent c1 c2,
    receive_scan false (messages data) (upd_sock_in rest c) = Some (sent, c1) ∧
    ReadEvent c = Some ((from_option wire_map None (head sent), None), c2) ∧
    sock_in c2 = rest ∧ pendingEvents (c_in c2) = [] ∧
    c_acks c2 = track_all (take 1 sent) (c_acks c) ∧
    c_acks c1 = track_all (drop 1 sent) (c_acks c2).
Proof.
  destruct (receive_scan_spec false (messages data) (upd_sock_in rest c) Hi)
    as (c1 & H1 & U1 & A1 & O1).
  destruct (ReadEvent_data parse_json parse_time data rest c Hi Ho Hp Hs) as (c2 & H2 & U2 & A2 & _).
  exists (passed_on c (messages data)), c1, c2. split; [done|]. split; [done|].
  destruct (upd_sock_in_undisturbed _ _ _ U2) as (_ & _ & _ & -> & -> & _).
  split; [done|]. split; [done|]. rewrite A2, A1.
  change (passed_on (upd_sock_in rest c) (messages data)) with (passed_on c (messages data)).
  by destruct (passed_on c (messages data)).
Qed.

(** A payload that holds only control frames (a ping) or replies others wait for reads
    as nil without an error, which is what a closed connection reads as, although the
    connection is alive and its next payload is still to come. *)
Theorem quiet_payload_looks_closed (c : client) (data : string) (rest : list read_result)
    (Hi : client_inv c) (Hc : IsConnected c = true) (Hp : pendingEvents (c_in c) = [])
    (Hs : sock_in c = RData data :: rest) (Hquiet : passed_on c (messages data) = []) :
  ∃ c' c'',
    ReadEvent c = Some ((None, None), c') ∧ IsConnected c' = true ∧ sock_in c' = rest ∧
    ReadEvent (upd_sock_in [] c) = Some ((None, None), c'').
Proof.
  unfold IsConnected in Hc. bool_to_prop.
  destruct (ReadEvent_data parse_json parse_time data rest c Hi ltac:(done) Hp Hs)
    as (c2 & H2 & U2 & A2 & _).
  destruct (upd_sock_in_undisturbed _ _ _ U2) as (_ & Ho2 & Hc2 & Hs2 & _).
  rewrite Hquiet in H2. exists c2, (upd_sock_in [] c).
  split; [done|]. unfold IsConnected. rewrite Ho2, Hc2. split; [by bool_to_prop|]. split; [done|].
  by apply ReadEvent_fail.
Qed.

Lemma peel_pending_spec c :
  peel_pending c =
    Some (filter (λ label, label ≠ "") (StalePendingFrameLabel <$> pendingEvents (c_in c)),
          upd_in (set_pending (filter (λ ev, StalePendingFrameLabel ev = "")
                                 (pendingEvents (c_in c))) (c_in c)) c).
Proof. done. Qed.

Lemma filter_stable (q : list gomap) (P : gomap → Prop) `{!∀ x, Decision (P x)} :
  Forall P q → filter P q = q.
Proof. induction 1 as [|x q Hx _ IH]; [done|]. by rewrite filter_cons, decide_True, IH. Qed.

(** Peeling before a turn sends the oldest frame it keeps to the back of the buffer:
    with no stale frame in it at all, the buffer comes out rotated. *)
Theorem peel_rotates_pending (c : client) (ev : gomap) (q : list gomap)
    (Hq : pendingEvents (c_in c) = ev :: q) (Hev : ev ≠ None)
    (Hkeep : Forall (λ e, StalePendingFrameLabel e = "") (ev :: q))
    (Hroom : (Z.of_nat (length (ev :: q)) <= capacity (c_in c))%Z) :
  ∃ c', Peel c = Some ([], c') ∧ pendingEvents (c_in c') = q ++ [ev] ∧ sock_in c' = sock_in c.
Proof.
  unfold PeelStalePendingControlEvents. rewrite (bind_eq _ _ _ _ _ (peel_pending_spec c)).
  rewrite Hq, filter_stable by done.
  assert (filter (λ label, label ≠ "") (StalePendingFrameLabel <$> ev :: q) = []) as ->.
  { clear -Hkeep. induction Hkeep as [|e es He _ IH]; [done|].
    rewrite fmap_cons, filter_cons, decide_False by (rewrite He; tauto). done. }
  set (c1 := upd_in (set_pending (ev :: q) (c_in c)) c).
  set (c2 := upd_in (set_pending q (c_in c)) c).
  assert (ReadEventWithTimeout c1 = Some ((ev, None), c2)) as Hr by done.
  cbn [peel_live]. rewrite (bind_eq _ _ _ _ _ Hr).
  apply Forall_cons in Hkeep as [He _]. destruct ev as [m|]; [|done].
  rewrite He. cbn [negb String.eqb]. unfold bind, modify, ret.
  eexists. split; [done|]. split; [|done].
  simpl. unfold enqueuePendingLocked. simpl in Hroom |- *.
  change (capacity (set_pending q (c_in c))) with (capacity (c_in c)).
  by rewrite (proj2 (Z.ltb_lt _ _)) by lia.
Qed.

(** A terminal frame that peeling reads from the socket and puts back is counted for
    delivery acknowledgement when it is read and again when it is taken from the
    buffer: the count runs ahead of the frames the daemon sent. *)
Theorem requeued_frame_counted_twice (c : client) (data : string) (rest : list read_result)
    (msg : message) (l : string)
    (Hi : client_inv c) (Ho : conn c = true) (Hp : pendingEvents (c_in c) = [])
    (Hs : sock_in c = RData data :: rest)
    (Hmsg : passed_on c (messages data) = [msg]) (Hkeep : StalePendingFrameLabel (wire_map msg) = "")
    (Hack : ack_loops (wire_map msg) = [l]) :
  ∃ c1 c2, Peel c = Some ([], c1) ∧ ReadEvent c1 = Some ((wire_map msg, None), c2) ∧
    seq_of (deliveryRecvSeq (c_acks c2)) l = (seq_of (deliveryRecvSeq (c_acks c)) l + 2)%Z.
Proof.
  destruct (wire_map msg) as [m|] eqn:Em; [|by vm_compute in Hack].
  destruct (ReadEvent_data parse_json parse_time data rest c Hi Ho Hp Hs) as (c1 & H1 & U1 & A1 & _).
  destruct (upd_sock_in_undisturbed _ _ _ U1) as (Hi1 & Ho1 & _ & _ & Hin1 & _).
  rewrite Hmsg in H1, A1. simpl in H1, A1. rewrite Em in H1, A1.
  unfold PeelStalePendingControlEvents. rewrite (bind_eq _ _ _ _ _ (peel_pending_spec c)).
  rewrite Hp. rewrite filter_nil. simpl (filter _ (_ <$> [])).
  assert (upd_in (set_pending [] (c_in c)) c = c) as ->.
  { destruct c as [? ? ? ? ? ? [q mx dr hk dg]]. simpl in *. by subst. }
  assert (ReadEventWithTimeout c = Some ((Some m, None), c1)) as Hr.
  { unfold Reader.ReadEventWithTimeout.
    rewrite (bind_eq _ _ c None c) by (unfold pop_event, pop_pending; by rewrite Hp).
    rewrite (bind_eq _ _ c true c) by (unfold get; by rewrite Ho). cbn [negb].
    by rewrite (bind_eq _ _ _ _ _ H1). }
  cbn [peel_live]. rewrite (bind_eq _ _ _ _ _ Hr), Hkeep. cbn [negb String.eqb].
  unfold bind at 1, modify. set (c2 := upd_in _ c1).
  assert (pendingEvents (c_in c2) = [Some m]) as Hp2.
  { simpl. rewrite Hin1. unfold enqueuePendingLocked. rewrite Hp.
    pose proof (capacity_pos (c_in c)). simpl. by rewrite (proj2 (Z.ltb_lt _ _)) by done. }
  exists c2. unfold Reader.ReadEvent. set (c3 := upd_in (set_pending [] (c_in c2)) c2).
  rewrite (bind_eq _ _ c2 (Some (Some m)) c3) by (unfold pop_event, pop_pending; by rewrite Hp2).
  eexists. split; [done|]. split; [done|]. simpl. rewrite A1.
  rewrite !track_bumps, Hack. simpl. rewrite !recv_bump. lia.
Qed.
End properties.

(** A frame that reaches the application as an envelope is never counted for delivery
    acknowledgement: the [complete] frames, and the [next] frames that wrap an event, for
    which [InboundNeedsDeliveryAck] has cases, lose their loop id or their wrapping in
    decoding. *)
Theorem envelope_never_acked (parse_time : string → option string) (v : value) (e : Envelope)
    (Hd : DecodeMessage parse_time v = Some (MEnvelope e)) :
  ack_loops (wire_map (MEnvelope e)) = [].
Proof.
  destruct (DecodeMessage_inv _ _ _ Hd) as (typ & _ & _ & Hty & Hcase). subst typ.
  destruct (enc_envelope_sget e) as (T & _ & L & _ & P).
  rewrite ack_loops_unfold. simpl wire_map. unfold ack_loops_body.
  set (m := enc_envelope e) in *. rewrite T.
  destruct (String.eqb_spec (env_Type e) "event_batch") as [E|_].
  { rewrite E in Hcase. exfalso. destruct Hcase as [H|[? _]]; [|done]. revert H. by_compute. }
  destruct (InboundNeedsDeliveryAck (Some m)) eqn:En; [|done]. unfold ExtractLoopIDFromInbound.
  rewrite L. change (TrimSpace "") with "". cbn [String.eqb negb]. rewrite T.
  destruct (String.eqb_spec (env_Type e) "next") as [E|_]; [|done]. exfalso.
  unfold InboundNeedsDeliveryAck in En. rewrite T, E in En. cbn [String.eqb] in En.
  destruct Hcase as [H|[_ Hn]]; [rewrite E in H; revert H; by_compute|].
  revert En. cbv zeta. rewrite P. unfold nextToEventMessage in Hn.
  destruct (env_Payload e) as [p|]; [|done]. unfold omit_empty.
  destruct (bool_decide (p = ∅)); [done|]. cbv zeta in Hn.
  destruct (asMap (mget (Some p) "data")) as [inner|] eqn:Ei; [|done].
  apply asMap_Some in Ei. rewrite Ei in Hn.
  assert (mhas (Some p) "data" = true) as Hh.
  { unfold mhas. apply bool_decide_eq_true. unfold mget in Ei. simpl in *.
    destruct (p !! "data"); [by eexists|done]. }
  rewrite Hh, orb_true_r in Hn. exfalso. clear -Hn.
  destruct (to_map _) as [i|]; [|discriminate Hn].
  destruct (_ || _); [|discriminate Hn]. destruct (mhas i "mode"); discriminate Hn.
Qed.

(** * Examples *)

(** A parser that knows three texts, and a client on a live socket. *)
Definition sample_json (s : string) : option value :=
  if s =s "PING" then Some (obj [("proto", VStr "1"); ("type", VStr "ping")])
  else if s =s "IDLE" then
    Some (obj [("type", VStr "status"); ("state", VStr "idle"); ("loop_id", VStr "L1")])
  else if s =s "DONE" then
    Some (obj [("type", VStr "event"); ("mode", VStr "messages"); ("loop_id", VStr "L1");
               ("data", VArr [obj [("type", VStr STREAM_END)]])])
  else None.

Definition live (reads : list read_result) : client :=
  Client true false reads true [] new_disc new_inbound new_acks newMux None false true "ready" "1" ∅ 0.

Lemma live_inv reads : client_inv (live reads).
Proof. split; [apply mux_inv_new|apply disc_inv_new]. Qed.


Definition wait_r1 : mux := (registerRPC "r1" newMux).2.

Lemma receive_messages_forwards_witness :
  ∃ c', ReceiveMessages sample_json Some (replicate 4 false)
      (live [RData (Join ["PING"; "DONE"] newline); RData "IDLE"]) =
    Some ((passed_on (live []) (concat (payload_messages sample_json Some <$>
             [Join ["PING"; "DONE"] newline; "IDLE"])), true, None), c') ∧
    sock_out c' = [NewPongEnvelope].
Proof.
  destruct (receive_messages_forwards sample_json Some
    (live [RData (Join ["PING"; "DONE"] newline); RData "IDLE"]) 4
    (live_inv _) eq_refl ltac:(simpl; lia)) as (c' & H & _ & _ & _ & _ & Ho).
  exists c'. split; [exact H|]. rewrite Ho. by vm_compute.
Defined.

Lemma read_event_drops_rest_witness :
  ∃ sent c1 c2,
    receive_scan false (payload_messages sample_json Some (Join ["DONE"; "IDLE"] newline))
      (live []) = Some (sent, c1) ∧
    ReadEvent sample_json Some (live [RData (Join ["DONE"; "IDLE"] newline)]) =
      Some ((from_option wire_map None (head sent), None), c2) ∧
    sock_in c2 = [] ∧ pendingEvents (c_in c2) = [].
Proof.
  destruct (read_event_drops_rest sample_json Some (live [RData (Join ["DONE"; "IDLE"] newline)])
    (Join ["DONE"; "IDLE"] newline) [] (live_inv _) eq_refl eq_refl eq_refl)
    as (sent & c1 & c2 & Hs & Hr & H1 & H2 & _).
  exists sent, c1, c2. exact (conj Hs (conj Hr (conj H1 H2))).
Defined.

Lemma quiet_payload_looks_closed_witness :
  ∃ c', ReadEvent sample_json Some (live [RData "PING"; RData "DONE"]) = Some ((None, None), c') ∧
    sock_in c' = [RData "DONE"].
Proof.
  destruct (quiet_payload_looks_closed sample_json Some (live [RData "PING"; RData "DONE"]) "PING"
    [RData "DONE"] (live_inv _) eq_refl eq_refl eq_refl ltac:(by vm_compute))
    as (c' & _ & H1 & _ & H2 & _).
  exists c'. exact (conj H1 H2).
Defined.

Definition note (s : string) : gomap := Some (mlit [("type", VStr "event"); ("text", VStr s)]).

Lemma peel_rotates_pending_witness :
  ∃ c', PeelStalePendingControlEvents sample_json Some
      (upd_in (set_pending [note "a"; note "b"] new_inbound) (live [])) = Some ([], c') ∧
    pendingEvents (c_in c') = [note "b"; note "a"].
Proof.
  destruct (peel_rotates_pending sample_json Some
    (upd_in (set_pending [note "a"; note "b"] new_inbound) (live [])) (note "a") [note "b"]
    eq_refl ltac:(done) ltac:(by repeat (constructor; [by vm_compute|])) ltac:(by vm_compute))
    as (c' & H1 & H2 & _).
  exists c'. exact (conj H1 H2).
Defined.

Lemma requeued_frame_counted_twice_witness :
  ∃ msg, payload_messages sample_json Some "DONE" = [msg] ∧
  ∃ c1 c2, PeelStalePendingControlEvents sample_json Some (live [RData "DONE"]) = Some ([], c1) ∧
    ReadEvent sample_json Some c1 = Some ((wire_map msg, None), c2) ∧
    seq_of (deliveryRecvSeq (c_acks c2)) "L1" = 2%Z.
Proof.
  eexists. split; [vm_compute; reflexivity|].
  apply (requeued_frame_counted_twice sample_json Some (live [RData "DONE"]) "DONE" [] _ "L1"
    (live_inv _) eq_refl eq_refl eq_refl); by vm_compute.
Defined.

Lemma envelope_never_acked_witness :
  ∃ e, DecodeMessage Some (obj [("type", VStr "complete"); ("id", VStr "s1"); ("loop_id", VStr "L1")]) =
      Some (MEnvelope e) ∧ ack_loops (wire_map (MEnvelope e)) = [].
Proof.
  eexists. split; [vm_compute; reflexivity|].
  apply (envelope_never_acked Some
    (obj [("type", VStr "complete"); ("id", VStr "s1"); ("loop_id", VStr "L1")])).
  by vm_compute.
Defined.
