(* ===== verification/Handshake.v ===== *)
(** Connecting (client.go): [Connect] resets the connection state and runs the
    [connection_init]/[connection_ack] handshake; [Reconnect] is [Connect] again. *)

From S2P Require Import Prelude GoStr Value Pending DeliveryAck Protocol GoChan Mux Client Reader.

(** * Definitions *)

Definition isRetryableWarnCode (code : Z) : bool :=
  (code =? -32001)%Z || (code =? -32002)%Z || (code =? -32003)%Z.

Definition sendInit (ctx_done : bool) : M (option error) :=
  SendMessage ctx_done NewConnectionInitEnvelope.

(** The fields of an acknowledgement. *)
Definition ack_caps (result : gomap) : gset string :=
  match to_arr (mget result "capabilities") with
  | Some rawCaps => list_to_set (omap to_str rawCaps)
  | None => ∅
  end.

Definition ack_version (result : gomap) : string :=
  let v := sget result "protocol_version" in if v =s "" then ProtoVersion else v.

(** What an acknowledgement sets on the client before its state is looked at. *)
Definition note_ack (result : gomap) (c : client) : client :=
  upd_shake (handshakeComplete c) (readinessState c) (ack_version result) (ack_caps result)
    (match to_float (mget result "heartbeat_interval_ms") with
     | Some hb => int_of_float hb
     | None => heartbeatIntervalMs c
     end) c.

Definition mark_ready (state : string) (c : client) : client :=
  upd_shake true state (protocolVersion c) (negotiatedCapabilities c) (heartbeatIntervalMs c) c.

Section handshake.
Context (parse_json : string → option value) (parse_time : string → option string).

(** The loop of [handshake]: [n] rounds start before the deadline. *)
Fixpoint handshake_loop (n : nat) (ctx_done : bool) : M (option error) :=
  match n with
  | O => ret (Some (ErrTimeout "connection_ack"))
  | S n =>
      let! r := ReadEvent parse_json parse_time in
      match r with
      | (_, Some e) => ret (Some (ErrWrap "handshake read" e))
      | (None, None) => ret (Some (ErrMsg "connection closed during handshake"))
      | (Some _ as ev, None) =>
          let typ := sget ev "type" in
          if typ =s "status" then handshake_loop n ctx_done
          else if typ =s "error" then
            let e := frame_error ev in
            if isRetryableWarnCode (Code e) then
              if ctx_done then ret (Some ErrContext)
              else
                let! err := sendInit ctx_done in
                match err with
                | Some e => ret (Some (ErrWrap "connection_init retry after warn" e))
                | None => handshake_loop n ctx_done
                end
            else ret (Some (ErrHandshake (Code e) (Message e)))
          else if typ <>s "connection_ack" then handshake_loop n ctx_done
          else
            let result := asMap (mget ev "result") in
            let state := sget result "readiness_state" in
            modify (note_ack result);;!
            if state =s "ready" then modify (mark_ready state);;! ret None
            else if state =s "incompatible" then
              let! v := get protocolVersion in ret (Some (ErrMsg ("protocol version incompatible: daemon returned " +:+ v)))
            else if state =s "error" then ret (Some (ErrMsg "daemon startup failed"))
            else if state =s "degraded" then ret (Some (ErrMsg "daemon is degraded"))
            else if (state =s "starting") || (state =s "warming") then
              if ctx_done then ret (Some ErrContext)
              else
                let! err := sendInit ctx_done in
                match err with
                | Some e => ret (Some (ErrWrap "connection_init retry" e))
                | None => handshake_loop n ctx_done
                end
            else ret (Some (ErrMsg ("daemon state is " +:+ state)))
      end
  end.

Definition handshake (n : nat) (ctx_done : bool) : M (option error) :=
  let! err := sendInit ctx_done in
  match err with
  | Some e => ret (Some (ErrWrap "connection_init" e))
  | None => handshake_loop n ctx_done
  end.

(** The reset of [Connect] for a socket that yields [reads]. *)
Definition fresh_connection (reads : list read_result) (w : bool) (c : client) : client :=
  Client true false reads w (sock_out c) new_disc (set_pending [] (c_in c)) (c_acks c) newMux
    (tracker c) (readerActive c) false (readinessState c) (protocolVersion c)
    (negotiatedCapabilities c) (heartbeatIntervalMs c).

(** [Connect]: [dial] is the socket the dialer gives, [None] when it fails. *)
Definition Connect (dial : option (list read_result * bool)) (n : nat) (ctx_done : bool) :
    M (option error) :=
  match dial with
  | None => ret (Some (ErrWrap "soothe dial" ErrDial))
  | Some (reads, w) =>
      modify (fresh_connection reads w);;!
      let! err := handshake n ctx_done in
      match err with
      | Some e => modify (upd_conn false true);;! ret (Some e)
      | None => ret None
      end
  end.

(** [Reconnect]: the old socket, if there is one, is closed first, so that nothing more is
    read from it or written to it when the dialling fails. *)
Definition Reconnect (dial : option (list read_result * bool)) (n : nat) (ctx_done : bool) :
    M (option error) :=
  let! o := get conn in
  (if o then modify (λ c, upd_sock_w false (upd_sock_in [] c)) else ret tt);;!
  Connect dial n ctx_done.

(** * Lemmas *)

(** What one frame means to the handshake. *)
Inductive verdict := VSkip | VRetry | VReady | VFatal.

#[export] Instance verdict_eq_dec : EqDecision verdict.
Proof. solve_decision. Defined.

Definition judge (ev : gomap) : verdict :=
  let typ := sget ev "type" in
  if typ =s "status" then VSkip
  else if typ =s "error" then
    if isRetryableWarnCode (Code (frame_error ev)) then VRetry else VFatal
  else if typ <>s "connection_ack" then VSkip
  else
    let state := sget (asMap (mget ev "result")) "readiness_state" in
    if state =s "ready" then VReady
    else if (state =s "starting") || (state =s "warming") then VRetry
    else VFatal.

(** What the handshake does to a frame, on a client whose writes succeed. *)
Definition after_frame (ev : gomap) (c : client) : client :=
  if sget ev "type" =s "connection_ack" then note_ack (asMap (mget ev "result")) c else c.

Definition add_out (e : Envelope) (c : client) : client := upd_sock_out (sock_out c ++ [e]) c.

Lemma SendMessage_ok e c :
  writable c = true → SendMessage false e c = Some (None, add_out e c).
Proof.
  unfold writable, SendMessage, bind, get, modify, ret.
  intros [[Ho Hc%negb_true_iff]%andb_true_iff Hw]%andb_true_iff.
  rewrite Ho, Hc. cbn [negb orb]. by rewrite Hw.
Qed.

Lemma handshake_round n c ev c1 :
  ReadEvent parse_json parse_time c = Some ((ev, None), c1) → ev ≠ None → writable c1 = true →
  match judge ev with
  | VSkip => handshake_loop (S n) false c = handshake_loop n false c1
  | VRetry =>
      handshake_loop (S n) false c =
      handshake_loop n false (add_out NewConnectionInitEnvelope (after_frame ev c1))
  | VReady =>
      handshake_loop (S n) false c = Some (None, mark_ready "ready" (after_frame ev c1))
  | VFatal => ∃ e c2, handshake_loop (S n) false c = Some (Some e, c2)
  end.
Proof.
  intros Hr Hne Hw. simpl handshake_loop. rewrite (bind_eq _ _ _ _ _ Hr).
  destruct ev as [m|]; [|done]. set (ev := Some m).
  assert (Hs : ∀ x, writable (after_frame x c1) = true).
  { intros x. unfold after_frame. by destruct (_ =s _). }
  pose proof (SendMessage_ok NewConnectionInitEnvelope c1 Hw) as Hsend.
  specialize (Hs ev). pose proof (SendMessage_ok NewConnectionInitEnvelope _ Hs) as Hsend'.
  unfold judge, after_frame in *. cbv zeta.
  destruct (sget ev "type" =s "status") eqn:E1; [done|].
  destruct (sget ev "type" =s "error") eqn:E2.
  { bool_to_prop. rewrite E2. destruct (isRetryableWarnCode _); [|by do 2 eexists].
    unfold sendInit. by rewrite (bind_eq _ _ _ _ _ Hsend). }
  destruct (sget ev "type" =s "connection_ack") eqn:E3; simpl; [|done].
  set (res := asMap (mget ev "result")) in *.
  rewrite (bind_eq _ _ c1 tt (note_ack res c1)) by done.
  destruct (sget res "readiness_state" =s "ready") eqn:S1.
  { bool_to_prop. by rewrite S1. }
  destruct (sget res "readiness_state" =s "incompatible") eqn:S2.
  { bool_to_prop. rewrite S2. simpl. by do 2 eexists. }
  destruct (sget res "readiness_state" =s "error") eqn:S3.
  { bool_to_prop. rewrite S3. simpl. by do 2 eexists. }
  destruct (sget res "readiness_state" =s "degraded") eqn:S4.
  { bool_to_prop. rewrite S4. simpl. by do 2 eexists. }
  destruct (_ || _); [|by do 2 eexists].
  unfold sendInit. by rewrite (bind_eq _ _ _ _ _ Hsend').
Qed.

(** The state during a handshake. *)
Definition shaking (c : client) : Prop :=
  client_inv c ∧ conn c = true ∧ conn_closed c = false ∧ handshakeComplete c = false.

Lemma SendMessage_total ctx e c :
  shaking c → ∃ err c', SendMessage ctx e c = Some (err, c') ∧ shaking c'.
Proof.
  intros (Hi & Ho & Hc & Hs). unfold SendMessage.
  rewrite (bind_eq _ _ c true c) by (unfold get; by rewrite Ho).
  rewrite (bind_eq _ _ c false c) by (unfold get; by rewrite Hc). cbn [negb orb].
  destruct ctx; [by do 2 eexists|]. rewrite (bind_eq _ _ c (sock_w c) c) by done.
  destruct (sock_w c); [by do 2 eexists|].
  destruct (signalDisconnect_total DisconnectUnclean c Hi) as (d & Hd & Hdi & _).
  rewrite (bind_eq _ _ _ _ _ Hd). do 2 eexists. split; [done|].
  split; [by destruct Hi|done].
Qed.

(** How a handshake ends: ready, or with an error and nothing recorded as complete. *)
Definition settled (err : option error) (c : client) : Prop :=
  client_inv c ∧
  match err with
  | None => conn c = true ∧ conn_closed c = false ∧ handshakeComplete c = true ∧ readinessState c = "ready"
  | Some _ => handshakeComplete c = false
  end.

Lemma handshake_loop_total n ctx c :
  shaking c → ∃ err c', handshake_loop n ctx c = Some (err, c') ∧ settled err c'.
Proof.
  revert c. induction n as [|n IH]; intros c Hsh.
  { pose proof Hsh as (Hi & _ & _ & Hs). do 2 eexists. split; [done|by split]. }
  pose proof Hsh as (Hi & Ho & Hc & Hs).
  destruct (ReadEvent_total parse_json parse_time c Hi) as (r & c1 & Hr & Hi1 & Ho1 & Hc1 & Hs1).
  assert (shaking c1) as Hsh1 by (split; [exact Hi1|split; [congruence|split; congruence]]).
  simpl handshake_loop. rewrite (bind_eq _ _ _ _ _ Hr).
  assert (Hend : ∀ e c2, shaking c2 → ∃ err c', ret (Some e) c2 = Some (err, c') ∧ settled err c').
  { intros e c2 (Hi2 & _ & _ & ?). do 2 eexists. split; [done|by split]. }
  assert (Hretry : ∀ p c2, shaking c2 → ∃ err c',
    bind (sendInit ctx) (λ err, match err with Some e => ret (Some (ErrWrap p e)) | None => handshake_loop n ctx end) c2
      = Some (err, c') ∧ settled err c').
  { intros p c2 H2. destruct (SendMessage_total ctx NewConnectionInitEnvelope c2 H2) as (err & c3 & H3 & Hsh3).
    unfold sendInit. rewrite (bind_eq _ _ _ _ _ H3). destruct err; [by apply Hend|by apply IH]. }
  destruct r as [[m|] [e|]]; try by apply Hend. cbv zeta.
  destruct (_ =s "status"); [by apply IH|]. destruct (_ =s "error").
  { destruct (isRetryableWarnCode _); [|by apply Hend]. destruct ctx; [by apply Hend|by apply Hretry]. }
  destruct (_ <>s "connection_ack"); [by apply IH|].
  set (res := asMap _). assert (shaking (note_ack res c1)) as Hsh2 by exact Hsh1.
  rewrite (bind_eq _ _ c1 tt (note_ack res c1)) by done.
  destruct (String.eqb_spec (sget res "readiness_state") "ready") as [E|_].
  { rewrite E. do 2 eexists. split; [done|]. destruct Hsh1 as (_ & ? & ? & _). by split. }
  destruct (_ =s "incompatible"); [by apply (Hend _ (note_ack res c1))|].
  destruct (_ =s "error"); [by apply Hend|]. destruct (_ =s "degraded"); [by apply Hend|].
  destruct (_ || _); [|by apply Hend]. destruct ctx; [by apply Hend|by apply Hretry].
Qed.

Lemma fresh_shaking reads w c : shaking (fresh_connection reads w c).
Proof. split; [|done]. split; [apply mux_inv_new|apply disc_inv_new]. Qed.

(** Frames the handshake sees first in a payload, on a fresh multiplexer. *)
Definition first_frame (data : string) : gomap :=
  from_option wire_map None
    (head (filter (λ msg, control msg = false) (payload_messages parse_json parse_time data))).

Lemma passed_on_fresh c msgs :
  (∀ f, awaited f (c_mux c) = awaited f newMux) →
  passed_on c msgs = filter (λ msg, control msg = false) msgs.
Proof.
  intros Hf. unfold passed_on. apply list_filter_iff. intros msg. rewrite Hf.
  assert (awaited (wire_map msg) newMux = false) as ->; [|naive_solver].
  unfold awaited, route_lookup. destruct (wire_map msg); [|done]. simpl.
  rewrite !lookup_empty. by repeat case_match.
Qed.

Definition inits (l : list Envelope) : nat :=
  length (filter (λ e, env_Type e = "connection_init") l).

Lemma inits_app a b : inits (a ++ b) = inits a + inits b.
Proof. unfold inits. by rewrite filter_app, length_app. Qed.

Lemma inits_pongs k : inits (replicate k NewPongEnvelope) = 0.
Proof. induction k as [|k IH]; [done|]. exact IH. Qed.

(** Payloads that keep the handshake going, and one that ends it well. *)
Definition waits (d : string) : bool :=
  match first_frame d with
  | Some _ => match judge (first_frame d) with VSkip | VRetry => true | _ => false end
  | None => false
  end.
Definition readies (d : string) : bool :=
  match first_frame d with
  | Some _ => match judge (first_frame d) with VReady => true | _ => false end
  | None => false
  end.

(** A client in the middle of a handshake on a live socket. *)
Definition midway (c : client) : Prop :=
  shaking c ∧ sock_w c = true ∧ pendingEvents (c_in c) = [] ∧
  ∀ f, awaited f (c_mux c) = awaited f newMux.

Lemma midway_read c data rest :
  midway c → sock_in c = RData data :: rest →
  ∃ c1, ReadEvent parse_json parse_time c = Some ((first_frame data, None), c1) ∧ midway c1 ∧
    sock_in c1 = rest ∧ inits (sock_out c1) = inits (sock_out c).
Proof.
  intros ((Hi & Ho & Hc & Hs) & Hw & Hp & Ha) Hin.
  destruct (ReadEvent_data parse_json parse_time data rest c Hi Ho Hp Hin)
    as (c1 & H1 & U1 & _ & k & Hk).
  exists c1. unfold first_frame. rewrite <-(passed_on_fresh c _ Ha). split; [done|].
  assert (c_in c1 = c_in c) as Hin1 by apply U1.
  assert (∀ f, awaited f (c_mux c1) = awaited f (c_mux c)) as Ha1 by apply U1.
  split; [split; [split; [apply U1|split; [|split]]|split; [|split]]|split].
  - by rewrite (un_conn _ _ U1).
  - by rewrite (un_closed _ _ U1).
  - by rewrite (un_shake _ _ U1).
  - by rewrite (un_sock_w _ _ U1).
  - by rewrite Hin1.
  - intros f. by rewrite Ha1.
  - apply U1.
  - rewrite Hk, inits_app, inits_pongs. lia.
Qed.

(** Enough rounds take the handshake through skipped and retried frames to the one
    that is ready. *)
Lemma handshake_loop_ready datas data rest n c :
  midway c → sock_in c = (RData <$> datas) ++ RData data :: rest → length datas < n →
  Forall (λ d, waits d = true) datas → readies data = true →
  ∃ c', handshake_loop n false c = Some (None, c') ∧ sock_in c' = rest ∧
    inits (sock_out c') =
      inits (sock_out c) + length (filter (λ d, judge (first_frame d) = VRetry) datas).
Proof.
  revert n c. induction datas as [|d datas IH]; intros n c Hm Hin Hn Hall Hready;
    (destruct n as [|n]; [simpl in Hn; lia|]); simpl in Hin.
  - destruct (midway_read c data rest Hm Hin) as (c1 & H1 & Hm1 & Hs1 & Hout).
    unfold readies in Hready. destruct (first_frame data) as [f|] eqn:Ef; [|done].
    destruct (judge (Some f)) eqn:Ej; try done.
    pose proof (handshake_round n c _ _ H1 ltac:(done)) as Hround. rewrite Ej in Hround.
    rewrite Hround by (destruct Hm1 as ((_ & Ho & Hc & _) & Hw & _); unfold writable; by rewrite Ho, Hc).
    eexists. split; [done|]. unfold after_frame. destruct (_ =s "connection_ack"); simpl;
      rewrite Hout; (split; [done|lia]).
  - apply Forall_cons in Hall as [Hd Hall]. unfold waits in Hd.
    destruct (midway_read c d _ Hm Hin) as (c1 & H1 & Hm1 & Hs1 & Hout).
    rewrite filter_cons. destruct (first_frame d) as [f|] eqn:Ef; [|done].
    pose proof (handshake_round n c _ _ H1 ltac:(done)) as Hround.
    assert (writable c1 = true) as Hw1
      by (destruct Hm1 as ((_ & Ho & Hc & _) & Hw & _); unfold writable; by rewrite Ho, Hc).
    specialize (Hround Hw1). simpl in Hn. destruct (judge (Some f)) eqn:Ej; try done.
    + destruct (IH n c1) as (c' & H' & Hs' & Ho'); [done..|lia|done|done|].
      exists c'. rewrite decide_False by done. rewrite Hround, Ho', Hout. done.
    + set (c2 := add_out _ _) in Hround.
      assert (midway c2) as Hm2.
      { unfold c2, after_frame. destruct (_ =s "connection_ack"); exact Hm1. }
      assert (sock_in c2 = (RData <$> datas) ++ RData data :: rest) as Hs2.
      { unfold c2, after_frame. by destruct (_ =s "connection_ack"). }
      assert (inits (sock_out c2) = inits (sock_out c) + 1) as Ho2.
      { unfold c2, after_frame. destruct (_ =s "connection_ack"); simpl;
          rewrite inits_app, Hout; done. }
      destruct (IH n c2) as (c' & H' & Hs' & Ho'); [done..|lia|done|done|].
      exists c'. rewrite decide_True by done. rewrite Hround, Ho', Ho2. simpl.
      split; [done|]. split; [done|lia].
Qed.

Lemma Connect_total dial n ctx_done c :
  ∃ err c', Connect dial n ctx_done c = Some (err, c') ∧ (client_inv c → client_inv c') ∧
    match err with
    | None => IsConnected c' = true ∧ IsHandshakeComplete c' = true ∧ ReadinessState c' = "ready"
    | Some _ =>
        match dial with
        | None => c' = c
        | Some _ => IsConnected c' = false ∧ IsHandshakeComplete c' = false
        end
    end.
Proof.
  unfold Connect. destruct dial as [[reads w]|]; [|by do 2 eexists].
  rewrite (bind_eq _ _ c tt (fresh_connection reads w c)) by done.
  assert (∃ err c', handshake n ctx_done (fresh_connection reads w c) = Some (err, c') ∧
    settled err c') as (err & c' & H & Hi' & Hs).
  { unfold handshake, sendInit.
    destruct (SendMessage_total ctx_done NewConnectionInitEnvelope _ (fresh_shaking reads w c))
      as (err & c1 & H1 & Hsh1).
    rewrite (bind_eq _ _ _ _ _ H1). destruct err as [e|]; [|by apply handshake_loop_total].
    do 2 eexists. split; [done|]. destruct Hsh1 as (? & _ & _ & ?). by split. }
  rewrite (bind_eq _ _ _ _ _ H). destruct err as [e|]; do 2 eexists; (split; [done|]); (split; [done|]).
  - by split.
  - destruct Hs as (Ho & Hc & Hh & Hr). unfold IsConnected. by rewrite Ho, Hc.
Qed.

Lemma Connect_ready c datas data rest n :
  length datas < n → Forall (λ d, waits d = true) datas → readies data = true →
  ∃ c', Connect (Some ((RData <$> datas) ++ RData data :: rest, true)) n false c = Some (None, c') ∧
    sock_in c' = rest ∧
    inits (sock_out c') = inits (sock_out c) + 1 +
      length (filter (λ d, judge (first_frame d) = VRetry) datas).
Proof.
  intros Hn Hwait Hready. unfold Connect. set (reads := (RData <$> datas) ++ RData data :: rest).
  set (c0 := fresh_connection reads true c).
  rewrite (bind_eq _ _ c tt c0) by done. unfold handshake, sendInit.
  pose proof (SendMessage_ok NewConnectionInitEnvelope c0 eq_refl) as Hs.
  assert (midway (add_out NewConnectionInitEnvelope c0)) as Hm.
  { split; [apply (fresh_shaking reads true)|done]. }
  destruct (handshake_loop_ready datas data rest n _ Hm eq_refl Hn Hwait Hready)
    as (c' & H' & Hin & Hout).
  rewrite (bind_eq _ _ c0 None c').
  { eexists. split; [done|]. split; [done|]. rewrite Hout. simpl. by rewrite inits_app. }
  by rewrite (bind_eq _ _ _ _ _ Hs).
Qed.

(** * Properties *)


(** The handshake gets through a daemon that is starting: whatever status frames,
    retryable errors and not-yet-ready acknowledgements come first, enough rounds reach
    the ready one, with one [connection_init] at the start and one more per retry. *)
Theorem connect_waits_for_ready (c : client) (datas : list string) (data : string)
    (rest : list read_result) (n : nat) (Hn : length datas < n)
    (Hwait : Forall (λ d, waits d = true) datas) (Hready : readies data = true) :
  ∃ c', Connect (Some ((RData <$> datas) ++ RData data :: rest, true)) n false c = Some (None, c') ∧
    sock_in c' = rest ∧
    inits (sock_out c') = inits (sock_out c) + 1 +
      length (filter (λ d, judge (first_frame d) = VRetry) datas).
Proof. by apply Connect_ready. Qed.

(** A ping in the first payload fails the handshake: it reads as a closed connection. *)
Theorem ping_fails_handshake (c : client) (data : string) (rest : list read_result) (n : nat)
    (Hping : first_frame data = None) :
  ∃ c', Connect (Some (RData data :: rest, true)) (S n) false c =
          Some (Some (ErrMsg "connection closed during handshake"), c') ∧ sock_in c' = rest.
Proof.
  unfold Connect. set (c0 := fresh_connection (RData data :: rest) true c).
  rewrite (bind_eq _ _ c tt c0) by done. unfold handshake, sendInit.
  pose proof (SendMessage_ok NewConnectionInitEnvelope c0 eq_refl) as Hs.
  assert (midway (add_out NewConnectionInitEnvelope c0)) as Hm.
  { split; [apply (fresh_shaking (RData data :: rest) true)|done]. }
  destruct (midway_read _ data rest Hm eq_refl) as (c1 & H1 & _ & Hs1 & _).
  rewrite Hping in H1.
  rewrite (bind_eq _ _ c0 (Some (ErrMsg "connection closed during handshake")) c1).
  { eexists. by split. }
  rewrite (bind_eq _ _ _ _ _ Hs). simpl handshake_loop. by rewrite (bind_eq _ _ _ _ _ H1).
Qed.
End handshake.

(** * Examples *)

Definition ack_json (s : string) : option value :=
  if s =s "STATUS" then Some (obj [("type", VStr "status"); ("state", VStr "idle")])
  else if s =s "WARMING" then
    Some (obj [("type", VStr "connection_ack"); ("result", obj [("readiness_state", VStr "warming")])])
  else if s =s "BUSY" then
    Some (obj [("type", VStr "error"); ("error", obj [("code", VFloat (float_of_int (-32002))); ("message", VStr "busy")])])
  else if s =s "READY" then
    Some (obj [("type", VStr "connection_ack"); ("result", obj [("readiness_state", VStr "ready")])])
  else if s =s "PING" then Some (obj [("type", VStr "ping")])
  else None.

Lemma connect_waits_for_ready_witness :
  ∃ c', Connect ack_json Some
      (Some ((RData <$> ["STATUS"; "WARMING"; "BUSY"]) ++ [RData "READY"], true)) 4 false NewClient =
      Some (None, c') ∧ inits (sock_out c') = 3.
Proof.
  destruct (connect_waits_for_ready ack_json Some NewClient ["STATUS"; "WARMING"; "BUSY"] "READY" [] 4)
    as (c' & H1 & _ & H2).
  - simpl. lia.
  - repeat (constructor; [vm_compute; reflexivity|]). constructor.
  - vm_compute; reflexivity.
  - exists c'. split; [exact H1|]. rewrite H2. vm_compute; reflexivity.
Defined.

Lemma ping_fails_handshake_witness :
  ∃ c', Connect ack_json Some (Some ([RData "PING"; RData "READY"], true)) 5 false NewClient =
    Some (Some (ErrMsg "connection closed during handshake"), c') ∧ sock_in c' = [RData "READY"].
Proof.
  apply (ping_fails_handshake ack_json Some NewClient "PING" [RData "READY"] 4). vm_compute; reflexivity.
Defined.
