(* ===== verification/Rpc.v ===== *)
(** Requests (request.go, session.go): a call sends an envelope, registers a waiter for
    its id with the multiplexer, and waits: on the waiter's channels alone while a
    [ReceiveMessages] reader owns the socket, else by reading the socket itself. *)

From S2P Require Import Prelude GoStr Value StreamTerminal InboundPriority Pending DeliveryAck.
From S2P Require Import Protocol GoChan Mux Heartbeat Client Reader.

(** * Definitions *)

(** What a round of a wait finds: its context done, or whether a reader owns the socket
    and the frames other goroutines have routed since the round before. The timeout
    strikes when the rounds end. *)
Inductive round := Cancelled | Round (reader : bool) (routed : list gomap).

(** The circumstances of a call: the id drawn for it, whether its context is done when it
    sends, the frames routed between the send and the registration of its waiter, and the
    rounds of its wait. *)
Record call := Call {
  newID : string;
  ctx_done : bool;
  between : list gomap;
  rounds : list round;
}.

Definition recv_reply_m (pc : nat) : M (option gomap) := λ c,
  let '(r, mx) := recv_reply pc (c_mux c) in Some (r, upd_mux mx c).
Definition recv_err_m (pc : nat) : M (option DaemonError) := λ c,
  let '(r, mx) := recv_err pc (c_mux c) in Some (r, upd_mux mx c).
Definition recv_stream_m (ps : nat) : M (option gomap) := λ c,
  let '(r, mx) := recv_stream ps (c_mux c) in Some (r, upd_mux mx c).

Definition registerRPC_m (id : string) : M nat := λ c,
  let '(pc, mx) := registerRPC id (c_mux c) in Some (pc, upd_mux mx c).
Definition unregisterRPC_m (id : string) (pc : nat) : M unit :=
  modify (λ c, upd_mux (unregisterRPC id pc (c_mux c)) c).
Definition registerSubscription_m (id : string) : M nat := λ c,
  let '(ps, mx) := registerSubscription id (c_mux c) in Some (ps, upd_mux mx c).
Definition unregisterSubscription_m (id : string) (ps : nat) : M unit := λ c,
  match unregisterSubscription id ps (c_mux c) with
  | Some mx => Some (tt, upd_mux mx c)
  | None => None
  end.

Definition result : Type := gomap + error.

(** The ready case of the [select] on a call's two channels, the reply if both are. *)
Definition poll_call (pc : nat) : M (option result) :=
  let! r := recv_reply_m pc in
  match r with
  | Some result => ret (Some (inl result))
  | None => let! e := recv_err_m pc in ret (inr ∘ ErrDaemon <$> e)
  end.

(** A frame from a subscription's stream. *)
Definition confirm (frame : gomap) : result :=
  match frame with
  | None => inr (ErrConnectionClosed "loop_events confirmation")
  | Some _ =>
      if sget frame "type" =s "error"
      then inr (ErrMsg ("daemon error: " +:+ sget (asMap (mget frame "error")) "message"))
      else inl (asMap (mget frame "payload"))
  end.

Definition poll_stream (ps : nat) : M (option result) :=
  let! r := recv_stream_m ps in ret (confirm <$> r).

(** What an event means to the caller that read it itself. *)
Inductive verdict := Mine (r : result) | Ignored | Others.

(** [detach] selects the flattened error of [LoopDetach]. *)
Definition own_error (detach : bool) (ev : gomap) : error :=
  if detach then ErrMsg ("daemon error: " +:+ sget (asMap (mget ev "error")) "message")
  else ErrDaemon (frame_error ev).

Definition call_verdict (detach : bool) (rid : string) (ev : gomap) : verdict :=
  if sget ev "id" <>s rid then Others
  else if sget ev "type" =s "error" then Mine (inr (own_error detach ev))
  else if sget ev "type" =s "response" then Mine (inl (frame_result ev))
  else Ignored.

Definition stream_verdict (id : string) (ev : gomap) : verdict :=
  if (sget ev "type" =s "error") && (sget ev "id" =s id) then Mine (confirm ev)
  else if (sget ev "type" <>s "next") || (sget ev "id" <>s id) then Others
  else Mine (inl (asMap (mget ev "payload"))).

Fixpoint route_frames (frames : list gomap) : M unit :=
  match frames with
  | [] => ret tt
  | frame :: frames => route_frame frame;;! route_frames frames
  end.

Section rpc.
Context (parse_json : string → option value) (parse_time : string → option string).
Local Abbreviation ReadEvent := (ReadEvent parse_json parse_time).

Section wait.
Context (poll : M (option result)) (own : gomap → verdict) (timeout : Z) (what : string).

(** Waiting on the channels; the caller does not look at the reader again. *)
Fixpoint await_active (rounds : list round) : M result :=
  match rounds with
  | [] => ret (inr (ErrTimeoutAfter timeout what))
  | Cancelled :: _ => ret (inr ErrContext)
  | Round reader routed :: rounds =>
      modify (upd_reader reader);;!
      route_frames routed;;!
      let! r := poll in
      match r with Some r => ret r | None => await_active rounds end
  end.

Fixpoint await (rounds : list round) : M result :=
  match rounds with
  | [] => ret (inr (ErrTimeoutAfter timeout what))
  | Cancelled :: _ => ret (inr ErrContext)
  | Round reader routed :: rounds =>
      modify (upd_reader reader);;!
      route_frames routed;;!
      let! active := get readerActive in
      let! r := poll in
      match r with
      | Some r => ret r
      | None =>
          if active then await_active rounds
          else
            let! ev := ReadEvent in
            match ev with
            | (_, Some e) => ret (inr (ErrWrap "read event" e))
            | (None, None) =>
                let! r := poll in
                ret (default (inr (ErrConnectionClosed what)) r)
            | (Some _ as ev, None) =>
                match own ev with
                | Mine r => ret r
                | Ignored => await rounds
                | Others => route_frame ev;;! await rounds
                end
            end
      end
  end.
End wait.

(** A correlated call, from the send on. *)
Definition correlated (k : call) (env : Envelope) (detach : bool) (sending what : string)
    (timeout : Z) : M result :=
  let! err := SendMessage (ctx_done k) env in
  match err with
  | Some e => ret (inr (ErrWrap sending e))
  | None =>
      route_frames (between k);;!
      let! pc := registerRPC_m (env_ID env) in
      let! r := await (poll_call pc) (call_verdict detach (env_ID env)) timeout what (rounds k) in
      unregisterRPC_m (env_ID env) pc;;! ret r
  end.

(** The parameters of a request: the payload without its control fields. *)
Definition request_params (payload : gmap string value) : gmap string value :=
  delete "request_id" (delete "type" payload).

Definition RequestResponse (k : call) (payload : gmap string value) (responseType : string)
    (timeout : Z) : M result :=
  let method := sget (Some payload) "type" in
  if method =s "" then ret (inr (ErrMsg "request payload missing 'type' (method)"))
  else
    let rid := sget (Some payload) "request_id" in
    let env := NewRequestEnvelopeWithID (newID k) method (Some (request_params payload)) rid in
    correlated k env false "send request" responseType timeout.

(** [timeout <= 0] takes the default. *)
Definition timeout_or (timeout default_s : Z) : Z :=
  if (timeout <=? 0)%Z then (default_s * second)%Z else timeout.

Definition LoopDetach (k : call) (loopID : string) (timeout : Z) : M result :=
  correlated k (NewUnsubscribeEnvelope loopID) true "send unsubscribe" "loop_detach"
    (timeout_or timeout 10).

Definition subscribe_params (loopID verbosity : string) : gmap string value :=
  mlit ([("loop_id", VStr loopID)] ++ (if verbosity =s "" then [] else [("verbosity", VStr verbosity)])).

(** A subscription, from the send on: its frames come through a stream of its own. *)
Definition subscription (k : call) (env : Envelope) (poll : nat → M (option result))
    (own : string → gomap → verdict) (timeout : Z) (what : string) : M result :=
  let! err := SendMessage (ctx_done k) env in
  match err with
  | Some e => ret (inr (ErrWrap "send subscribe" e))
  | None =>
      route_frames (between k);;!
      let! ps := registerSubscription_m (env_ID env) in
      let! r := await (poll ps) (own (env_ID env)) timeout what (rounds k) in
      unregisterSubscription_m (env_ID env) ps;;! ret r
  end.

Definition LoopSubscribe (k : call) (loopID verbosity : string) (timeout : Z) : M result :=
  let env := NewSubscribeEnvelope (newID k) "loop_events" (Some (subscribe_params loopID verbosity)) in
  subscription k env poll_stream stream_verdict (timeout_or timeout 10) "loop_events confirmation".

(** The loop of [WaitForDaemonReady], [n] events before its deadline. *)
Fixpoint await_ack (n : nat) (timeout : Z) : M result :=
  match n with
  | O => ret (inr (ErrTimeoutAfter timeout "connection_ack"))
  | S n =>
      let! ev := ReadEvent in
      match ev with
      | (_, Some e) => ret (inr e)
      | (None, None) => ret (inr (ErrConnectionClosed "connection_ack"))
      | (Some _ as ev, None) =>
          if sget ev "type" <>s "connection_ack" then await_ack n timeout
          else
            let state := sget (asMap (mget ev "result")) "readiness_state" in
            ret (if state =s "ready" then inl ev
                 else inr (ErrMsg ("daemon not ready: state=" +:+ state)))
      end
  end.

Definition WaitForDaemonReady (n : nat) (timeout : Z) : M result :=
  let! ready := get handshakeComplete in
  let! state := get readinessState in
  if ready then ret (inl (Some (mlit [("readiness_state", VStr state)])))
  else await_ack n (timeout_or timeout 10).

(** ** Requests by name *)

Definition rr (k : call) (fields : list (string * value)) (what : string) (timeout default_s : Z) :
    M result :=
  RequestResponse k (mlit fields) what (timeout_or timeout default_s).

(** An optional field of a payload. *)
Definition when (b : bool) (key : string) (v : value) : list (string * value) :=
  if b then [(key, v)] else [].
Definition str_opt (key s : string) : list (string * value) := when (s <>s "") key (VStr s).
Definition map_opt (key : string) (m : gomap) : list (string * value) :=
  when (bool_decide (is_Some m)) key (VMap m).
Definition int_opt (key : string) (n : Z) : list (string * value) := when (0 <? n)%Z key (VInt n).

Definition ListSkills k timeout := rr k [("type", VStr "skills_list")] "skills_list_response" timeout 15.
Definition ListModels k timeout := rr k [("type", VStr "models_list")] "models_list_response" timeout 15.
Definition InvokeSkill k skill args interactionMode timeout :=
  rr k ([("type", VStr "invoke_skill"); ("skill", VStr skill); ("args", VStr args)] ++
        str_opt "interaction_mode" interactionMode) "invoke_skill_response" timeout 120.
Definition CommandRequest k command loopID params timeout :=
  rr k ([("type", VStr "command_request"); ("command", VStr command)] ++ str_opt "loop_id" loopID ++
        map_opt "params" params) "command_response" timeout 30.
Definition LoopList k filter limit timeout :=
  rr k ([("type", VStr "loop_list")] ++ map_opt "filter" filter ++ int_opt "limit" limit)
    "loop_list_response" timeout 15.
Definition LoopGet k loopID verbose timeout :=
  rr k ([("type", VStr "loop_get"); ("loop_id", VStr loopID)] ++ when verbose "verbose" (VBool true))
    "loop_get_response" timeout 15.
Definition LoopTree k loopID format timeout :=
  rr k ([("type", VStr "loop_tree"); ("loop_id", VStr loopID)] ++ str_opt "format" format)
    "loop_tree_response" timeout 15.
Definition LoopPrune k loopID retentionDays dryRun timeout :=
  rr k ([("type", VStr "loop_prune"); ("loop_id", VStr loopID)] ++ int_opt "retention_days" retentionDays ++
        when dryRun "dry_run" (VBool true)) "loop_prune_response" timeout 30.
Definition LoopDelete k loopID timeout :=
  rr k [("type", VStr "loop_delete"); ("loop_id", VStr loopID)] "loop_delete_response" timeout 10.
Definition LoopReattach k loopID timeout :=
  rr k [("type", VStr "loop_reattach"); ("loop_id", VStr loopID)] "loop_reattach_response" timeout 15.
Definition LoopNew k timeout := rr k [("type", VStr "loop_new")] "loop_new_response" timeout 15.
Definition LoopInput k loopID content timeout :=
  rr k [("type", VStr "loop_input"); ("loop_id", VStr loopID); ("content", VStr content)]
    "loop_input_response" timeout 60.
Definition LoopMessages k loopID limit offset includeEvents timeout :=
  rr k ([("type", VStr "loop_messages"); ("loop_id", VStr loopID)] ++ int_opt "limit" limit ++
        int_opt "offset" offset ++ when includeEvents "include_events" (VBool true))
    "loop_messages_response" timeout 15.
Definition LoopStateGet k loopID timeout :=
  rr k [("type", VStr "loop_state_get"); ("loop_id", VStr loopID)] "loop_state_get_response" timeout 15.
Definition LoopStateUpdate k loopID values asNode timeout :=
  rr k ([("type", VStr "loop_state_update"); ("loop_id", VStr loopID); ("values", VMap values)] ++
        str_opt "as_node" asNode) "loop_state_update_response" timeout 15.
Definition MCPStatus k timeout := rr k [("type", VStr "mcp_status")] "mcp_status_response" timeout 15.
Definition LoopHistoryFetch k loopID timeout :=
  rr k [("type", VStr "loop_history_fetch"); ("loop_id", VStr loopID)] "loop_history_fetch_response" timeout 15.
Definition LoopExecutionStateFetch k loopID timeout :=
  rr k [("type", VStr "loop_execution_state_fetch"); ("loop_id", VStr loopID)]
    "loop_execution_state_fetch_response" timeout 15.

Definition slash (command : string) (k : call) (loopID : string) (timeout : Z) : M result :=
  CommandRequest k command loopID None (timeout_or timeout 10).
Definition CommandClear := slash "clear".
Definition CommandExit := slash "exit".
Definition CommandQuit := slash "quit".
Definition CommandDetach := slash "detach".
Definition CommandCancel := slash "cancel".
Definition CommandMemory := slash "memory".
Definition CommandPolicy k timeout := slash "policy" k "" timeout.
Definition CommandHistory := slash "history".
Definition CommandConfig k timeout := slash "config" k "" timeout.
Definition CommandReview := slash "review".
Definition CommandPlan := slash "plan".
Definition CommandAutopilotDashboard := slash "autopilot_dashboard".
End rpc.

(** * Every wait ends *)

(** What a wait leaves as it was in the multiplexer: who is registered, and whose
    subscriptions have ended. *)
Record same_waiters (m m' : mux) : Prop := {
  same_rpcs : rpcs m' = rpcs m;
  same_subs : subs m' = subs m;
  same_done a : (λ s, (ps_id s, ps_done s)) <$> streams m' !! a =
                (λ s, (ps_id s, ps_done s)) <$> streams m !! a;
}.

#[export] Instance same_waiters_preorder : PreOrder same_waiters.
Proof.
  split; [done|]. intros m1 m2 m3 [A1 B1 C1] [A2 B2 C2].
  split; [congruence..|]. intros a. by rewrite C2, C1.
Qed.

(** A computation that does not panic and leaves the waiters registered. *)
Definition keeps {A} (m : M A) : Prop := ∀ c, client_inv c →
  ∃ x c', m c = Some (x, c') ∧ client_inv c' ∧ same_waiters (c_mux c) (c_mux c').

Lemma keeps_ret {A} (x : A) : keeps (ret x).
Proof. intros c Hi. by exists x, c. Qed.

Lemma keeps_get {A} (f : client → A) : keeps (get f).
Proof. intros c Hi. by eexists _, c. Qed.

Lemma keeps_bind {A B} (m : M A) (f : A → M B) :
  keeps m → (∀ x, keeps (f x)) → keeps (bind m f).
Proof.
  intros Hm Hf c Hi. destruct (Hm c Hi) as (x & c1 & H1 & Hi1 & S1).
  destruct (Hf x c1 Hi1) as (y & c2 & H2 & Hi2 & S2). exists y, c2.
  rewrite (bind_eq _ _ _ _ _ H1). split; [done|]. split; [done|]. by etrans.
Qed.

Lemma keeps_modify (f : client → client) :
  (∀ c, c_mux (f c) = c_mux c) → (∀ c, c_disc (f c) = c_disc c) → keeps (modify f).
Proof.
  intros Hm Hd c [Him Hid]. eexists tt, _. split; [done|].
  split; [|by rewrite Hm]. split; [by rewrite Hm|by rewrite Hd].
Qed.

Create HintDb keeps.
#[export] Hint Resolve keeps_ret keeps_get keeps_bind : keeps.
#[export] Hint Extern 3 (keeps (modify _)) => apply keeps_modify; intros; reflexivity : keeps.

(** Structural proof of [keeps]: binds, then the cases of the computation. *)
Ltac solve_keeps :=
  repeat first
    [ solve [eauto 2 with keeps]
    | apply keeps_bind; [|intros ?]
    | match goal with |- keeps (if ?b then _ else _) => destruct b end
    | match goal with |- keeps (match ?x with _ => _ end) => destruct x end ].

Lemma keeps_signal cause : keeps (signalDisconnect cause).
Proof.
  intros c Hi. destruct (signalDisconnect_total cause c Hi) as (d & Hs & Hd & _).
  eexists _, _. split; [exact Hs|]. split; [|done]. by split; [apply Hi|].
Qed.

Lemma keeps_sendPong : keeps sendPong.
Proof. unfold sendPong. solve_keeps. Qed.
#[export] Hint Resolve keeps_signal keeps_sendPong : keeps.

Lemma keeps_SendMessage d msg : keeps (SendMessage d msg).
Proof. unfold SendMessage. solve_keeps. Qed.

Lemma keeps_isControlFrame msg : keeps (isControlFrame msg).
Proof. unfold isControlFrame. solve_keeps. Qed.

Lemma deliver_streams frame t b m m' a :
  route_deliver frame t m = Some (b, m') →
  (λ s, (ps_id s, ps_done s)) <$> streams m' !! a = (λ s, (ps_id s, ps_done s)) <$> streams m !! a.
Proof.
  destruct t as [|i|i|i]; simpl; intros H; [by simplify_eq|..];
    apply bind_Some in H as (w & Hw & H); repeat branch_in H; simplify_eq/=; try done;
    apply bind_Some in H as (ch & _ & H); simplify_eq/=; try done.
  rewrite lookup_insert. case_decide; [|done]. subst. rewrite Hw. simpl. congruence.
Qed.

Lemma keeps_route_frame frame : keeps (route_frame frame).
Proof.
  intros c [Hm Hd]. destruct (route_total frame (c_mux c) Hm) as (m' & Hr & Hi & _).
  unfold route_frame. rewrite Hr. eexists _, _. split; [done|]. split; [done|].
  destruct (deliver_tables _ _ _ _ _ Hr) as (? & ? & _). split; [done..|].
  intros a. by eapply deliver_streams.
Qed.
#[export] Hint Resolve keeps_SendMessage keeps_isControlFrame keeps_route_frame : keeps.

Lemma keeps_route_frames frames : keeps (route_frames frames).
Proof. induction frames; simpl; solve_keeps. Qed.

Lemma keeps_pop : keeps pop_event.
Proof. intros c Hi. unfold pop_event. destruct (pop_pending _) as [[ev q]|]; by eexists _, _. Qed.

Lemma keeps_ReadMessage : keeps ReadMessage.
Proof. intros c Hi. unfold ReadMessage. destruct (sock_in c); by eexists _, _. Qed.
#[export] Hint Resolve keeps_route_frames keeps_pop keeps_ReadMessage : keeps.

Lemma keeps_track m : keeps (track m).
Proof. unfold track. solve_keeps. Qed.
#[export] Hint Resolve keeps_track : keeps.

Lemma keeps_read_scan msgs : keeps (read_scan msgs).
Proof. induction msgs; simpl; solve_keeps. Qed.
#[export] Hint Resolve keeps_read_scan : keeps.

Lemma keeps_ReadEvent parse_json parse_time : keeps (ReadEvent parse_json parse_time).
Proof. unfold ReadEvent. solve_keeps. Qed.
#[export] Hint Resolve keeps_ReadEvent : keeps.

Lemma keeps_mux {A} (f : mux → A * mux) :
  (∀ m, mux_inv m → mux_inv (f m).2 ∧ same_waiters m (f m).2) →
  keeps (λ c, let '(r, mx) := f (c_mux c) in Some (r, upd_mux mx c)).
Proof.
  intros Hf c [Hm Hd]. specialize (Hf _ Hm). destruct (f (c_mux c)) as [r mx]. simpl in Hf.
  eexists _, _. split; [done|]. by destruct Hf.
Qed.

Lemma keeps_recv_reply pc : keeps (recv_reply_m pc).
Proof.
  apply keeps_mux. intros m Hm. split; [by apply recv_reply_inv|]. unfold recv_reply.
  destruct (calls m !! pc); [|done]. by destruct (try_recv _).
Qed.

Lemma keeps_recv_err pc : keeps (recv_err_m pc).
Proof.
  apply keeps_mux. intros m Hm. split; [by apply recv_err_inv|]. unfold recv_err.
  destruct (calls m !! pc); [|done]. by destruct (try_recv _).
Qed.

Lemma keeps_recv_stream ps : keeps (recv_stream_m ps).
Proof.
  apply keeps_mux. intros m Hm. split; [by apply recv_stream_inv|]. unfold recv_stream.
  destruct (streams m !! ps) as [s|] eqn:E; [|done]. destruct (try_recv _).
  split; [done..|]. intros a. simpl. rewrite lookup_insert. case_decide; [|done]. subst. by rewrite E.
Qed.
#[export] Hint Resolve keeps_recv_reply keeps_recv_err keeps_recv_stream : keeps.

Lemma keeps_poll_call pc : keeps (poll_call pc).
Proof. unfold poll_call. solve_keeps. Qed.

Lemma keeps_poll_stream ps : keeps (poll_stream ps).
Proof. unfold poll_stream. solve_keeps. Qed.
#[export] Hint Resolve keeps_poll_call keeps_poll_stream : keeps.

Lemma keeps_await_active poll timeout what rs :
  keeps poll → keeps (await_active poll timeout what rs).
Proof. intros Hp. induction rs as [|[|reader routed] rs IH]; simpl; solve_keeps. Qed.

Lemma keeps_await parse_json parse_time poll own timeout what rs :
  keeps poll → keeps (await parse_json parse_time poll own timeout what rs).
Proof.
  intros Hp. pose proof (keeps_await_active poll timeout what).
  induction rs as [|[|reader routed] rs IH]; simpl; solve_keeps.
Qed.

(** * What a call hears *)

(** The reply a frame addressed to the call carries. *)
Definition outcome (frame : gomap) : result :=
  if sget frame "type" =s "error" then inr (ErrDaemon (frame_error frame))
  else inl (frame_result frame).

Definition for_call (id : string) (frame : gomap) : bool :=
  is_reply "response" id frame || is_reply "error" id frame.

Definition replies (id : string) (frames : list gomap) : list gomap :=
  filter (λ f, for_call id f = true) frames.

(** The frames that reading a payload routes to waiters: the awaited ones up to the first
    message that is passed on. *)
Fixpoint scanned (c : client) (msgs : list message) : list gomap :=
  match msgs with
  | [] => []
  | msg :: msgs =>
      if control msg then scanned c msgs
      else if awaited (wire_map msg) (c_mux c) then wire_map msg :: scanned c msgs
      else []
  end.

Definition registered (id : string) (c : client) : client := upd_mux (registerRPC id (c_mux c)).2 c.

(** The waiter of the call, and what its channels hold. *)
Record waiting (id : string) (pc : nat) (rs : list gomap) (es : list DaemonError) (c : client) : Prop := {
  wt_inv : client_inv c;
  wt_id : rpcs (c_mux c) !! id = Some pc;
  wt_chans : ∃ w, calls (c_mux c) !! pc = Some w ∧ buf (replyCh w) = rs ∧ buf (errCh w) = es;
}.

Lemma results_replies id frames fr :
  replies id frames = [fr] →
  results id frames = (if sget fr "type" =s "error" then [] else [frame_result fr]) ∧
  errors id frames = (if sget fr "type" =s "error" then [frame_error fr] else []).
Proof.
  intros H. assert (for_call id fr = true) as Hf.
  { assert (fr ∈ replies id frames) as Hin by (rewrite H; set_solver).
    by apply list_elem_of_filter in Hin as [? _]. }
  assert (∀ typ, typ = "response" ∨ typ = "error" →
    filter (λ f, is_reply typ id f = true) frames =
    filter (λ f, is_reply typ id f = true) (replies id frames)) as E.
  { intros typ Ht. clear -Ht. unfold replies. induction frames as [|f fs IH]; [done|].
    rewrite !filter_cons. unfold for_call. destruct (is_reply typ id f) eqn:E.
    - rewrite decide_True by done. rewrite (decide_True (P := _ || _ = true)).
      + rewrite filter_cons, decide_True by done. f_equal. exact IH.
      + destruct Ht as [-> | ->]; rewrite E; [done|apply orb_true_r].
    - rewrite decide_False by done. destruct (decide (_ || _ = true)); [|exact IH].
      rewrite filter_cons, decide_False by (by rewrite E). exact IH. }
  unfold results, errors. rewrite !E, H by auto. rewrite !filter_cons, filter_nil.
  unfold for_call, is_reply in *. destruct fr as [m|]; [|done].
  destruct (sget (Some m) "id" =s id); rewrite ?andb_false_r in *; [|done]. rewrite !andb_true_r in *.
  destruct (String.eqb_spec (sget (Some m) "type") "response") as [Er|];
    [rewrite Er; done|]. simpl in Hf. rewrite Hf. done.
Qed.

Lemma results_none id frames : replies id frames = [] → results id frames = [] ∧ errors id frames = [].
Proof.
  unfold replies, results, errors. intros H. induction frames as [|f fs IH]; [done|].
  rewrite !filter_cons in *. unfold for_call in *.
  destruct (decide (_ || _ = true)) as [|Hn]; [done|]. apply not_true_is_false, orb_false_iff in Hn.
  destruct Hn as [-> ->]. rewrite !decide_False by done. by apply IH.
Qed.

Lemma route_all_tables frames m m' : route_all frames m = Some m' → rpcs m' = rpcs m.
Proof.
  revert m. induction frames as [|f fs IH]; simpl; intros m H; [by simplify_eq|].
  unfold route in H. destruct (route_deliver _ _ _) as [[b m1]|] eqn:E; [|done].
  rewrite (IH _ H). by eapply deliver_tables.
Qed.

(** The waiter after some frames, when at most one of them is for it. *)
Lemma waiting_after id pc c c' frames :
  id ≠ "" → waiting id pc [] [] c → client_inv c' →
  route_all frames (c_mux c) = Some (c_mux c') →
  (replies id frames = [] → waiting id pc [] [] c') ∧
  (∀ fr, replies id frames = [fr] →
    if sget fr "type" =s "error" then waiting id pc [] [frame_error fr] c'
    else waiting id pc [frame_result fr] [] c').
Proof.
  intros Hid [[Hi Hd] Hr (w & Hw & Hb1 & Hb2)] Hi' Hroute.
  destruct (route_all_call id pc w frames _ _ Hi Hid Hr Hw Hroute) as (w' & Hw' & E1 & E2).
  pose proof (route_all_tables _ _ _ Hroute) as Ht.
  destruct (inv_calls _ Hi _ _ Hw) as [(_ & _ & C1 & C2) _].
  unfold offers in E1, E2. rewrite Hb1, C1 in E1. rewrite Hb2, C2 in E2. simpl in E1, E2.
  split.
  - intros Hn. apply results_none in Hn as [R1 R2]. rewrite R1 in E1. rewrite R2 in E2.
    split; [done|by rewrite Ht|]. by exists w'.
  - intros fr Hf. apply results_replies in Hf as [R1 R2]. rewrite R1 in E1. rewrite R2 in E2.
    destruct (_ =s "error"); (split; [done|by rewrite Ht|]); by exists w'.
Qed.

Lemma route_frames_all frames c c' :
  route_frames frames c = Some (tt, c') →
  route_all frames (c_mux c) = Some (c_mux c') ∧ c' = upd_mux (c_mux c') c.
Proof.
  revert c. induction frames as [|f fs IH]; simpl; intros c.
  - intros [= <-]. split; [done|]. by destruct c.
  - unfold bind, route_frame. destruct (route f (c_mux c)) as [[b m]|]; [|done].
    intros H. apply IH in H as [H1 H2]. split; [done|]. rewrite H2. by destruct c.
Qed.

(** Polling takes what is there. *)
Lemma poll_none id pc c :
  waiting id pc [] [] c →
  ∃ c', poll_call pc c = Some (None, c') ∧ waiting id pc [] [] c' ∧ c' = upd_mux (c_mux c') c.
Proof.
  intros [Hi Hr (w & Hw & Hb1 & Hb2)]. destruct (keeps_poll_call pc c Hi) as (x & c' & Hp & Hi' & [Hs _ _]).
  revert Hp. unfold poll_call, recv_reply_m, recv_err_m, recv_reply, recv_err, try_recv, bind, ret.
  rewrite Hw, Hb1. simpl. rewrite lookup_insert_eq. simpl. rewrite Hb2. simpl. intros [= <- <-].
  eexists. split; [done|]. split; [|by destruct c]. split; [done|done|].
  eexists. split; [simpl; apply lookup_insert_eq|done].
Qed.

Lemma poll_some id pc fr c :
  (if sget fr "type" =s "error" then waiting id pc [] [frame_error fr] c
   else waiting id pc [frame_result fr] [] c) →
  ∃ c', poll_call pc c = Some (Some (outcome fr), c') ∧ client_inv c' ∧
    rpcs (c_mux c') !! id = Some pc ∧ c' = upd_mux (c_mux c') c.
Proof.
  intros H. assert (client_inv c) as Hi by (destruct (_ =s "error"); apply H).
  destruct (keeps_poll_call pc c Hi) as (x & c' & Hp & Hi' & [Hs _ _]).
  exists c'. assert (rpcs (c_mux c') !! id = Some pc) as Hr'.
  { rewrite Hs. destruct (_ =s "error"); apply H. }
  revert Hp. unfold poll_call, recv_reply_m, recv_err_m, recv_reply, recv_err, try_recv, bind, ret, outcome.
  destruct (_ =s "error"); destruct H as [_ Hr (w & Hw & Hb1 & Hb2)]; rewrite Hw, Hb1; simpl.
  - rewrite lookup_insert_eq. simpl. rewrite Hb2. simpl. intros [= <- <-]. by destruct c.
  - intros [= <- <-]. by destruct c.
Qed.

(** Two states in which the same frames are awaited. *)
Definition agree (c c' : client) : Prop := ∀ f, awaited f (c_mux c') = awaited f (c_mux c).

Lemma same_waiters_awaited m m' f :
  mux_inv m → mux_inv m' → same_waiters m m' → awaited f m' = awaited f m.
Proof.
  intros Hi Hi' [H1 H2 _]. apply awaited_tables; [done..|].
  by rewrite (proj1 (inv_receipts _ Hi)), (proj1 (inv_receipts _ Hi')).
Qed.

Lemma passed_on_agree c c' msgs : agree c c' → passed_on c' msgs = passed_on c msgs.
Proof.
  intros H. induction msgs as [|msg msgs IH]; [done|]. by rewrite !passed_on_cons, IH, H.
Qed.

Lemma scanned_agree c c' msgs : agree c c' → scanned c' msgs = scanned c msgs.
Proof. intros H. induction msgs as [|msg msgs IH]; [done|]. simpl. by rewrite IH, H. Qed.

Lemma isControlFrame_mux msg c b c' : isControlFrame msg c = Some (b, c') → c_mux c' = c_mux c.
Proof.
  unfold isControlFrame. destruct msg as [env| | | |]; [|by intros [= _ <-]..].
  destruct (_ =s "ping"); [unfold bind; rewrite sendPong_spec; by intros [= _ <-]; destruct (writable c)|].
  destruct (_ =s "pong"); [by intros [= _ <-]|]. destruct (_ =s "disconnect"); [|by intros [= _ <-]].
  unfold bind, signalDisconnect. destruct (signal _ _); [|done]. by intros [= _ <-].
Qed.

(** Reading a payload routes its [scanned] frames and no others. *)
Lemma read_scan_routes msgs c r c' :
  client_inv c → read_scan msgs c = Some (r, c') →
  route_all (scanned c msgs) (c_mux c) = Some (c_mux c').
Proof.
  revert c. induction msgs as [|msg msgs IH]; intros c Hi; simpl; [by intros [= _ <-]|].
  destruct (isControlFrame_spec msg c Hi) as (c1 & H1 & U1 & _).
  rewrite (bind_eq _ _ _ _ _ H1). destruct (control msg).
  - intros H. rewrite <-(IH c1 (un_inv _ _ U1) H), (isControlFrame_mux _ _ _ _ H1).
    by rewrite (scanned_agree _ _ _ (un_waiters _ _ U1)).
  - destruct (route_frame_spec (wire_map msg) c1 (un_inv _ _ U1)) as (c2 & H2 & U2 & _).
    rewrite (bind_eq _ _ _ _ _ H2), (un_waiters _ _ U1). revert H2.
    unfold route_frame. rewrite (isControlFrame_mux _ _ _ _ H1).
    destruct (route _ _) as [[b m]|] eqn:E; [|done].
    destruct (awaited _ _) eqn:Ea; intros [= -> <-] H.
    + simpl. rewrite E. change m with (c_mux (upd_mux m c1)) at 1.
      rewrite <-(IH _ (un_inv _ _ U2) H). f_equal. symmetry. apply scanned_agree.
      intros f. rewrite (un_waiters _ _ U2). apply U1.
    + simpl. apply route_unconsumed in E as ->. unfold bind, track, modify, ret in H. by simplify_eq/=.
Qed.

Section calls.
Context (parse_json : string → option value) (parse_time : string → option string).
Local Abbreviation messages := (payload_messages parse_json parse_time).
Local Abbreviation ReadEvent := (ReadEvent parse_json parse_time).

(** A call waiting on the socket, with [reads] to come. *)
Record listening (id : string) (pc : nat) (reads : list read_result) (c : client) : Prop := {
  ls_wait : waiting id pc [] [] c;
  ls_conn : conn c = true;
  ls_empty : pendingEvents (c_in c) = [];
  ls_in : sock_in c = reads;
}.

(** What a call has in its channels once the frame addressed to it was routed. *)
Definition delivered (id : string) (pc : nat) (fr : gomap) (c : client) : Prop :=
  if sget fr "type" =s "error" then waiting id pc [] [frame_error fr] c
  else waiting id pc [frame_result fr] [] c.

Lemma hear id pc data rest c :
  id ≠ "" → listening id pc (RData data :: rest) c →
  ∃ c', ReadEvent c = Some ((from_option wire_map None (head (passed_on c (messages data))), None), c') ∧
    agree c c' ∧ conn c' = conn c ∧ conn_closed c' = conn_closed c ∧ c_in c' = c_in c ∧ sock_in c' = rest ∧
    (∃ j, sock_out c' = sock_out c ++ replicate j NewPongEnvelope) ∧
    (replies id (scanned c (messages data)) = [] → listening id pc rest c') ∧
    (∀ fr, replies id (scanned c (messages data)) = [fr] → delivered id pc fr c').
Proof.
  intros Hid [Hw Ho Hp Hs].
  destruct (ReadEvent_data parse_json parse_time data rest c (wt_inv _ _ _ _ _ Hw) Ho Hp Hs)
    as (c' & H & U & _ & Hout).
  pose proof (upd_sock_in_undisturbed _ _ _ U) as (Hi' & Ho' & Hcl' & Hs' & Hin' & _).
  exists c'. split; [done|]. split; [intros f; apply (un_waiters _ _ U)|].
  do 5 (split; [done|]).
  assert (route_all (scanned c (messages data)) (c_mux c) = Some (c_mux c')) as Hr.
  { revert H. rewrite (ReadEvent_read _ _ (RData data) c (upd_sock_in rest c) Ho Hp)
      by (unfold ReadMessage; by rewrite Hs).
    unfold bind. destruct (read_scan _ _) as [[m c2]|] eqn:E; [|done].
    intros [= _ <-].
    rewrite <-(read_scan_routes _ _ _ _ (wt_inv _ _ _ _ _ Hw : client_inv (upd_sock_in rest c)) E).
    f_equal. symmetry. by apply scanned_agree. }
  destruct (waiting_after id pc c c' _ Hid Hw Hi' Hr) as [W0 W1]. split.
  - intros Hn. split; [by apply W0|congruence|congruence|done].
  - exact W1.
Qed.

(** A message that is passed on is not for the call. *)
Lemma passed_verdict id pc rs es c detach msgs msg :
  waiting id pc rs es c → id ≠ "" → msg ∈ passed_on c msgs →
  call_verdict detach id (wire_map msg) = Others ∨ call_verdict detach id (wire_map msg) = Ignored.
Proof.
  intros Hw Hid Hin. apply list_elem_of_filter in Hin as [[_ Ha] _].
  unfold call_verdict. destruct (String.eqb_spec (sget (wire_map msg) "id") id) as [E|]; [|by left].
  simpl. assert (∀ typ, typ = "response" ∨ typ = "error" → (sget (wire_map msg) "type" =s typ) = false) as Ht.
  { intros typ Ht. apply String.eqb_neq. intros Ety. unfold awaited in Ha.
    destruct (is_reply_lookup id pc (c_mux c) Hid (wt_id _ _ _ _ _ Hw) typ (wire_map msg) Ht) as [El _];
      [|by rewrite El in Ha].
    unfold is_reply. rewrite Ety, E, !String.eqb_refl. destruct (wire_map msg); [done|].
    by rewrite <-E in Hid. }
  rewrite !Ht by auto. by right.
Qed.

Lemma route_frame_unawaited ev c :
  client_inv c → awaited ev (c_mux c) = false → route_frame ev c = Some (false, c).
Proof.
  intros [Hm _] Ha. destruct (route_total ev (c_mux c) Hm) as (m' & Hr & _).
  rewrite Ha in Hr. unfold route_frame. rewrite Hr. apply route_unconsumed in Hr as ->. by destruct c.
Qed.

(** What reading left, seen from before it. *)
Record read_on (c c' : client) (rest : list read_result) : Prop := {
  ro_agree : agree c c';
  ro_conn : conn c' = conn c;
  ro_closed : conn_closed c' = conn_closed c;
  ro_in : c_in c' = c_in c;
  ro_rest : sock_in c' = rest;
  ro_out : ∃ j, sock_out c' = sock_out c ++ replicate j NewPongEnvelope;
}.

Lemma read_on_trans c1 c2 c3 r2 r3 : read_on c1 c2 r2 → read_on c2 c3 r3 → read_on c1 c3 r3.
Proof.
  intros [A1 B1 C1 D1 E1 [j1 F1]] [A2 B2 C2 D2 E2 [j2 F2]]. split; try congruence.
  exists (j1 + j2). by rewrite F2, F1, <-app_assoc, replicate_add.
Qed.

Local Abbreviation A detach id pc timeout what :=
  (await parse_json parse_time (poll_call pc) (call_verdict detach id) timeout what).

(** A round of a listening call. *)
Lemma await_round id pc detach timeout what data rest c :
  id ≠ "" → listening id pc (RData data :: rest) c →
  ∃ c', read_on c c' rest ∧
    (replies id (scanned c (messages data)) = [] → listening id pc rest c') ∧
    (∀ fr, replies id (scanned c (messages data)) = [fr] → delivered id pc fr c') ∧
    ∀ rs, A detach id pc timeout what (Round false [] :: rs) c =
      match from_option wire_map None (head (passed_on c (messages data))) with
      | None => bind (poll_call pc) (λ r, ret (default (inr (ErrConnectionClosed what)) r)) c'
      | Some _ => A detach id pc timeout what rs c'
      end.
Proof.
  intros Hid [Hw Ho Hp Hs]. set (c0 := upd_reader false c).
  assert (waiting id pc [] [] c0) as Hw0 by (destruct Hw; by split).
  destruct (poll_none id pc c0 Hw0) as (c1 & Hpoll & Hw1 & Ec1).
  assert (listening id pc (RData data :: rest) c1) as Hl1 by (split; [done|by rewrite Ec1..]).
  destruct (keeps_poll_call pc c0 (wt_inv _ _ _ _ _ Hw0)) as (x & cx & Hx & Hix & Sx).
  rewrite Hpoll in Hx. injection Hx as <- <-.
  assert (agree c c1) as Hag.
  { intros f. apply (same_waiters_awaited (c_mux c)); [apply (wt_inv _ _ _ _ _ Hw)|apply Hix|done]. }
  destruct (hear id pc data rest c1 Hid Hl1)
    as (c2 & Hread & Hag2 & Hc2 & Hcl2 & Hin2 & Hs2 & Hout2 & Hn & Hf).
  rewrite (scanned_agree _ _ _ Hag) in Hn, Hf. rewrite (passed_on_agree _ _ _ Hag) in Hread.
  exists c2. split.
  assert (conn c1 = conn c ∧ conn_closed c1 = conn_closed c ∧ c_in c1 = c_in c ∧
          sock_out c1 = sock_out c) as (F1 & F2 & F3 & F4) by (by rewrite Ec1).
  { split; [intros f; by rewrite Hag2, Hag|congruence..|by rewrite <-F4]. }
  split; [done|]. split; [done|]. intros rs. cbn [await].
  rewrite (bind_eq _ _ c tt c0) by done. cbn [route_frames].
  rewrite (bind_eq _ _ c0 tt c0) by done. rewrite (bind_eq _ _ c0 false c0) by done.
  rewrite (bind_eq _ _ _ _ _ Hpoll), (bind_eq _ _ _ _ _ Hread).
  destruct (passed_on c (messages data)) as [|msg l] eqn:Em; [done|]. simpl.
  assert (msg ∈ passed_on c1 (messages data)) as Hin.
  { rewrite (passed_on_agree _ _ _ Hag), Em. set_solver. }
  destruct (wire_map msg) as [m|] eqn:Ew; [|done]. rewrite <-Ew.
  destruct (passed_verdict id pc _ _ c1 detach _ msg Hw1 Hid Hin) as [-> | ->]; [|done].
  apply list_elem_of_filter in Hin as [[_ Ha] _].
  rewrite (bind_eq _ _ c2 false c2); [done|]. apply route_frame_unawaited; [|by rewrite Hag2].
  destruct (ReadEvent_total parse_json parse_time c1 (wt_inv _ _ _ _ _ Hw1)) as (r & c' & H & Hi' & _).
  rewrite Hread in H. by simplify_eq.
Qed.

(** A payload that is none of the call's business, and shows the caller an event. *)
Definition noise (c : client) (id data : string) : Prop :=
  from_option wire_map None (head (passed_on c (messages data))) ≠ None ∧
  replies id (scanned c (messages data)) = [].

Lemma await_noise id pc detach timeout what ds reads rs c :
  id ≠ "" → listening id pc ((RData <$> ds) ++ reads) c → Forall (noise c id) ds →
  ∃ c', read_on c c' reads ∧ listening id pc reads c' ∧
    A detach id pc timeout what (replicate (length ds) (Round false []) ++ rs) c =
    A detach id pc timeout what rs c'.
Proof.
  intros Hid. revert c. induction ds as [|d ds IH]; intros c Hl Hn.
  { exists c. split; [|done]. split; try done; [apply Hl|]. exists 0. by rewrite app_nil_r. }
  apply Forall_cons in Hn as [[Hp Hr] Hn]. simpl in Hl.
  destruct (await_round id pc detach timeout what d _ c Hid Hl) as (c1 & Ro & Hl1 & _ & HA).
  specialize (Hl1 Hr). destruct (IH c1 Hl1) as (c2 & Ro2 & Hl2 & HA2).
  { eapply Forall_impl; [exact Hn|]. intros x [H1 H2]. split.
    - by rewrite (passed_on_agree _ _ _ (ro_agree _ _ _ Ro)).
    - by rewrite (scanned_agree _ _ _ (ro_agree _ _ _ Ro)). }
  exists c2. split; [by eapply read_on_trans|]. split; [done|]. simpl replicate. simpl app.
  rewrite HA. destruct (from_option _ _ _); [exact HA2|done].
Qed.

Lemma read_on_upd m c : agree c (upd_mux m c) → read_on c (upd_mux m c) (sock_in c).
Proof. intros H. split; try done. exists 0. by rewrite app_nil_r. Qed.

Lemma poll_delivered id pc fr c :
  delivered id pc fr c →
  ∃ c', poll_call pc c = Some (Some (outcome fr), c') ∧ client_inv c' ∧
    rpcs (c_mux c') !! id = Some pc ∧ read_on c c' (sock_in c).
Proof.
  intros Hd. assert (client_inv c) as Hi by (unfold delivered in Hd; destruct (_ =s "error"); apply Hd).
  destruct (poll_some id pc fr c Hd) as (c' & Hp & Hi' & Hr & E). exists c'.
  split; [done|]. split; [done|]. split; [done|]. rewrite E. apply read_on_upd. rewrite <-E.
  intros f. destruct (keeps_poll_call pc c Hi) as (x & cx & Hx & Hix & Sx).
  rewrite Hp in Hx. simplify_eq. apply same_waiters_awaited; [apply Hi|apply Hix|done].
Qed.

Lemma await_reply id pc detach timeout what data fr rest rs c :
  id ≠ "" → listening id pc (RData data :: rest) c →
  replies id (scanned c (messages data)) = [fr] →
  ∃ c', read_on c c' rest ∧ client_inv c' ∧ rpcs (c_mux c') !! id = Some pc ∧
    A detach id pc timeout what (Round false [] :: Round false [] :: rs) c = Some (outcome fr, c').
Proof.
  intros Hid Hl Hr.
  destruct (await_round id pc detach timeout what data rest c Hid Hl) as (c1 & Ro & _ & Hd & HA).
  specialize (Hd _ Hr). rewrite HA. clear HA. destruct (from_option _ _ _) as [m|].
  - set (c2 := upd_reader false c1).
    assert (delivered id pc fr c2) as Hd2.
    { unfold delivered in *. destruct (_ =s "error"); destruct Hd; by split. }
    destruct (poll_delivered id pc fr c2 Hd2) as (c' & Hp & Hi & Hrp & Ro').
    exists c'. split; [|split; [done|split; [done|]]].
    { eapply read_on_trans; [exact Ro|]. rewrite <-(ro_rest _ _ _ Ro). destruct Ro'. by split. }
    cbn [await route_frames]. rewrite (bind_eq _ _ c1 tt c2), (bind_eq _ _ c2 tt c2) by done.
    rewrite (bind_eq _ _ c2 false c2) by done. by rewrite (bind_eq _ _ _ _ _ Hp).
  - destruct (poll_delivered id pc fr c1 Hd) as (c' & Hp & Hi & Hrp & Ro').
    exists c'. split; [|split; [done|split; [done|]]].
    { eapply read_on_trans; [exact Ro|]. by rewrite <-(ro_rest _ _ _ Ro). }
    by rewrite (bind_eq _ _ _ _ _ Hp).
Qed.
End calls.

(** ** Calls end *)

Section totality.
Context (parse_json : string → option value) (parse_time : string → option string).

(** A correlated call ends without a panic and takes its registration with it. *)
Lemma correlated_total k env detach sending what timeout c :
  client_inv c →
  ∃ r c', correlated parse_json parse_time k env detach sending what timeout c = Some (r, c') ∧
    client_inv c' ∧ subs (c_mux c') = subs (c_mux c) ∧
    (rpcs (c_mux c') = rpcs (c_mux c) ∨ rpcs (c_mux c') = delete (env_ID env) (rpcs (c_mux c))).
Proof.
  intros Hi. unfold correlated. set (id := env_ID env).
  destruct (keeps_SendMessage (ctx_done k) env c Hi) as (err & c1 & H1 & Hi1 & [R1 S1 _]).
  rewrite (bind_eq _ _ _ _ _ H1). destruct err as [e|]; [eexists _, c1; by auto|].
  destruct (keeps_route_frames (between k) c1 Hi1) as ([] & c2 & H2 & Hi2 & [R2 S2 _]).
  rewrite (bind_eq _ _ _ _ _ H2). set (c3 := registered id c2).
  rewrite (bind_eq _ _ c2 (next_addr (c_mux c2)) c3) by done.
  assert (client_inv c3) as Hi3 by (split; [apply register_inv, Hi2|apply Hi2]).
  destruct (keeps_await parse_json parse_time (poll_call (next_addr (c_mux c2)))
    (call_verdict detach id) timeout what (rounds k) (keeps_poll_call _) c3 Hi3)
    as (r & c4 & H4 & Hi4 & [R4 S4 _]).
  rewrite (bind_eq _ _ _ _ _ H4). eexists _, _. split; [done|].
  split; [split; [apply unregister_inv, Hi4|apply Hi4]|]. simpl.
  rewrite unregister_registered by (rewrite R4; simpl; apply lookup_insert_eq). simpl.
  rewrite R4, S4. simpl. rewrite delete_insert_eq, R2, R1. split; [congruence|by right].
Qed.

(** A subscription ends without a panic and takes its registration with it. *)
Lemma subscription_total k env poll own timeout what c :
  client_inv c → (∀ ps, keeps (poll ps)) →
  ∃ r c', subscription parse_json parse_time k env poll own timeout what c = Some (r, c') ∧
    client_inv c' ∧ rpcs (c_mux c') = rpcs (c_mux c) ∧
    (subs (c_mux c') = subs (c_mux c) ∨ subs (c_mux c') = delete (env_ID env) (subs (c_mux c))).
Proof.
  intros Hi Hpoll. unfold subscription. set (id := env_ID env).
  destruct (keeps_SendMessage (ctx_done k) env c Hi) as (err & c1 & H1 & Hi1 & [R1 S1 D1]).
  rewrite (bind_eq _ _ _ _ _ H1). destruct err as [e|]; [eexists _, c1; by auto|].
  destruct (keeps_route_frames (between k) c1 Hi1) as ([] & c2 & H2 & Hi2 & [R2 S2 D2]).
  rewrite (bind_eq _ _ _ _ _ H2). set (ps := next_addr (c_mux c2)).
  set (c3 := upd_mux (registerSubscription id (c_mux c2)).2 c2).
  rewrite (bind_eq _ _ c2 ps c3) by done.
  assert (client_inv c3) as Hi3 by (split; [apply subscribe_inv, Hi2|apply Hi2]).
  destruct (keeps_await parse_json parse_time (poll ps) (own id) timeout what (rounds k) (Hpoll _) c3 Hi3)
    as (r & c4 & H4 & Hi4 & [R4 S4 D4]).
  rewrite (bind_eq _ _ _ _ _ H4). specialize (D4 ps). simpl in D4. rewrite lookup_insert_eq in D4.
  destruct (streams (c_mux c4) !! ps) as [s|] eqn:Es; [|done]. injection D4 as Hsid Hsd.
  unfold unregisterSubscription_m, bind.
  destruct (unregisterSubscription id ps (c_mux c4)) as [m|] eqn:Eu.
  2:{ exfalso. unfold unregisterSubscription in Eu. case_bool_decide; simpl in Eu; rewrite Es, Hsd in Eu; done. }
  eexists _, _. split; [done|].
  split; [split; [by eapply unsubscribe_inv; [..|apply Hi4]|apply Hi4]|]. simpl.
  unfold unregisterSubscription in Eu. simpl in S4.
  rewrite bool_decide_eq_true_2 in Eu by (rewrite S4; apply lookup_insert_eq).
  simpl in Eu. rewrite Es, Hsd in Eu. injection Eu as <-. simpl.
  rewrite R4, S4. simpl. rewrite R2, R1. split; [done|right].
  by rewrite delete_insert_eq, S2, S1.
Qed.

Lemma LoopSubscribe_total k loopID verbosity timeout c :
  client_inv c →
  ∃ r c', LoopSubscribe parse_json parse_time k loopID verbosity timeout c = Some (r, c') ∧
    client_inv c' ∧ rpcs (c_mux c') = rpcs (c_mux c) ∧
    (subs (c_mux c') = subs (c_mux c) ∨ subs (c_mux c') = delete (newID k) (subs (c_mux c))).
Proof. intros Hi. apply subscription_total; [done|exact keeps_poll_stream]. Qed.

Lemma RequestResponse_total k payload what timeout c :
  client_inv c →
  ∃ r c', RequestResponse parse_json parse_time k payload what timeout c = Some (r, c') ∧ client_inv c'.
Proof.
  intros Hi. unfold RequestResponse. destruct (_ =s ""); [by eexists _, c|].
  edestruct correlated_total as (r & c' & H & Hi' & _); [exact Hi|]. by exists r, c'.
Qed.
End totality.

(** * Properties *)

Section properties.
Context (parse_json : string → option value) (parse_time : string → option string).
Local Abbreviation messages := (payload_messages parse_json parse_time).
Local Abbreviation RequestResponse := (RequestResponse parse_json parse_time).
Local Abbreviation LoopSubscribe := (LoopSubscribe parse_json parse_time).

(** The id a request goes out with. *)
Definition request_id (k : call) (payload : gmap string value) : string :=
  let rid := sget (Some payload) "request_id" in if rid =s "" then newID k else rid.


(** A subscription always ends the same way: its wait is bounded, nothing panics (the
    stream is closed once), and the registrations are as they were. *)
Theorem subscribe_ends (k : call) (loopID verbosity : string) (timeout : Z)
    (c : client) (Hi : client_inv c) (Hfresh : subs (c_mux c) !! newID k = None) :
  ∃ r c', LoopSubscribe k loopID verbosity timeout c = Some (r, c') ∧ client_inv c' ∧
    rpcs (c_mux c') = rpcs (c_mux c) ∧ subs (c_mux c') = subs (c_mux c).
Proof.
  destruct (LoopSubscribe_total parse_json parse_time k loopID verbosity timeout c Hi)
    as (r & c' & H & Hi' & Hr & Hs).
  exists r, c'. split; [exact H|]. split; [done|]. split; [done|].
  destruct Hs as [Hs|Hs]; [done|]. rewrite Hs. by apply delete_id.
Qed.

(** What is left of a request once it is sent. *)
Lemma request_sent k payload what timeout c :
  IsConnected c = true → sock_w c = true → ctx_done k = false → sget (Some payload) "type" ≠ "" →
  let id := request_id k payload in
  ∃ env, env_ID env = id ∧ env_Method env = sget (Some payload) "type" ∧
    RequestResponse k payload what timeout c =
      (route_frames (between k);;!
       let! pc := registerRPC_m id in
       let! r := await parse_json parse_time (poll_call pc) (call_verdict false id) timeout what (rounds k) in
       unregisterRPC_m id pc;;! ret r) (upd_sock_out (sock_out c ++ [env]) c).
Proof.
  intros Hc Hw Hctx Hm id. unfold IsConnected in Hc. bool_to_prop.
  unfold Rpc.RequestResponse, correlated. rewrite (proj2 (String.eqb_neq _ _) Hm).
  set (env := NewRequestEnvelopeWithID _ _ _ _). exists env. do 2 (split; [done|]).
  rewrite (bind_eq _ _ c None (upd_sock_out (sock_out c ++ [env]) c)); [done|].
  unfold SendMessage. rewrite (bind_eq _ _ c true c) by (unfold get; congruence).
  rewrite (bind_eq _ _ c false c) by (unfold get; congruence). rewrite Hctx. cbn [negb orb].
  by rewrite (bind_eq _ _ c true c) by (unfold get; congruence).
Qed.

Lemma registered_waiting id c :
  client_inv c → waiting id (next_addr (c_mux c)) [] [] (registered id c).
Proof.
  intros Hi. split; [split; [apply register_inv, Hi|apply Hi]|apply lookup_insert_eq|].
  eexists. split; [apply lookup_insert_eq|done].
Qed.

(** A request that was sent listens on the socket. *)
Lemma request_listens k payload what timeout c :
  client_inv c → IsConnected c = true → sock_w c = true → pendingEvents (c_in c) = [] →
  ctx_done k = false → between k = [] → sget (Some payload) "type" ≠ "" →
  let id := request_id k payload in
  let pc := next_addr (c_mux c) in
  ∃ env c', c' = registered id (upd_sock_out (sock_out c ++ [env]) c) ∧ env_ID env = id ∧
    env_Method env = sget (Some payload) "type" ∧
    listening id pc (sock_in c) c' ∧
    RequestResponse k payload what timeout c =
      bind (await parse_json parse_time (poll_call pc) (call_verdict false id) timeout what (rounds k))
        (λ r, unregisterRPC_m id pc;;! ret r) c'.
Proof.
  intros Hi Hc Hw Hp Hctx Hb Hm id pc.
  destruct (request_sent k payload what timeout c Hc Hw Hctx Hm) as (env & E1 & E2 & ->).
  set (c0 := upd_sock_out (sock_out c ++ [env]) c). exists env, (registered id c0).
  do 3 (split; [done|]). unfold IsConnected in Hc. bool_to_prop. split.
  - split; [|done..]. by apply (registered_waiting id c0).
  - rewrite Hb. cbn [route_frames].
    by rewrite (bind_eq _ _ c0 tt c0), (bind_eq _ _ c0 pc (registered id c0)) by done.
Qed.

(** The reply of a request that reads the socket itself. *)
Lemma request_replied (k : call) (payload : gmap string value) (what : string) (timeout : Z)
    (c : client) (ds : list string) (data : string) (rest : list read_result) (fr : gomap)
    (more : list round)
    (Hi : client_inv c) (Hc : IsConnected c = true) (Hw : sock_w c = true)
    (Hp : pendingEvents (c_in c) = []) (Hctx : ctx_done k = false) (Hb : between k = [])
    (Hm : sget (Some payload) "type" ≠ "") (Hid : request_id k payload ≠ "")
    (Hs : sock_in c = (RData <$> ds) ++ RData data :: rest)
    (Hn : Forall (noise parse_json parse_time (registered (request_id k payload) c) (request_id k payload)) ds)
    (Hr : replies (request_id k payload)
            (scanned (registered (request_id k payload) c) (messages data)) = [fr])
    (Hrounds : rounds k = replicate (length ds) (Round false []) ++
                 Round false [] :: Round false [] :: more) :
  ∃ c' env j, RequestResponse k payload what timeout c = Some (outcome fr, c') ∧
    env_ID env = request_id k payload ∧ env_Method env = sget (Some payload) "type" ∧
    sock_out c' = sock_out c ++ env :: replicate j NewPongEnvelope ∧
    sock_in c' = rest ∧ pendingEvents (c_in c') = [] ∧ IsConnected c' = true.
Proof.
  destruct (request_listens k payload what timeout c Hi Hc Hw Hp Hctx Hb Hm)
    as (env & c1 & E1 & Eid & Em & Hl & ->). set (id := request_id k payload) in *.
  assert (agree (registered id c) c1) as Hag by (intros f; by rewrite E1).
  rewrite Hs in Hl. rewrite Hrounds.
  destruct (await_noise parse_json parse_time id (next_addr (c_mux c)) false timeout what ds _
    (Round false [] :: Round false [] :: more) c1 Hid Hl) as (c2 & Ro & Hl2 & HA).
  { eapply Forall_impl; [exact Hn|]. intros x [H1 H2]. split.
    - by rewrite (passed_on_agree _ _ _ Hag).
    - by rewrite (scanned_agree _ _ _ Hag). }
  destruct (await_reply parse_json parse_time id (next_addr (c_mux c)) false timeout what data fr rest
    more c2 Hid Hl2) as (c3 & Ro3 & Hi3 & Hr3 & H3).
  { by rewrite (scanned_agree _ _ _ (ro_agree _ _ _ Ro)), (scanned_agree _ _ _ Hag). }
  rewrite H3 in HA. rewrite (bind_eq _ _ _ _ _ HA). destruct (read_on_trans _ _ _ _ _ Ro Ro3) as [_ B1 B2 B3 B4 [j B5]].
  eexists _, env, j. split; [done|]. split; [done|]. split; [done|]. simpl. subst c1. simpl in *.
  split; [by rewrite B5, <-app_assoc|]. split; [done|]. split; [by rewrite B3|].
  unfold IsConnected in *. simpl. by rewrite B1, B2.
Qed.


(** A request whose next payload is a ping (or a reply to somebody else) gives up with
    a closed-connection error, with the connection alive and its reply, if it is on its
    way, unread. *)
Theorem request_fails_on_ping (k : call) (payload : gmap string value) (what : string) (timeout : Z)
    (c : client) (data : string) (rest : list read_result) (more : list round)
    (Hi : client_inv c) (Hc : IsConnected c = true) (Hw : sock_w c = true)
    (Hp : pendingEvents (c_in c) = []) (Hctx : ctx_done k = false) (Hb : between k = [])
    (Hm : sget (Some payload) "type" ≠ "") (Hid : request_id k payload ≠ "")
    (Hs : sock_in c = RData data :: rest)
    (Hquiet : passed_on (registered (request_id k payload) c) (messages data) = [])
    (Hr : replies (request_id k payload)
            (scanned (registered (request_id k payload) c) (messages data)) = [])
    (Hrounds : rounds k = Round false [] :: more) :
  ∃ c', RequestResponse k payload what timeout c = Some (inr (ErrConnectionClosed what), c') ∧
    IsConnected c' = true ∧ sock_in c' = rest.
Proof.
  destruct (request_listens k payload what timeout c Hi Hc Hw Hp Hctx Hb Hm)
    as (env & c1 & E1 & Eid & _ & Hl & ->). set (id := request_id k payload) in *.
  set (pc := next_addr (c_mux c)) in *.
  assert (agree (registered id c) c1) as Hag by (intros f; by rewrite E1).
  rewrite Hs in Hl. rewrite Hrounds.
  destruct (await_round parse_json parse_time id pc false timeout what data rest c1 Hid Hl)
    as (c2 & Ro & Hl2 & _ & HA).
  rewrite (scanned_agree _ _ _ Hag) in Hl2. specialize (Hl2 Hr).
  rewrite (passed_on_agree _ _ _ Hag), Hquiet in HA. specialize (HA more).
  destruct (poll_none id pc c2 (ls_wait _ _ _ _ Hl2)) as (c3 & Hp3 & Hw3 & E3).
  cbn [head from_option] in HA. rewrite (bind_eq _ _ _ _ _ Hp3) in HA.
  rewrite (bind_eq _ _ _ _ _ HA). eexists. split; [done|]. simpl. rewrite E3. simpl.
  unfold IsConnected in *. simpl. rewrite (ro_conn _ _ _ Ro), (ro_closed _ _ _ Ro), E1.
  split; [done|apply (ls_in _ _ _ _ Hl2)].
Qed.

Lemma route_one frame c :
  client_inv c → ∃ c', route_frames [frame] c = Some (tt, c') ∧ client_inv c' ∧
    c' = upd_mux (c_mux c') c ∧ route_all [frame] (c_mux c) = Some (c_mux c').
Proof.
  intros Hi. destruct (keeps_route_frames [frame] c Hi) as ([] & c' & H & Hi' & _).
  destruct (route_frames_all _ _ _ H) as [H1 H2]. by exists c'.
Qed.

(** With a reader on the socket, only the channels are waited on. *)
Lemma await_reader poll own timeout what frames rs c :
  await parse_json parse_time poll own timeout what (Round true frames :: rs) c =
  await_active poll timeout what (Round true frames :: rs) c.
Proof.
  cbn [await await_active]. set (c0 := upd_reader true c).
  rewrite !(bind_eq (modify _) _ c tt c0) by done.
  destruct (route_frames frames c0) as [[[] c1]|] eqn:E; [|unfold bind; by rewrite E].
  rewrite !(bind_eq _ _ _ _ _ E). destruct (route_frames_all _ _ _ E) as [_ E1].
  by rewrite (bind_eq _ _ c1 true c1) by (unfold get; by rewrite E1).
Qed.

Lemma await_active_other id pc timeout what frame rs c :
  id ≠ "" → waiting id pc [] [] c → for_call id frame = false →
  ∃ c', waiting id pc [] [] c' ∧ c' = upd_mux (c_mux c') (upd_reader true c) ∧
    await_active (poll_call pc) timeout what (Round true [frame] :: rs) c =
    await_active (poll_call pc) timeout what rs c'.
Proof.
  intros Hid Hw Hf. set (c0 := upd_reader true c).
  destruct (route_one frame c0 (wt_inv _ _ _ _ _ Hw)) as (c1 & H1 & Hi1 & E1 & Hr).
  assert (waiting id pc [] [] c1) as Hw1.
  { refine (proj1 (waiting_after id pc c0 c1 [frame] Hid _ Hi1 Hr) _); [destruct Hw; by split|].
    unfold replies. by rewrite filter_cons, decide_False by (by rewrite Hf). }
  destruct (poll_none id pc c1 Hw1) as (c2 & H2 & Hw2 & E2).
  exists c2. split; [done|]. split; [by rewrite E2, E1|]. cbn [await_active].
  by rewrite (bind_eq _ _ c tt c0), (bind_eq _ _ _ _ _ H1), (bind_eq _ _ _ _ _ H2) by done.
Qed.

Lemma await_active_reply id pc timeout what frame rs c :
  id ≠ "" → waiting id pc [] [] c → for_call id frame = true →
  ∃ c', client_inv c' ∧ c' = upd_mux (c_mux c') (upd_reader true c) ∧
    await_active (poll_call pc) timeout what (Round true [frame] :: rs) c = Some (outcome frame, c').
Proof.
  intros Hid Hw Hf. set (c0 := upd_reader true c).
  destruct (route_one frame c0 (wt_inv _ _ _ _ _ Hw)) as (c1 & H1 & Hi1 & E1 & Hr).
  assert (delivered id pc frame c1) as Hd.
  { refine (proj2 (waiting_after id pc c0 c1 [frame] Hid _ Hi1 Hr) frame _); [destruct Hw; by split|].
    unfold replies. by rewrite filter_cons, decide_True. }
  destruct (poll_some id pc frame c1 Hd) as (c2 & H2 & Hi2 & _ & E2).
  exists c2. split; [done|]. split; [by rewrite E2, E1|]. cbn [await_active].
  by rewrite (bind_eq _ _ c tt c0), (bind_eq _ _ _ _ _ H1), (bind_eq _ _ _ _ _ H2) by done.
Qed.

(** Frames that are not for the call, routed one a round. *)
Lemma await_active_others id pc timeout what frames rs c :
  id ≠ "" → waiting id pc [] [] c → Forall (λ f, for_call id f = false) frames →
  ∃ c', waiting id pc [] [] c' ∧ sock_in c' = sock_in c ∧ sock_out c' = sock_out c ∧ c_in c' = c_in c ∧
    await_active (poll_call pc) timeout what (((λ f, Round true [f]) <$> frames) ++ rs) c =
    await_active (poll_call pc) timeout what rs c'.
Proof.
  intros Hid Hw Hf. revert c Hw. induction Hf as [|f fs Hf _ IH]; intros c Hw; [by exists c|].
  rewrite fmap_cons, <-app_comm_cons.
  destruct (await_active_other id pc timeout what f (((λ f, Round true [f]) <$> fs) ++ rs) c Hid Hw Hf)
    as (c1 & Hw1 & E1 & ->).
  destruct (IH c1 Hw1) as (c2 & Hw2 & F1 & F2 & F3 & H2). exists c2.
  split; [done|]. rewrite F1, F2, F3, H2. do 3 (split; [by rewrite E1|]). done.
Qed.

(** A request made while a reader owns the socket never touches the socket but to send:
    the first frame with its id that the reader routes decides it, whatever the reader
    routes to others meanwhile and however many replies follow. *)
Theorem request_gets_reply_from_reader (k : call) (payload : gmap string value) (what : string)
    (timeout : Z) (c : client) (others : list gomap) (fr : gomap) (more : list round)
    (Hi : client_inv c) (Hc : IsConnected c = true) (Hw : sock_w c = true)
    (Hp : pendingEvents (c_in c) = []) (Hctx : ctx_done k = false) (Hb : between k = [])
    (Hm : sget (Some payload) "type" ≠ "") (Hid : request_id k payload ≠ "")
    (Ho : Forall (λ f, for_call (request_id k payload) f = false) others)
    (Hfr : for_call (request_id k payload) fr = true)
    (Hrounds : rounds k = ((λ f, Round true [f]) <$> others) ++ Round true [fr] :: more) :
  ∃ c' env, RequestResponse k payload what timeout c = Some (outcome fr, c') ∧
    env_ID env = request_id k payload ∧ sock_out c' = sock_out c ++ [env] ∧
    sock_in c' = sock_in c ∧ c_in c' = c_in c.
Proof.
  destruct (request_listens k payload what timeout c Hi Hc Hw Hp Hctx Hb Hm)
    as (env & c1 & E1 & Eid & _ & [Hl _ _ _] & ->). set (id := request_id k payload) in *.
  set (pc := next_addr (c_mux c)) in *. rewrite Hrounds.
  destruct (await_active_others id pc timeout what others (Round true [fr] :: more) c1 Hid Hl Ho)
    as (c2 & Hw2 & F1 & F2 & F3 & HA).
  destruct (await_active_reply id pc timeout what fr more c2 Hid Hw2 Hfr) as (c3 & Hi3 & E3 & H3).
  rewrite H3 in HA. exists (upd_mux (unregisterRPC id pc (c_mux c3)) c3), env.
  assert (await parse_json parse_time (poll_call pc) (call_verdict false id) timeout what
    (((λ f, Round true [f]) <$> others) ++ Round true [fr] :: more) c1 = Some (outcome fr, c3)) as Hx.
  { rewrite <-HA. destruct others as [|f fs]; [exact (await_reader _ _ _ _ _ _ _)|].
    rewrite fmap_cons, <-app_comm_cons. exact (await_reader _ _ _ _ _ _ _). }
  rewrite (bind_eq _ _ _ _ _ Hx). split; [done|]. split; [done|]. simpl. rewrite E3. simpl.
  rewrite F1, F2, F3, E1. done.
Qed.

(** A request registers its waiter after it sends: a reply that a reader routes in
    between is not recognised as one, and the request times out. *)
Theorem early_reply_lost (k : call) (payload : gmap string value) (what : string)
    (timeout : Z) (c : client) (fr : gomap) (others : list gomap)
    (Hi : client_inv c) (Hc : IsConnected c = true) (Hw : sock_w c = true)
    (Hctx : ctx_done k = false) (Hb : between k = [fr])
    (Hm : sget (Some payload) "type" ≠ "") (Hid : request_id k payload ≠ "")
    (Hfresh : rpcs (c_mux c) !! request_id k payload = None)
    (Hfr : for_call (request_id k payload) fr = true)
    (Ho : Forall (λ f, for_call (request_id k payload) f = false) others)
    (Hrounds : rounds k = (λ f, Round true [f]) <$> others) :
  awaited fr (c_mux c) = false ∧
  ∃ c', RequestResponse k payload what timeout c = Some (inr (ErrTimeoutAfter timeout what), c').
Proof.
  set (id := request_id k payload) in *.
  assert (awaited fr (c_mux c) = false) as Ha.
  { destruct fr as [m|]; [|done]. unfold for_call, is_reply in Hfr. apply orb_true_iff in Hfr.
    rewrite !andb_true_iff, !String.eqb_eq in Hfr.
    assert (sget (Some m) "id" = id) as E by (destruct Hfr; tauto).
    unfold awaited, route_lookup. rewrite E, (proj2 (String.eqb_neq id "")) by done. rewrite Hfresh.
    destruct Hfr as [[-> _]|[-> _]]; done. }
  split; [done|].
  destruct (request_sent k payload what timeout c Hc Hw Hctx Hm) as (env & _ & _ & ->).
  set (c0 := upd_sock_out (sock_out c ++ [env]) c). rewrite Hb, Hrounds.
  assert (route_frames [fr] c0 = Some (tt, c0)) as H0.
  { cbn [route_frames]. by rewrite (bind_eq _ _ c0 false c0) by (by apply route_frame_unawaited). }
  fold id. rewrite (bind_eq _ _ _ _ _ H0).
  rewrite (bind_eq _ _ c0 (next_addr (c_mux c)) (registered id c0)) by done.
  destruct (await_active_others id (next_addr (c_mux c)) timeout what others [] _ Hid
    (registered_waiting id c0 Hi) Ho) as (c1 & _ & _ & _ & _ & HA). rewrite app_nil_r in HA.
  rewrite (bind_eq (A := result) _ _ (registered id c0) (inr (ErrTimeoutAfter timeout what)) c1);
    [by eexists|].
  etransitivity; [|exact HA]. destruct others as [|f fs]; [done|exact (await_reader _ _ _ _ _ _ _)].
Qed.
End properties.

(** * Examples *)

(** A parser that also knows the text of a reply to the request [r1]. *)
Definition sample_reply : gomap :=
  Some (mlit [("proto", VStr "1"); ("type", VStr "response"); ("id", VStr "r1");
              ("result", obj [("ok", VBool true)])]).

Definition call_json (s : string) : option value :=
  if s =s "REPLY" then Some (VMap sample_reply) else sample_json s.

Definition ask (rs : list round) : call := Call "r1" false [] rs.
Definition list_loops : gmap string value := mlit [("type", VStr "loop_list"); ("limit", VInt 3)].


Lemma subscribe_ends_witness :
  ∃ r c', LoopSubscribe call_json Some (ask [Round false []]) "L1" "" second (live []) = Some (r, c') ∧
    subs (c_mux c') = ∅.
Proof.
  destruct (subscribe_ends call_json Some (ask [Round false []]) "L1" "" second (live [])
    (live_inv _) ltac:(by vm_compute)) as (r & c' & H & _ & _ & Hr).
  exists r, c'. exact (conj H Hr).
Defined.


Lemma request_fails_on_ping_witness :
  ∃ c', RequestResponse call_json Some (ask (replicate 3 (Round false []))) list_loops
      "loop_list_response" second (live [RData "PING"; RData "REPLY"]) =
    Some (inr (ErrConnectionClosed "loop_list_response"), c') ∧ sock_in c' = [RData "REPLY"].
Proof.
  destruct (request_fails_on_ping call_json Some (ask (replicate 3 (Round false []))) list_loops
    "loop_list_response" second (live [RData "PING"; RData "REPLY"]) "PING" [RData "REPLY"]
    (replicate 2 (Round false [])) (live_inv _) eq_refl eq_refl eq_refl eq_refl eq_refl)
    as (c' & H & _ & Hs); [by vm_compute|by vm_compute|done|by vm_compute|by vm_compute|done|].
  exists c'. exact (conj H Hs).
Defined.

Lemma request_gets_reply_from_reader_witness :
  ∃ c', RequestResponse call_json Some (ask [Round true [next_frame "s1"]; Round true [sample_reply]])
      list_loops "loop_list_response" second (live [RData "IDLE"]) =
    Some (outcome sample_reply, c') ∧ sock_in c' = [RData "IDLE"].
Proof.
  destruct (request_gets_reply_from_reader call_json Some
    (ask [Round true [next_frame "s1"]; Round true [sample_reply]]) list_loops "loop_list_response" second
    (live [RData "IDLE"]) [next_frame "s1"] sample_reply [] (live_inv _) eq_refl eq_refl eq_refl eq_refl eq_refl)
    as (c' & env & H & _ & _ & Hs & _); [by vm_compute|by vm_compute| |by vm_compute|done|].
  { constructor; [by vm_compute|constructor]. }
  exists c'. exact (conj H Hs).
Defined.

Lemma early_reply_lost_witness :
  ∃ c', RequestResponse call_json Some (Call "r1" false [sample_reply] [Round true [next_frame "s1"]])
      list_loops "loop_list_response" second (live []) =
    Some (inr (ErrTimeoutAfter second "loop_list_response"), c').
Proof.
  destruct (early_reply_lost call_json Some (Call "r1" false [sample_reply] [Round true [next_frame "s1"]])
    list_loops "loop_list_response" second (live []) sample_reply [next_frame "s1"]
    (live_inv _) eq_refl eq_refl eq_refl eq_refl)
    as [_ H]; [by vm_compute|by vm_compute|by vm_compute|by vm_compute| |done|exact H].
  constructor; [by vm_compute|constructor].
Defined.
