(* ===== verification/Bootstrap.v ===== *)
(** Opening a session (session.go, config.go, [ReattachAndProbe] of client.go): the
    configuration, connecting with bounded retries, creating or resuming a loop and
    subscribing to it, and reattaching to a loop after a drop. *)

From S2P Require Import Prelude GoStr Value Pending DeliveryAck Protocol GoChan Mux Heartbeat Client Reader.
From S2P Require Import Handshake Rpc.

(** * Configuration *)

(** Durations are nanoseconds. *)
Record Config := MkConfig {
  DaemonURL : string;
  VerbosityLevel : string;
  MaxRetries : Z;
  ReconnectDelay : Z;
  HeartbeatInterval : Z;
  DaemonReadyTimeout : Z;
  LoopStatusTimeout : Z;
  SubscriptionTimeout : Z;
  ReconnectMaxAttempts : Z;
  ReconnectInitialDelay : Z;
  ReconnectMaxDelay : Z;
  ReattachProbeTimeout : Z;
}.

Definition millisecond : Z := 1000000.

Definition DefaultConfig : Config :=
  MkConfig "ws://localhost:8765" "normal" 5 (2 * second) (30 * second) (20 * second) (60 * second)
    (10 * second) 10 (500 * millisecond) (10 * second) (5 * second).

(** A text setting of the environment, empty when unset, over a default. *)
Definition env_str (s default : string) : string := if s <>s "" then s else default.
Definition env_int (s : string) (default : Z) : Z :=
  if s <>s "" then match Atoi s with Some val => val | None => default end else default.

(** A setting in seconds; the product wraps at 64 bits. *)
Definition env_sec (s : string) (default : Z) : Z :=
  if s <>s "" then
    match Atoi s with
    | Some val => if (0 <? val)%Z then wrap_int (val * second) else default
    | None => default
    end
  else default.

Definition LoadConfigFromEnv (getenv : string → string) : Config :=
  let c := DefaultConfig in
  MkConfig (env_str (getenv "SOOTHE_DAEMON_URL") (DaemonURL c))
    (env_str (getenv "SOOTHE_VERBOSITY") (VerbosityLevel c))
    (env_int (getenv "SOOTHE_MAX_RETRIES") (MaxRetries c))
    (ReconnectDelay c) (HeartbeatInterval c)
    (env_sec (getenv "SOOTHE_DAEMON_READY_TIMEOUT_SEC") (DaemonReadyTimeout c))
    (env_sec (getenv "SOOTHE_LOOP_STATUS_TIMEOUT_SEC") (LoopStatusTimeout c))
    (env_sec (getenv "SOOTHE_SUBSCRIPTION_TIMEOUT_SEC") (SubscriptionTimeout c))
    (ReconnectMaxAttempts c) (ReconnectInitialDelay c) (ReconnectMaxDelay c) (ReattachProbeTimeout c).

(** * Operations *)

(** What an attempt to connect meets: the socket dialled, the rounds of its handshake,
    whether its context is done during it, and whether the caller's is during the delay
    that follows. *)
Record attempt := Attempt {
  at_dial : option (list read_result * bool);
  at_rounds : nat;
  at_ctx : bool;
  at_cancelled : bool;
}.

Record LoopSessionOptions := SessionOptions {
  opt_ClientWorkspace : string;
  opt_UserID : string;
  opt_ClientWorkspaceID : string;
}.

(** The payload of [loop_new]. *)
Definition new_payload (clientWorkspace : string) (opts : option LoopSessionOptions) : gmap string value :=
  let cw := TrimSpace clientWorkspace in
  let cw :=
    match opts with
    | Some o => if TrimSpace (opt_ClientWorkspace o) <>s "" then TrimSpace (opt_ClientWorkspace o) else cw
    | None => cw
    end in
  mlit ([("type", VStr "loop_new")] ++ str_opt "client_workspace" cw ++
        match opts with
        | Some o => str_opt "user_id" (TrimSpace (opt_UserID o)) ++
                    str_opt "client_workspace_id" (TrimSpace (opt_ClientWorkspaceID o))
        | None => []
        end).

Section bootstrap.
Context (parse_json : string → option value) (parse_time : string → option string).
Local Abbreviation Connect := (Connect parse_json parse_time).
Local Abbreviation RequestResponse := (RequestResponse parse_json parse_time).
Local Abbreviation LoopSubscribe := (LoopSubscribe parse_json parse_time).
Local Abbreviation LoopGet := (LoopGet parse_json parse_time).

(** The loop of [ConnectWithRetries], [more] attempts before it gives up. *)
Fixpoint connect_attempts (env : nat → attempt) (more i : nat) (lastErr : option error) :
    M (option error) :=
  match more with
  | O => let text := "failed to connect after " +:+ Itoa (Z.of_nat i) +:+ " attempts" in
         ret (Some (match lastErr with Some e => ErrWrap text e | None => ErrMsg text end))
  | S more =>
      let a := env i in
      let! err := Connect (at_dial a) (at_rounds a) (at_ctx a) in
      match err with
      | None => ret None
      | Some e => if at_cancelled a then ret (Some ErrContext)
                  else connect_attempts env more (S i) (Some e)
      end
  end.

Definition ConnectWithRetries (env : nat → attempt) (maxRetries : Z) : M (option error) :=
  let maxRetries := (if maxRetries <=? 0 then 40 else maxRetries)%Z in
  connect_attempts env (Z.to_nat maxRetries) 0 None.

(** The subscription that ends a bootstrap; its reply may refuse. *)
Definition bootstrap_subscribe (k : call) (loopID : string) (cfg : Config) : M (string + error) :=
  let! r := LoopSubscribe k loopID (VerbosityLevel cfg) (SubscriptionTimeout cfg) in
  ret match r with
      | inr e => inr (ErrWrap "loop_subscribe" e)
      | inl subResp =>
          match to_bool (mget subResp "success") with
          | Some false => inr (ErrReply "loop_subscribe failed" subResp)
          | _ => inl loopID
          end
      end.

(** [cfg] nil takes the default; [k1], [k2] are the circumstances of the two calls. *)
Definition BootstrapLoopSession (k1 k2 : call) (resumeLoopID clientWorkspace : string)
    (cfg : option Config) (opts : option LoopSessionOptions) : M (string + error) :=
  let cfg := default DefaultConfig cfg in
  let loopID := TrimSpace resumeLoopID in
  if loopID =s "" then
    let! r := RequestResponse k1 (new_payload clientWorkspace opts) "loop_new" (LoopStatusTimeout cfg) in
    match r with
    | inr e => ret (inr (ErrWrap "loop_new" e))
    | inl resp =>
        let loopID := TrimSpace (sget resp "loop_id") in
        if loopID =s "" then ret (inr (ErrMsg "loop_new response missing loop_id"))
        else bootstrap_subscribe k2 loopID cfg
    end
  else bootstrap_subscribe k2 loopID cfg.

(** [DefaultBootstrapFunc] of the application kit, on a client of the package. *)
Definition DefaultBootstrapFunc (k1 k2 : call) (workspaceID userID : string) (cfg : option Config) : M (string + error) :=
  BootstrapLoopSession k1 k2 "" workspaceID cfg (Some (SessionOptions workspaceID userID workspaceID)).

(** [k3] is the call under the probe's own context. *)
Definition ReattachAndProbe (k1 k2 k3 : call) (cfg : Config) (loopID : string) : M (option error) :=
  if loopID =s "" then ret (Some (ErrMsg "soothe: ReattachAndProbe requires a loop id"))
  else
    let! r := RequestResponse k1 (mlit [("type", VStr "loop_reattach"); ("loop_id", VStr loopID)])
                "loop_reattach" (timeout_or (LoopStatusTimeout cfg) 15) in
    match r with
    | inr e => ret (Some (ErrWrap "loop_reattach" e))
    | inl _ =>
        let! r := LoopSubscribe k2 loopID (VerbosityLevel cfg) (timeout_or (SubscriptionTimeout cfg) 10) in
        match r with
        | inr e => ret (Some (ErrWrap "loop_subscribe" e))
        | inl _ =>
            let! r := LoopGet k3 loopID false (timeout_or (ReattachProbeTimeout cfg) 5) in
            match r with
            | inr e => ret (Some (ErrStaleLoop loopID e))
            | inl _ => ret None
            end
        end
    end.

(** * Lemmas *)

Lemma connect_attempts_total env more i lastErr c :
  ∃ err c', connect_attempts env more i lastErr c = Some (err, c') ∧ (client_inv c → client_inv c') ∧
    (err = None → IsConnected c' = true ∧ IsHandshakeComplete c' = true ∧ ReadinessState c' = "ready").
Proof.
  revert i lastErr c. induction more as [|more IH]; intros i lastErr c; simpl; [by do 2 eexists|].
  destruct (Connect_total parse_json parse_time (at_dial (env i)) (at_rounds (env i)) (at_ctx (env i)) c)
    as (err & c1 & H1 & Hi1 & Hm). rewrite (bind_eq _ _ _ _ _ H1).
  destruct err as [e|]; [|by exists None, c1]. destruct (at_cancelled _); [by do 2 eexists|].
  destruct (IH (S i) (Some e) c1) as (err & c2 & H2 & Hi2 & Hr). exists err, c2.
  split; [done|]. split; [auto|done].
Qed.

Lemma bootstrap_subscribe_total k loopID cfg c :
  client_inv c →
  ∃ r c', bootstrap_subscribe k loopID cfg c = Some (r, c') ∧ client_inv c' ∧
    ∀ id, r = inl id → id = loopID.
Proof.
  intros Hi. unfold bootstrap_subscribe.
  destruct (LoopSubscribe_total parse_json parse_time k loopID (VerbosityLevel cfg)
    (SubscriptionTimeout cfg) c Hi) as (r & c1 & H1 & Hi1 & _).
  rewrite (bind_eq _ _ _ _ _ H1). eexists _, c1. split; [done|]. split; [done|].
  intros id. destruct r as [resp|e]; [|done]. destruct (to_bool _) as [[]|]; [|done|]; by intros [= <-].
Qed.

(** * Properties *)

(** Connecting with retries always ends, after at most the allowed attempts, and reports
    success only on a connected client whose handshake is complete and ready. *)
Theorem connect_retries_end (env : nat → attempt) (maxRetries : Z) (c : client) (Hi : client_inv c) :
  ∃ err c', ConnectWithRetries env maxRetries c = Some (err, c') ∧ client_inv c' ∧
    (err = None → IsConnected c' = true ∧ IsHandshakeComplete c' = true ∧ ReadinessState c' = "ready").
Proof.
  unfold ConnectWithRetries.
  destruct (connect_attempts_total env (Z.to_nat (if maxRetries <=? 0 then 40 else maxRetries)%Z) 0 None c)
    as (err & c' & H & Hi' & Hr). exists err, c'. split; [done|]. split; [auto|done].
Qed.

(** The attempt that reaches a daemon. *)
Lemma attempts_reach (env : nat → attempt) (maxRetries : Z) (i : nat) (c : client)
    (datas : list string) (data : string) (rest : list read_result)
    (Hmax : (Z.of_nat i < if maxRetries <=? 0 then 40 else maxRetries)%Z)
    (Hbefore : ∀ j, j < i → at_dial (env j) = None ∧ at_cancelled (env j) = false)
    (Hdial : at_dial (env i) = Some ((RData <$> datas) ++ RData data :: rest, true))
    (Hctx : at_ctx (env i) = false) (Hrounds : length datas < at_rounds (env i))
    (Hwait : Forall (λ d, waits parse_json parse_time d = true) datas)
    (Hready : readies parse_json parse_time data = true) :
  ∃ c', ConnectWithRetries env maxRetries c = Some (None, c') ∧ sock_in c' = rest.
Proof.
  unfold ConnectWithRetries. set (m := (if maxRetries <=? 0 then 40 else maxRetries)%Z) in *.
  assert (Hgen : ∀ k more lastErr, k ≤ i → i - k < more →
    ∃ c', connect_attempts env more k lastErr c = Some (None, c') ∧ sock_in c' = rest).
  { intros k. remember (i - k) as d eqn:Ed. revert k Ed. induction d as [|d IH]; intros k Ed more lastErr Hk Hm;
      (destruct more as [|more]; [lia|]); simpl.
    - assert (k = i) as -> by lia. rewrite Hdial, Hctx.
      destruct (Connect_ready parse_json parse_time c datas data rest _ Hrounds Hwait Hready)
        as (c' & H & Hs & _). rewrite (bind_eq _ _ _ _ _ H). by exists c'.
    - destruct (Hbefore k) as [Hd Hc]; [lia|]. rewrite Hd, Hc.
      rewrite (bind_eq _ _ c (Some (ErrWrap "soothe dial" ErrDial)) c) by done.
      apply (IH (S k)); lia. }
  apply Hgen; lia.
Qed.

(** A daemon that comes up late is reached: when every attempt before the [i]-th finds
    nobody listening, the caller stays, and the [i]-th, within the allowed number, reaches
    a daemon that gets ready, connecting succeeds on the socket of that attempt. *)
Theorem connect_retries_reach (env : nat → attempt) (maxRetries : Z) (i : nat) (c : client)
    (datas : list string) (data : string) (rest : list read_result)
    (Hmax : (Z.of_nat i < if maxRetries <=? 0 then 40 else maxRetries)%Z)
    (Hbefore : ∀ j, j < i → at_dial (env j) = None ∧ at_cancelled (env j) = false)
    (Hdial : at_dial (env i) = Some ((RData <$> datas) ++ RData data :: rest, true))
    (Hctx : at_ctx (env i) = false) (Hrounds : length datas < at_rounds (env i))
    (Hwait : Forall (λ d, waits parse_json parse_time d = true) datas)
    (Hready : readies parse_json parse_time data = true) :
  ∃ c', ConnectWithRetries env maxRetries c = Some (None, c') ∧ sock_in c' = rest.
Proof. by eapply attempts_reach. Qed.

(** What opening a session gives. *)
Lemma BootstrapLoopSession_total (k1 k2 : call) (resumeLoopID clientWorkspace : string)
    (cfg : option Config) (opts : option LoopSessionOptions) (c : client) (Hi : client_inv c) :
  ∃ r c', BootstrapLoopSession k1 k2 resumeLoopID clientWorkspace cfg opts c = Some (r, c') ∧
    client_inv c' ∧
    ∀ id, r = inl id → id ≠ "" ∧ TrimSpace id = id ∧ (TrimSpace resumeLoopID ≠ "" → id = TrimSpace resumeLoopID).
Proof.
  unfold BootstrapLoopSession. cbv zeta. destruct (String.eqb_spec (TrimSpace resumeLoopID) "") as [E|E].
  - destruct (RequestResponse_total parse_json parse_time k1 (new_payload clientWorkspace opts) "loop_new"
      (LoopStatusTimeout (default DefaultConfig cfg)) c Hi) as (r & c1 & H1 & Hi1).
    rewrite (bind_eq _ _ _ _ _ H1). destruct r as [resp|e]; [|by eexists _, c1].
    destruct (String.eqb_spec (TrimSpace (sget resp "loop_id")) "") as [E'|E']; [by eexists _, c1|].
    destruct (bootstrap_subscribe_total k2 (TrimSpace (sget resp "loop_id")) (default DefaultConfig cfg) c1 Hi1)
      as (r & c2 & H2 & Hi2 & Hr). exists r, c2. split; [done|]. split; [done|].
    intros id Hid. rewrite (Hr _ Hid). split; [done|]. split; [apply TrimSpace_idemp|done].
  - destruct (bootstrap_subscribe_total k2 (TrimSpace resumeLoopID) (default DefaultConfig cfg) c Hi)
      as (r & c2 & H2 & Hi2 & Hr). exists r, c2. split; [done|]. split; [done|].
    intros id Hid. rewrite (Hr _ Hid). split; [done|]. split; [apply TrimSpace_idemp|done].
Qed.

(** Opening a session always ends: with an error, or with the id of the loop it has
    subscribed to, which is not blank and is the one to resume if one was given. *)
Theorem bootstrap_outcome (k1 k2 : call) (resumeLoopID clientWorkspace : string)
    (cfg : option Config) (opts : option LoopSessionOptions) (c : client) (Hi : client_inv c) :
  ∃ r c', BootstrapLoopSession k1 k2 resumeLoopID clientWorkspace cfg opts c = Some (r, c') ∧
    client_inv c' ∧
    ∀ id, r = inl id → id ≠ "" ∧ TrimSpace id = id ∧ (TrimSpace resumeLoopID ≠ "" → id = TrimSpace resumeLoopID).
Proof. by apply BootstrapLoopSession_total. Qed.

(** What reattaching gives. *)
Lemma ReattachAndProbe_total (k1 k2 k3 : call) (cfg : Config) (loopID : string) (c : client)
    (Hi : client_inv c) (Hid : loopID ≠ "") :
  ∃ err c', ReattachAndProbe k1 k2 k3 cfg loopID c = Some (err, c') ∧ client_inv c' ∧
    match err with
    | None => True
    | Some (ErrWrap stage _) => stage = "loop_reattach" ∨ stage = "loop_subscribe"
    | Some (ErrStaleLoop l e) => l = loopID ∧
        ∃ c2, LoopGet k3 loopID false (timeout_or (ReattachProbeTimeout cfg) 5) c2 = Some (inr e, c')
    | Some _ => False
    end.
Proof.
  unfold ReattachAndProbe. rewrite (proj2 (String.eqb_neq _ _) Hid).
  edestruct RequestResponse_total as (r & c1 & H1 & Hi1); [exact Hi|].
  rewrite (bind_eq _ _ _ _ _ H1). destruct r as [resp|e]; [|eexists _, c1; by auto].
  edestruct LoopSubscribe_total as (r & c2 & H2 & Hi2 & _); [exact Hi1|].
  rewrite (bind_eq _ _ _ _ _ H2). destruct r as [resp2|e]; [|eexists _, c2; by auto].
  assert (∃ r c3, LoopGet k3 loopID false (timeout_or (ReattachProbeTimeout cfg) 5) c2 = Some (r, c3) ∧
    client_inv c3) as (r & c3 & H3 & Hi3) by (by apply RequestResponse_total).
  rewrite (bind_eq _ _ _ _ _ H3). destruct r as [resp3|e]; eexists _, c3; (split; [done|]); (split; [done|]).
  - done.
  - split; [done|]. by exists c2.
Qed.

(** Reattaching always ends; any failure of the final probe, the daemon's refusal or a
    timeout alike, is reported as a stale loop, and an earlier failure never is. *)
Theorem reattach_outcome (k1 k2 k3 : call) (cfg : Config) (loopID : string) (c : client)
    (Hi : client_inv c) (Hid : loopID ≠ "") :
  ∃ err c', ReattachAndProbe k1 k2 k3 cfg loopID c = Some (err, c') ∧ client_inv c' ∧
    match err with
    | None => True
    | Some (ErrWrap stage _) => stage = "loop_reattach" ∨ stage = "loop_subscribe"
    | Some (ErrStaleLoop l e) => l = loopID ∧
        ∃ c2, LoopGet k3 loopID false (timeout_or (ReattachProbeTimeout cfg) 5) c2 = Some (inr e, c')
    | Some _ => False
    end.
Proof. by apply ReattachAndProbe_total. Qed.
End bootstrap.

(** The environment gives positive timeouts as long as no setting exceeds the seconds
    that fit a 64-bit count of nanoseconds; malformed and non-positive ones are ignored. *)
Theorem env_timeouts_positive (getenv : string → string)
    (Hfit : ∀ key v, Atoi (getenv key) = Some v → (v <= 9223372036)%Z) :
  let c := LoadConfigFromEnv getenv in
  (0 < DaemonReadyTimeout c)%Z ∧ (0 < LoopStatusTimeout c)%Z ∧ (0 < SubscriptionTimeout c)%Z.
Proof.
  assert (H : ∀ key d, (0 < d)%Z → (0 < env_sec (getenv key) d)%Z).
  { intros key d Hd. unfold env_sec. destruct (_ <>s ""); [|done].
    destruct (Atoi (getenv key)) as [v|] eqn:E; [|done]. apply Hfit in E.
    destruct (Z.ltb_spec 0 v); [|done]. rewrite wrap_int_id; unfold second; [lia|].
    unfold in_int, min_int, max_int. bool_to_prop; lia. }
  split; [by apply H|]. split; by apply H.
Qed.

(** A larger setting wraps: the timeout comes out negative. *)
Lemma env_timeout_wraps : (env_sec "9223372037" (60 * second) < 0)%Z.
Proof. by vm_compute. Qed.

(** * Examples *)

(** Nobody listens twice, then a daemon that is warming up. *)
Definition late_daemon (i : nat) : attempt :=
  if (i <? 2)%nat then Attempt None 3 false false
  else Attempt (Some ([RData "WARMING"; RData "READY"], true)) 3 false false.

Lemma connect_retries_end_witness :
  ∃ err c', ConnectWithRetries ack_json Some late_daemon 0 (live []) = Some (err, c').
Proof.
  destruct (connect_retries_end ack_json Some late_daemon 0 (live []) (live_inv [])) as (err & c' & H & _).
  by exists err, c'.
Defined.

Lemma connect_retries_reach_witness :
  ∃ c', ConnectWithRetries ack_json Some late_daemon 3 NewClient = Some (None, c') ∧ sock_in c' = [].
Proof.
  apply (connect_retries_reach ack_json Some late_daemon 3 2 NewClient ["WARMING"] "READY" []).
  - by vm_compute.
  - intros [|[|j]] Hj; [done..|lia].
  - reflexivity.
  - reflexivity.
  - simpl. lia.
  - constructor; [vm_compute; reflexivity|constructor].
  - vm_compute; reflexivity.
Defined.

Lemma bootstrap_outcome_witness :
  ∃ r c', BootstrapLoopSession call_json Some (ask []) (ask [Round false []]) " L1 " "" None None (live []) =
    Some (r, c').
Proof.
  destruct (bootstrap_outcome call_json Some (ask []) (ask [Round false []]) " L1 " "" None None (live [])
    (live_inv [])) as (r & c' & H & _).
  by exists r, c'.
Defined.

Lemma reattach_outcome_witness :
  ∃ err c', ReattachAndProbe call_json Some (ask [Round false []]) (ask []) (ask []) DefaultConfig "L1"
    (live [RFail]) = Some (err, c').
Proof.
  destruct (reattach_outcome call_json Some (ask [Round false []]) (ask []) (ask []) DefaultConfig "L1"
    (live [RFail]) (live_inv _) ltac:(done)) as (err & c' & H & _).
  by exists err, c'.
Defined.

Lemma env_timeouts_positive_witness :
  let c := LoadConfigFromEnv (λ key, if key =s "SOOTHE_LOOP_STATUS_TIMEOUT_SEC" then "90" else "") in
  (0 < LoopStatusTimeout c)%Z.
Proof.
  apply (env_timeouts_positive (λ key, if key =s "SOOTHE_LOOP_STATUS_TIMEOUT_SEC" then "90" else "")).
  intros key v. destruct (key =s "SOOTHE_LOOP_STATUS_TIMEOUT_SEC"); intros H.
  - assert (Atoi "90" = Some 90%Z) as E by (vm_compute; reflexivity). rewrite E in H.
    injection H as <-. lia.
  - assert (Atoi "" = None) as E by (vm_compute; reflexivity). by rewrite E in H.
Defined.
