(* ===== verification/Preserve.v ===== *)
(** What the calls on a client leave alone: the fields that no read, send, request or
    subscription touches, and the state a handshake ends in. *)

From S2P Require Import Prelude GoStr Value Pending DeliveryAck Protocol GoChan Mux Heartbeat Client Reader.
From S2P Require Import Handshake Rpc Bootstrap.

(** * Preservation *)

Definition preserves {A} (P : client → Prop) (m : M A) : Prop :=
  ∀ c x c', P c → m c = Some (x, c') → P c'.

(** A property of a client that does not look at what reading, routing and sending
    change. *)
Class Quiet (P : client → Prop) : Prop := {
  quiet_disc c d : P c → P (upd_disc d c);
  quiet_read c r l : P c → sock_in c = r :: l → P (upd_sock_in l c);
  quiet_sock_out c l : P c → P (upd_sock_out l c);
  quiet_acks c a : P c → P (upd_acks a c);
  quiet_mux c m : P c → P (upd_mux m c);
  quiet_reader c b : P c → P (upd_reader b c);
  quiet_pop c ev q : P c → pop_pending (c_in c) = Some (ev, q) → P (upd_in q c);
}.

(** Whether the client is connected and ready. *)
Definition link (c : client) : bool * bool * bool * string :=
  (conn c, conn_closed c, handshakeComplete c, readinessState c).

#[export] Instance link_quiet l : Quiet (λ c, link c = l).
Proof. by split; intros. Qed.

(** Writes succeed and nothing is buffered. *)
Definition clear (c : client) : Prop := sock_w c = true ∧ pendingEvents (c_in c) = [].

#[export] Instance clear_quiet : Quiet clear.
Proof.
  split; try (by intros); unfold clear. intros c ev q [Hw Hp]. unfold pop_pending. by rewrite Hp.
Qed.

(** At most [n] events are left to read. *)
#[export] Instance backlog_quiet n : Quiet (λ c, backlog c ≤ n).
Proof.
  split; try (by intros); unfold backlog.
  - intros c r l H E. rewrite E in H. simpl in *. lia.
  - intros c ev q H. unfold pop_pending. destruct (pendingEvents (c_in c)); [done|]. intros [= _ <-].
    simpl in *. lia.
Qed.

Create HintDb preserves.

Section preserves.
Context (P : client → Prop) `{!Quiet P}.

Lemma preserves_ret {A} (x : A) : preserves P (ret x).
Proof. intros c y c' Hp [= _ <-]. done. Qed.

Lemma preserves_get {A} (f : client → A) : preserves P (get f).
Proof. intros c y c' Hp [= _ <-]. done. Qed.

Lemma preserves_modify f : (∀ c, P c → P (f c)) → preserves P (modify f).
Proof. intros Hf c y c' Hp [= _ <-]. auto. Qed.

Lemma preserves_bind {A B} (m : M A) (f : A → M B) :
  preserves P m → (∀ x, preserves P (f x)) → preserves P (bind m f).
Proof.
  intros Hm Hf c y c' Hp. unfold bind. destruct (m c) as [[x c1]|] eqn:E; [|done].
  intros H. apply (Hf x c1 y c'); [by apply (Hm c x)|done].
Qed.

Lemma preserves_mux {A} (f : mux → A * mux) :
  preserves P (λ c, let '(r, mx) := f (c_mux c) in Some (r, upd_mux mx c)).
Proof. intros c y c' Hp. destruct (f (c_mux c)). intros [= _ <-]. by apply quiet_mux. Qed.

Lemma preserves_signal cause : preserves P (signalDisconnect cause).
Proof.
  intros c y c' Hp. unfold signalDisconnect. destruct (signal _ _); [|done]. intros [= _ <-].
  by apply quiet_disc.
Qed.

Lemma preserves_route_frame m : preserves P (route_frame m).
Proof.
  intros c y c' Hp. unfold route_frame. destruct (route _ _) as [[b mx]|]; [|done]. intros [= _ <-].
  by apply quiet_mux.
Qed.

Lemma preserves_ReadMessage : preserves P ReadMessage.
Proof.
  intros c y c' Hp. unfold ReadMessage. destruct (sock_in c) eqn:E; intros [= _ <-]; [done|by eapply quiet_read].
Qed.

Lemma preserves_pop : preserves P pop_event.
Proof.
  intros c y c' Hp. unfold pop_event. destruct (pop_pending _) as [[ev q]|] eqn:E; intros [= _ <-]; [|done].
  by eapply quiet_pop.
Qed.

Lemma preserves_unsubscribe id ps : preserves P (unregisterSubscription_m id ps).
Proof.
  intros c y c' Hp. unfold unregisterSubscription_m. destruct (unregisterSubscription _ _ _); [|done].
  intros [= _ <-]. by apply quiet_mux.
Qed.
End preserves.

#[export] Hint Resolve preserves_ret preserves_get preserves_bind preserves_signal preserves_route_frame
  preserves_ReadMessage preserves_pop preserves_unsubscribe : preserves.
#[export] Hint Extern 2 (preserves _ (recv_reply_m _)) => apply preserves_mux : preserves.
#[export] Hint Extern 2 (preserves _ (recv_err_m _)) => apply preserves_mux : preserves.
#[export] Hint Extern 2 (preserves _ (recv_stream_m _)) => apply preserves_mux : preserves.
#[export] Hint Extern 2 (preserves _ (registerRPC_m _)) => apply (preserves_mux _ (registerRPC _)) : preserves.
#[export] Hint Extern 2 (preserves _ (registerSubscription_m _)) =>
  apply (preserves_mux _ (registerSubscription _)) : preserves.
#[export] Hint Extern 3 (preserves _ (modify _)) =>
  apply preserves_modify; intros;
  first [by apply quiet_mux | by apply quiet_reader | by apply quiet_acks | by apply quiet_sock_out] : preserves.

(** Structural proof of [preserves]: binds, then the cases of the computation. *)
Ltac solve_preserves :=
  repeat first
    [ solve [eauto 3 with preserves typeclass_instances]
    | apply preserves_bind; [|intros ?]
    | match goal with |- preserves _ (if ?b then _ else _) => destruct b end
    | match goal with |- preserves _ (match ?x with _ => _ end) => destruct x end ].

Section calls.
Context (P : client → Prop) `{!Quiet P}.
Context (parse_json : string → option value) (parse_time : string → option string).

Lemma preserves_sendPong : preserves P sendPong.
Proof. unfold sendPong. solve_preserves. Qed.

Lemma preserves_SendMessage d e : preserves P (SendMessage d e).
Proof. unfold SendMessage. solve_preserves. Qed.
Hint Resolve preserves_sendPong preserves_SendMessage : preserves.

Lemma preserves_isControlFrame msg : preserves P (isControlFrame msg).
Proof. unfold isControlFrame. solve_preserves. Qed.

Lemma preserves_track m : preserves P (track m).
Proof. unfold track. solve_preserves. Qed.
Hint Resolve preserves_isControlFrame preserves_track : preserves.

Lemma preserves_read_scan msgs : preserves P (read_scan msgs).
Proof. induction msgs; simpl; solve_preserves. Qed.
Hint Resolve preserves_read_scan : preserves.

Lemma preserves_ReadEvent : preserves P (ReadEvent parse_json parse_time).
Proof. unfold ReadEvent. solve_preserves. Qed.

Lemma preserves_route_frames frames : preserves P (route_frames frames).
Proof. induction frames; simpl; solve_preserves. Qed.

Lemma preserves_poll_call pc : preserves P (poll_call pc).
Proof. unfold poll_call. solve_preserves. Qed.

Lemma preserves_poll_stream ps : preserves P (poll_stream ps).
Proof. unfold poll_stream. solve_preserves. Qed.
Hint Resolve preserves_ReadEvent preserves_route_frames preserves_poll_call preserves_poll_stream : preserves.

Lemma preserves_await_active poll timeout what rs :
  preserves P poll → preserves P (await_active poll timeout what rs).
Proof. intros Hp. induction rs as [|[|reader routed] rs IH]; simpl; solve_preserves. Qed.

Lemma preserves_await poll own timeout what rs :
  preserves P poll → preserves P (await parse_json parse_time poll own timeout what rs).
Proof.
  intros Hp. pose proof (preserves_await_active poll timeout what).
  induction rs as [|[|reader routed] rs IH]; simpl; solve_preserves.
Qed.
Hint Resolve preserves_await_active preserves_await : preserves.

Lemma preserves_RequestResponse k payload what timeout :
  preserves P (RequestResponse parse_json parse_time k payload what timeout).
Proof. unfold RequestResponse, correlated, unregisterRPC_m. solve_preserves. Qed.

Lemma preserves_LoopSubscribe k loopID verbosity timeout :
  preserves P (LoopSubscribe parse_json parse_time k loopID verbosity timeout).
Proof. unfold LoopSubscribe, subscription. solve_preserves. Qed.
Hint Resolve preserves_RequestResponse preserves_LoopSubscribe : preserves.

Lemma preserves_Bootstrap k1 k2 resume ws cfg opts :
  preserves P (BootstrapLoopSession parse_json parse_time k1 k2 resume ws cfg opts).
Proof. unfold BootstrapLoopSession, bootstrap_subscribe. solve_preserves. Qed.

Lemma preserves_Reattach k1 k2 k3 cfg loopID :
  preserves P (ReattachAndProbe parse_json parse_time k1 k2 k3 cfg loopID).
Proof. unfold ReattachAndProbe, LoopGet, rr. solve_preserves. Qed.
End calls.
#[export] Hint Resolve preserves_SendMessage preserves_ReadEvent preserves_RequestResponse preserves_LoopSubscribe
  preserves_Bootstrap preserves_Reattach : preserves.

(** * The state after connecting *)

(** A client fresh from a handshake. *)
Record ready (c : client) : Prop := {
  rd_inv : client_inv c;
  rd_link : link c = (true, false, true, "ready");
  rd_clear : clear c;
  rd_rpcs : rpcs (c_mux c) = ∅;
  rd_subs : subs (c_mux c) = ∅;
}.

Lemma ready_connected c : ready c → IsConnected c = true.
Proof. intros [_ [= Ho Hc _ _] _ _ _]. unfold IsConnected. by rewrite Ho, Hc. Qed.

(** Retrying ends. *)
Lemma ConnectWithRetries_total pj pt env n c :
  client_inv c → ∃ err c', ConnectWithRetries pj pt env n c = Some (err, c') ∧ client_inv c'.
Proof.
  intros Hi. unfold ConnectWithRetries.
  destruct (connect_attempts_total pj pt env (Z.to_nat (if n <=? 0 then 40 else n)%Z) 0 None c)
    as (err & c' & H & Hi' & _).
  exists err, c'. auto.
Qed.

Section connect.
Context (parse_json : string → option value) (parse_time : string → option string).

Lemma keeps_handshake n ctx : keeps (handshake parse_json parse_time n ctx).
Proof.
  assert (∀ k, keeps (handshake_loop parse_json parse_time k ctx)) as Hl.
  { intros k. induction k as [|k IH]; simpl; unfold sendInit; solve_keeps. }
  unfold handshake, sendInit. solve_keeps.
Qed.

Lemma clear_handshake n ctx : preserves clear (handshake parse_json parse_time n ctx).
Proof.
  assert (∀ f : client → client, (∀ c, clear c → clear (f c)) → preserves clear (modify f)) as Hm
    by (intros; by apply preserves_modify).
  assert (∀ k, preserves clear (handshake_loop parse_json parse_time k ctx)) as Hl.
  { intros k. induction k as [|k IH]; simpl; unfold sendInit; solve_preserves; by apply Hm. }
  unfold handshake, sendInit. solve_preserves.
Qed.

(** The first message of a handshake goes out only over a socket that takes it. *)
Lemma handshake_writes n ctx c c' : handshake parse_json parse_time n ctx c = Some (None, c') → sock_w c = true.
Proof.
  unfold handshake, sendInit, SendMessage, bind, get, modify, ret.
  destruct (negb (conn c) || conn_closed c); [done|]. destruct ctx; [done|].
  destruct (sock_w c); [done|]. unfold signalDisconnect. by destruct (signal _ _).
Qed.

(** Connecting succeeds only on a ready client. *)
Lemma Connect_success dial n ctx c c' : Connect parse_json parse_time dial n ctx c = Some (None, c') → ready c'.
Proof.
  intros H. destruct (Connect_total parse_json parse_time dial n ctx c) as (err & c1 & H1 & _ & Hr).
  rewrite H in H1. injection H1 as <- <-. destruct Hr as (Hconn & Hsh & Hst).
  revert H. unfold Connect. destruct dial as [[reads w]|]; [|done].
  set (c0 := fresh_connection reads w c). rewrite (bind_eq _ _ c tt c0) by done. unfold bind.
  destruct (handshake _ _ n ctx c0) as [[[e|] c1]|] eqn:E; [done| |done]. intros [= <-].
  destruct (keeps_handshake n ctx c0) as (x & c2 & H2 & Hi & [Hr Hs _]); [apply fresh_shaking|].
  rewrite E in H2. injection H2 as <- <-.
  pose proof (handshake_writes _ _ _ _ E) as Hw. split; [done| |by eapply clear_handshake|done|done].
  unfold IsConnected in Hconn. apply andb_true_iff in Hconn as [Ho Hc%negb_true_iff].
  unfold link. unfold IsHandshakeComplete, ReadinessState in *. by rewrite Ho, Hc, Hsh, Hst.
Qed.

Lemma connect_attempts_success env more i lastErr c c' :
  connect_attempts parse_json parse_time env more i lastErr c = Some (None, c') → ready c'.
Proof.
  revert i lastErr c. induction more as [|more IH]; intros i lastErr c; simpl; [done|]. unfold bind.
  destruct (Connect _ _ _ _ _ c) as [[[e|] c1]|] eqn:E; [|intros [= <-]; by eapply Connect_success|done].
  destruct (at_cancelled _); [done|apply IH].
Qed.

Lemma ConnectWithRetries_success env n c c' :
  ConnectWithRetries parse_json parse_time env n c = Some (None, c') → ready c'.
Proof. apply connect_attempts_success. Qed.
End connect.

(** A client on which nothing is registered. *)
Definition unregistered (c : client) : Prop := client_inv c ∧ rpcs (c_mux c) = ∅ ∧ subs (c_mux c) = ∅.

Lemma ready_unregistered c : ready c → unregistered c.
Proof. by intros [? _ _ ? ?]. Qed.

Lemma new_unregistered : unregistered NewClient.
Proof. split; [|done]. split; [apply mux_inv_new|apply disc_inv_new]. Qed.

(** Registering a request on two of them makes them wait for the same. *)
Lemma unregistered_agree id c c' :
  unregistered c → unregistered c' → agree (registered id c) (registered id c').
Proof.
  intros ([Hi _] & Hr & Hs) ([Hi' _] & Hr' & Hs') f. unfold awaited, route_lookup. simpl.
  rewrite Hr, Hr', Hs, Hs', (proj1 (inv_receipts _ Hi)), (proj1 (inv_receipts _ Hi')).
  destruct f as [m|]; [|done]. cbv zeta. set (k := sget (Some m) "id").
  destruct ((_ =s "response") || _); [|done]. destruct (k =s ""); [done|].
  rewrite !lookup_insert. by case_decide.
Qed.

(** * Totality *)

(** A computation that ends without a panic. *)
Definition total {A} (m : M A) : Prop := ∀ c, client_inv c → ∃ x c', m c = Some (x, c') ∧ client_inv c'.

Lemma total_ret {A} (x : A) : total (ret x).
Proof. intros c Hi. by exists x, c. Qed.

Lemma total_bind {A B} (m : M A) (f : A → M B) : total m → (∀ x, total (f x)) → total (bind m f).
Proof.
  intros Hm Hf c Hi. destruct (Hm c Hi) as (x & c1 & H1 & Hi1). rewrite (bind_eq _ _ _ _ _ H1). by apply Hf.
Qed.

Lemma total_Request pj pt k payload what timeout : total (RequestResponse pj pt k payload what timeout).
Proof. intros c Hi. by apply RequestResponse_total. Qed.

Create HintDb total.
#[export] Hint Resolve total_ret total_Request : total.

(** Closing always ends and leaves no connection. *)
Lemma Close_closes c : client_inv c → ∃ c', Close c = Some (tt, c') ∧ client_inv c' ∧ IsConnected c' = false.
Proof.
  intros Hi. unfold Close. rewrite (bind_eq _ _ c (conn_closed c) c), (bind_eq _ _ c (conn c) c) by done.
  destruct (conn_closed c || negb (conn c)) eqn:E.
  - exists c. split; [done|]. split; [done|]. unfold IsConnected. by destruct (conn c), (conn_closed c).
  - set (c1 := upd_conn false true c). rewrite (bind_eq _ _ c tt c1) by done.
    destruct (signalDisconnect_total DisconnectUnclean c1 Hi) as (d & Hd & Hdi & _).
    eexists. split; [exact Hd|]. split; [|done]. by split; [apply Hi|].
Qed.
