(* ===== verification/Sends.v ===== *)
(** Sending without waiting (send_methods.go, and the [SendJob...] methods of job.go): the
    options of [SendInput], and the methods that write one request and leave its reply to
    whoever reads the socket. *)

From S2P Require Import Prelude GoStr Value Pending DeliveryAck Protocol GoChan Mux Heartbeat Client Reader Handshake Rpc.

(** * The options of an input *)

Record inputOptions := InputOptions {
  in_loopID : string;
  in_preferredSubagent : string;
  in_intakeScope : string;
  in_model : string;
  in_modelParams : gomap;
  in_attachments : option (list gomap);
  in_intentHint : string;
  in_responseSchema : gomap;
  in_responseSchemaName : string;
  in_responseSchemaStrict : option bool;
  in_clarificationMode : string;
  in_interactionMode : string;
  in_clarificationAnswer : bool;
  in_clarificationAnswers : option (list string);
}.

Definition no_options : inputOptions :=
  InputOptions "" "" "" "" None None "" None "" None "" "" false None.

Definition InputOption : Type := inputOptions → inputOptions.

Definition WithLoopID (loopID : string) : InputOption := λ '(InputOptions _ b c d e f g h i j k l m n),
  InputOptions loopID b c d e f g h i j k l m n.
Definition WithSubagent (name : string) : InputOption := λ '(InputOptions a _ c d e f g h i j k l m n),
  InputOptions a name c d e f g h i j k l m n.
Definition WithIntakeScope (scope : string) : InputOption := λ '(InputOptions a b _ d e f g h i j k l m n),
  InputOptions a b scope d e f g h i j k l m n.
Definition WithModel (model : string) : InputOption := λ '(InputOptions a b c _ e f g h i j k l m n),
  InputOptions a b c model e f g h i j k l m n.
Definition WithModelParams (params : gomap) : InputOption := λ '(InputOptions a b c d _ f g h i j k l m n),
  InputOptions a b c d params f g h i j k l m n.
Definition WithAttachments (atts : option (list gomap)) : InputOption := λ '(InputOptions a b c d e _ g h i j k l m n),
  InputOptions a b c d e atts g h i j k l m n.
Definition WithIntentHint (hint : string) : InputOption := λ '(InputOptions a b c d e f _ h i j k l m n),
  InputOptions a b c d e f hint h i j k l m n.
Definition WithResponseSchema (schema : gomap) : InputOption := λ '(InputOptions a b c d e f g _ i j k l m n),
  InputOptions a b c d e f g schema i j k l m n.
Definition WithResponseSchemaName (name : string) : InputOption := λ '(InputOptions a b c d e f g h _ j k l m n),
  InputOptions a b c d e f g h name j k l m n.
Definition WithResponseSchemaStrict (strict : bool) : InputOption := λ '(InputOptions a b c d e f g h i _ k l m n),
  InputOptions a b c d e f g h i (Some strict) k l m n.
Definition WithClarificationMode (mode : string) : InputOption := λ '(InputOptions a b c d e f g h i j _ l m n),
  InputOptions a b c d e f g h i j mode l m n.
Definition WithInteractionMode (mode : string) : InputOption := λ '(InputOptions a b c d e f g h i j k _ m n),
  InputOptions a b c d e f g h i j k mode m n.
Definition WithClarificationAnswer : InputOption := λ '(InputOptions a b c d e f g h i j k l _ n),
  InputOptions a b c d e f g h i j k l true n.
Definition WithClarificationAnswers (answers : option (list string)) : InputOption :=
  λ '(InputOptions a b c d e f g h i j k l m _), InputOptions a b c d e f g h i j k l m answers.

(** Options in the order they are given. *)
Definition apply_options (opts : list InputOption) : inputOptions :=
  foldl (λ o opt, opt o) no_options opts.

(** [params[key] = v], when there is a value to set. *)
Definition put (key : string) (v : option value) (m : gmap string value) : gmap string value :=
  match v with Some v => <[key := v]> m | None => m end.

Definition str_val (s : string) : option value := if s <>s "" then Some (VStr s) else None.
Definition map_val (m : gomap) : option value := (λ x, VMap (Some x)) <$> m.

(** The parameters of [loop_input], in the order the code sets them. *)
Definition loop_input_params (text : string) (o : inputOptions) : gmap string value :=
  put "clarification_answers" (VStrs <$> in_clarificationAnswers o) $
  put "clarification_answer" (if in_clarificationAnswer o then Some (VBool true) else None) $
  put "interaction_mode" (str_val (in_interactionMode o)) $
  put "clarification_mode" (str_val (in_clarificationMode o)) $
  put "response_schema_strict" (VBool <$> in_responseSchemaStrict o) $
  put "response_schema_name" (str_val (in_responseSchemaName o)) $
  put "response_schema" (map_val (in_responseSchema o)) $
  put "intent_hint" (str_val (in_intentHint o)) $
  put "model_params" (map_val (in_modelParams o)) $
  put "model" (str_val (in_model o)) $
  put "attachments" ((λ l, VArr (VMap <$> l)) <$> in_attachments o) $
  put "intake_scope" (str_val (in_intakeScope o)) $
  put "preferred_subagent" (str_val (in_preferredSubagent o)) $
  mlit [("loop_id", VStr (TrimSpace (in_loopID o))); ("content", VStr text)].

Definition SendInput (ctx_done : bool) (text : string) (opts : list InputOption) : M (option error) :=
  let o := apply_options opts in
  if TrimSpace (in_loopID o) =s "" then ret (Some (ErrMsg "SendInput requires WithLoopID(loopID)"))
  else SendMessage ctx_done (NewNotificationEnvelope "loop_input" (Some (loop_input_params text o))).

(** * The other sends *)

Definition optRequestID (requestID : list string) : string :=
  match requestID with
  | r :: _ => if r <>s "" then r else ""
  | [] => ""
  end.

Section sends.
(** Whether the context is done at the send, and the id drawn for it. *)
Context (ctx_done : bool) (newID : string).

Definition send_request (method : string) (params : list (string * value)) (requestID : list string) :
    M (option error) :=
  SendMessage ctx_done (NewRequestEnvelopeWithID newID method (Some (mlit params)) (optRequestID requestID)).

Definition SendCommand (cmd : string) : M (option error) :=
  SendMessage ctx_done (NewNotificationEnvelope "slash_command" (Some (mlit [("cmd", VStr cmd)]))).
Definition SendDetach : M (option error) := SendMessage ctx_done NewDisconnectEnvelope.
Definition SendDaemonStatus := send_request "daemon_status" [].
Definition SendDaemonShutdown := send_request "daemon_shutdown" [].
Definition SendConfigGet section := send_request "config_get" [("section", VStr section)].
Definition SendSkillsList := send_request "skills_list" [].
Definition SendModelsList := send_request "models_list" [].
Definition SendInvokeSkill skill args := send_request "invoke_skill" ([("skill", VStr skill)] ++ str_opt "args" args).
Definition SendLoopList filter limit := send_request "loop_list" (map_opt "filter" filter ++ int_opt "limit" limit).
Definition SendLoopGet loopID verbose :=
  send_request "loop_get" ([("loop_id", VStr loopID)] ++ when verbose "verbose" (VBool true)).
Definition SendLoopTree loopID format := send_request "loop_tree" ([("loop_id", VStr loopID)] ++ str_opt "format" format).
Definition SendLoopPrune loopID keepLatest :=
  send_request "loop_prune" ([("loop_id", VStr loopID)] ++ int_opt "keep_latest" keepLatest).
Definition SendLoopDelete loopID := send_request "loop_delete" [("loop_id", VStr loopID)].
Definition SendLoopReattach loopID := send_request "loop_reattach" [("loop_id", VStr loopID)].

Definition SendLoopSubscribe (loopID wireTier streamDelivery : string) (requestID : list string) : M (option error) :=
  let rid := optRequestID requestID in
  let params := mlit ([("loop_id", VStr loopID)] ++ str_opt "wire_tier" wireTier ++
                      str_opt "stream_delivery" streamDelivery) in
  let env := NewSubscribeEnvelope newID "loop_events" (Some params) in
  if rid =s "" then SendMessage ctx_done env
  else SendMessage ctx_done (NewSubscribeEnvelope rid (env_Method env) (env_Params env)).

Definition SendLoopDetach (loopID : string) (requestID : list string) : M (option error) :=
  let rid := optRequestID requestID in
  SendMessage ctx_done (NewUnsubscribeEnvelope (if rid =s "" then loopID else rid)).

Definition SendLoopNew clientWorkspace userID clientWorkspaceID isEphemeral :=
  send_request "loop_new" (str_opt "client_workspace" clientWorkspace ++ str_opt "user_id" userID ++
    str_opt "client_workspace_id" clientWorkspaceID ++ when isEphemeral "is_ephemeral" (VBool true)).
Definition SendLoopInput (loopID content : string) : M (option error) :=
  SendMessage ctx_done (NewNotificationEnvelope "loop_input"
    (Some (mlit [("loop_id", VStr loopID); ("content", VStr content)]))).
Definition SendLoopMessages loopID limit offset includeEvents :=
  send_request "loop_messages" ([("loop_id", VStr loopID)] ++ int_opt "limit" limit ++
    int_opt "offset" offset ++ when includeEvents "include_events" (VBool true)).
Definition SendLoopStateGet loopID := send_request "loop_state_get" [("loop_id", VStr loopID)].
Definition SendLoopStateUpdate loopID (values : gomap) asNode :=
  send_request "loop_state_update" ([("loop_id", VStr loopID); ("values", VMap values)] ++ str_opt "as_node" asNode).
Definition SendMCPStatus := send_request "mcp_status" [].
Definition SendLoopHistoryFetch loopID := send_request "loop_history_fetch" [("loop_id", VStr loopID)].
Definition SendLoopExecutionStateFetch loopID := send_request "loop_execution_state_fetch" [("loop_id", VStr loopID)].
Definition SendConfigReload := send_request "config_reload" [].
Definition SendAuth accessKey secretKey :=
  send_request "auth" [("access_key", VStr accessKey); ("secret_key", VStr secretKey)].
Definition SendAuthRefresh refreshToken := send_request "auth_refresh" [("refresh_token", VStr refreshToken)].
Definition SendCronAdd text priority := send_request "cron_add" ([("text", VStr text)] ++ int_opt "priority" priority).
Definition SendCronList status := send_request "cron_list" (str_opt "status" status).
Definition SendCronShow jobID := send_request "cron_show" [("job_id", VStr jobID)].
Definition SendCronCancel jobID := send_request "cron_cancel" [("job_id", VStr jobID)].

(** A send that refuses a blank argument. *)
Definition required (arg what : string) (m : M (option error)) : M (option error) :=
  if arg =s "" then ret (Some (ErrMsg (what +:+ " is required"))) else m.

Definition send_job (method jobID : string) (requestID : list string) : M (option error) :=
  required jobID "job_id" (send_request method [("job_id", VStr jobID)] requestID).

Definition SendJobCreate (goal workspace : string) (requestID : list string) : M (option error) :=
  required goal "goal" (send_request "job_create" ([("goal", VStr goal)] ++ str_opt "workspace" workspace) requestID).
Definition SendJobStatus := send_job "job_status".
Definition SendJobPause := send_job "job_pause".
Definition SendJobResume := send_job "job_resume".
Definition SendJobCancel := send_job "job_cancel".
Definition SendJobDag := send_job "job_dag".
End sends.

(** * The options as a log of updates *)

(** What a caller may set: the abstract specification of the options. *)
Inductive setting :=
  | SLoopID (s : string)
  | SText (key s : string)
  | SMap (key : string) (m : gomap)
  | SAttachments (l : option (list gomap))
  | SStrict (b : bool)
  | SAnswer
  | SAnswers (l : option (list string)).

(** The options that realise a setting. *)
Inductive realises : InputOption → setting → Prop :=
  | r_loop s : realises (WithLoopID s) (SLoopID s)
  | r_subagent s : realises (WithSubagent s) (SText "preferred_subagent" s)
  | r_intake s : realises (WithIntakeScope s) (SText "intake_scope" s)
  | r_model s : realises (WithModel s) (SText "model" s)
  | r_model_params m : realises (WithModelParams m) (SMap "model_params" m)
  | r_attachments l : realises (WithAttachments l) (SAttachments l)
  | r_hint s : realises (WithIntentHint s) (SText "intent_hint" s)
  | r_schema m : realises (WithResponseSchema m) (SMap "response_schema" m)
  | r_schema_name s : realises (WithResponseSchemaName s) (SText "response_schema_name" s)
  | r_strict b : realises (WithResponseSchemaStrict b) (SStrict b)
  | r_clarify s : realises (WithClarificationMode s) (SText "clarification_mode" s)
  | r_interact s : realises (WithInteractionMode s) (SText "interaction_mode" s)
  | r_answer : realises WithClarificationAnswer SAnswer
  | r_answers l : realises (WithClarificationAnswers l) (SAnswers l).

(** The update of the parameters a setting means: a key is set, or taken out. *)
Definition update (m : gmap string value) (s : setting) : gmap string value :=
  let set key v := partial_alter (λ _, v) key m in
  match s with
  | SLoopID s => set "loop_id" (Some (VStr (TrimSpace s)))
  | SText key s => set key (str_val s)
  | SMap key x => set key (map_val x)
  | SAttachments l => set "attachments" ((λ l, VArr (VMap <$> l)) <$> l)
  | SStrict b => set "response_schema_strict" (Some (VBool b))
  | SAnswer => set "clarification_answer" (Some (VBool true))
  | SAnswers l => set "clarification_answers" (VStrs <$> l)
  end.

Definition bare_input (text : string) : gmap string value :=
  mlit [("loop_id", VStr ""); ("content", VStr text)].

Lemma lookup_put key v m k :
  put key v m !! k = (if decide (key = k) then v else None) ∪ m !! k.
Proof.
  destruct v as [v|]; simpl; [rewrite lookup_insert|]; case_decide; by destruct (m !! k).
Qed.

Lemma lookup_update_set key (v : option value) (m : gmap string value) k :
  partial_alter (λ _, v) key m !! k = if decide (key = k) then v else m !! k.
Proof.
  case_decide as E; [subst; by rewrite lookup_partial_alter_eq|by rewrite lookup_partial_alter_ne].
Qed.

Lemma lookup_base_put k l text :
  (mlit [("loop_id", VStr l); ("content", VStr text)] : gmap string value) !! k =
  if decide ("loop_id" = k) then Some (VStr l) else if decide ("content" = k) then Some (VStr text) else None.
Proof. by rewrite !lookup_mlit_cons. Qed.

Lemma lookup_input_params text o k :
  loop_input_params text o !! k =
    (if decide ("clarification_answers" = k) then VStrs <$> in_clarificationAnswers o else None) ∪
    ((if decide ("clarification_answer" = k) then (if in_clarificationAnswer o then Some (VBool true) else None) else None) ∪
    ((if decide ("interaction_mode" = k) then str_val (in_interactionMode o) else None) ∪
    ((if decide ("clarification_mode" = k) then str_val (in_clarificationMode o) else None) ∪
    ((if decide ("response_schema_strict" = k) then VBool <$> in_responseSchemaStrict o else None) ∪
    ((if decide ("response_schema_name" = k) then str_val (in_responseSchemaName o) else None) ∪
    ((if decide ("response_schema" = k) then map_val (in_responseSchema o) else None) ∪
    ((if decide ("intent_hint" = k) then str_val (in_intentHint o) else None) ∪
    ((if decide ("model_params" = k) then map_val (in_modelParams o) else None) ∪
    ((if decide ("model" = k) then str_val (in_model o) else None) ∪
    ((if decide ("attachments" = k) then (λ l, VArr (VMap <$> l)) <$> in_attachments o else None) ∪
    ((if decide ("intake_scope" = k) then str_val (in_intakeScope o) else None) ∪
    ((if decide ("preferred_subagent" = k) then str_val (in_preferredSubagent o) else None) ∪
    (if decide ("loop_id" = k) then Some (VStr (TrimSpace (in_loopID o)))
     else if decide ("content" = k) then Some (VStr text) else None))))))))))))).
Proof. unfold loop_input_params. by rewrite !lookup_put, lookup_base_put. Qed.

Lemma realises_params opt s text o :
  realises opt s → loop_input_params text (opt o) = update (loop_input_params text o) s.
Proof.
  intros H. apply map_eq. intros k. destruct o as [a b c d e f g h i j l m n p].
  destruct H; cbn [update]; rewrite lookup_update_set, !lookup_input_params;
    cbv beta iota delta [WithLoopID WithSubagent WithIntakeScope WithModel WithModelParams WithAttachments
      WithIntentHint WithResponseSchema WithResponseSchemaName WithResponseSchemaStrict WithClarificationMode
      WithInteractionMode WithClarificationAnswer WithClarificationAnswers
      in_loopID in_preferredSubagent in_intakeScope in_model in_modelParams in_attachments in_intentHint
      in_responseSchema in_responseSchemaName in_responseSchemaStrict in_clarificationMode
      in_interactionMode in_clarificationAnswer in_clarificationAnswers];
    match goal with |- _ = if decide (?x = k) then _ else _ => destruct (decide (x = k)) as [<-|Hk] end;
    rewrite ?decide_False by discriminate;
    rewrite ?(left_id_L None (∪)), ?(right_id_L None (∪)); reflexivity.
Qed.

(** An input carries the settings of its options, the later over the earlier. *)
Lemma apply_options_params opts log text :
  Forall2 realises opts log →
  loop_input_params text (apply_options opts) = foldl update (bare_input text) log.
Proof.
  intros H. assert (∀ o, loop_input_params text (foldl (λ o opt, opt o) o opts) =
    foldl update (loop_input_params text o) log) as Hgen; [|exact (Hgen no_options)].
  induction H as [|opt s opts log Hr _ IH]; intros o; simpl; [done|]. by rewrite IH, (realises_params opt s).
Qed.

Lemma input_loop text o : sget (Some (loop_input_params text o)) "loop_id" = TrimSpace (in_loopID o).
Proof.
  unfold sget, mget. simpl. rewrite lookup_input_params, !decide_False by discriminate.
  by rewrite !(left_id_L None (∪)), decide_True.
Qed.

(** * What a call writes *)

Definition sent {A} (m : M A) (c : client) : list Envelope :=
  match m c with Some (_, c') => sock_out c' | None => [] end.

Lemma SendMessage_sent env c : writable c = true → sent (SendMessage false env) c = sock_out c ++ [env].
Proof. intros Hw. unfold sent. by rewrite (SendMessage_ok env c Hw). Qed.

Lemma send_request_sent id method fields rids c :
  writable c = true →
  sent (send_request false id method fields rids) c =
  sock_out c ++ [NewRequestEnvelopeWithID id method (Some (mlit fields)) (optRequestID rids)].
Proof. apply SendMessage_sent. Qed.

(** A call whose wait is over at once: what it writes is its request. *)
Definition quick (id : string) : call := Call id false [] [].

Lemma quick_request parse_json parse_time id payload what timeout c :
  writable c = true → sget (Some payload) "type" ≠ "" →
  sent (RequestResponse parse_json parse_time (quick id) payload what timeout) c =
  sock_out c ++ [NewRequestEnvelopeWithID id (sget (Some payload) "type") (Some (request_params payload))
                   (sget (Some payload) "request_id")].
Proof.
  intros Hw Hm. unfold sent, RequestResponse, correlated. rewrite (proj2 (String.eqb_neq _ _) Hm).
  set (env := NewRequestEnvelopeWithID _ _ _ _).
  by rewrite (bind_eq _ _ _ _ _ (SendMessage_ok env c Hw)).
Qed.

(** No field has the name of a control field. *)
Definition plain (fields : list (string * value)) : bool :=
  forallb (λ kv, (kv.1 <>s "type") && (kv.1 <>s "request_id")) fields.

Lemma plain_lookup fields k :
  plain fields = true → k = "type" ∨ k = "request_id" → mlit fields !! k = None.
Proof.
  unfold plain. induction fields as [|[k0 v] l IH]; intros H Hk; [done|]. simpl in H.
  apply andb_true_iff in H as [[H1 H2]%andb_true_iff H]. bool_to_prop.
  rewrite lookup_mlit_cons, decide_False by naive_solver. by apply IH.
Qed.

Lemma sget_Some m k : sget (Some m) k = asString (default VNil (m !! k)).
Proof. done. Qed.

(** The request a payload makes, when its fields are plain. *)
Lemma rr_sent parse_json parse_time id method fields what timeout d c :
  writable c = true → method ≠ "" → plain fields = true →
  sent (rr parse_json parse_time (quick id) (("type", VStr method) :: fields) what timeout d) c =
  sent (send_request false id method fields []) c.
Proof.
  intros Hw Hm Hp. rewrite send_request_sent by done. unfold rr.
  assert (sget (Some (mlit (("type", VStr method) :: fields))) "type" = method) as Et.
  { by rewrite sget_Some, lookup_mlit_cons, decide_True. }
  assert (sget (Some (mlit (("type", VStr method) :: fields))) "request_id" = "") as Ei.
  { by rewrite sget_Some, lookup_mlit_cons, decide_False, plain_lookup by auto. }
  assert (request_params (mlit (("type", VStr method) :: fields)) = mlit fields) as Ep.
  { apply map_eq. intros k. unfold request_params.
    destruct (decide (k = "request_id")) as [->|H1]; [by rewrite lookup_delete_eq, plain_lookup by auto|].
    rewrite lookup_delete_ne by done.
    destruct (decide (k = "type")) as [->|H2]; [by rewrite lookup_delete_eq, plain_lookup by auto|].
    by rewrite lookup_delete_ne, lookup_mlit_cons, decide_False by done. }
  by rewrite quick_request, Et, Ei, Ep by (by rewrite ?Et).
Qed.

(** * Properties *)

(** C31. An input carries exactly what its options set, a later option overriding an earlier
    one and an empty value taking its key out: on a live connection one notification
    goes out, whose parameters are the text and the log of settings played in order;
    without a loop id among them nothing does. *)
Theorem input_refines_settings (opts : list InputOption) (log : list setting) (text : string) (c : client)
    (Hopts : Forall2 realises opts log) (Hw : writable c = true) :
  let params := foldl update (bare_input text) log in
  SendInput false text opts c =
    if sget (Some params) "loop_id" =s "" then Some (Some (ErrMsg "SendInput requires WithLoopID(loopID)"), c)
    else Some (None, add_out (NewNotificationEnvelope "loop_input" (Some params)) c).
Proof.
  intros params. unfold params, SendInput. rewrite <-(apply_options_params opts log text Hopts), input_loop.
  cbv zeta. destruct (_ =s ""); [done|]. by apply SendMessage_ok.
Qed.


(** The two methods that prune a loop do not say the same: with the same positive number
    one sends it as the days to retain, the other as the checkpoints to keep. *)
Theorem prune_apis_disagree (parse_json : string → option value) (parse_time : string → option string)
    (id loopID : string) (n timeout : Z) (c : client) (Hw : writable c = true) (Hn : (0 < n)%Z) :
  ∃ e1 e2, sent (LoopPrune parse_json parse_time (quick id) loopID n false timeout) c = sock_out c ++ [e1] ∧
    sent (SendLoopPrune false id loopID n []) c = sock_out c ++ [e2] ∧
    env_Method e1 = env_Method e2 ∧
    mget (env_Params e1) "retention_days" = VInt n ∧ mget (env_Params e2) "retention_days" = VNil ∧
    mget (env_Params e1) "keep_latest" = VNil ∧ mget (env_Params e2) "keep_latest" = VInt n.
Proof.
  unfold LoopPrune, SendLoopPrune, int_opt, when. rewrite (proj2 (Z.ltb_lt 0 n) Hn).
  pose proof (rr_sent parse_json parse_time id "loop_prune" [("loop_id", VStr loopID); ("retention_days", VInt n)]
    "loop_prune_response" timeout 30 c Hw ltac:(done) eq_refl) as H1.
  eexists _, _. split; [etransitivity; [exact H1|by apply send_request_sent]|].
  split; [by apply send_request_sent|]. done.
Qed.

(** Waiting for an input's reply sends a request, where every other way to send an input
    sends a notification. *)
Theorem input_apis_disagree (parse_json : string → option value) (parse_time : string → option string)
    (id loopID text : string) (timeout : Z) (c : client) (Hw : writable c = true) :
  ∃ e1 e2, sent (LoopInput parse_json parse_time (quick id) loopID text timeout) c = sock_out c ++ [e1] ∧
    sent (SendLoopInput false loopID text) c = sock_out c ++ [e2] ∧
    env_Method e1 = env_Method e2 ∧ env_Params e1 = env_Params e2 ∧
    env_Type e1 = "request" ∧ env_Type e2 = "notification".
Proof.
  pose proof (rr_sent parse_json parse_time id "loop_input" [("loop_id", VStr loopID); ("content", VStr text)]
    "loop_input_response" timeout 60 c Hw ltac:(done) eq_refl) as H1.
  eexists _, _. split; [etransitivity; [exact H1|by apply send_request_sent]|].
  split; [by apply SendMessage_sent|]. done.
Qed.

(** * Examples *)

Lemma input_refines_settings_witness :
  ∃ c', SendInput false "hi" [WithModel "m1"; WithLoopID " L1 "; WithModel ""; WithClarificationAnswer] (live []) =
      Some (None, c') ∧
    sock_out c' = [NewNotificationEnvelope "loop_input"
      (Some (mlit [("loop_id", VStr "L1"); ("content", VStr "hi"); ("clarification_answer", VBool true)]))].
Proof.
  assert (Forall2 realises [WithModel "m1"; WithLoopID " L1 "; WithModel ""; WithClarificationAnswer]
    [SText "model" "m1"; SLoopID " L1 "; SText "model" ""; SAnswer]) as Ho by (repeat constructor).
  pose proof (input_refines_settings _ _ "hi" (live []) Ho ltac:(by vm_compute)) as H.
  eexists. split; [etransitivity; [exact H|vm_compute; reflexivity]|vm_compute; reflexivity].
Defined.


Lemma prune_apis_disagree_witness :
  ∃ e1 e2, env_Method e1 = env_Method e2 ∧ mget (env_Params e1) "retention_days" = VInt 3 ∧
    mget (env_Params e2) "keep_latest" = VInt 3.
Proof.
  destruct (prune_apis_disagree sample_json Some "r1" "L1" 3 0 (live []) ltac:(by vm_compute) ltac:(lia))
    as (e1 & e2 & _ & _ & H1 & H2 & _ & _ & H3).
  by exists e1, e2.
Defined.

Lemma input_apis_disagree_witness :
  ∃ e1 e2, env_Method e1 = env_Method e2 ∧ env_Type e1 = "request" ∧ env_Type e2 = "notification".
Proof.
  destruct (input_apis_disagree sample_json Some "r1" "L1" "hi" 0 (live []) ltac:(by vm_compute))
    as (e1 & e2 & _ & _ & H1 & _ & H2 & H3).
  by exists e1, e2.
Defined.
