(* ===== verification/Jobs.v ===== *)
(** Jobs, schedules and the autopilot (job.go, autopilot.go): requests that refuse a blank
    argument, and the subscription to autopilot events. *)

From S2P Require Import Prelude GoStr Value StreamTerminal InboundPriority Pending DeliveryAck.
From S2P Require Import Protocol GoChan Mux Heartbeat Client Reader Handshake Rpc Bootstrap Preserve.

(** * Definitions *)

(** A guard on an argument. *)
Definition need (arg what : string) (m : M result) : M result :=
  if arg =s "" then ret (inr (ErrMsg (what +:+ " is required"))) else m.

(** A frame of the subscription's stream: acceptance has no content of its own. *)
Definition accept (frame : gomap) : result :=
  match frame with
  | None => inr (ErrConnectionClosed "autopilot subscribe")
  | Some _ =>
      if sget frame "type" =s "error"
      then inr (ErrMsg ("autopilot subscribe error: " +:+ sget (asMap (mget frame "error")) "message"))
      else inl None
  end.

Definition poll_accept (ps : nat) : M (option result) :=
  let! r := recv_stream_m ps in ret (accept <$> r).

Definition accept_verdict (id : string) (ev : gomap) : verdict :=
  if sget ev "id" <>s id then Others else Mine (accept ev).

Section jobs.
Context (parse_json : string → option value) (parse_time : string → option string).
Local Abbreviation ReadEvent := (ReadEvent parse_json parse_time).
Local Abbreviation rr := (rr parse_json parse_time).
Local Abbreviation RequestResponse := (RequestResponse parse_json parse_time).

(** ** Jobs *)

Definition JobCreate k goal workspace timeout : M result :=
  need goal "goal" (rr k ([("type", VStr "job_create"); ("goal", VStr goal)] ++ str_opt "workspace" workspace)
    "job_create_response" timeout 15).

(** The requests that name a job and nothing else. *)
Definition job_request (method : string) (k : call) (jobID : string) (timeout : Z) : M result :=
  need jobID "job_id" (rr k [("type", VStr method); ("job_id", VStr jobID)] (method +:+ "_response") timeout 15).

Definition JobStatus := job_request "job_status".
Definition JobPause := job_request "job_pause".
Definition JobResume := job_request "job_resume".
Definition JobCancel := job_request "job_cancel".
Definition JobDag := job_request "job_dag".

Definition JobGuidance k jobID text goalID timeout : M result :=
  need jobID "job_id" (need text "text"
    (rr k ([("type", VStr "job_guidance"); ("job_id", VStr jobID); ("content", VStr text)] ++ str_opt "goal_id" goalID)
      "job_guidance_response" timeout 30)).

Definition CronAdd k text priority timeout : M result :=
  need text "text" (rr k ([("type", VStr "cron_add"); ("text", VStr text)] ++ int_opt "priority" priority)
    "cron_add_response" timeout 30).
Definition CronList k status timeout : M result :=
  rr k ([("type", VStr "cron_list")] ++ str_opt "status" status) "cron_list_response" timeout 15.
Definition CronShow := job_request "cron_show".
Definition CronCancel := job_request "cron_cancel".

(** ** The autopilot *)

Definition autopilotTimeout (timeout : Z) : Z := timeout_or timeout 15.

(** The reply of an autopilot request has the name of its method. *)
Definition autopilot (k : call) (method : string) (fields : list (string * value)) (timeout : Z) : M result :=
  RequestResponse k (mlit (("type", VStr method) :: fields)) method (autopilotTimeout timeout).

Definition AutopilotStatus k timeout := autopilot k "autopilot_status" [] timeout.
Definition AutopilotSubmit k description priority workspace timeout : M result :=
  need description "description"
    (autopilot k "autopilot_submit"
      ([("description", VStr description); ("priority", VInt (if priority <=? 0 then 50 else priority)%Z)] ++
       str_opt "workspace" workspace) timeout).
Definition AutopilotListGoals k timeout := autopilot k "autopilot_list_goals" [] timeout.

Definition goal_request (method : string) (k : call) (goalID : string) (timeout : Z) : M result :=
  need goalID "goal_id" (autopilot k method [("goal_id", VStr goalID)] timeout).

Definition AutopilotGetGoal := goal_request "autopilot_get_goal".
Definition AutopilotCancelGoal := goal_request "autopilot_cancel_goal".
Definition AutopilotCancelAll k timeout := autopilot k "autopilot_cancel_all" [] timeout.
Definition AutopilotWake k timeout := autopilot k "autopilot_wake" [] timeout.
Definition AutopilotDream k timeout := autopilot k "autopilot_dream" [] timeout.
Definition AutopilotResume := goal_request "autopilot_resume".
Definition AutopilotListJobs k timeout := autopilot k "autopilot_list_jobs" [] timeout.
Definition AutopilotGetJob k jobID timeout : M result :=
  need jobID "job_id" (autopilot k "autopilot_get_job" [("job_id", VStr jobID)] timeout).
Definition AutopilotTopWithTerminal k includeTerminal timeout :=
  autopilot k "autopilot_top" [("include_terminal", VBool includeTerminal)] timeout.
Definition AutopilotTop k timeout := AutopilotTopWithTerminal k false timeout.

(** [AutopilotSubscribe]: the id of the subscription, once a frame accepts it. *)
Definition AutopilotSubscribe (k : call) (timeout : Z) : M (string + error) :=
  let timeout := timeout_or timeout 15 in
  let env := NewSubscribeEnvelope (newID k) "autopilot_events" (Some ∅) in
  let! r := subscription parse_json parse_time k env poll_accept accept_verdict timeout "autopilot subscribe" in
  ret match r with inl _ => inl (env_ID env) | inr e => inr e end.

(** The wait of [AutopilotUnsubscribe]: it does not look at the events it reads, and
    reads on when there are none. *)
Fixpoint unsubscribe_wait (pc : nat) (timeout : Z) (rounds : list round) : M result :=
  match rounds with
  | [] => ret (inr (ErrTimeoutAfter timeout "autopilot_unsubscribe"))
  | Cancelled :: _ => ret (inr ErrContext)
  | Round reader routed :: rounds =>
      modify (upd_reader reader);;!
      route_frames routed;;!
      let! active := get readerActive in
      let! r := poll_call pc in
      match r with
      | Some r => ret r
      | None =>
          if active then await_active (poll_call pc) timeout "autopilot_unsubscribe" rounds
          else
            let! ev := ReadEvent in
            match ev with
            | (_, Some e) => ret (inr (ErrWrap "read event" e))
            | (None, None) =>
                let! r := recv_reply_m pc in
                match r with
                | Some result => ret (inl result)
                | None => unsubscribe_wait pc timeout rounds
                end
            | (Some _, None) => unsubscribe_wait pc timeout rounds
            end
      end
  end.

(** [AutopilotUnsubscribe]: the waiter is registered before the send; [between k] is what
    is routed after the registration. *)
Definition AutopilotUnsubscribe (k : call) (subscriptionID : string) (timeout : Z) : M result :=
  let timeout := timeout_or timeout 15 in
  need subscriptionID "subscriptionID"
    (let! pc := registerRPC_m subscriptionID in
     route_frames (between k);;!
     let! err := SendMessage (ctx_done k) (NewUnsubscribeEnvelope subscriptionID) in
     let! r :=
       match err with
       | Some e => ret (inr (ErrWrap "send unsubscribe" e))
       | None => unsubscribe_wait pc timeout (rounds k)
       end in
     unregisterRPC_m subscriptionID pc;;! ret r).
End jobs.

(** * Lemmas *)

Lemma total_need arg what m : total m → total (need arg what m).
Proof. intros Hm. unfold need. destruct (_ =s ""); [apply total_ret|done]. Qed.
#[export] Hint Resolve total_need : total.

Section lemmas.
Context (parse_json : string → option value) (parse_time : string → option string).
Local Abbreviation messages := (payload_messages parse_json parse_time).
Local Abbreviation U pc timeout := (unsubscribe_wait parse_json parse_time pc timeout).

Lemma keeps_poll_accept ps : keeps (poll_accept ps).
Proof. unfold poll_accept. solve_keeps. Qed.

Lemma keeps_unsubscribe_wait pc timeout rs : keeps (U pc timeout rs).
Proof.
  pose proof (keeps_await_active (poll_call pc) timeout "autopilot_unsubscribe") as Ha.
  induction rs as [|[|reader routed] rs IH]; simpl; solve_keeps.
Qed.

(** Taking the reply alone: an error stays for the next look. *)
Lemma recv_reply_waiting id pc rs es c :
  waiting id pc rs es c →
  ∃ c', recv_reply_m pc c = Some (head rs, c') ∧ waiting id pc (tail rs) es c' ∧
    c' = upd_mux (c_mux c') c ∧ agree c c'.
Proof.
  intros [Hi Hr (w & Hw & Hb1 & Hb2)]. destruct (keeps_recv_reply pc c Hi) as (x & c' & Hp & Hi' & Sm).
  exists c'. assert (agree c c') as Hag by (intros f; by apply same_waiters_awaited; [apply Hi|apply Hi'|]).
  destruct Sm as [Hs _ _]. revert Hp. unfold recv_reply_m, recv_reply, try_recv. rewrite Hw, Hb1.
  destruct rs as [|r rs]; simpl; intros [= <- <-]; (split; [done|]); (split; [|by destruct c]);
    (split; [done|done|]); (eexists; split; [simpl; apply lookup_insert_eq|done]).
Qed.

Lemma listening_upd id pc reads c c' :
  listening id pc reads c → waiting id pc [] [] c' → c' = upd_mux (c_mux c') (upd_reader false c) →
  listening id pc reads c'.
Proof. intros [_ Ho Hp Hs] Hw E. split; [done|by rewrite E..]. Qed.

(** A round that finds nothing in the channels reads the socket. *)
Lemma unsubscribe_poll id pc timeout reads c rs :
  listening id pc reads c →
  ∃ c1, listening id pc reads c1 ∧ read_on c c1 reads ∧
    U pc timeout (Round false [] :: rs) c =
    bind (ReadEvent parse_json parse_time) (λ ev,
      match ev with
      | (_, Some e) => ret (inr (ErrWrap "read event" e))
      | (None, None) => bind (recv_reply_m pc) (λ r,
          match r with Some result => ret (inl result) | None => U pc timeout rs end)
      | (Some _, None) => U pc timeout rs
      end) c1.
Proof.
  intros Hl. set (c0 := upd_reader false c).
  assert (waiting id pc [] [] c0) as Hw0 by (destruct (ls_wait _ _ _ _ Hl); by split).
  destruct (poll_none id pc c0 Hw0) as (c1 & Hpoll & Hw1 & Ec1).
  destruct (keeps_poll_call pc c0 (wt_inv _ _ _ _ _ Hw0)) as (x & cx & Hx & Hix & Sx).
  rewrite Hpoll in Hx. injection Hx as <- <-. exists c1.
  split; [by eapply listening_upd|]. split.
  - rewrite <-(ls_in _ _ _ _ Hl). rewrite Ec1. change (sock_in c) with (sock_in c0).
    assert (read_on c0 (upd_mux (c_mux c1) c0) (sock_in c0)) as Ro.
    { apply read_on_upd. rewrite <-Ec1. intros f. by apply same_waiters_awaited; [apply Hw0|apply Hix|]. }
    by destruct Ro; split.
  - cbn [unsubscribe_wait route_frames].
    rewrite (bind_eq _ _ c tt c0), (bind_eq _ _ c0 tt c0), (bind_eq _ _ c0 false c0) by done.
    by rewrite (bind_eq _ _ _ _ _ Hpoll).
Qed.

(** A payload with no reply in it is passed over, whatever else it holds. *)
Lemma unsubscribe_skip id pc timeout data rest c rs :
  id ≠ "" → listening id pc (RData data :: rest) c → replies id (scanned c (messages data)) = [] →
  ∃ c', read_on c c' rest ∧ listening id pc rest c' ∧ U pc timeout (Round false [] :: rs) c = U pc timeout rs c'.
Proof.
  intros Hid Hl Hr. destruct (unsubscribe_poll id pc timeout _ c rs Hl) as (c1 & Hl1 & Ro1 & ->).
  destruct (hear parse_json parse_time id pc data rest c1 Hid Hl1)
    as (c2 & Hread & Hag2 & Hc2 & Hcl2 & Hin2 & Hs2 & Hout2 & Hn & _).
  rewrite (scanned_agree _ _ _ (ro_agree _ _ _ Ro1)) in Hn. specialize (Hn Hr).
  assert (read_on c c2 rest) as Ro2 by (eapply read_on_trans; [exact Ro1|by split]).
  rewrite (bind_eq _ _ _ _ _ Hread). destruct (from_option _ _ _) as [m|]; [by exists c2|].
  destruct (recv_reply_waiting _ _ _ _ _ (ls_wait _ _ _ _ Hn)) as (c3 & H3 & Hw3 & E3 & Hag3).
  rewrite (bind_eq _ _ _ _ _ H3). exists c3. split; [|split; [|done]].
  - eapply read_on_trans; [exact Ro2|]. rewrite E3. rewrite <-Hs2. apply read_on_upd. by rewrite <-E3.
  - destruct Hn. split; [done|by rewrite E3..].
Qed.

Lemma unsubscribe_skips id pc timeout ds reads c rs :
  id ≠ "" → listening id pc ((RData <$> ds) ++ reads) c →
  Forall (λ d, replies id (scanned c (messages d)) = []) ds →
  ∃ c', read_on c c' reads ∧ listening id pc reads c' ∧
    U pc timeout (replicate (length ds) (Round false []) ++ rs) c = U pc timeout rs c'.
Proof.
  intros Hid. revert c. induction ds as [|d ds IH]; intros c Hl Hn.
  { exists c. split; [|done]. split; try done; [apply Hl|]. exists 0. by rewrite app_nil_r. }
  apply Forall_cons in Hn as [Hr Hn]. simpl in Hl.
  destruct (unsubscribe_skip id pc timeout d _ c (replicate (length ds) (Round false []) ++ rs) Hid Hl Hr)
    as (c1 & Ro & Hl1 & H1).
  destruct (IH c1 Hl1) as (c2 & Ro2 & Hl2 & H2).
  { eapply Forall_impl; [exact Hn|]. intros x Hx. simpl. by rewrite (scanned_agree _ _ _ (ro_agree _ _ _ Ro)). }
  exists c2. split; [by eapply read_on_trans|]. split; [done|]. cbn [length replicate app]. by rewrite H1, H2.
Qed.

(** The reply is found by the round that reads it or the next. *)
Lemma unsubscribe_reply id pc timeout data fr rest rs c :
  id ≠ "" → listening id pc (RData data :: rest) c → replies id (scanned c (messages data)) = [fr] →
  ∃ c', read_on c c' rest ∧ client_inv c' ∧ rpcs (c_mux c') !! id = Some pc ∧
    U pc timeout (Round false [] :: Round false [] :: rs) c = Some (outcome fr, c').
Proof.
  intros Hid Hl Hr. destruct (unsubscribe_poll id pc timeout _ c (Round false [] :: rs) Hl) as (c1 & Hl1 & Ro1 & ->).
  destruct (hear parse_json parse_time id pc data rest c1 Hid Hl1)
    as (c2 & Hread & Hag2 & Hc2 & Hcl2 & Hin2 & Hs2 & Hout2 & _ & Hf).
  rewrite (scanned_agree _ _ _ (ro_agree _ _ _ Ro1)) in Hf. specialize (Hf _ Hr).
  assert (read_on c c2 rest) as Ro2 by (eapply read_on_trans; [exact Ro1|by split]).
  rewrite (bind_eq _ _ _ _ _ Hread).
  assert (∀ cx, delivered id pc fr cx → read_on c cx rest → ∃ c', read_on c c' rest ∧ client_inv c' ∧
    rpcs (c_mux c') !! id = Some pc ∧ U pc timeout (Round false [] :: rs) cx = Some (outcome fr, c')) as Hnext.
  { intros cx Hd Ro. set (c3 := upd_reader false cx).
    assert (delivered id pc fr c3) as Hd3.
    { unfold delivered in *. destruct (_ =s "error"); destruct Hd; by split. }
    destruct (poll_delivered id pc fr c3 Hd3) as (c' & Hp & Hi & Hrp & Ro').
    exists c'. split; [|split; [done|split; [done|]]].
    { eapply read_on_trans; [exact Ro|]. rewrite <-(ro_rest _ _ _ Ro). destruct Ro'. by split. }
    cbn [unsubscribe_wait route_frames].
    rewrite (bind_eq _ _ cx tt c3), (bind_eq _ _ c3 tt c3), (bind_eq _ _ c3 false c3) by done.
    by rewrite (bind_eq _ _ _ _ _ Hp). }
  destruct (from_option _ _ _) as [m|]; [by apply Hnext|].
  assert (∀ xs es, waiting id pc xs es c2 → ∃ c3, recv_reply_m pc c2 = Some (head xs, c3) ∧
    waiting id pc (tail xs) es c3 ∧ read_on c c3 rest) as Htake.
  { intros xs es Hw. destruct (recv_reply_waiting _ _ _ _ _ Hw) as (c3 & H3 & Hw3 & E3 & Hag3).
    exists c3. split; [done|]. split; [done|]. eapply read_on_trans; [exact Ro2|].
    rewrite E3, <-Hs2. apply read_on_upd. by rewrite <-E3. }
  pose proof Hf as Hd. unfold delivered in Hf. destruct (sget fr "type" =s "error") eqn:Et.
  - destruct (Htake _ _ Hf) as (c3 & H3 & Hw3 & Ro3). rewrite (bind_eq _ _ _ _ _ H3). simpl.
    apply Hnext; [|done]. unfold delivered. by rewrite Et.
  - destruct (Htake _ _ Hf) as (c3 & H3 & Hw3 & Ro3). rewrite (bind_eq _ _ _ _ _ H3). simpl.
    exists c3. split; [done|]. split; [apply Hw3|]. split; [apply Hw3|]. unfold outcome. by rewrite Et.
Qed.
End lemmas.

(** * Properties *)

Section properties.
Context (parse_json : string → option value) (parse_time : string → option string).
Local Abbreviation messages := (payload_messages parse_json parse_time).

(** Subscribing to the autopilot always ends, whatever is read or routed meanwhile, with an
    error or with the id that went out; the registrations are as they were. *)
Theorem autopilot_subscribe_ends (k : call) (timeout : Z) (c : client) (Hi : client_inv c)
    (Hfresh : subs (c_mux c) !! newID k = None) :
  ∃ r c', AutopilotSubscribe parse_json parse_time k timeout c = Some (r, c') ∧ client_inv c' ∧
    rpcs (c_mux c') = rpcs (c_mux c) ∧ subs (c_mux c') = subs (c_mux c) ∧
    ∀ id, r = inl id → id = newID k.
Proof.
  unfold AutopilotSubscribe. cbv zeta. set (env := NewSubscribeEnvelope _ _ _).
  destruct (subscription_total parse_json parse_time k env poll_accept accept_verdict (timeout_or timeout 15)
    "autopilot subscribe" c Hi keeps_poll_accept) as (r & c' & H & Hi' & Hr & Hs).
  rewrite (bind_eq _ _ _ _ _ H). eexists _, c'. split; [done|]. split; [done|]. split; [done|]. split.
  - destruct Hs as [Hs|Hs]; [done|]. rewrite Hs. by apply delete_id.
  - intros id. destruct r; [|done]. by intros [= <-].
Qed.

(** What is left of an unsubscription once its waiter is registered and it is sent. *)
Lemma unsubscribe_sent k sid timeout c :
  client_inv c → IsConnected c = true → sock_w c = true → pendingEvents (c_in c) = [] →
  ctx_done k = false → between k = [] → sid ≠ "" →
  let pc := next_addr (c_mux c) in
  ∃ c1, listening sid pc (sock_in c) c1 ∧ agree (registered sid c) c1 ∧ conn c1 = conn c ∧
    conn_closed c1 = conn_closed c ∧ sock_out c1 = sock_out c ++ [NewUnsubscribeEnvelope sid] ∧
    AutopilotUnsubscribe parse_json parse_time k sid timeout c =
    bind (unsubscribe_wait parse_json parse_time pc (timeout_or timeout 15) (rounds k))
      (λ r, unregisterRPC_m sid pc;;! ret r) c1.
Proof.
  intros Hi Hc Hw Hp Hctx Hb Hsid pc. apply andb_true_iff in Hc as [Ho Hcl].
  set (c0 := registered sid c). set (c1 := add_out (NewUnsubscribeEnvelope sid) c0).
  pose proof (registered_waiting sid c Hi) as Hw0.
  exists c1. split; [split; [by destruct Hw0; split|done..]|]. do 4 (split; [done|]).
  unfold AutopilotUnsubscribe, need. rewrite (proj2 (String.eqb_neq _ _) Hsid), Hb, Hctx.
  rewrite (bind_eq _ _ c pc c0), (bind_eq _ _ c0 tt c0) by done.
  rewrite (bind_eq _ _ c0 None c1); [done|]. apply SendMessage_ok. unfold writable. simpl. by rewrite Ho, Hcl, Hw.
Qed.

(** An unsubscription on a socket nobody else reads gets the daemon's reply, whatever comes
    before it: events, pings, frames for others (an ordinary request gives up on a ping). *)
Theorem unsubscribe_gets_reply (k : call) (sid : string) (timeout : Z) (c : client)
    (ds : list string) (data : string) (rest : list read_result) (fr : gomap) (more : list round)
    (Hi : client_inv c) (Hc : IsConnected c = true) (Hw : sock_w c = true)
    (Hp : pendingEvents (c_in c) = []) (Hctx : ctx_done k = false) (Hb : between k = []) (Hsid : sid ≠ "")
    (Hs : sock_in c = (RData <$> ds) ++ RData data :: rest)
    (Hn : Forall (λ d, replies sid (scanned (registered sid c) (messages d)) = []) ds)
    (Hr : replies sid (scanned (registered sid c) (messages data)) = [fr])
    (Hrounds : rounds k = replicate (length ds) (Round false []) ++ Round false [] :: Round false [] :: more) :
  ∃ c' j, AutopilotUnsubscribe parse_json parse_time k sid timeout c = Some (outcome fr, c') ∧
    sock_out c' = sock_out c ++ NewUnsubscribeEnvelope sid :: replicate j NewPongEnvelope ∧
    sock_in c' = rest ∧ IsConnected c' = true.
Proof.
  destruct (unsubscribe_sent k sid timeout c Hi Hc Hw Hp Hctx Hb Hsid)
    as (c1 & Hl & Hag & Ho & Hcl & Hout & ->). rewrite Hs in Hl. rewrite Hrounds.
  destruct (unsubscribe_skips parse_json parse_time sid _ (timeout_or timeout 15) ds _ c1
    (Round false [] :: Round false [] :: more) Hsid Hl) as (c2 & Ro & Hl2 & H2).
  { eapply Forall_impl; [exact Hn|]. intros x Hx. simpl. by rewrite (scanned_agree _ _ _ Hag). }
  destruct (unsubscribe_reply parse_json parse_time sid _ (timeout_or timeout 15) data fr rest more c2 Hsid Hl2)
    as (c3 & Ro3 & Hi3 & Hr3 & H3).
  { by rewrite (scanned_agree _ _ _ (ro_agree _ _ _ Ro)), (scanned_agree _ _ _ Hag). }
  rewrite H3 in H2. rewrite (bind_eq _ _ _ _ _ H2).
  destruct (read_on_trans _ _ _ _ _ Ro Ro3) as [_ B1 B2 _ B4 [j B5]].
  eexists _, j. split; [done|]. simpl. split; [by rewrite B5, Hout, <-app_assoc|]. split; [done|].
  unfold IsConnected in *. simpl. by rewrite B1, B2, Ho, Hcl.
Qed.

(** An unsubscription does not notice that the connection is lost: on a dead socket it
    reads in vain until its time is up, however many rounds that takes, and reports a
    timeout. *)
Theorem unsubscribe_misses_drop (k : call) (sid : string) (timeout : Z) (c : client) (n : nat)
    (Hi : client_inv c) (Hc : IsConnected c = true) (Hw : sock_w c = true)
    (Hp : pendingEvents (c_in c) = []) (Hctx : ctx_done k = false) (Hb : between k = []) (Hsid : sid ≠ "")
    (Hs : sock_in c = []) (Hrounds : rounds k = replicate n (Round false [])) :
  ∃ c', AutopilotUnsubscribe parse_json parse_time k sid timeout c =
    Some (inr (ErrTimeoutAfter (timeout_or timeout 15) "autopilot_unsubscribe"), c').
Proof.
  destruct (unsubscribe_sent k sid timeout c Hi Hc Hw Hp Hctx Hb Hsid)
    as (c1 & Hl & _ & _ & _ & _ & ->). rewrite Hs in Hl. rewrite Hrounds.
  set (pc := next_addr (c_mux c)) in *. set (t := timeout_or timeout 15).
  assert (∃ c2, unsubscribe_wait parse_json parse_time pc t (replicate n (Round false [])) c1 =
    Some (inr (ErrTimeoutAfter t "autopilot_unsubscribe"), c2)) as (c2 & H2).
  { clearbody pc. clear -Hl. revert c1 Hl. induction n as [|n IH]; intros c1 Hl; [by eexists|].
    cbn [replicate].
    destruct (unsubscribe_poll parse_json parse_time sid pc t [] c1 (replicate n (Round false [])) Hl)
      as (c2 & Hl2 & _ & ->).
    rewrite (bind_eq _ _ _ _ _ (ReadEvent_fail parse_json parse_time c2 (ls_conn _ _ _ _ Hl2) (ls_empty _ _ _ _ Hl2)
      (ls_in _ _ _ _ Hl2))).
    destruct (recv_reply_waiting _ _ _ _ _ (ls_wait _ _ _ _ Hl2)) as (c3 & H3 & Hw3 & E3 & _).
    rewrite (bind_eq _ _ _ _ _ H3). simpl. apply IH. destruct Hl2. split; [done|by rewrite E3..]. }
  rewrite (bind_eq _ _ _ _ _ H2). by eexists.
Qed.

(** A request that needs an argument refuses a blank one and leaves the client alone. *)
Theorem blank_arguments_refused (k : call) (s : string) (n timeout : Z) (c : client) :
  let refused what (m : M result) := m c = Some (inr (ErrMsg (what +:+ " is required")), c) in
  let pj := parse_json in let pt := parse_time in
  refused "goal" (JobCreate pj pt k "" s timeout) ∧
  Forall (λ request, refused "job_id" (request k "" timeout))
    [JobStatus pj pt; JobPause pj pt; JobResume pj pt; JobCancel pj pt; JobDag pj pt; CronShow pj pt;
     CronCancel pj pt; AutopilotGetJob pj pt] ∧
  refused "job_id" (JobGuidance pj pt k "" s s timeout) ∧
  (s ≠ "" → refused "text" (JobGuidance pj pt k s "" s timeout)) ∧
  refused "text" (CronAdd pj pt k "" n timeout) ∧
  refused "description" (AutopilotSubmit pj pt k "" n s timeout) ∧
  Forall (λ request, refused "goal_id" (request k "" timeout))
    [AutopilotGetGoal pj pt; AutopilotCancelGoal pj pt; AutopilotResume pj pt] ∧
  refused "subscriptionID" (AutopilotUnsubscribe pj pt k "" timeout).
Proof.
  intros refused pj pt. split; [done|]. split; [by repeat constructor|]. split; [done|]. split.
  { intros Hs. unfold refused, JobGuidance, need. by rewrite (proj2 (String.eqb_neq _ _) Hs). }
  split; [done|]. split; [done|]. split; [by repeat constructor|done].
Qed.
End properties.

(** * Examples *)

Definition bye : call := Call "u1" false [] (replicate 4 (Round false [])).

Lemma autopilot_subscribe_ends_witness :
  ∃ c', AutopilotSubscribe call_json Some (Call "s1" false [] [Round true [next_frame "s1"]]) 0 (live []) =
    Some (inl "s1", c') ∧ subs (c_mux c') = ∅.
Proof.
  destruct (autopilot_subscribe_ends call_json Some (Call "s1" false [] [Round true [next_frame "s1"]]) 0 (live [])
    (live_inv _) ltac:(by vm_compute)) as (r & c' & H & _ & _ & Hs & _).
  exists c'. split; [|exact Hs]. rewrite H. f_equal. f_equal.
  assert (∃ c'', AutopilotSubscribe call_json Some (Call "s1" false [] [Round true [next_frame "s1"]]) 0 (live []) =
    Some (inl "s1", c'')) as [c'' H''] by (eexists; vm_compute; reflexivity).
  rewrite H'' in H. by injection H as <-.
Defined.

Lemma unsubscribe_gets_reply_witness :
  ∃ c', AutopilotUnsubscribe call_json Some bye "r1" 0 (live [RData "PING"; RData "REPLY"]) =
    Some (inl (Some (mlit [("ok", VBool true)])), c') ∧ sock_in c' = [].
Proof.
  destruct (unsubscribe_gets_reply call_json Some bye "r1" 0 (live [RData "PING"; RData "REPLY"])
    ["PING"] "REPLY" [] sample_reply [Round false []] (live_inv _) eq_refl eq_refl eq_refl eq_refl eq_refl)
    as (c' & j & H & _ & Hs & _); [done|done| |vm_compute; reflexivity|done|].
  { constructor; [by vm_compute|constructor]. }
  exists c'. split; [|exact Hs]. etransitivity; [exact H|]. vm_compute. reflexivity.
Defined.

Lemma unsubscribe_misses_drop_witness :
  ∃ c', AutopilotUnsubscribe call_json Some bye "s1" 0 (live []) =
    Some (inr (ErrTimeoutAfter (15 * second) "autopilot_unsubscribe"), c').
Proof.
  exact (unsubscribe_misses_drop call_json Some bye "s1" 0 (live []) 4 (live_inv _) eq_refl eq_refl eq_refl
    eq_refl eq_refl ltac:(done) eq_refl eq_refl).
Defined.

Lemma blank_arguments_refused_witness :
  JobGuidance call_json Some bye "j1" "" "" 0 (live []) = Some (inr (ErrMsg "text is required"), live []).
Proof.
  by apply (blank_arguments_refused call_json Some bye "j1" 0 0 (live [])).
Defined.
