(* ===== verification/Helpers.v ===== *)
(** Requests with a meaning of their own (helpers.go): probing, shutting down and
    configuring the daemon, and the loop requests that insist on a loop id. *)

From S2P Require Import Prelude GoStr Value StreamTerminal InboundPriority Pending DeliveryAck.
From S2P Require Import Protocol GoChan Mux Heartbeat Client Reader Handshake Rpc Bootstrap Preserve Jobs.

Section helpers.
Context (parse_json : string → option value) (parse_time : string → option string).
Local Abbreviation rr := (rr parse_json parse_time).

Definition CheckDaemonStatus k timeout : M result :=
  rr k [("type", VStr "daemon_status")] "daemon_status_response" timeout 5.

(** On a client of its own: [dial], [n] and [ctx] are the circumstances of its connection,
    [k] those of its status request. The client is returned for what is left of it. *)
Definition IsDaemonLive (dial : option (list read_result * bool)) (n : nat) (ctx : bool) (k : call)
    (timeout : Z) : option (bool * client) :=
  (let! err := Connect parse_json parse_time dial n ctx in
   match err with
   | Some _ => ret false
   | None =>
       let! r := CheckDaemonStatus k timeout in
       Close;;! ret (match r with inl _ => true | inr _ => false end)
   end) NewClient.

Definition RequestDaemonShutdown k timeout : M (option error) :=
  let! r := rr k [("type", VStr "daemon_shutdown")] "shutdown_ack" timeout 10 in
  ret match r with
      | inr e => Some (ErrWrap "shutdown failed" e)
      | inl resp => if sget resp "status" <>s "acknowledged" then Some (ErrReply "shutdown not acknowledged" resp) else None
      end.

(** The skills, nil when the reply has no list of them. *)
Definition skills_of (resp : gomap) : option (list gomap) :=
  match to_arr (mget resp "skills") with
  | Some skillsList => Some (omap to_map skillsList)
  | None => None
  end.

Definition FetchSkillsCatalog k timeout : M (option (list gomap) + error) :=
  let! r := rr k [("type", VStr "skills_list")] "skills_list_response" timeout 15 in
  ret match r with inr e => inr e | inl resp => inl (skills_of resp) end.

Definition FetchConfigSection k section timeout : M result :=
  let! r := rr k [("type", VStr "config_get"); ("section", VStr section)] "config_get_response" timeout 5 in
  ret match r with
      | inr e => inr e
      | inl resp => inl (match to_map (mget resp section) with Some m => m | None => resp end)
      end.

Definition RequestDaemonConfigReload k timeout : M (option error) :=
  let! r := rr k [("type", VStr "config_reload")] "config_reload_response" timeout 10 in
  ret match r with
      | inr e => Some (ErrWrap "config reload failed" e)
      | inl resp =>
          let status := sget resp "status" in
          if (status <>s "reloaded") && (status <>s "ok") then Some (ErrReply "config reload not acknowledged" resp)
          else None
      end.

(** The requests that name a loop. *)
Definition loop_request (method : string) (k : call) (loopID : string) (timeout : Z)
    (more : list (string * value)) : M result :=
  need loopID "loop_id"
    (rr k ([("type", VStr method); ("loop_id", VStr loopID)] ++ more) (method +:+ "_response") timeout 15).

Definition FetchLoopHistory k loopID timeout := loop_request "loop_history_fetch" k loopID timeout [].
Definition FetchLoopExecutionState k loopID timeout := loop_request "loop_execution_state_fetch" k loopID timeout [].
Definition LoopTree k loopID timeout := loop_request "loop_tree" k loopID timeout [].
Definition LoopPrune k loopID keepLatest timeout :=
  loop_request "loop_prune" k loopID timeout (int_opt "keep_latest" keepLatest).
Definition LoopDelete k loopID timeout := loop_request "loop_delete" k loopID timeout [].
Definition LoopReattach k loopID timeout := loop_request "loop_reattach" k loopID timeout [].

Definition RequestAuth k accessKey secretKey timeout : M result :=
  rr k [("type", VStr "auth"); ("access_key", VStr accessKey); ("secret_key", VStr secretKey)]
    "auth_response" timeout 15.
Definition RequestAuthRefresh k refreshToken timeout : M result :=
  rr k [("type", VStr "auth_refresh"); ("refresh_token", VStr refreshToken)] "auth_refresh_response" timeout 15.
End helpers.

(** * Properties *)

Section properties.
Context (parse_json : string → option value) (parse_time : string → option string).

(** The liveness probe always ends and leaves nothing connected; it says yes exactly when
    the handshake completed and the daemon answered a status request with a result. *)
Theorem daemon_live_exact (dial : option (list read_result * bool)) (n : nat) (ctx : bool) (k : call) (timeout : Z) :
  ∃ b c, IsDaemonLive parse_json parse_time dial n ctx k timeout = Some (b, c) ∧ IsConnected c = false ∧
    (b = true ↔ ∃ c1 resp c2, Connect parse_json parse_time dial n ctx NewClient = Some (None, c1) ∧
       IsHandshakeComplete c1 = true ∧ ReadinessState c1 = "ready" ∧
       CheckDaemonStatus parse_json parse_time k timeout c1 = Some (inl resp, c2)).
Proof.
  unfold IsDaemonLive. destruct (Connect_total parse_json parse_time dial n ctx NewClient) as (err & c1 & H1 & Hi1 & Hm).
  specialize (Hi1 (proj1 new_unregistered)). rewrite (bind_eq _ _ _ _ _ H1). destruct err as [e|].
  - eexists false, c1. split; [done|]. split; [|split; [done|]].
    + destruct dial as [p|]; [apply Hm|by subst].
    + intros (c & resp & c2 & H & _). by rewrite H1 in H.
  - destruct Hm as (_ & Hh & Hst).
    destruct (total_Request parse_json parse_time k (mlit [("type", VStr "daemon_status")])
      "daemon_status_response" (timeout_or timeout 5) c1 Hi1) as (r & c2 & H2 & Hi2).
    rewrite (bind_eq (CheckDaemonStatus _ _ _ _) _ _ _ _ H2).
    destruct (Close_closes c2 Hi2) as (c3 & H3 & _ & Hc3). rewrite (bind_eq _ _ _ _ _ H3).
    eexists _, c3. split; [done|]. split; [done|]. destruct r as [resp|e].
    + split; [|done]. intros _. by exists c1, resp, c2.
    + split; [done|]. intros (c & resp & c' & Hc & _ & _ & H). rewrite H1 in Hc. injection Hc as <-.
      unfold CheckDaemonStatus, rr in H. by rewrite H2 in H.
Qed.

(** A shutdown counts as done only on the daemon's own acknowledgement: the call fails
    on every error of the request and on every reply that says anything else. *)
Theorem shutdown_acknowledged (k : call) (timeout : Z) (c c' : client)
    (H : RequestDaemonShutdown parse_json parse_time k timeout c = Some (None, c')) :
  ∃ resp, RequestResponse parse_json parse_time k (mlit [("type", VStr "daemon_shutdown")]) "shutdown_ack"
    (timeout_or timeout 10) c = Some (inl resp, c') ∧ mget resp "status" = VStr "acknowledged".
Proof.
  revert H. unfold RequestDaemonShutdown, rr, bind. destruct (RequestResponse _ _ _ _ _ _ c) as [[r c1]|]; [|done].
  destruct r as [resp|e]; [|done]. destruct (String.eqb_spec (sget resp "status") "acknowledged") as [E|]; [|done].
  intros [= <-]. exists resp. split; [done|]. revert E. unfold sget. by destruct (mget resp "status"); simpl; intros; subst.
Qed.
End properties.

(** * Examples *)

Definition shutdown_json (s : string) : option value :=
  if s =s "BYE" then
    Some (obj [("proto", VStr "1"); ("type", VStr "response"); ("id", VStr "r1");
               ("result", obj [("status", VStr "acknowledged")])])
  else sample_json s.

Lemma shutdown_acknowledged_witness :
  ∃ resp c', RequestDaemonShutdown shutdown_json Some (ask (replicate 2 (Round false []))) 0 (live [RData "BYE"]) =
    Some (None, c') ∧ mget resp "status" = VStr "acknowledged".
Proof.
  assert (∃ c', RequestDaemonShutdown shutdown_json Some (ask (replicate 2 (Round false []))) 0 (live [RData "BYE"]) =
    Some (None, c')) as [c' H] by (eexists; vm_compute; reflexivity).
  destruct (shutdown_acknowledged shutdown_json Some (ask (replicate 2 (Round false []))) 0 (live [RData "BYE"]) c' H)
    as (resp & _ & Hs).
  exists resp, c'. exact (conj H Hs).
Defined.
