(* ===== verification/CommandClient.v ===== *)
(** One-shot commands (command_client.go): each connects a client of its own, makes one
    request and closes it. *)

From S2P Require Import Prelude GoStr Value StreamTerminal InboundPriority Pending DeliveryAck.
From S2P Require Import Protocol GoChan Mux Heartbeat Client Reader Handshake Rpc Bootstrap Preserve Jobs.

Record CommandClient := MkCommandClient { cc_URL : string; cc_Timeout : Z }.

Definition NewCommandClient (url : string) (timeout : Z) : CommandClient :=
  MkCommandClient url (if timeout <=? 0 then 30 * second else timeout)%Z.

Section commands.
Context (parse_json : string → option value) (parse_time : string → option string).
(** The command client, the attempts its connection makes, and the circumstances of its
    request, whose context ends with the client's timeout. *)
Context (cc : CommandClient) (env : nat → attempt) (k : call).
Local Abbreviation pj := parse_json.
Local Abbreviation pt := parse_time.

(** [withClient]: the result, and the client as it is left. *)
Definition withClient (fn : M result) : option (result * client) :=
  (let! r :=
     let! err := ConnectWithRetries pj pt env 5 in
     match err with Some e => ret (inr e) | None => fn end in
   Close;;! ret r) NewClient.

Definition JobCreate goal workspace := withClient (JobCreate pj pt k goal workspace (cc_Timeout cc)).
Definition JobStatus jobID := withClient (JobStatus pj pt k jobID (cc_Timeout cc)).
Definition JobPause jobID := withClient (JobPause pj pt k jobID (cc_Timeout cc)).
Definition JobResume jobID := withClient (JobResume pj pt k jobID (cc_Timeout cc)).
Definition JobCancel jobID := withClient (JobCancel pj pt k jobID (cc_Timeout cc)).
Definition JobDag jobID := withClient (JobDag pj pt k jobID (cc_Timeout cc)).
Definition JobGuidance jobID text goalID := withClient (JobGuidance pj pt k jobID text goalID (cc_Timeout cc)).
Definition AutopilotStatus := withClient (AutopilotStatus pj pt k (cc_Timeout cc)).
Definition AutopilotSubmit description priority workspace :=
  withClient (AutopilotSubmit pj pt k description priority workspace (cc_Timeout cc)).
Definition AutopilotListGoals := withClient (AutopilotListGoals pj pt k (cc_Timeout cc)).
Definition AutopilotGetGoal goalID := withClient (AutopilotGetGoal pj pt k goalID (cc_Timeout cc)).
Definition AutopilotCancelGoal goalID := withClient (AutopilotCancelGoal pj pt k goalID (cc_Timeout cc)).
Definition AutopilotCancelAll := withClient (AutopilotCancelAll pj pt k (cc_Timeout cc)).
Definition AutopilotWake := withClient (AutopilotWake pj pt k (cc_Timeout cc)).
Definition AutopilotDream := withClient (AutopilotDream pj pt k (cc_Timeout cc)).
Definition AutopilotResume goalID := withClient (AutopilotResume pj pt k goalID (cc_Timeout cc)).
Definition AutopilotListJobs := withClient (AutopilotListJobs pj pt k (cc_Timeout cc)).
Definition AutopilotGetJob jobID := withClient (AutopilotGetJob pj pt k jobID (cc_Timeout cc)).
Definition AutopilotTop := withClient (AutopilotTop pj pt k (cc_Timeout cc)).
Definition CronAdd text priority := withClient (CronAdd pj pt k text priority (cc_Timeout cc)).
Definition CronList status := withClient (CronList pj pt k status (cc_Timeout cc)).
Definition CronShow jobID := withClient (CronShow pj pt k jobID (cc_Timeout cc)).
Definition CronCancel jobID := withClient (CronCancel pj pt k jobID (cc_Timeout cc)).

(** [Request]: the parameters are laid over the method's name. *)
Definition Request (method : string) (params : gomap) : option (result * client) :=
  if method =s "" then Some (inr (ErrMsg "method is required"), NewClient)
  else
    let payload := default ∅ params ∪ mlit [("type", VStr method)] in
    withClient (RequestResponse pj pt k payload (method +:+ "_response") (cc_Timeout cc)).
End commands.

(** * Lemmas *)

Section lemmas.
Context (parse_json : string → option value) (parse_time : string → option string).
Local Abbreviation withClient env fn := (withClient parse_json parse_time env fn).

(** Whatever its request does, a command ends and leaves nothing connected. *)
Lemma withClient_ends env fn :
  total fn → ∃ r c', withClient env fn = Some (r, c') ∧ IsConnected c' = false.
Proof.
  intros Hfn. unfold withClient.
  assert (total (bind (ConnectWithRetries parse_json parse_time env 5)
    (λ err, match err with Some e => ret (inr e) | None => fn end))) as Ht.
  { apply total_bind; [|intros [e|]; [apply total_ret|done]]. intros c Hi.
    destruct (connect_attempts_total parse_json parse_time env 5 0 None c) as (err & c' & H & Hi' & _).
    exists err, c'. split; [exact H|auto]. }
  destruct (Ht NewClient) as (r & c1 & H1 & Hi1); [apply new_unregistered|].
  destruct (Close_closes c1 Hi1) as (c2 & H2 & _ & Hc). exists r, c2.
  rewrite (bind_eq _ _ _ _ _ H1), (bind_eq _ _ _ _ _ H2). done.
Qed.
End lemmas.

(** * Properties *)

Section properties.
Context (parse_json : string → option value) (parse_time : string → option string).
Context (cc : CommandClient) (env : nat → attempt) (k : call).
Local Abbreviation pj := parse_json.
Local Abbreviation pt := parse_time.

(** No command hangs, panics or leaks its connection: each one, whatever its arguments,
    whatever becomes of its connection and of its request, returns a result or an error,
    and the client it made is closed by then. *)
Theorem commands_close (s1 s2 s3 : string) (n : Z) (params : gomap) :
  Forall (λ command, ∃ r c, command = Some (r, c) ∧ IsConnected c = false)
    [JobCreate pj pt cc env k s1 s2; JobStatus pj pt cc env k s1; JobPause pj pt cc env k s1;
     JobResume pj pt cc env k s1; JobCancel pj pt cc env k s1; JobDag pj pt cc env k s1;
     JobGuidance pj pt cc env k s1 s2 s3; AutopilotStatus pj pt cc env k;
     AutopilotSubmit pj pt cc env k s1 n s2; AutopilotListGoals pj pt cc env k;
     AutopilotGetGoal pj pt cc env k s1; AutopilotCancelGoal pj pt cc env k s1;
     AutopilotCancelAll pj pt cc env k; AutopilotWake pj pt cc env k; AutopilotDream pj pt cc env k;
     AutopilotResume pj pt cc env k s1; AutopilotListJobs pj pt cc env k; AutopilotGetJob pj pt cc env k s1;
     AutopilotTop pj pt cc env k; CronAdd pj pt cc env k s1 n; CronList pj pt cc env k s1;
     CronShow pj pt cc env k s1; CronCancel pj pt cc env k s1; Request pj pt cc env k s1 params].
Proof.
  assert (∀ fn, total fn → ∃ r c, withClient pj pt env fn = Some (r, c) ∧ IsConnected c = false) as Hw
    by apply withClient_ends.
  repeat (constructor; [first [by apply Hw; eauto with total | idtac]|]); try by constructor.
  unfold Request. destruct (s1 =s ""); [by eexists _, _|]. apply Hw; eauto with total.
Qed.

End properties.

(** * Examples *)

(** A daemon that is warming up on the second attempt, then answers. *)
Definition command_json (s : string) : option value :=
  match ack_json s with Some v => Some v | None => call_json s end.

Definition second_attempt (i : nat) : attempt :=
  if (i <? 1)%nat then Attempt None 3 false false
  else Attempt (Some ([RData "WARMING"; RData "READY"; RData "IDLE"; RData "REPLY"], true)) 3 false false.

