(* ===== verification/Verbosity.v ===== *)
(** What is shown at which verbosity (verbosity.go), and application keys carried by a
    context (appkit/app_key.go). *)

From S2P Require Import Prelude GoStr.

(** * Verbosity *)

Definition VerbosityQuiet : string := "quiet".
Definition VerbosityNormal : string := "normal".
Definition VerbosityDebug : string := "debug".

Definition TierQuiet : Z := 0.
Definition TierNormal : Z := 1.
Definition TierDetailed : Z := 2.
Definition TierDebug : Z := 3.
Definition TierInternal : Z := 99.

Definition verbosityLevelValues : gmap string Z :=
  {[ VerbosityQuiet := 0; VerbosityNormal := 1; VerbosityDebug := 3 ]}%Z.

Definition ShouldShow (tier : Z) (verbosity : string) : bool :=
  if (tier =? TierInternal)%Z then false
  else (tier <=? default 1 (verbosityLevelValues !! verbosity))%Z.

Definition IsValidVerbosityLevel (s : string) : bool := bool_decide (is_Some (verbosityLevelValues !! s)).

(** What a level lets through, as the comments on the tiers say. *)
Definition visible (verbosity : string) : list Z :=
  if verbosity =s VerbosityQuiet then [TierQuiet]
  else if verbosity =s VerbosityDebug then [TierQuiet; TierNormal; TierDetailed; TierDebug]
  else [TierQuiet; TierNormal].

Lemma level_value v : default 1%Z (verbosityLevelValues !! v) =
  (if v =s VerbosityQuiet then 0 else if v =s VerbosityDebug then 3 else 1)%Z.
Proof.
  unfold verbosityLevelValues.
  destruct (String.eqb_spec v VerbosityQuiet) as [->|H1]; [done|].
  destruct (String.eqb_spec v VerbosityDebug) as [->|H2]; [done|].
  rewrite lookup_insert_ne by done. rewrite lookup_insert. case_decide; [done|].
  by rewrite lookup_singleton_ne.
Qed.

(** Exactly the tiers of its level are shown: quiet shows what is always visible, debug
    every tier but the internal one, normal and every unknown level the standard
    progress; and a valid level is one of the three. *)
Theorem should_show_exact (tier : Z) (verbosity : string)
    (Htier : tier ∈ [TierQuiet; TierNormal; TierDetailed; TierDebug; TierInternal]) :
  (ShouldShow tier verbosity = true ↔ tier ∈ visible verbosity) ∧
  (IsValidVerbosityLevel verbosity = true ↔ verbosity ∈ [VerbosityQuiet; VerbosityNormal; VerbosityDebug]).
Proof.
  split.
  - unfold ShouldShow, visible. rewrite level_value. rewrite !elem_of_cons, elem_of_nil in Htier.
    destruct (_ =s VerbosityQuiet); [|destruct (_ =s VerbosityDebug)];
      rewrite !elem_of_cons, elem_of_nil;
      destruct Htier as [-> | [-> | [-> | [-> | [-> | []]]]]]; vm_compute; intuition discriminate.
  - unfold IsValidVerbosityLevel, verbosityLevelValues.
    rewrite bool_decide_eq_true, !lookup_insert_is_Some, lookup_singleton_is_Some.
    rewrite !elem_of_cons, elem_of_nil.
    destruct (decide (VerbosityQuiet = verbosity)), (decide (VerbosityNormal = verbosity)),
      (decide (VerbosityDebug = verbosity)); naive_solver.
Qed.

(** * Application keys in a context *)

(** A context: the background one, or a value over a parent; [Other] is a value under any
    other key. A nil context is [None]. *)
Inductive context := Background | WithAppKey (parent : context) (appKey : string) | Other (parent : context).

Definition ContextWithAppKey (ctx : option context) (appKey : string) : context :=
  WithAppKey (default Background ctx) appKey.

(** [ctx.Value] at the key of application keys: the nearest value. *)
Fixpoint Value (ctx : context) : option string :=
  match ctx with
  | Background => None
  | WithAppKey _ appKey => Some appKey
  | Other parent => Value parent
  end.

(** The key and whether there is one; a blank key is none. *)
Definition AppKeyFromContext (ctx : option context) : string * bool :=
  match ctx with
  | None => ("", false)
  | Some ctx =>
      match Value ctx with
      | Some v => if v =s "" then ("", false) else (v, true)
      | None => ("", false)
      end
  end.

(** A key put into a context is what comes out of it, over any key put in before and under
    any other values put in after; a blank one hides the keys below. *)
Theorem app_key_roundtrip (ctx : option context) (appKey : string) (n : nat) :
  AppKeyFromContext (Some (Nat.iter n Other (ContextWithAppKey ctx appKey))) = (appKey, appKey <>s "").
Proof.
  simpl. assert (Value (Nat.iter n Other (ContextWithAppKey ctx appKey)) = Some appKey) as ->.
  { induction n; done. }
  by destruct (String.eqb_spec appKey "") as [->|].
Qed.

Lemma should_show_exact_witness : ShouldShow TierDetailed "verbose" = false.
Proof.
  apply not_true_is_false. intros H.
  apply (should_show_exact TierDetailed "verbose") in H; [|by repeat (first [left|right])].
  change (visible "verbose") with [TierQuiet; TierNormal] in H.
  rewrite !elem_of_cons, elem_of_nil in H. by destruct H as [H|[H|[]]].
Defined.
