(* ===== verification/Broadcaster.v ===== *)
(** The event broadcaster (appkit/broadcaster.go): a fan-out of events to the channels
    subscribed under an application key. Channels are shared with the subscribers, so they
    live in a store and the tables hold addresses. *)

From S2P Require Import Prelude Value GoChan.

(** * Definitions *)

Record SSEEvent := MkSSE {
  sse_Type : string;
  sse_Data : value;
}.

Record SSEBroadcaster := Broadcaster {
  subscribers : gmap string (gmap string nat);
  chans : gmap nat (chan SSEEvent);
  next_chan : nat;
}.

Definition NewSSEBroadcaster : SSEBroadcaster := Broadcaster ∅ ∅ 0.

Definition subs_of (b : SSEBroadcaster) (appKey : string) : gmap string nat :=
  default ∅ (subscribers b !! appKey).

(** [id] is the one drawn for the subscriber. *)
Definition Subscribe (id appKey : string) (b : SSEBroadcaster) : nat * SSEBroadcaster :=
  let ch := next_chan b in
  (ch, Broadcaster (<[appKey := <[id := ch]> (subs_of b appKey)]> (subscribers b))
         (<[ch := make_chan 100]> (chans b)) (S ch)).

(** An operation on each of some channels; [None] when one panics. *)
Fixpoint each (f : chan SSEEvent → option (chan SSEEvent)) (addrs : list nat)
    (h : gmap nat (chan SSEEvent)) : option (gmap nat (chan SSEEvent)) :=
  match addrs with
  | [] => Some h
  | a :: addrs =>
      ch ← h !! a;
      ch ← f ch;
      each f addrs (<[a := ch]> h)
  end.

Definition addrs (subs : gmap string nat) : list nat := (map_to_list subs).*2.

Definition Broadcast (appKey : string) (event : SSEEvent) (b : SSEBroadcaster) : option SSEBroadcaster :=
  match subscribers b !! appKey with
  | None => Some b
  | Some subs =>
      h ← each (try_send event) (addrs subs) (chans b);
      Some (Broadcaster (subscribers b) h (next_chan b))
  end.

(** The subscriber whose channel is [ch]. *)
Definition find_sub (ch : nat) (subs : gmap string nat) : option string :=
  fst <$> find (λ x, Nat.eqb x.2 ch) (map_to_list subs).

(** [ch] is the channel, [None] when nil. *)
Definition Unsubscribe (appKey : string) (ch : option nat) (b : SSEBroadcaster) : option SSEBroadcaster :=
  match subscribers b !! appKey with
  | None => Some b
  | Some subs =>
      let put (subs : gmap string nat) :=
        if bool_decide (subs = ∅) then delete appKey (subscribers b)
        else <[appKey := subs]> (subscribers b) in
      match ch ≫= (λ ch, find_sub ch subs) with
      | None => Some (Broadcaster (put subs) (chans b) (next_chan b))
      | Some id =>
          a ← subs !! id;
          h ← each close_chan [a] (chans b);
          Some (Broadcaster (put (delete id subs)) h (next_chan b))
      end
  end.

Definition Close (appKey : string) (b : SSEBroadcaster) : option SSEBroadcaster :=
  match subscribers b !! appKey with
  | None => Some b
  | Some subs =>
      h ← each close_chan (addrs subs) (chans b);
      Some (Broadcaster (delete appKey (subscribers b)) h (next_chan b))
  end.

Fixpoint close_keys (keys : list string) (b : SSEBroadcaster) : option SSEBroadcaster :=
  match keys with
  | [] => Some b
  | sid :: keys => b ← Close sid b; close_keys keys b
  end.

(** [CloseAll], in the order in which the map is walked. *)
Definition CloseAll (b : SSEBroadcaster) : option SSEBroadcaster :=
  close_keys (map_to_list (subscribers b)).*1 b.

(** A subscriber's receive. *)
Definition take_event (ch : nat) (b : SSEBroadcaster) : SSEBroadcaster :=
  match chans b !! ch with
  | None => b
  | Some c => Broadcaster (subscribers b) (<[ch := (try_recv c).2]> (chans b)) (next_chan b)
  end.

(** What can happen to a broadcaster; the id of a new subscriber is fresh. *)
Inductive sse_step : SSEBroadcaster → SSEBroadcaster → Prop :=
  | sse_subscribe id k b : subs_of b k !! id = None → sse_step b (Subscribe id k b).2
  | sse_unsubscribe k ch b b' : Unsubscribe k ch b = Some b' → sse_step b b'
  | sse_broadcast k ev b b' : Broadcast k ev b = Some b' → sse_step b b'
  | sse_close k b b' : Close k b = Some b' → sse_step b b'
  | sse_close_all b b' : CloseAll b = Some b' → sse_step b b'
  | sse_take ch b : sse_step b (take_event ch b).

(** Some subscriber of [k] has channel [a]. *)
Definition subscribed_to (b : SSEBroadcaster) (k : string) (a : nat) : Prop :=
  ∃ id, subs_of b k !! id = Some a.

(** * The invariant *)

(** Every subscriber has a channel of its own, open; a channel nobody is subscribed with
    is closed; a channel holds at most its capacity of a hundred events. *)
Record sse_inv (b : SSEBroadcaster) : Prop := {
  si_fresh a c : chans b !! a = Some c → a < next_chan b;
  si_open k id a : subs_of b k !! id = Some a → ∃ c, chans b !! a = Some c ∧ closed c = false;
  si_own k1 id1 k2 id2 a :
    subs_of b k1 !! id1 = Some a → subs_of b k2 !! id2 = Some a → k1 = k2 ∧ id1 = id2;
  si_closed a c : chans b !! a = Some c → closed c = false → ∃ k, subscribed_to b k a;
  si_cap a c : chans b !! a = Some c → cap c = 100 ∧ length (buf c) ≤ 100;
}.

Lemma subs_of_Some b k subs : subscribers b !! k = Some subs → subs_of b k = subs.
Proof. unfold subs_of. by intros ->. Qed.

Lemma elem_of_addrs a subs : a ∈ addrs subs ↔ ∃ id, subs !! id = Some a.
Proof.
  unfold addrs. rewrite list_elem_of_fmap. split.
  - intros ([id x] & -> & H). exists id. by apply elem_of_map_to_list in H.
  - intros [id H]. exists (id, a). by rewrite elem_of_map_to_list.
Qed.

Lemma addrs_NoDup b k : sse_inv b → NoDup (addrs (subs_of b k)).
Proof.
  intros Hi. unfold addrs. apply NoDup_fmap_2_strong; [|apply NoDup_map_to_list].
  intros [id1 a1] [id2 a2] H1 H2 E. simpl in E. subst.
  apply elem_of_map_to_list in H1, H2. by destruct (si_own _ Hi _ _ _ _ _ H1 H2) as [_ ->].
Qed.

Lemma each_spec f l h :
  NoDup l → (∀ a, a ∈ l → is_Some (h !! a ≫= f)) →
  ∃ h', each f l h = Some h' ∧ ∀ a, h' !! a = if decide (a ∈ l) then h !! a ≫= f else h !! a.
Proof.
  revert h. induction l as [|x l IH]; intros h Hn Hf; [by exists h|].
  apply NoDup_cons in Hn as [Hx Hn].
  destruct (Hf x ltac:(set_solver)) as [c' Hc']. apply bind_Some in Hc' as (c & Hc & Hfc).
  simpl. rewrite Hc. simpl. rewrite Hfc. simpl.
  destruct (IH (<[x := c']> h) Hn) as (h' & Hh' & Hl).
  { intros a Ha. rewrite lookup_insert_ne by set_solver. apply Hf. set_solver. }
  exists h'. split; [done|]. intros a. rewrite Hl. destruct (decide (a = x)) as [->|Hne].
  - rewrite decide_False, decide_True by set_solver. rewrite lookup_insert_eq, Hc. by rewrite <-Hfc.
  - rewrite lookup_insert_ne by done.
    destruct (decide (a ∈ l)), (decide (a ∈ x :: l)); set_solver.
Qed.

(** Retiring some subscribed channels: their subscribers go, they are closed. *)
Lemma retire_inv b b' (l : list nat) :
  sse_inv b → next_chan b' = next_chan b →
  (∀ k id a, subs_of b' k !! id = Some a ↔ subs_of b k !! id = Some a ∧ a ∉ l) →
  (∀ a, chans b' !! a = if decide (a ∈ l) then chans b !! a ≫= close_chan else chans b !! a) →
  sse_inv b'.
Proof.
  intros Hi Hn Hsub Hch.
  assert (Hback : ∀ a c', chans b' !! a = Some c' → ∃ c, chans b !! a = Some c ∧
    buf c' = buf c ∧ cap c' = cap c ∧ (a ∈ l → closed c' = true) ∧ (a ∉ l → c' = c)).
  { intros a c'. rewrite Hch. destruct (decide (a ∈ l)); [|by exists c'].
    intros H. apply bind_Some in H as (c & Hc & H). exists c. unfold close_chan in H.
    destruct (closed c); [done|]. by injection H as <-. }
  split.
  - intros a c' H. rewrite Hn. destruct (Hback _ _ H) as (c & Hc & _). by eapply si_fresh.
  - intros k id a H. apply Hsub in H as [H Ha]. rewrite Hch, decide_False by done. by eapply si_open.
  - intros k1 id1 k2 id2 a H1 H2. apply Hsub in H1 as [H1 _], H2 as [H2 _]. by eapply si_own.
  - intros a c' H Ho. destruct (Hback _ _ H) as (c & Hc & _ & _ & Hl & Hnl).
    destruct (decide (a ∈ l)) as [Hal|Hal]; [by rewrite Hl in Ho|].
    rewrite (Hnl Hal) in Ho. destruct (si_closed _ Hi _ _ Hc Ho) as (k & id & Hid).
    exists k, id. by apply Hsub.
  - intros a c' H. destruct (Hback _ _ H) as (c & Hc & -> & -> & _). by eapply si_cap.
Qed.

(** Changing channels without opening or closing any. *)
Lemma update_inv b b' :
  sse_inv b → next_chan b' = next_chan b → subscribers b' = subscribers b →
  (∀ a c', chans b' !! a = Some c' → ∃ c, chans b !! a = Some c ∧ closed c' = closed c ∧
     (cap c = 100 → length (buf c) ≤ 100 → cap c' = 100 ∧ length (buf c') ≤ 100)) →
  (∀ a, is_Some (chans b !! a) → is_Some (chans b' !! a)) →
  sse_inv b'.
Proof.
  intros Hi Hn Hsub Hch Hdom.
  assert (∀ k, subs_of b' k = subs_of b k) as Hs by (intros k; unfold subs_of; by rewrite Hsub).
  split.
  - intros a c' H. rewrite Hn. destruct (Hch _ _ H) as (c & Hc & _). by eapply si_fresh.
  - intros k id a. rewrite Hs. intros H. destruct (si_open _ Hi _ _ _ H) as (c & Hc & Ho).
    destruct (Hdom a ltac:(by eexists)) as [c' Hc']. exists c'. split; [done|].
    destruct (Hch _ _ Hc') as (c0 & Hc0 & -> & _). by simplify_eq.
  - intros k1 id1 k2 id2 a. rewrite !Hs. by apply si_own.
  - intros a c' H Ho. destruct (Hch _ _ H) as (c & Hc & E & _). rewrite E in Ho.
    destruct (si_closed _ Hi _ _ Hc Ho) as (k & id & Hid). exists k, id. by rewrite Hs.
  - intros a c' H. destruct (Hch _ _ H) as (c & Hc & _ & Hcap). apply Hcap; by eapply si_cap.
Qed.

(** ** The operations *)

Lemma Subscribe_keeps id k b : sse_inv b → subs_of b k !! id = None → sse_inv (Subscribe id k b).2.
Proof.
  intros Hi Hid. set (n := next_chan b).
  assert (Hs : ∀ k' id' a, subs_of (Subscribe id k b).2 k' !! id' = Some a ↔
    (k' = k ∧ id' = id ∧ a = n) ∨ (subs_of b k' !! id' = Some a ∧ (k', id') ≠ (k, id))).
  { intros k' id' a. unfold subs_of at 1. simpl. rewrite lookup_insert. case_decide as Hk; simpl.
    - subst. rewrite lookup_insert. case_decide as Hx; [subst|]; naive_solver.
    - unfold subs_of. naive_solver. }
  assert (Hn : ∀ k' id', subs_of b k' !! id' ≠ Some n).
  { intros k' id' H. destruct (si_open _ Hi _ _ _ H) as (c & Hc & _).
    apply (si_fresh _ Hi) in Hc. unfold n in Hc. lia. }
  split; simpl; fold n.
  - intros a c. rewrite lookup_insert. case_decide; [lia|]. intros Hc. apply (si_fresh _ Hi) in Hc. lia.
  - intros k' id' a H. apply Hs in H as [(-> & -> & ->)|[H _]].
    + exists (make_chan 100). by rewrite lookup_insert_eq.
    + rewrite lookup_insert_ne by (intros <-; by apply Hn in H). by eapply si_open.
  - intros k1 id1 k2 id2 a H1 H2. apply Hs in H1, H2.
    destruct H1 as [(-> & -> & ->)|[H1 _]], H2 as [(-> & -> & E)|[H2 _]]; subst; try done;
      [by apply Hn in H2|by apply Hn in H1|by eapply si_own].
  - intros a c. rewrite lookup_insert. case_decide as E.
    + intros _ _. exists k, id. apply Hs. subst. auto.
    + intros Hc Ho. destruct (si_closed _ Hi _ _ Hc Ho) as (k' & id' & H').
      exists k', id'. apply Hs. right. split; [done|]. intros [= -> ->]. by rewrite Hid in H'.
  - intros a c. rewrite lookup_insert. case_decide; [|by apply si_cap].
    intros [= <-]. simpl. lia.
Qed.

Lemma broadcast_spec k ev b :
  sse_inv b → ∃ b', Broadcast k ev b = Some b' ∧ sse_inv b' ∧ subscribers b' = subscribers b ∧
    ∀ a c, chans b !! a = Some c →
      chans b' !! a = Some (if decide (a ∈ addrs (subs_of b k))
                            then Chan (take 100 (buf c ++ [ev])) 100 false else c).
Proof.
  intros Hi. unfold Broadcast. destruct (subscribers b !! k) as [subs|] eqn:E.
  2:{ exists b. split; [done|]. split; [done|]. split; [done|]. intros a c Hc.
      unfold subs_of. rewrite E. simpl. rewrite decide_False; [done|].
      rewrite elem_of_addrs. intros [id H]. by rewrite lookup_empty in H. }
  apply subs_of_Some in E. subst subs.
  assert (Hsend : ∀ a, a ∈ addrs (subs_of b k) → ∃ c, chans b !! a = Some c ∧
    try_send ev c = Some (Chan (take 100 (buf c ++ [ev])) 100 false)).
  { intros a Ha. apply elem_of_addrs in Ha as [id Ha].
    destruct (si_open _ Hi _ _ _ Ha) as (c & Hc & Ho). exists c. split; [done|].
    destruct (si_cap _ Hi _ _ Hc) as [Hcap Hl]. rewrite try_send_open, Hcap by done.
    by rewrite Nat.max_l by done. }
  destruct (each_spec (try_send ev) (addrs (subs_of b k)) (chans b)) as (h & Hh & Hl).
  { by apply addrs_NoDup. }
  { intros a Ha. destruct (Hsend a Ha) as (c & -> & Hc). simpl. by rewrite Hc. }
  rewrite Hh. simpl.
  assert (Hch : ∀ a c, chans b !! a = Some c → h !! a = Some (if decide (a ∈ addrs (subs_of b k))
                            then Chan (take 100 (buf c ++ [ev])) 100 false else c)).
  { intros a c Hc. rewrite Hl. case_decide as Ha; [|done]. destruct (Hsend a Ha) as (c0 & Hc0 & Hs).
    rewrite Hc in Hc0 |- *. injection Hc0 as <-. exact Hs. }
  eexists. split; [done|]. split; [|by split].
  apply (update_inv b); [done..| |]; simpl.
  - intros a c' H. destruct (chans b !! a) as [c|] eqn:Hc.
    2:{ rewrite Hl in H. case_decide; rewrite Hc in H; done. }
    exists c. split; [done|]. rewrite (Hch _ _ Hc) in H. injection H as <-. case_decide as Ha; [|done].
    simpl. destruct (Hsend a Ha) as (c0 & Hc0 & Hs). rewrite Hc in Hc0. injection Hc0 as <-.
    split; [|intros; split; [done|rewrite length_take; lia]].
    unfold try_send in Hs. by destruct (closed c).
  - intros a [c Hc]. rewrite (Hch _ _ Hc). by eexists.
Qed.

Lemma close_chan_open {A} (c : chan A) : closed c = false → close_chan c = Some (Chan (buf c) (cap c) true).
Proof. unfold close_chan. by intros ->. Qed.

Lemma close_spec k b :
  sse_inv b → ∃ b', Close k b = Some b' ∧ sse_inv b' ∧ subscribers b' = delete k (subscribers b).
Proof.
  intros Hi. unfold Close. destruct (subscribers b !! k) as [subs|] eqn:E.
  2:{ exists b. split; [done|]. split; [done|]. by rewrite delete_id. }
  apply subs_of_Some in E as E'. subst subs.
  destruct (each_spec close_chan (addrs (subs_of b k)) (chans b)) as (h & Hh & Hl).
  { by apply addrs_NoDup. }
  { intros a Ha. apply elem_of_addrs in Ha as [id Ha].
    destruct (si_open _ Hi _ _ _ Ha) as (c & -> & Ho). simpl. by rewrite close_chan_open. }
  rewrite Hh. simpl. eexists. split; [done|]. split; [|done].
  apply (retire_inv b _ (addrs (subs_of b k))); [done..| |exact Hl].
  intros k' id a. unfold subs_of at 1. simpl. rewrite lookup_delete. rewrite elem_of_addrs.
  case_decide as Hk; simpl.
  - subst. rewrite lookup_empty. split; [done|]. intros [H Hn]. destruct Hn. by exists id.
  - change (default ∅ (subscribers b !! k')) with (subs_of b k'). split; [|tauto].
    intros H. split; [done|]. intros [id' H']. by destruct (si_own _ Hi _ _ _ _ _ H H') as [? _].
Qed.

Lemma find_sub_spec ch subs :
  match find_sub ch subs with
  | Some id => subs !! id = Some ch
  | None => ∀ id, subs !! id ≠ Some ch
  end.
Proof.
  unfold find_sub. destruct (find _ _) as [[id a]|] eqn:E; simpl.
  - apply find_some in E as [Hin Ha]. apply Nat.eqb_eq in Ha. simpl in Ha. subst.
    by apply elem_of_map_to_list, list_elem_of_In.
  - intros id H. apply elem_of_map_to_list, list_elem_of_In in H.
    apply (find_none _ _ E) in H. simpl in H. by rewrite Nat.eqb_refl in H.
Qed.

(** An entry emptied or put back shows the same subscribers. *)
Lemma subs_of_put b k subs h n k' :
  subs_of (Broadcaster (if bool_decide (subs = ∅) then delete k (subscribers b)
                        else <[k := subs]> (subscribers b)) h n) k' =
  if decide (k' = k) then subs else subs_of b k'.
Proof.
  unfold subs_of. simpl. case_bool_decide as E.
  - rewrite lookup_delete. repeat case_decide; simplify_eq; done.
  - rewrite lookup_insert. repeat case_decide; simplify_eq; done.
Qed.

Lemma unsubscribe_spec k ch b :
  sse_inv b → ∃ b', Unsubscribe k ch b = Some b' ∧ sse_inv b' ∧
    ∀ k' id a, subs_of b' k' !! id = Some a ↔
      subs_of b k' !! id = Some a ∧ ¬ (k' = k ∧ ch = Some a).
Proof.
  intros Hi. unfold Unsubscribe. destruct (subscribers b !! k) as [subs|] eqn:E.
  2:{ exists b. split; [done|]. split; [done|]. intros k' id a. split; [|tauto].
      intros H. split; [done|]. intros [-> _]. unfold subs_of in H. rewrite E in H.
      simpl in H. by rewrite lookup_empty in H. }
  apply subs_of_Some in E as E'. subst subs.
  destruct (ch ≫= _) as [id0|] eqn:Ef.
  - apply bind_Some in Ef as (a0 & -> & Ef). pose proof (find_sub_spec a0 (subs_of b k)) as Hf.
    rewrite Ef in Hf. rewrite Hf. simpl.
    destruct (si_open _ Hi _ _ _ Hf) as (c & Hc & Ho). rewrite Hc. simpl.
    rewrite close_chan_open by done. simpl. eexists. split; [done|].
    assert (Hs : ∀ k' id a, subs_of (Broadcaster
        (if bool_decide (delete id0 (subs_of b k) = ∅) then delete k (subscribers b)
         else <[k := delete id0 (subs_of b k)]> (subscribers b))
        (<[a0 := Chan (buf c) (cap c) true]> (chans b)) (next_chan b)) k' !! id = Some a ↔
      subs_of b k' !! id = Some a ∧ ¬ (k' = k ∧ Some a0 = Some a)).
    { intros k' id a. rewrite subs_of_put. case_decide as Hk.
      - subst. rewrite lookup_delete. case_decide as Hx.
        + subst. rewrite Hf. naive_solver.
        + split; [|tauto]. intros H. split; [done|]. intros [_ [= ->]].
          by destruct (si_own _ Hi _ _ _ _ _ H Hf).
      - naive_solver. }
    split; [|exact Hs]. apply (retire_inv b _ [a0]); [done..| |].
    + intros k' id a. rewrite Hs, list_elem_of_singleton. split; intros [H Hn]; (split; [done|]).
      * intros ->. apply Hn. split; [|done]. by destruct (si_own _ Hi _ _ _ _ _ H Hf).
      * intros [-> [= ->]]. by apply Hn.
    + intros a. cbn [chans]. destruct (decide (a = a0)) as [->|Ha].
      * rewrite decide_True by set_solver. rewrite lookup_insert_eq, Hc. simpl. by rewrite close_chan_open.
      * rewrite decide_False by set_solver. by apply lookup_insert_ne.
  - eexists. split; [done|].
    assert (Hs : ∀ k', subs_of (Broadcaster
        (if bool_decide (subs_of b k = ∅) then delete k (subscribers b)
         else <[k := subs_of b k]> (subscribers b)) (chans b) (next_chan b)) k' = subs_of b k').
    { intros k'. rewrite subs_of_put. by case_decide; subst. }
    split.
    + apply (retire_inv b _ []); [done..| |].
      * intros k' id a. rewrite Hs. split; [|tauto]. intros H. split; [done|]. apply not_elem_of_nil.
      * intros a. by rewrite decide_False by apply not_elem_of_nil.
    + intros k' id a. rewrite Hs. split; [|tauto]. intros H. split; [done|].
      intros [-> ->]. simpl in Ef. pose proof (find_sub_spec a (subs_of b k)) as Hf.
      rewrite Ef in Hf. by apply Hf in H.
Qed.

Lemma close_keys_spec keys b :
  sse_inv b → ∃ b', close_keys keys b = Some b' ∧ sse_inv b' ∧
    ∀ k, subscribers b' !! k = if decide (k ∈ keys) then None else subscribers b !! k.
Proof.
  revert b. induction keys as [|x keys IH]; intros b Hi; simpl; [by exists b|].
  destruct (close_spec x b Hi) as (b1 & -> & Hi1 & Hs1). simpl.
  destruct (IH b1 Hi1) as (b2 & -> & Hi2 & Hs2). exists b2. split; [done|]. split; [done|].
  intros k. rewrite Hs2, Hs1, lookup_delete.
  destruct (decide (k ∈ keys)), (decide (k ∈ x :: keys)), (decide (x = k)); set_solver.
Qed.

Lemma close_all_spec b :
  sse_inv b → ∃ b', CloseAll b = Some b' ∧ sse_inv b' ∧ subscribers b' = ∅.
Proof.
  intros Hi. destruct (close_keys_spec (map_to_list (subscribers b)).*1 b Hi) as (b' & H & Hi' & Hs).
  exists b'. split; [done|]. split; [done|]. apply map_eq. intros k. rewrite Hs, lookup_empty.
  case_decide as Hk; [done|]. destruct (subscribers b !! k) as [subs|] eqn:E; [|done].
  destruct Hk. apply list_elem_of_fmap. exists (k, subs). by rewrite elem_of_map_to_list.
Qed.

Lemma take_inv ch b : sse_inv b → sse_inv (take_event ch b).
Proof.
  intros Hi. unfold take_event. destruct (chans b !! ch) as [c|] eqn:E; [|done].
  apply (update_inv b); [done..| |]; simpl.
  - intros a c'. rewrite lookup_insert. case_decide as Ha; [|by exists c'].
    intros [= <-]. subst. exists c. split; [done|]. unfold try_recv.
    destruct (buf c) as [|x l] eqn:Eb; simpl; rewrite ?Eb; simpl; (split; [done|]); intros; lia.
  - intros a [c' Hc']. rewrite lookup_insert. case_decide; by eexists.
Qed.

Lemma sse_inv_new : sse_inv NewSSEBroadcaster.
Proof. split; intros *; unfold subs_of; simpl; rewrite ?lookup_empty; simpl; rewrite ?lookup_empty; done. Qed.

Lemma sse_step_inv b b' : sse_step b b' → sse_inv b → sse_inv b'.
Proof.
  destruct 1 as [id k b Hid|k ch b b' H|k ev b b' H|k b b' H|b b' H|ch b]; intros Hi.
  - by apply Subscribe_keeps.
  - destruct (unsubscribe_spec k ch b Hi) as (b1 & H1 & ? & _). by simplify_eq.
  - destruct (broadcast_spec k ev b Hi) as (b1 & H1 & ? & _). by simplify_eq.
  - destruct (close_spec k b Hi) as (b1 & H1 & ? & _). by simplify_eq.
  - destruct (close_all_spec b Hi) as (b1 & H1 & ? & _). by simplify_eq.
  - by apply take_inv.
Qed.

Lemma sse_reachable_inv b : rtc sse_step NewSSEBroadcaster b → sse_inv b.
Proof.
  intros H. cut (sse_inv NewSSEBroadcaster → sse_inv b); [intros Hc; apply Hc, sse_inv_new|].
  induction H as [|b1 b2 b3 Hs _ IH]; [done|]. intros Hi. by apply IH, (sse_step_inv b1).
Qed.

(** * Properties *)

(** C36. However the operations interleave, none panics (no channel is closed twice, none is
    sent on after its close): a channel is open exactly while somebody is subscribed with
    it, unsubscribing removes that one subscriber, and closing everything leaves nobody
    subscribed and every channel closed. *)
Theorem broadcaster_safe (b : SSEBroadcaster) (Hb : rtc sse_step NewSSEBroadcaster b) :
  (∀ a c, chans b !! a = Some c → (closed c = false ↔ ∃ k, subscribed_to b k a)) ∧
  (∀ k ev, is_Some (Broadcast k ev b)) ∧ (∀ k, is_Some (Close k b)) ∧
  (∀ k ch, ∃ b', Unsubscribe k ch b = Some b' ∧
     ∀ k' a, subscribed_to b' k' a ↔ subscribed_to b k' a ∧ ¬ (k' = k ∧ ch = Some a)) ∧
  (∃ b', CloseAll b = Some b' ∧ subscribers b' = ∅ ∧
     ∀ a c, chans b' !! a = Some c → closed c = true).
Proof.
  apply sse_reachable_inv in Hb as Hi.
  split; [|split; [|split; [|split]]].
  - intros a c Hc. split; [by apply (si_closed _ Hi)|]. intros (k & id & H).
    destruct (si_open _ Hi _ _ _ H) as (c' & Hc' & ?). by simplify_eq.
  - intros k ev. destruct (broadcast_spec k ev b Hi) as (b' & -> & _). by eexists.
  - intros k. destruct (close_spec k b Hi) as (b' & -> & _). by eexists.
  - intros k ch. destruct (unsubscribe_spec k ch b Hi) as (b' & -> & _ & Hs). exists b'.
    split; [done|]. intros k' a. unfold subscribed_to. setoid_rewrite Hs. naive_solver.
  - destruct (close_all_spec b Hi) as (b' & -> & Hi' & Hs). exists b'. split; [done|]. split; [done|].
    intros a c Hc. apply not_false_is_true. intros Ho. destruct (si_closed _ Hi' _ _ Hc Ho) as (k & id & H).
    unfold subs_of in H. by rewrite Hs, !lookup_empty in H.
Qed.

(** A broadcast reaches every subscriber of its key and nobody else: each gets the event
    at the end of its channel, or keeps a full channel as it was; no other channel and no
    subscription changes. *)
Theorem broadcast_delivers (b : SSEBroadcaster) (k : string) (ev : SSEEvent)
    (Hb : rtc sse_step NewSSEBroadcaster b) :
  ∃ b', Broadcast k ev b = Some b' ∧ subscribers b' = subscribers b ∧
    ∀ a c, chans b !! a = Some c →
      (subscribed_to b k a → length (buf c) < 100 →
         chans b' !! a = Some (Chan (buf c ++ [ev]) 100 false)) ∧
      (¬ subscribed_to b k a ∨ length (buf c) = 100 → chans b' !! a = Some c).
Proof.
  apply sse_reachable_inv in Hb as Hi.
  destruct (broadcast_spec k ev b Hi) as (b' & H & _ & Hs & Hc). exists b'.
  split; [done|]. split; [done|]. intros a c Ha. rewrite (Hc _ _ Ha).
  pose proof (elem_of_addrs a (subs_of b k)) as Hel. split.
  - intros Hsub Hl. rewrite decide_True by (by apply Hel). rewrite take_ge; [done|].
    rewrite length_app. simpl. lia.
  - intros Hor. case_decide as Hin; [|done]. apply Hel in Hin as [id Hid].
    destruct Hor as [Hn|Hl]; [by destruct Hn; exists id|]. destruct (si_cap _ Hi _ _ Ha) as [Hcap _].
    destruct (si_open _ Hi _ _ _ Hid) as (c' & Hc' & Ho). simplify_eq.
    rewrite take_app_le, take_ge by lia. destruct c; simpl in *. by subst.
Qed.

(** * Examples *)

Definition two_listeners : SSEBroadcaster := (Subscribe "u2" "app" (Subscribe "u1" "app" NewSSEBroadcaster).2).2.

Lemma two_listeners_reachable : rtc sse_step NewSSEBroadcaster two_listeners.
Proof.
  eapply rtc_l; [apply (sse_subscribe "u1" "app"); by vm_compute|].
  eapply rtc_l; [apply (sse_subscribe "u2" "app"); by vm_compute|apply rtc_refl].
Qed.

Lemma broadcaster_safe_witness :
  rtc sse_step NewSSEBroadcaster two_listeners ∧
  ∃ b', CloseAll two_listeners = Some b' ∧ subscribers b' = ∅.
Proof.
  split; [apply two_listeners_reachable|].
  destruct (broadcaster_safe two_listeners two_listeners_reachable) as (_ & _ & _ & _ & b' & H & Hs & _).
  exists b'. exact (conj H Hs).
Defined.

Lemma broadcast_delivers_witness :
  ∃ b', Broadcast "app" (MkSSE "delta" (VStr "x")) two_listeners = Some b' ∧
    chans b' !! 1 = Some (Chan [MkSSE "delta" (VStr "x")] 100 false).
Proof.
  destruct (broadcast_delivers two_listeners "app" (MkSSE "delta" (VStr "x")) two_listeners_reachable)
    as (b' & H & _ & Hc).
  exists b'. split; [exact H|]. apply (Hc 1 (make_chan 100)); [reflexivity| |simpl; lia].
  exists "u2". reflexivity.
Defined.
