(* ===== verification/Cards.v ===== *)
(** The card projection (card_projection.go): cards by id in insertion order, driven by
    [soothe.card.*] payloads. Cards are Go maps that snapshots hand out by reference, so
    they live in a store and the projection holds addresses. *)

From S2P Require Import Prelude GoStr Value Events.

(** * Parsing *)

Record ParsedCardFrame := MkParsed {
  WireType : string;
  Card : option (gmap string value);
  Patch : gmap string value;
}.

Definition cardMutationTypes : gset string :=
  {[ EventCardCreated; EventCardUpdated; EventCardFinalized; EventCardReplayBegin; EventCardReplayEnd ]}.

(** [strings.TrimSpace(asString(m["id"]))] *)
Definition card_key (m : gmap string value) : string := TrimSpace (sget (Some m) "id").

Definition ParseCardCustomPayload (data : value) : option ParsedCardFrame :=
  match asMap data with
  | None => None
  | Some _ as m =>
      let wireType := TrimSpace (sget m "type") in
      if bool_decide (wireType ∉ cardMutationTypes) then None
      else if (wireType =s EventCardReplayBegin) || (wireType =s EventCardReplayEnd) then
        Some (MkParsed wireType None ∅)
      else
        let payload := match to_map (mget m "data") with Some (Some raw) => raw | _ => ∅ end in
        let cardID := TrimSpace (sget m "card_id") in
        let cardID := if cardID =s "" then card_key payload else cardID in
        let with_id :=
          if (card_key payload =s "") && (cardID <>s "") then mset "id" (VStr cardID) payload
          else payload in
        if wireType =s EventCardCreated then
          if is_nil (mget (Some payload) "type") || is_nil (mget (Some payload) "content") then None
          else Some (MkParsed wireType (Some with_id) ∅)
        else Some (MkParsed wireType None with_id)
  end.

(** * The projection *)

Record CardProjection := Projection {
  cards : gmap string nat;
  order : list string;
  replaying : bool;
}.

(** The store of maps. *)
Record store := Store {
  heap : gmap nat (gmap string value);
  fresh_addr : nat;
}.

Definition alloc (m : gmap string value) (s : store) : nat * store :=
  (fresh_addr s, Store (<[fresh_addr s := m]> (heap s)) (S (fresh_addr s))).

Definition NewCardProjection : CardProjection := Projection ∅ [] false.

Definition Replaying (p : CardProjection) : bool := replaying p.

(** The addresses of the cards, in insertion order. *)
Definition Snapshot (p : CardProjection) : list nat := omap (λ id, cards p !! id) (order p).

Definition Get (cardID : string) (p : CardProjection) : option nat := cards p !! cardID.

(** The merge of an update: every key but [id] and [type] of the patch wins. *)
Definition merge_patch (patch existing : gmap string value) : gmap string value :=
  filter (λ kv, kv.1 ≠ "id" ∧ kv.1 ≠ "type") patch ∪ existing.

Definition Apply (data : value) (p : CardProjection) (s : store) : bool * CardProjection * store :=
  match ParseCardCustomPayload data with
  | None => (false, p, s)
  | Some parsed =>
      let t := WireType parsed in
      if t =s EventCardReplayBegin then (true, Projection ∅ [] true, s)
      else if t =s EventCardReplayEnd then (true, Projection (cards p) (order p) false, s)
      else if t =s EventCardCreated then
        match Card parsed with
        | None => (true, p, s)
        | Some card =>
            let id := card_key card in
            if id =s "" then (true, p, s)
            else
              let order' := if bool_decide (is_Some (cards p !! id)) then order p else order p ++ [id] in
              let '(a, s) := alloc card s in
              (true, Projection (<[id := a]> (cards p)) order' (replaying p), s)
        end
      else if (t =s EventCardUpdated) || (t =s EventCardFinalized) then
        let id := card_key (Patch parsed) in
        if id =s "" then (true, p, s)
        else
          match cards p !! id with
          | None => (true, p, s)
          | Some addr =>
              let existing := default ∅ (heap s !! addr) in
              let '(a, s) := alloc (merge_patch (Patch parsed) existing) s in
              (true, Projection (<[id := a]> (cards p)) (order p) (replaying p), s)
          end
      else (true, p, s)
  end.

(** * Abstract specification: a list of cards keyed by id *)

Abbreviation card := (gmap string value).

Fixpoint put (id : string) (c : card) (l : list (string * card)) : list (string * card) :=
  match l with
  | [] => [(id, c)]
  | (id', c') :: l => if id =s id' then (id, c) :: l else (id', c') :: put id c l
  end.

Definition amend (id : string) (patch : card) (l : list (string * card)) : list (string * card) :=
  (λ x, if x.1 =s id then (x.1, merge_patch patch x.2) else x) <$> l.

(** What a payload asks for. *)
Inductive card_op := CBegin | CEnd | CPut (id : string) (c : card) | CAmend (id : string) (patch : card) | CNone.

Definition op_of (data : value) : card_op :=
  match ParseCardCustomPayload data with
  | None => CNone
  | Some parsed =>
      let t := WireType parsed in
      if t =s EventCardReplayBegin then CBegin
      else if t =s EventCardReplayEnd then CEnd
      else if t =s EventCardCreated then
        match Card parsed with
        | Some card => if card_key card =s "" then CNone else CPut (card_key card) card
        | None => CNone
        end
      else
        let id := card_key (Patch parsed) in if id =s "" then CNone else CAmend id (Patch parsed)
  end.

Definition run_op (op : card_op) (st : list (string * card) * bool) : list (string * card) * bool :=
  match op with
  | CBegin => ([], true)
  | CEnd => (st.1, false)
  | CPut id c => (put id c st.1, st.2)
  | CAmend id patch => (amend id patch st.1, st.2)
  | CNone => st
  end.

(** What a projection holds. *)
Definition view (p : CardProjection) (s : store) : list (string * card) :=
  omap (λ id, addr ← cards p !! id; c ← heap s !! addr; Some (id, c)) (order p).

(** * Invariant *)

Record cards_inv (p : CardProjection) (s : store) : Prop := {
  inv_order : NoDup (order p);
  inv_dom id : id ∈ order p ↔ is_Some (cards p !! id);
  inv_addr id a : cards p !! id = Some a → ∃ c, heap s !! a = Some c ∧ card_key c = id;
  inv_fresh a : is_Some (heap s !! a) → a < fresh_addr s;
}.

Lemma cards_inv_new r s :
  (∀ a, is_Some (heap s !! a) → a < fresh_addr s) → cards_inv (Projection ∅ [] r) s.
Proof.
  intros Hs. split; simpl; [constructor| |done|done].
  intros id. rewrite lookup_empty. split; [by intros ?%not_elem_of_nil|by intros [? ?]].
Qed.

(** ** Merging *)

Lemma merge_patch_lookup patch existing k :
  merge_patch patch existing !! k =
  if decide (k = "id" ∨ k = "type") then existing !! k
  else match patch !! k with Some v => Some v | None => existing !! k end.
Proof.
  unfold merge_patch. rewrite lookup_union. case_decide as Hk.
  - assert (filter (λ kv : string * value, kv.1 ≠ "id" ∧ kv.1 ≠ "type") patch !! k = None) as ->.
    { apply map_lookup_filter_None. right. intros x _. simpl. naive_solver. }
    by destruct (existing !! k).
  - destruct (patch !! k) as [v|] eqn:E.
    + assert (filter (λ kv : string * value, kv.1 ≠ "id" ∧ kv.1 ≠ "type") patch !! k = Some v) as ->.
      { apply map_lookup_filter_Some. split; [done|]. simpl. naive_solver. }
      by destruct (existing !! k).
    + assert (filter (λ kv : string * value, kv.1 ≠ "id" ∧ kv.1 ≠ "type") patch !! k = None) as ->.
      { apply map_lookup_filter_None. by left. }
      by destruct (existing !! k).
Qed.

Lemma card_key_merge patch existing : card_key (merge_patch patch existing) = card_key existing.
Proof.
  unfold card_key, sget, mget. simpl. rewrite merge_patch_lookup, decide_True by auto. done.
Qed.

Lemma parse_type data parsed :
  ParseCardCustomPayload data = Some parsed → WireType parsed ∈ cardMutationTypes.
Proof.
  unfold ParseCardCustomPayload. destruct (asMap data) as [m|]; [|done]. cbv zeta.
  case_bool_decide as Ht; [done|]. intros H.
  assert (WireType parsed = TrimSpace (sget (Some m) "type")) as ->; [|done].
  destruct (_ || _); [by injection H as <-|]. destruct (_ =s EventCardCreated).
  - destruct (is_nil _ || is_nil _); [done|]. by injection H as <-.
  - by injection H as <-.
Qed.

Lemma op_of_Apply data p s :
  match op_of data with
  | CBegin => Apply data p s = (true, Projection ∅ [] true, s)
  | CEnd => Apply data p s = (true, Projection (cards p) (order p) false, s)
  | CPut id c =>
      id = card_key c ∧
      Apply data p s = (true,
        Projection (<[id := fresh_addr s]> (cards p))
          (if bool_decide (is_Some (cards p !! id)) then order p else order p ++ [id]) (replaying p),
        (alloc c s).2)
  | CAmend id patch =>
      Apply data p s =
      match cards p !! id with
      | None => (true, p, s)
      | Some addr =>
          (true, Projection (<[id := fresh_addr s]> (cards p)) (order p) (replaying p),
           (alloc (merge_patch patch (default ∅ (heap s !! addr))) s).2)
      end
  | CNone => ∃ b, Apply data p s = (b, p, s)
  end.
Proof.
  unfold op_of, Apply. destruct (ParseCardCustomPayload data) as [parsed|] eqn:Ep; [|by eexists].
  cbv zeta. destruct (_ =s EventCardReplayBegin) eqn:Eb; [done|].
  destruct (_ =s EventCardReplayEnd) eqn:Ee; [done|].
  destruct (_ =s EventCardCreated) eqn:Ec.
  - destruct (Card parsed) as [c|]; [|by eexists]. destruct (card_key c =s ""); [by eexists|done].
  - apply parse_type in Ep. unfold cardMutationTypes in Ep.
    assert ((WireType parsed =s EventCardUpdated) || (WireType parsed =s EventCardFinalized) = true) as ->.
    { bool_to_prop. apply orb_true_iff. rewrite !String.eqb_eq.
      rewrite !elem_of_union, !elem_of_singleton in Ep.
      tauto. }
    destruct (card_key (Patch parsed) =s ""); [by eexists|].
    by destruct (cards p !! card_key (Patch parsed)).
Qed.

(** ** Preservation *)

Lemma alloc_lookup c s a :
  heap (alloc c s).2 !! a = if decide (fresh_addr s = a) then Some c else heap s !! a.
Proof. simpl. apply lookup_insert. Qed.

(** Storing a card of key [id] at a fresh address, appending [id] when it is new. *)
Lemma put_inv id c p s r :
  card_key c = id → cards_inv p s →
  cards_inv (Projection (<[id := fresh_addr s]> (cards p))
               (if bool_decide (is_Some (cards p !! id)) then order p else order p ++ [id]) r)
            (alloc c s).2.
Proof.
  intros Hk [Ho Hd Ha Hf]. split; simpl.
  - case_bool_decide as Hi; [done|]. apply NoDup_app. split; [done|]. split; [|apply NoDup_singleton].
    intros x Hx Hx'%list_elem_of_singleton. subst. by apply Hi, Hd.
  - intros id'. rewrite lookup_insert. case_bool_decide as Hi; [|rewrite elem_of_app, list_elem_of_singleton];
      rewrite Hd; case_decide as E; subst; split; intros Hx; try naive_solver.
  - intros id' a. rewrite lookup_insert. case_decide as E.
    + intros [= <-]. subst. exists c. by rewrite lookup_insert_eq.
    + intros H. destruct (Ha _ _ H) as (c' & Hc & ?). exists c'. split; [|done].
      rewrite lookup_insert_ne; [done|]. assert (a < fresh_addr s) by eauto. lia.
  - intros a. rewrite lookup_insert. case_decide; [lia|]. intros Hx. apply Hf in Hx. lia.
Qed.

Lemma Apply_inv data p s :
  cards_inv p s → cards_inv (Apply data p s).1.2 (Apply data p s).2.
Proof.
  intros Hi. pose proof (op_of_Apply data p s) as H. destruct (op_of data) as [| |id c|id patch|].
  - rewrite H. simpl. apply cards_inv_new, Hi.
  - rewrite H. simpl. by destruct Hi.
  - destruct H as [-> ->]. by apply put_inv.
  - rewrite H. destruct (cards p !! id) as [addr|] eqn:E; [|done].
    destruct (inv_addr _ _ Hi _ _ E) as (c & Hc & Hk). rewrite Hc. simpl default. cbn [fst snd].
    replace (order p) with (if bool_decide (is_Some (cards p !! id)) then order p else order p ++ [id])
      by (rewrite bool_decide_eq_true_2; [done|by eexists]).
    apply put_inv; [|done]. by rewrite card_key_merge.
  - destruct H as [b ->]. done.
Qed.

(** ** The view *)

Lemma view_cons_spec p s id :
  cards_inv p s → id ∈ order p →
  ∃ a c, cards p !! id = Some a ∧ heap s !! a = Some c ∧ card_key c = id.
Proof.
  intros Hi Hin. apply (inv_dom _ _ Hi) in Hin as [a Ha].
  destruct (inv_addr _ _ Hi _ _ Ha) as (c & ? & ?). eauto.
Qed.

(** Reading one id of a projection. *)
Definition read_card (p : CardProjection) (s : store) (id : string) : option (string * card) :=
  addr ← cards p !! id; c ← heap s !! addr; Some (id, c).

Lemma read_card_put id c p s r o id' :
  cards_inv p s →
  read_card (Projection (<[id := fresh_addr s]> (cards p)) o r) (alloc c s).2 id' =
  if decide (id = id') then Some (id', c) else read_card p s id'.
Proof.
  intros Hi. unfold read_card. simpl. rewrite lookup_insert. case_decide as E; simpl.
  - by rewrite lookup_insert_eq.
  - destruct (cards p !! id') as [a|] eqn:Ha; [|done]. simpl.
    destruct (inv_addr _ _ Hi _ _ Ha) as (c' & Hc & _).
    rewrite lookup_insert_ne; [done|]. assert (a < fresh_addr s) by (eapply inv_fresh; eauto). lia.
Qed.

Lemma omap_ext_elem {A B} (f g : A → option B) (l : list A) :
  (∀ x, x ∈ l → f x = g x) → omap f l = omap g l.
Proof.
  induction l as [|x l IH]; intros H; [done|]. csimpl.
  rewrite H by set_solver. rewrite IH by set_solver. done.
Qed.

Lemma put_omap id c (f : string → option (string * card)) l :
  NoDup l → (∀ x, x ∈ l → ∃ c', f x = Some (x, c')) →
  put id c (omap f l) =
  omap (λ x, if decide (id = x) then Some (x, c) else f x)
    (if decide (id ∈ l) then l else l ++ [id]).
Proof.
  intros Hnd Hf. induction Hnd as [|x l Hx Hnd IH].
  - rewrite decide_False by apply not_elem_of_nil. simpl. by rewrite decide_True.
  - destruct (Hf x) as [c' Hc]; [set_solver|]. csimpl. rewrite Hc. simpl put.
    destruct (String.eqb_spec id x) as [->|Hne].
    + rewrite (decide_True (P := x ∈ x :: l)) by set_solver. csimpl. rewrite decide_True by done.
      f_equal. apply omap_ext_elem. intros y Hy. rewrite decide_False; [done|]. by intros ->.
    + rewrite IH by (intros; apply Hf; set_solver).
      destruct (decide (id ∈ l)) as [Hin|Hin].
      * rewrite decide_True by set_solver. csimpl. by rewrite decide_False, Hc.
      * rewrite (decide_False (P := id ∈ x :: l)) by set_solver. csimpl. by rewrite decide_False, Hc.
Qed.

Lemma amend_omap id patch (f : string → option (string * card)) l :
  (∀ x, x ∈ l → ∃ c', f x = Some (x, c')) →
  amend id patch (omap f l) =
  omap (λ x, if decide (id = x) then (λ y, (x, merge_patch patch y.2)) <$> f x else f x) l.
Proof.
  intros Hf. induction l as [|x l IH]; [done|]. destruct (Hf x) as [c' Hc]; [set_solver|].
  csimpl. rewrite Hc. unfold amend in *. csimpl. rewrite IH by (intros; apply Hf; set_solver).
  destruct (String.eqb_spec x id) as [->|Hne]; [by rewrite decide_True|by rewrite decide_False by congruence].
Qed.

Lemma read_card_in p s x :
  cards_inv p s → x ∈ order p → ∃ c', read_card p s x = Some (x, c').
Proof.
  intros Hi Hx. destruct (view_cons_spec p s x Hi Hx) as (a & c & Ha & Hc & _).
  exists c. unfold read_card. rewrite Ha. simpl. by rewrite Hc.
Qed.

Lemma view_Apply data p s :
  cards_inv p s →
  (view (Apply data p s).1.2 (Apply data p s).2, replaying (Apply data p s).1.2) =
  run_op (op_of data) (view p s, replaying p).
Proof.
  intros Hi. pose proof (op_of_Apply data p s) as H.
  change (view ?p ?s) with (omap (read_card p s) (order p)) in *.
  destruct (op_of data) as [| |id c|id patch|]; simpl run_op.
  - by rewrite H.
  - by rewrite H.
  - destruct H as [_ ->]. cbn [fst snd order replaying]. f_equal.
    rewrite put_omap by (eauto using read_card_in, inv_order).
    assert ((if bool_decide (is_Some (cards p !! id)) then order p else order p ++ [id]) =
            (if decide (id ∈ order p) then order p else order p ++ [id])) as ->.
    { pose proof (inv_dom _ _ Hi id). case_bool_decide; case_decide; naive_solver. }
    apply omap_ext_elem. intros x _. by rewrite read_card_put.
  - rewrite H. destruct (cards p !! id) as [addr|] eqn:E.
    + destruct (inv_addr _ _ Hi _ _ E) as (c & Hc & Hk). cbn [fst snd order replaying]. f_equal.
      rewrite amend_omap by eauto using read_card_in. apply omap_ext_elem. intros x Hx.
      rewrite read_card_put by done. case_decide; [subst x|done].
      unfold read_card. rewrite E. simpl. by rewrite Hc.
    + cbn [fst snd]. f_equal. rewrite amend_omap by eauto using read_card_in.
      apply omap_ext_elem. intros x Hx. rewrite decide_False; [done|]. intros ->.
      apply (inv_dom _ _ Hi) in Hx as [? ?]. congruence.
  - destruct H as [b ->]. done.
Qed.

(** Running many payloads. *)
Fixpoint apply_all (datas : list value) (p : CardProjection) (s : store) : CardProjection * store :=
  match datas with
  | [] => (p, s)
  | data :: datas => apply_all datas (Apply data p s).1.2 (Apply data p s).2
  end.

Lemma apply_all_spec datas p s :
  cards_inv p s →
  cards_inv (apply_all datas p s).1 (apply_all datas p s).2 ∧
  (view (apply_all datas p s).1 (apply_all datas p s).2, replaying (apply_all datas p s).1) =
  foldl (λ st data, run_op (op_of data) st) (view p s, replaying p) datas.
Proof.
  revert p s. induction datas as [|data datas IH]; intros p s Hi; [done|]. simpl.
  pose proof (Apply_inv data p s Hi) as Hi'. destruct (IH _ _ Hi') as [Hi'' E].
  split; [done|]. by rewrite E, view_Apply.
Qed.

Lemma Apply_heap data p s a c :
  cards_inv p s → heap s !! a = Some c → heap (Apply data p s).2 !! a = Some c.
Proof.
  intros Hi Ha. assert (fresh_addr s ≠ a) as Hne.
  { assert (a < fresh_addr s) by (eapply inv_fresh; eauto). lia. }
  pose proof (op_of_Apply data p s) as H. destruct (op_of data) as [| |id x|id patch|].
  - by rewrite H.
  - by rewrite H.
  - destruct H as [_ ->]. cbn [fst snd]. by rewrite alloc_lookup, decide_False.
  - rewrite H. destruct (cards p !! id); [|done]. cbn [fst snd]. by rewrite alloc_lookup, decide_False.
  - destruct H as [b ->]. done.
Qed.

Definition empty_store : store := Store ∅ 0.

(** * Properties *)

(** C30. The projection implements the ordered list of cards: after any payloads it holds what
    the list operations give (a created card replaces the one of its id in place or goes
    to the end, an update merges into the card of its id and is ignored when there is
    none, a replay starts from nothing), every id of its order has exactly one card, and
    each card is stored under its own id. *)
Theorem cards_refine_list (datas : list value) :
  let '(p, s) := apply_all datas NewCardProjection empty_store in
  (view p s, Replaying p) = foldl (λ st data, run_op (op_of data) st) ([], false) datas ∧
  NoDup (order p) ∧ length (Snapshot p) = length (order p) ∧
  ∀ id a, Get id p = Some a → id ∈ order p ∧ ∃ c, heap s !! a = Some c ∧ card_key c = id.
Proof.
  destruct (apply_all_spec datas NewCardProjection empty_store) as [Hi E].
  { apply cards_inv_new. simpl. intros a [? H]. by rewrite lookup_empty in H. }
  destruct (apply_all datas NewCardProjection empty_store) as [p s]. simpl in *.
  split; [exact E|]. split; [apply Hi|]. split.
  - unfold Snapshot. pose proof (λ id, proj1 (inv_dom _ _ Hi id)) as Hd. clear -Hd.
    induction (order p) as [|x l IH]; [done|]. csimpl.
    destruct (Hd x) as [a ->]; [set_solver|]. simpl. f_equal. apply IH. set_solver.
  - unfold Get. intros id a Ha. split; [apply (inv_dom _ _ Hi); by eexists|]. by apply Hi.
Qed.

(** A card handed out in a snapshot never changes under its holder: whatever payloads
    come later, its map is replaced, not written. *)
Theorem snapshot_stable (before later : list value) (a : nat) :
  let '(p, s) := apply_all before NewCardProjection empty_store in
  let '(p', s') := apply_all later p s in
  a ∈ Snapshot p → heap s' !! a = heap s !! a ∧ is_Some (heap s !! a).
Proof.
  destruct (apply_all_spec before NewCardProjection empty_store) as [Hi _].
  { apply cards_inv_new. simpl. intros b [? H]. by rewrite lookup_empty in H. }
  destruct (apply_all before NewCardProjection empty_store) as [p s]. simpl in Hi.
  destruct (apply_all later p s) as [p' s'] eqn:E. intros Ha.
  assert (∃ c, heap s !! a = Some c) as [c Hc].
  { unfold Snapshot in Ha. apply list_elem_of_omap in Ha as (id & _ & Hid).
    destruct (inv_addr _ _ Hi _ _ Hid) as (c & ? & _). by exists c. }
  rewrite Hc. split; [|by eexists]. clear Ha.
  revert p s Hi Hc E. induction later as [|d ds IH]; intros p s Hi Hc E; simpl in E; [by simplify_eq|].
  eapply IH; [by apply (Apply_inv d p s)| |exact E]. by apply Apply_heap.
Qed.

(** A replay determines the projection: from whatever cards it starts, the payloads
    between [replay.begin] and [replay.end] lead to the same cards in the same order. *)
Theorem replay_deterministic (before1 before2 frames : list value) (start : value)
    (Hstart : op_of start = CBegin) :
  let after before :=
    let '(p, s) := apply_all (before ++ start :: frames) NewCardProjection empty_store in
    (view p s, Replaying p) in
  after before1 = after before2.
Proof.
  assert (∀ before, 
    (λ '(p, s), (view p s, Replaying p)) (apply_all (before ++ start :: frames) NewCardProjection empty_store) =
    foldl (λ st data, run_op (op_of data) st) ([], true) frames) as H.
  { intros before.
    destruct (apply_all_spec (before ++ start :: frames) NewCardProjection empty_store) as [_ E].
    { apply cards_inv_new. simpl. intros b [? H]. by rewrite lookup_empty in H. }
    destruct (apply_all _ _ _) as [p s]. simpl in E.
    transitivity (view p s, replaying p); [done|]. rewrite E, foldl_app. simpl. by rewrite Hstart. }
  simpl. pose proof (H before1) as H1. pose proof (H before2) as H2.
  destruct (apply_all (before1 ++ _) _ _), (apply_all (before2 ++ _) _ _). by rewrite H1, H2.
Qed.

Definition created (id content : string) : value :=
  obj [("type", VStr EventCardCreated);
       ("data", obj [("id", VStr id); ("type", VStr "note"); ("content", VStr content)])].

Lemma replay_deterministic_witness :
  let after before :=
    let '(p, s) := apply_all (before ++ obj [("type", VStr EventCardReplayBegin)] :: [created "a" "x"])
                     NewCardProjection empty_store in (view p s, Replaying p) in
  after [created "b" "y"; created "a" "z"] = after [].
Proof. apply replay_deterministic. vm_compute; reflexivity. Defined.

Lemma snapshot_stable_witness :
  let '(p, s) := apply_all [created "a" "x"] NewCardProjection empty_store in
  let '(p', s') := apply_all [created "a" "z"] p s in
  heap s' !! 0 = heap s !! 0.
Proof.
  pose proof (snapshot_stable [created "a" "x"] [created "a" "z"] 0) as H. revert H.
  destruct (apply_all [created "a" "x"] NewCardProjection empty_store) as [p s] eqn:E.
  destruct (apply_all [created "a" "z"] p s) as [p' s']. intros H. apply H.
  change p with (p, s).1. rewrite <-E. vm_compute. left.
Defined.
