(* ===== verification/QueryGate.v ===== *)
(** The query gate (appkit/query_gate.go): one query in flight per application key, and
    the order in which a cancellation reaches the daemon and the local context. The gate
    holds functions; they are named by numbers, nil is [None]. *)

From S2P Require Import Prelude.

(** * Definitions *)

Record QueryGate := Gate {
  cancels : gmap string (option nat);
  sendCancels : gmap string (option nat);
}.

Definition NewQueryGate : QueryGate := Gate ∅ ∅.

(** [m[k]] of a map of functions. *)
Definition at_key (m : gmap string (option nat)) (k : string) : option nat := mjoin (m !! k).

(** [true]: acquired; [false]: [ErrQueryBusy]. *)
Definition Acquire (appKey : string) (cancel sendCancel : option nat) (g : QueryGate) : bool * QueryGate :=
  if bool_decide (is_Some (at_key (cancels g) appKey)) then (false, g)
  else (true, Gate (<[appKey := cancel]> (cancels g))
                   (match sendCancel with
                    | Some _ => <[appKey := sendCancel]> (sendCancels g)
                    | None => sendCancels g
                    end)).

Definition Release (appKey : string) (g : QueryGate) : QueryGate :=
  Gate (delete appKey (cancels g)) (delete appKey (sendCancels g)).

Definition SetSendCancel (appKey : string) (sendCancel : option nat) (g : QueryGate) : QueryGate :=
  if bool_decide (at_key (cancels g) appKey = None) then g
  else match sendCancel with
       | Some _ => Gate (cancels g) (<[appKey := sendCancel]> (sendCancels g))
       | None => g
       end.

Definition ReplaceCancel (appKey : string) (cancel : option nat) (g : QueryGate) : QueryGate :=
  if bool_decide (at_key (cancels g) appKey = None) || bool_decide (cancel = None) then g
  else Gate (<[appKey := cancel]> (cancels g)) (sendCancels g).

Definition IsActive (appKey : string) (g : QueryGate) : bool :=
  bool_decide (is_Some (at_key (cancels g) appKey)).

(** The locked part of [Cancel]: the two functions it takes out. *)
Definition Cancel_lock (appKey : string) (g : QueryGate) : option nat * option nat * QueryGate :=
  (at_key (cancels g) appKey, at_key (sendCancels g) appKey,
   Gate (delete appKey (cancels g)) (delete appKey (sendCancels g))).

(** What the calls of the gate do to the outside, in order; the daemon cancel may fail. *)
Inductive effect :=
  | DaemonCancel (call : nat) (f : nat) (ok : bool)
  | LocalCancel (call : nat) (f : nat).

(** What is left to do of a [Cancel] once it has released the lock. *)
Record cancelling := Cancelling {
  call_id : nat;
  local_fn : option nat;
  send_fn : option nat;
}.

Definition Cancel_effects (call : nat) (cancel sendCancel : option nat) (ok : bool) : list effect :=
  match sendCancel with Some f => [DaemonCancel call f ok] | None => [] end ++
  match cancel with Some f => [LocalCancel call f] | None => [] end.

(** [Cancel], when nothing runs between its lock and its calls. *)
Definition Cancel (call : nat) (ok : bool) (appKey : string) (g : QueryGate) : list effect * QueryGate :=
  let '(cancel, sendCancel, g) := Cancel_lock appKey g in
  (match cancel, sendCancel with
   | None, None => []
   | _, _ => Cancel_effects call cancel sendCancel ok
   end, g).

(** ** The system: concurrent callers of one gate *)

Record gate_sys := Sys {
  gate : QueryGate;
  running : list cancelling;
  log : list effect;
  calls : nat;
}.

Definition new_sys : gate_sys := Sys NewQueryGate [] [] 0.

Inductive gate_step : gate_sys → gate_sys → Prop :=
  | step_acquire s k c sc :
      gate_step s (Sys (Acquire k c sc (gate s)).2 (running s) (log s) (calls s))
  | step_release s k : gate_step s (Sys (Release k (gate s)) (running s) (log s) (calls s))
  | step_set_send s k sc : gate_step s (Sys (SetSendCancel k sc (gate s)) (running s) (log s) (calls s))
  | step_replace s k c : gate_step s (Sys (ReplaceCancel k c (gate s)) (running s) (log s) (calls s))
  | step_cancel s k c sc g :
      Cancel_lock k (gate s) = (c, sc, g) →
      gate_step s (Sys g (running s ++ [Cancelling (calls s) c sc]) (log s) (S (calls s)))
  | step_send s a b call c f ok :
      running s = a ++ Cancelling call c (Some f) :: b →
      gate_step s (Sys (gate s) (a ++ Cancelling call c None :: b)
                       (log s ++ [DaemonCancel call f ok]) (calls s))
  | step_local s a b call f :
      running s = a ++ Cancelling call (Some f) None :: b →
      gate_step s (Sys (gate s) (a ++ b) (log s ++ [LocalCancel call f]) (calls s)).

(** * Single flight *)

Inductive gate_op :=
  | OpAcquire (cancel : nat) (send : option nat)
  | OpRelease
  | OpCancel (call : nat) (ok : bool)
  | OpSetSend (send : option nat)
  | OpReplace (cancel : option nat).

(** One operation on a key: whether it was a successful acquisition, and the gate. *)
Definition gate_do (k : string) (op : gate_op) (g : QueryGate) : bool * QueryGate :=
  match op with
  | OpAcquire c sc => Acquire k (Some c) sc g
  | OpRelease => (false, Release k g)
  | OpCancel call ok => (false, (Cancel call ok k g).2)
  | OpSetSend sc => (false, SetSendCancel k sc g)
  | OpReplace c => (false, ReplaceCancel k c g)
  end.

Fixpoint gate_run (ops : list (string * gate_op)) (g : QueryGate) : list bool * QueryGate :=
  match ops with
  | [] => ([], g)
  | (k, op) :: ops =>
      let '(b, g) := gate_do k op g in
      let '(bs, g) := gate_run ops g in (b :: bs, g)
  end.

Definition is_acquire (op : gate_op) : bool := match op with OpAcquire _ _ => true | _ => false end.
Definition ends (op : gate_op) : bool := match op with OpRelease | OpCancel _ _ => true | _ => false end.

(** ** Lemmas *)

Lemma at_key_insert m k v k' : at_key (<[k := v]> m) k' = if decide (k = k') then v else at_key m k'.
Proof. unfold at_key. rewrite lookup_insert. by case_decide. Qed.

Lemma at_key_delete m k k' : at_key (delete k m) k' = if decide (k = k') then None else at_key m k'.
Proof. unfold at_key. rewrite lookup_delete. by case_decide. Qed.

Lemma IsActive_delete k k' g sc :
  IsActive k' (Gate (delete k (cancels g)) sc) = if decide (k = k') then false else IsActive k' g.
Proof. unfold IsActive. simpl. rewrite at_key_delete. by case_decide. Qed.

Lemma IsActive_insert k k' c g sc :
  IsActive k' (Gate (<[k := Some c]> (cancels g)) sc) = if decide (k = k') then true else IsActive k' g.
Proof. unfold IsActive. simpl. rewrite at_key_insert. case_decide; [|done]. by apply bool_decide_eq_true. Qed.

(** How one operation changes who is active: the gate as a set of keys. *)
Lemma gate_do_active k op g k' :
  IsActive k' (gate_do k op g).2 =
    (if decide (k = k') then
       if is_acquire op then true else if ends op then false else IsActive k g
     else IsActive k' g) ∧
  (gate_do k op g).1 = is_acquire op && negb (IsActive k g).
Proof.
  destruct op as [c sc| |call ok|sc|c]; simpl.
  - unfold Acquire. fold (IsActive k g). destruct (IsActive k g) eqn:E; simpl.
    + split; [|done]. case_decide; [by subst|done].
    + split; [|done]. apply IsActive_insert.
  - split; [|done]. apply IsActive_delete.
  - split; [|done]. apply IsActive_delete.
  - split; [|done]. unfold SetSendCancel. case_bool_decide; [by case_decide; subst|].
    destruct sc; by case_decide; subst.
  - split; [|done]. unfold ReplaceCancel. case_bool_decide as E; simpl; [by case_decide; subst|].
    destruct c as [c|]; simpl; [|by case_decide; subst]. rewrite IsActive_insert.
    case_decide; [|done]. unfold IsActive. symmetry. apply bool_decide_eq_true.
    destruct (at_key (cancels g) k); [by eexists|done].
Qed.

(** The key's status after a run, from the operations alone: the last acquisition,
    release or cancellation of the key decides. *)
Fixpoint status (k : string) (ops : list (string * gate_op)) (b : bool) : bool :=
  match ops with
  | [] => b
  | (k', op) :: ops =>
      status k ops (if decide (k' = k) then if is_acquire op then true else if ends op then false else b else b)
  end.

Lemma gate_run_app ops1 ops2 g :
  gate_run (ops1 ++ ops2) g =
  ((gate_run ops1 g).1 ++ (gate_run ops2 (gate_run ops1 g).2).1, (gate_run ops2 (gate_run ops1 g).2).2).
Proof.
  revert g. induction ops1 as [|[k op] ops1 IH]; intros g; simpl; [by destruct (gate_run ops2 g)|].
  destruct (gate_do k op g) as [b g1]. rewrite IH. by destruct (gate_run ops1 g1) as [bs g2].
Qed.

Lemma gate_run_status ops g k : IsActive k (gate_run ops g).2 = status k ops (IsActive k g).
Proof.
  revert g. induction ops as [|[k' op] ops IH]; intros g; [done|]. simpl.
  destruct (gate_do_active k' op g k) as [H _]. destruct (gate_do k' op g) as [b g1]. simpl in H.
  specialize (IH g1). destruct (gate_run ops g1) as [bs g2]. simpl in *. rewrite IH, H.
  by case_decide; subst.
Qed.

Lemma status_kept k ops :
  Forall (λ x, x.1 = k → ends x.2 = false) ops → status k ops true = true.
Proof.
  induction 1 as [|[k' op] ops Hop _ IH]; [done|]. simpl in *. case_decide; [|done].
  destruct (is_acquire op); [done|]. by rewrite Hop.
Qed.

(** * The order of a cancellation *)

(** The daemon cancel of each call that had one comes first, and once. *)
Record sys_inv (s : gate_sys) : Prop := {
  inv_ids x : x ∈ running s → call_id x < calls s;
  inv_distinct : NoDup (call_id <$> running s);
  inv_local call f : LocalCancel call f ∈ log s → call < calls s ∧ call ∉ call_id <$> running s;
  inv_sent call f ok : DaemonCancel call f ok ∈ log s → call < calls s ∧
    ∀ x, x ∈ running s → call_id x = call → send_fn x = None;
  inv_order a call f b f' ok : log s = a ++ LocalCancel call f :: b → DaemonCancel call f' ok ∉ b;
}.

Lemma sys_inv_new : sys_inv new_sys.
Proof.
  split; simpl; try (intros; by set_solver); [constructor|].
  intros a call f b f' ok H. by destruct a.
Qed.

Lemma snoc_split {A} (l : list A) x a y b :
  l ++ [x] = a ++ y :: b → (∃ b', b = b' ++ [x] ∧ l = a ++ y :: b') ∨ (b = [] ∧ x = y ∧ l = a).
Proof.
  intros H. destruct b as [|z b _] using rev_ind.
  - right. apply app_inj_tail in H as [-> ->]. done.
  - left. exists b. rewrite app_comm_cons, app_assoc in H. apply app_inj_tail in H as [-> ->]. done.
Qed.

Lemma gate_step_inv s s' : gate_step s s' → sys_inv s → sys_inv s'.
Proof.
  destruct 1 as [s k c sc|s k|s k sc|s k c|s k c sc g Hl|s a b call c f ok Hr|s a b call f Hr];
    intros [Hi Hd Hl0 Hs Ho]; try (by split).
  - split; simpl.
    + intros x [Hx|Hx%list_elem_of_singleton]%elem_of_app; [specialize (Hi x Hx); lia|subst; simpl; lia].
    + rewrite fmap_app. apply NoDup_app. split; [done|]. split; [|apply NoDup_singleton].
      intros y Hy%list_elem_of_fmap Hy'%list_elem_of_singleton. destruct Hy as (x & -> & Hx).
      specialize (Hi x Hx). simpl in Hy'. lia.
    + intros call f Hc. destruct (Hl0 _ _ Hc) as [Hlt Hni]. split; [lia|].
      rewrite fmap_app, elem_of_app. intros [?|Hy%list_elem_of_singleton]; [done|]. simpl in Hy. lia.
    + intros call f ok Hc. destruct (Hs _ _ _ Hc) as [Hlt Hn]. split; [lia|].
      intros x [Hx|Hx%list_elem_of_singleton]%elem_of_app He; [by apply Hn|]. subst. simpl in *. lia.
    + done.
  - assert (call < calls s) as Hlt by (apply (Hi (Cancelling call c (Some f))); rewrite Hr; set_solver).
    assert (Hids : call_id <$> (a ++ Cancelling call c None :: b) = call_id <$> running s)
      by (rewrite Hr, !fmap_app; done).
    split; cbn [running log calls].
    + intros x Hx. apply (list_elem_of_fmap_2 call_id) in Hx. rewrite Hids in Hx.
      apply list_elem_of_fmap in Hx as (y & -> & Hy). by apply Hi.
    + by rewrite Hids.
    + intros call' f' Hc. rewrite Hids. apply (Hl0 _ f'). set_solver.
    + intros call' f' ok' Hc. rewrite Hr, fmap_app in Hd. cbn in Hd.
      assert (∀ x, x ∈ a ++ b → call_id x ≠ call) as Hne.
      { rewrite <-Permutation_middle in Hd. apply NoDup_cons in Hd as [Hni _].
        rewrite <-fmap_app in Hni. intros x Hx <-. by apply Hni, list_elem_of_fmap_2. }
      apply elem_of_app in Hc as [Hc|Hc%list_elem_of_singleton].
      * destruct (Hs _ _ _ Hc) as [? Hn]. split; [done|]. intros x Hx He.
        apply elem_of_app in Hx as [Hx|[->|Hx]%elem_of_cons]; [|done|]; apply Hn; try done; rewrite Hr; set_solver.
      * injection Hc as -> -> ->. split; [done|]. intros x Hx He.
        apply elem_of_app in Hx as [Hx|[->|Hx]%elem_of_cons]; [|done|]; exfalso; eapply Hne; try done; set_solver.
    + intros l1 call' f1 l2 f' ok' E. apply snoc_split in E as [(l2' & -> & E)|(-> & E & _)]; [|done].
      intros [Hin|Hin%list_elem_of_singleton]%elem_of_app; [by eapply Ho|]. injection Hin as -> -> ->.
      assert (LocalCancel call f1 ∈ log s) as Hin by (rewrite E; set_solver).
      destruct (Hl0 _ _ Hin) as [_ Hni]. apply Hni. rewrite Hr, fmap_app. set_solver.
  - assert (call < calls s) as Hlt by (apply (Hi (Cancelling call (Some f) None)); rewrite Hr; set_solver).
    rewrite Hr, fmap_app in Hd. cbn in Hd. rewrite <-Permutation_middle in Hd.
    apply NoDup_cons in Hd as [Hni Hd]. rewrite <-fmap_app in *.
    split; cbn [running log calls].
    + intros x Hx. apply Hi. rewrite Hr. set_solver.
    + done.
    + intros call' f' [Hc|Hc%list_elem_of_singleton]%elem_of_app.
      * destruct (Hl0 _ _ Hc) as [? Hn]. split; [done|]. intros Hx. apply Hn. rewrite Hr, fmap_app. set_solver.
      * by injection Hc as -> ->.
    + intros call' f' ok' Hc. assert (DaemonCancel call' f' ok' ∈ log s) as Hc' by set_solver.
      destruct (Hs _ _ _ Hc') as [? Hn]. split; [done|]. intros x Hx. apply Hn. rewrite Hr. set_solver.
    + intros l1 call' f1 l2 f' ok' E. apply snoc_split in E as [(l2' & -> & E)|(-> & _ & _)]; [|set_solver].
      intros [Hin|Hin%list_elem_of_singleton]%elem_of_app; [|done]. by eapply Ho.
Qed.

Lemma sys_reachable_inv s : rtc gate_step new_sys s → sys_inv s.
Proof.
  intros H. cut (sys_inv new_sys → sys_inv s); [intros Hc; apply Hc, sys_inv_new|].
  induction H as [|s1 s2 s3 Hs _ IH]; [done|]. intros Hi. by apply IH, (gate_step_inv s1).
Qed.

(** * Properties *)

(** C35. One query at a time: once a key has been acquired (or found busy), and until an
    operation on that key releases or cancels it, every further acquisition is refused
    and changes nothing, whatever happens to other keys and however the running query's
    functions are replaced. *)
Theorem single_flight (pre mid : list (string * gate_op)) (k : string) (c1 c2 : nat)
    (s1 s2 : option nat) (Hmid : Forall (λ x, x.1 = k → ends x.2 = false) mid) :
  let g := (gate_run (pre ++ (k, OpAcquire c1 s1) :: mid) NewQueryGate).2 in
  IsActive k g = true ∧ Acquire k (Some c2) s2 g = (false, g).
Proof.
  simpl. set (g := (gate_run _ _).2).
  assert (IsActive k g = true) as Ha.
  { unfold g. rewrite gate_run_status.
    assert (∀ b, status k (pre ++ (k, OpAcquire c1 s1) :: mid) b = true) as H; [|apply H].
    induction pre as [|[k' op] pre IH]; intros b; simpl; [|apply IH].
    rewrite decide_True by done. by apply status_kept. }
  split; [done|]. unfold Acquire. fold (IsActive k g). by rewrite Ha.
Qed.

(** An acquisition succeeds exactly when the last operation that mattered to its key was
    not an acquisition; the operations on other keys have no influence. *)
Theorem acquire_decided (ops : list (string * gate_op)) (k : string) (c : nat) (sc : option nat) :
  (Acquire k (Some c) sc (gate_run ops NewQueryGate).2).1 = negb (status k ops false) ∧
  status k ops false = status k (filter (λ x, x.1 = k) ops) false.
Proof.
  split.
  - destruct (gate_do_active k (OpAcquire c sc) (gate_run ops NewQueryGate).2 k) as [_ H].
    simpl in H. by rewrite H, gate_run_status.
  - generalize false. induction ops as [|[k' op] ops IH]; intros b; [done|].
    rewrite filter_cons. simpl. case_decide; simpl; [|apply IH]. rewrite decide_True by done. apply IH.
Qed.

(** A cancellation tells the daemon first and the local context after, whatever the other
    callers of the gate do in between and whether or not the daemon could be reached;
    run alone it does exactly these two calls and frees the key. *)
Theorem cancel_daemon_first (s : gate_sys) (Hs : rtc gate_step new_sys s) :
  (∀ a call f b f' ok, log s = a ++ LocalCancel call f :: b → DaemonCancel call f' ok ∉ b) ∧
  ∀ k f f' call ok, at_key (cancels (gate s)) k = Some f → at_key (sendCancels (gate s)) k = Some f' →
    (Cancel call ok k (gate s)).1 = [DaemonCancel call f' ok; LocalCancel call f] ∧
    IsActive k (Cancel call ok k (gate s)).2 = false.
Proof.
  split; [intros a call f b f' ok; by apply (inv_order _ (sys_reachable_inv s Hs))|].
  intros k f f' call ok Hf Hf'. unfold Cancel, Cancel_lock. rewrite Hf, Hf'. split; [done|].
  cbn [snd]. rewrite IsActive_delete. by rewrite decide_True.
Qed.

(** The release of a turn that was cancelled is not checked for identity: it frees the
    reservation of the turn that came after, and a third one starts beside it. *)
Theorem late_release_frees_newer :
  let ops := [("app", OpAcquire 1 (Some 11)); ("app", OpCancel 0 true); ("app", OpAcquire 2 (Some 12));
              ("app", OpRelease); ("app", OpAcquire 3 (Some 13))] in
  (gate_run ops NewQueryGate).1 = [true; false; true; false; true].
Proof. vm_compute. reflexivity. Qed.

Lemma single_flight_witness :
  let g := (gate_run ([] ++ ("app", OpAcquire 1 None) :: [("other", OpRelease); ("app", OpSetSend (Some 5))])
              NewQueryGate).2 in
  IsActive "app" g = true ∧ Acquire "app" (Some 2) None g = (false, g).
Proof.
  apply (single_flight [] [("other", OpRelease); ("app", OpSetSend (Some 5))] "app" 1 2 None None).
  repeat (constructor; [done|]). constructor.
Defined.

(** A query acquired and cancelled, up to its last call. *)
Definition cancelled_sys : gate_sys :=
  Sys (Gate ∅ ∅) [] [DaemonCancel 0 7 false; LocalCancel 0 5] 1.

Lemma cancelled_reachable : rtc gate_step new_sys cancelled_sys.
Proof.
  eapply rtc_l; [apply (step_acquire _ "app" (Some 5) (Some 7))|].
  eapply rtc_l; [by apply (step_cancel _ "app")|].
  eapply rtc_l; [by apply (step_send _ [] [] 0 (Some 5) 7 false)|].
  eapply rtc_l; [by apply (step_local _ [] [] 0 5)|].
  match goal with
  | |- rtc _ ?x _ => assert (x = cancelled_sys) as -> by (vm_compute; reflexivity)
  end.
  apply rtc_refl.
Qed.

Lemma cancel_daemon_first_witness :
  rtc gate_step new_sys cancelled_sys ∧ DaemonCancel 0 7 false ∉ ([] : list effect).
Proof.
  split; [apply cancelled_reachable|].
  apply (proj1 (cancel_daemon_first cancelled_sys cancelled_reachable) [DaemonCancel 0 7 false] 0 5).
  reflexivity.
Defined.
