(* ===== verification/TurnGate.v ===== *)
(** The turn-end rules for decoded messages: the lifecycle gate and the boundary a turn
    loop feeds (appkit/turn_lifecycle_gate.go, appkit/turn_boundary.go). *)

From S2P Require Import Prelude GoStr Value TurnId StreamTerminal Protocol.

(** * Definitions *)

Record TurnLifecycleGate := LifecycleGate {
  SawRunning : bool;
  SawTurnProgress : bool;
  ExpectedTurnID : string;
  CancellationSeen : bool;
}.

Definition new_gate : TurnLifecycleGate := LifecycleGate false false "" false.

(** Whether a running status for turn [tid] takes over from [expected]. *)
Definition takes_over (expected tid : string) : bool :=
  let newGen := ParseTurnGeneration tid in
  let oldGen := ParseTurnGeneration expected in
  (expected =s "") || ((0 <? newGen)%Z && ((oldGen <? 0)%Z || (oldGen <=? newGen)%Z)).

(** The running status of turn [tid]: the new expected id and progress flag. *)
Definition bind_turn (tid expected : string) (progress : bool) : string * bool :=
  if tid =s "" then (expected, progress)
  else if takes_over expected tid then
    (tid, if (expected <>s "") && (tid <>s expected) then false else progress)
  else (expected, progress).

Definition gate_running (tid : string) (g : TurnLifecycleGate) : TurnLifecycleGate :=
  let '(e, p) := bind_turn tid (ExpectedTurnID g) (SawTurnProgress g) in
  LifecycleGate true p e (CancellationSeen g).

Definition gate_progress (g : TurnLifecycleGate) : TurnLifecycleGate :=
  LifecycleGate (SawRunning g) true (ExpectedTurnID g) (CancellationSeen g).

Definition Observe (msg : message) (g : TurnLifecycleGate) : TurnLifecycleGate :=
  match msg with
  | MStatus m =>
      if EqualFold (TrimSpace (st_State m)) "running" then gate_running (TrimSpace (st_TurnID m)) g
      else g
  | MEvent m => if IsTurnProgressChunk (em_Mode m) (em_Data m) then gate_progress g else g
  | MMap m =>
      let typ := sget m "type" in
      let g :=
        if (typ =s "status") && (sget m "state" =s "running") then gate_running (FrameTurnID m) g
        else g in
      if (typ =s "event") || (sget m "mode" <>s "") then
        if IsTurnProgressChunk (sget m "mode") (mget m "data") then gate_progress g else g
      else g
  | _ => g
  end.

Definition AllowStreamEnd (frameTurnID : string) (g : TurnLifecycleGate) : bool :=
  IsTurnTerminalAllowed (ExpectedTurnID g) frameTurnID (SawRunning g) (SawTurnProgress g).

Definition AllowIdleComplete (frameTurnID : string) (g : TurnLifecycleGate) : bool :=
  IsIdleTerminalAllowed (ExpectedTurnID g) frameTurnID (SawRunning g) (SawTurnProgress g)
    (CancellationSeen g).

Definition TurnEndStreamEnd : string := STREAM_END.
Definition TurnEndIdle : string := "status.idle".
Definition TurnEndStopped : string := "status.stopped".

Record TurnBoundary := Boundary {
  Gate : TurnLifecycleGate;
  Ended : bool;
  Reason : string;
}.

Definition new_boundary : TurnBoundary := Boundary new_gate false "".

Definition mark (reason : string) (b : TurnBoundary) : bool * string * TurnBoundary :=
  (true, reason, Boundary (Gate b) true reason).

(** The id of the turn an event's data names, else that of its frame. *)
Definition data_turn (data : value) (frameTurn : string) : string :=
  match to_map data with
  | Some dm => let tid := FrameTurnID dm in if tid <>s "" then tid else frameTurn
  | None => frameTurn
  end.

Definition feed_stopped (frameTurn : string) (b : TurnBoundary) : bool * string * TurnBoundary :=
  if (ExpectedTurnID (Gate b) <>s "") && negb (TurnIDsMatch (ExpectedTurnID (Gate b)) frameTurn)
  then (false, "", b) else mark TurnEndStopped b.

Definition feed_event (mode : string) (data : value) (frameTurn : string) (b : TurnBoundary) :
    bool * string * TurnBoundary :=
  if (mode =s "custom") && IsTurnEndCustomData data && AllowStreamEnd (data_turn data frameTurn) (Gate b)
  then mark TurnEndStreamEnd b else (false, "", b).

Definition Feed (msg : message) (b : TurnBoundary) : bool * string * TurnBoundary :=
  if Ended b then (true, Reason b, b)
  else
    let b := Boundary (Observe msg (Gate b)) (Ended b) (Reason b) in
    match msg with
    | MStatus m =>
        let state := TrimSpace (st_State m) in
        let frameTurn := TrimSpace (st_TurnID m) in
        if EqualFold state "stopped" && SawRunning (Gate b) then feed_stopped frameTurn b
        else if EqualFold state "idle" && AllowIdleComplete frameTurn (Gate b) then mark TurnEndIdle b
        else (false, "", b)
    | MEvent m => feed_event (em_Mode m) (em_Data m) (TrimSpace (em_TurnID m)) b
    | MMap m =>
        let typ := sget m "type" in
        let state := sget m "state" in
        let frameTurn := FrameTurnID m in
        if (typ =s "status") && (state =s "stopped") && SawRunning (Gate b) then
          feed_stopped frameTurn b
        else if (typ =s "status") && (state =s "idle") && AllowIdleComplete frameTurn (Gate b) then
          mark TurnEndIdle b
        else if (typ =s "event") || (sget m "mode" <>s "") then
          feed_event (sget m "mode") (mget m "data") frameTurn b
        else (false, "", b)
    | _ => (false, "", b)
    end.

Definition IsDaemonTurnEndEvent (completionEvent : string) : bool :=
  bool_decide (TrimSpace completionEvent ∈ [TurnEndStreamEnd; TurnEndIdle; TurnEndStopped]).

(** Feeding a trace, up to the message that ends the turn. *)
Fixpoint feed_all (msgs : list message) (b : TurnBoundary) : TurnBoundary :=
  match msgs with
  | [] => b
  | msg :: msgs => feed_all msgs (Feed msg b).2
  end.

(** * What a message is evidence of *)

(** A running status of turn [tid] ([""] when it names none). *)
Definition says_running (msg : message) (tid : string) : Prop :=
  match msg with
  | MStatus m => EqualFold (TrimSpace (st_State m)) "running" = true ∧ tid = TrimSpace (st_TurnID m)
  | MMap m => sget m "type" = "status" ∧ sget m "state" = "running" ∧ tid = FrameTurnID m
  | _ => False
  end.

Definition says_progress (msg : message) : Prop :=
  match msg with
  | MEvent m => IsTurnProgressChunk (em_Mode m) (em_Data m) = true
  | MMap m => IsTurnProgressChunk (sget m "mode") (mget m "data") = true
  | _ => False
  end.

(** A status of a terminal state with its turn id. *)
Definition says_state (msg : message) (state tid : string) : Prop :=
  match msg with
  | MStatus m => EqualFold (TrimSpace (st_State m)) state = true ∧ tid = TrimSpace (st_TurnID m)
  | MMap m => sget m "type" = "status" ∧ sget m "state" = state ∧ tid = FrameTurnID m
  | _ => False
  end.

Definition says_stream_end (msg : message) (tid : string) : Prop :=
  match msg with
  | MEvent m => IsTurnEndCustomData (em_Data m) = true ∧ tid = data_turn (em_Data m) (TrimSpace (em_TurnID m))
  | MMap m => IsTurnEndCustomData (mget m "data") = true ∧ tid = data_turn (mget m "data") (FrameTurnID m)
  | _ => False
  end.

(** What the gate's flags record about the messages observed so far. *)
Record gate_knows (past : list message) (g : TurnLifecycleGate) : Prop := {
  knows_running : SawRunning g = true → ∃ msg tid, msg ∈ past ∧ says_running msg tid;
  knows_turn : ExpectedTurnID g ≠ "" → ∃ msg, msg ∈ past ∧ says_running msg (ExpectedTurnID g);
  knows_progress : SawTurnProgress g = true → ∃ msg, msg ∈ past ∧ says_progress msg;
  knows_trimmed : TrimSpace (ExpectedTurnID g) = ExpectedTurnID g;
  knows_bound msg tid : msg ∈ past → says_running msg tid → tid ≠ "" → ExpectedTurnID g ≠ "";
  knows_newest msg tid : msg ∈ past → says_running msg tid →
    (ParseTurnGeneration tid <= ParseTurnGeneration (ExpectedTurnID g))%Z;
}.

(** ** Lemmas *)

Lemma takes_over_gen expected tid :
  takes_over expected tid = true → (ParseTurnGeneration expected <= ParseTurnGeneration tid)%Z.
Proof.
  unfold takes_over. intros H. apply orb_true_iff in H as [H|H].
  - apply String.eqb_eq in H. subst. change (ParseTurnGeneration "") with (-1)%Z.
    pose proof (ParseTurnGeneration_range tid). lia.
  - apply andb_true_iff in H as [Hp H]. apply Z.ltb_lt in Hp.
    apply orb_true_iff in H as [H|H]; [apply Z.ltb_lt in H|apply Z.leb_le in H]; lia.
Qed.

Lemma bind_turn_cases tid expected progress :
  bind_turn tid expected progress = (expected, progress) ∨
  tid ≠ "" ∧ takes_over expected tid = true ∧
  (bind_turn tid expected progress).1 = tid ∧
  ((bind_turn tid expected progress).2 = true → progress = true ∧ (expected = "" ∨ expected = tid)).
Proof.
  unfold bind_turn. destruct (String.eqb_spec tid "") as [->|Hne]; [by left|].
  destruct (takes_over expected tid); [right|by left]. split; [done|]. split; [done|].
  split; [done|]. simpl.
  destruct (String.eqb_spec expected "") as [->|He]; simpl; [by auto|].
  destruct (String.eqb_spec tid expected) as [->|Hd]; simpl; [by auto|done].
Qed.

Lemma bind_turn_gen tid expected progress :
  (ParseTurnGeneration expected <= ParseTurnGeneration (bind_turn tid expected progress).1)%Z.
Proof.
  destruct (bind_turn_cases tid expected progress) as [->|(_ & Ht & -> & _)]; [done|].
  by apply takes_over_gen.
Qed.

Lemma takes_over_not expected tid :
  takes_over expected tid = false →
  expected ≠ "" ∧ (ParseTurnGeneration tid <= ParseTurnGeneration expected)%Z.
Proof.
  unfold takes_over. intros H. apply orb_false_iff in H as [He H].
  split; [by apply String.eqb_neq|]. pose proof (ParseTurnGeneration_range expected).
  pose proof (ParseTurnGeneration_range tid). apply andb_false_iff in H as [H|H]; [apply Z.ltb_ge in H; lia|].
  apply orb_false_iff in H as [_ H]. apply Z.leb_gt in H. lia.
Qed.

(** Knowledge up to a message that is not a running status of a turn. *)
Lemma gate_knows_mono past msg g :
  (∀ tid, ¬ says_running msg tid) → gate_knows past g → gate_knows (past ++ [msg]) g.
Proof.
  intros Hn [H1 H2 H3 H4 H5 H6].
  assert (Hin : ∀ m t, m ∈ past ++ [msg] → says_running m t → m ∈ past).
  { intros m t [?|E%list_elem_of_singleton]%elem_of_app Hs; [done|]. subst. by destruct (Hn t). }
  split; eauto.
  - intros H. destruct (H1 H) as (m & t & ? & ?). exists m, t. set_solver.
  - intros H. destruct (H2 H) as (m & ? & ?). exists m. set_solver.
  - intros H. destruct (H3 H) as (m & ? & ?). exists m. set_solver.
Qed.

Lemma gate_running_knows past msg tid g :
  gate_knows past g → says_running msg tid → (∀ t, says_running msg t → t = tid) →
  TrimSpace tid = tid → gate_knows (past ++ [msg]) (gate_running tid g).
Proof.
  intros [H1 H2 H3 H4 H5 H6] Hs Hu Ht. unfold gate_running, bind_turn.
  assert (Hin : ∀ m t, m ∈ past ++ [msg] → says_running m t → m ∈ past ∨ t = tid).
  { intros m t [?|E%list_elem_of_singleton]%elem_of_app Hm; [by left|]. subst. auto. }
  assert (Hm : msg ∈ past ++ [msg]) by set_solver.
  assert (Hk : (tid = "" ∨ takes_over (ExpectedTurnID g) tid = false) →
    gate_knows (past ++ [msg]) (LifecycleGate true (SawTurnProgress g) (ExpectedTurnID g) (CancellationSeen g))).
  { intros Hc. split; simpl; eauto.
    - intros H. destruct (H2 H) as (m & ? & ?). exists m. set_solver.
    - intros H. destruct (H3 H) as (m & ? & ?). exists m. set_solver.
    - intros m t Hi Hst Hne. destruct (Hin m t Hi Hst) as [?| ->]; [by eapply H5|].
      destruct Hc as [?|Hc]; [done|]. by apply takes_over_not in Hc as [? _].
    - intros m t Hi Hst. destruct (Hin m t Hi Hst) as [?| ->]; [by eapply H6|].
      destruct Hc as [->|Hc]; [|by apply takes_over_not in Hc as [_ ?]].
      change (ParseTurnGeneration "") with (-1)%Z. pose proof (ParseTurnGeneration_range (ExpectedTurnID g)). lia. }
  destruct (String.eqb_spec tid "") as [->|Hne]; [by apply Hk; left|].
  destruct (takes_over (ExpectedTurnID g) tid) eqn:Eo; [|by apply Hk; right].
  split; simpl; eauto.
  - intros Hp. assert (SawTurnProgress g = true) as Hp' by (by destruct (_ && _)).
    destruct (H3 Hp') as (m & ? & ?). exists m. set_solver.
  - intros m t Hi Hst. destruct (Hin m t Hi Hst) as [Hold| ->]; [|done].
    apply takes_over_gen in Eo. specialize (H6 m t Hold Hst). lia.
Qed.

Lemma gate_progress_knows past msg g :
  gate_knows past g → msg ∈ past → says_progress msg → gate_knows past (gate_progress g).
Proof. intros [H1 H2 H3 H4 H5 H6] Hin Hs. split; simpl; eauto. Qed.

Lemma Observe_knows past msg g :
  gate_knows past g → gate_knows (past ++ [msg]) (Observe msg g).
Proof.
  intros H. assert (msg ∈ past ++ [msg]) as Hin by set_solver.
  destruct msg as [e|m|s|er|m]; simpl; try (apply gate_knows_mono; [by intros tid []|done]).
  - pose proof (gate_knows_mono past (MEvent m) g ltac:(by intros tid []) H) as H'.
    destruct (IsTurnProgressChunk _ _) eqn:E; [|done]. by eapply gate_progress_knows.
  - destruct (EqualFold _ _) eqn:E.
    + apply (gate_running_knows past (MStatus s)); [done|done| |apply TrimSpace_idemp].
      by intros t [_ ->].
    + apply gate_knows_mono; [|done]. simpl. rewrite E. by intros tid [? _].
  - set (g1 := if _ && _ then _ else _).
    assert (gate_knows (past ++ [MMap m]) g1) as H1.
    { subst g1. destruct ((sget m "type" =s "status") && (sget m "state" =s "running")) eqn:E.
      - bool_to_prop. apply (gate_running_knows past (MMap m)); [done|done| |apply FrameTurnID_trimmed].
        by intros t (_ & _ & ->).
      - apply gate_knows_mono; [|done]. intros tid (E1 & E2 & _). by rewrite E1, E2 in E. }
    destruct (_ || _); [|done]. destruct (IsTurnProgressChunk _ _) eqn:E; [|done].
    by eapply gate_progress_knows.
Qed.

Lemma Observe_gen msg g :
  (ParseTurnGeneration (ExpectedTurnID g) <= ParseTurnGeneration (ExpectedTurnID (Observe msg g)))%Z.
Proof.
  assert (Hr : ∀ tid, (ParseTurnGeneration (ExpectedTurnID g) <=
                       ParseTurnGeneration (ExpectedTurnID (gate_running tid g)))%Z).
  { intros tid. unfold gate_running.
    pose proof (bind_turn_gen tid (ExpectedTurnID g) (SawTurnProgress g)).
    by destruct (bind_turn _ _ _). }
  destruct msg as [e|m|s|er|m]; simpl; try lia.
  - by destruct (IsTurnProgressChunk _ _).
  - by destruct (EqualFold _ _).
  - set (g1 := if _ && _ then _ else _).
    assert (ParseTurnGeneration (ExpectedTurnID g) <= ParseTurnGeneration (ExpectedTurnID g1))%Z as H1
      by (subst g1; destruct (_ && _); [apply Hr|lia]).
    destruct (_ || _); [|done]. by destruct (IsTurnProgressChunk (sget m "mode") _).
Qed.

Lemma Observe_cancel msg g : CancellationSeen (Observe msg g) = CancellationSeen g.
Proof.
  assert (Hr : ∀ tid, CancellationSeen (gate_running tid g) = CancellationSeen g)
    by (intros tid; unfold gate_running; by destruct (bind_turn _ _ _)).
  destruct msg as [e|m|s|er|m]; simpl; try done.
  - by destruct (IsTurnProgressChunk _ _).
  - by destruct (EqualFold _ _).
  - set (g1 := if _ && _ then _ else _).
    assert (CancellationSeen g1 = CancellationSeen g) as H1
      by (subst g1; destruct (_ && _); [apply Hr|done]).
    destruct (_ || _); [|done]. by destruct (IsTurnProgressChunk (sget m "mode") _).
Qed.

Lemma gate_knows_new : gate_knows [] new_gate.
Proof. split; try done; by intros msg tid ?%not_elem_of_nil. Qed.

Lemma data_turn_trimmed data t : TrimSpace t = t → TrimSpace (data_turn data t) = data_turn data t.
Proof.
  intros Ht. unfold data_turn. destruct (to_map data) as [dm|]; [|done].
  destruct (_ <>s ""); [apply FrameTurnID_trimmed|done].
Qed.

Lemma feed_stopped_gate t b : Gate (feed_stopped t b).2 = Gate b.
Proof. unfold feed_stopped, mark. by destruct (_ && _). Qed.

Lemma feed_event_gate mode data t b : Gate (feed_event mode data t b).2 = Gate b.
Proof. unfold feed_event, mark. by destruct (_ && _). Qed.

Lemma Feed_gate msg b : Ended b = false → Gate (Feed msg b).2 = Observe msg (Gate b).
Proof.
  intros Hb. unfold Feed. rewrite Hb. cbv zeta. set (b1 := Boundary _ _ _).
  change (Observe msg (Gate b)) with (Gate b1). clearbody b1.
  destruct msg; repeat match goal with
  | |- context [if ?c then _ else _] => destruct c
  end; by rewrite ?feed_stopped_gate, ?feed_event_gate.
Qed.

(** A boundary fed a trace that has not ended the turn yet. *)
Lemma feed_all_knows msgs b past :
  gate_knows past (Gate b) → Ended (feed_all msgs b) = false →
  gate_knows (past ++ msgs) (Gate (feed_all msgs b)) ∧ Ended b = false ∧
  CancellationSeen (Gate (feed_all msgs b)) = CancellationSeen (Gate b).
Proof.
  revert b past. induction msgs as [|msg msgs IH]; intros b past Hk He; simpl in *.
  { by rewrite app_nil_r. }
  assert (Ended b = false ∧ Gate (Feed msg b).2 = Observe msg (Gate b)) as [Hb HG].
  { destruct (Ended b) eqn:Eb.
    - exfalso. assert (Ended (feed_all msgs b) = true) as Hend.
      { clear -Eb. induction msgs as [|m msgs IHm]; [done|]. simpl. unfold Feed. by rewrite Eb. }
      unfold Feed in He. rewrite Eb in He. simpl in He. congruence.
    - split; [done|]. by apply Feed_gate. }
  rewrite cons_middle, app_assoc. destruct (IH (Feed msg b).2 (past ++ [msg])) as (H1 & _ & H2).
  { rewrite HG. by apply Observe_knows. }
  { done. }
  split; [done|]. split; [done|]. by rewrite H2, HG, Observe_cancel.
Qed.

(** The running status that bound the turn [tid]: no other named a newer generation. *)
Definition newest_running (past : list message) (tid : string) : Prop :=
  tid ≠ "" ∧ (∃ r, r ∈ past ∧ says_running r tid) ∧
  ∀ r t, r ∈ past → says_running r t → (ParseTurnGeneration t <= ParseTurnGeneration tid)%Z.

(** Why a turn may have ended with [msg]. *)
Inductive justified (past : list message) (msg : message) : string → Prop :=
  | by_stream_end tid p :
      says_stream_end msg tid → newest_running past tid → p ∈ past → says_progress p →
      justified past msg TurnEndStreamEnd
  | by_idle tid p :
      says_state msg "idle" tid → newest_running past tid → p ∈ past → says_progress p →
      justified past msg TurnEndIdle
  | by_stopped tid r t :
      says_state msg "stopped" tid → r ∈ past → says_running r t →
      newest_running past tid ∨ (∀ r' t', r' ∈ past → says_running r' t' → t' = "") →
      justified past msg TurnEndStopped.

Lemma knows_match past g tid :
  gate_knows past g → TrimSpace tid = tid → TurnIDsMatch (ExpectedTurnID g) tid = true →
  newest_running past tid.
Proof.
  intros [H1 H2 H3 H4 H5 H6] Ht Hm. apply TurnIDsMatch_spec in Hm as [He Hne].
  rewrite H4, Ht in *. rewrite He in *. split; [done|]. split; [by apply H2|done].
Qed.

Lemma stopped_justified past msg tid b reason b' :
  gate_knows past (Gate b) → SawRunning (Gate b) = true → TrimSpace tid = tid →
  says_state msg "stopped" tid → feed_stopped tid b = (true, reason, b') → justified past msg reason.
Proof.
  intros Hk Hr Ht Hs Hf. destruct (knows_running _ _ Hk Hr) as (r & t & Hin & Hrun).
  unfold feed_stopped in Hf. destruct (_ && _) eqn:E; [done|]. unfold mark in Hf. simplify_eq.
  eapply by_stopped; [done..|]. apply andb_false_iff in E as [E|E].
  - right. bool_to_prop. intros r' t' Hin' Hrun'. destruct (decide (t' = "")) as [|Hne]; [done|].
    by destruct (knows_bound _ _ Hk r' t' Hin' Hrun' Hne).
  - left. apply negb_false_iff in E. by eapply knows_match.
Qed.

Lemma idle_justified past msg tid g :
  gate_knows past g → CancellationSeen g = false → TrimSpace tid = tid →
  says_state msg "idle" tid → AllowIdleComplete tid g = true → justified past msg TurnEndIdle.
Proof.
  intros Hk Hc Ht Hs Ha. unfold AllowIdleComplete, IsIdleTerminalAllowed in Ha.
  rewrite Hc, Ht in Ha. destruct (_ || _); [done|]. destruct (tid <>s ""); [|done].
  destruct (TurnIDsMatch _ _) eqn:Em; [|done]. simpl in Ha. rewrite orb_false_r in Ha.
  destruct (knows_progress _ _ Hk Ha) as (p & ? & ?). eapply by_idle; [done| |done..].
  by eapply knows_match.
Qed.

Lemma event_justified past msg mode data turn b reason b' :
  gate_knows past (Gate b) → TrimSpace turn = turn →
  (IsTurnEndCustomData data = true → says_stream_end msg (data_turn data turn)) →
  feed_event mode data turn b = (true, reason, b') → justified past msg reason.
Proof.
  intros Hk Ht Hs Hf. unfold feed_event in Hf. destruct (_ && _) eqn:E; [|done].
  unfold mark in Hf. simplify_eq. apply andb_true_iff in E as [E Ha]. bool_to_prop.
  unfold AllowStreamEnd, IsTurnTerminalAllowed in Ha. destruct (_ || _) eqn:Eo; [done|].
  apply orb_false_iff in Eo as [_ Hp]. apply negb_false_iff in Hp.
  destruct (knows_progress _ _ Hk Hp) as (p & ? & ?). eapply by_stream_end; [by apply Hs| |done..].
  eapply knows_match; [done| |done]. by apply data_turn_trimmed.
Qed.

(** The end of a turn is justified by what was fed. *)
Lemma feed_justified (past : list message) (msg : message) (reason : string)
    (b : TurnBoundary) (Hrun : Ended (feed_all past new_boundary) = false)
    (Hend : Feed msg (feed_all past new_boundary) = (true, reason, b)) :
  justified (past ++ [msg]) msg reason ∧ ∀ later, Feed later b = (true, reason, b).
Proof.
  destruct (feed_all_knows past new_boundary [] gate_knows_new Hrun) as (Hk & _ & Hc).
  simpl in Hk, Hc. set (b0 := feed_all past new_boundary) in *.
  assert (gate_knows (past ++ [msg]) (Observe msg (Gate b0))) as Hk' by by apply Observe_knows.
  assert (CancellationSeen (Observe msg (Gate b0)) = false) as Hc' by by rewrite Observe_cancel.
  unfold Feed in Hend. rewrite Hrun in Hend. cbv zeta in Hend.
  remember (Boundary (Observe msg (Gate b0)) false (Reason b0)) as b1 eqn:Eb1.
  assert (Observe msg (Gate b0) = Gate b1) as EG by by rewrite Eb1. rewrite EG in *. clear EG Eb1.
  assert (Ended b = true ∧ Reason b = reason) as [He Hr].
  { clear -Hend. unfold feed_stopped, feed_event, mark in Hend.
    destruct msg; repeat case_match; simplify_eq/=; done. }
  split; [|intros later; unfold Feed; by rewrite He, Hr].
  destruct msg as [e|m|s|er|m]; try done.
  - eapply event_justified; [exact Hk'|apply TrimSpace_idemp| |exact Hend]. by intros H.
  - destruct (EqualFold (TrimSpace (st_State s)) "stopped" && SawRunning (Gate b1)) eqn:E1.
    { apply andb_true_iff in E1 as [E1 Hs].
      eapply stopped_justified; [exact Hk'|exact Hs|apply TrimSpace_idemp|by split|exact Hend]. }
    destruct (EqualFold (TrimSpace (st_State s)) "idle" && _) eqn:E2; [|done].
    unfold mark in Hend. simplify_eq. apply andb_true_iff in E2 as [E2 Ha].
    eapply idle_justified; [exact Hk'|exact Hc'|apply TrimSpace_idemp|by split|exact Ha].
  - destruct ((sget m "type" =s "status") && (sget m "state" =s "stopped") && SawRunning (Gate b1)) eqn:E1.
    { apply andb_true_iff in E1 as [E1 Hs]. bool_to_prop.
      eapply stopped_justified; [exact Hk'|exact Hs|apply FrameTurnID_trimmed|by split|exact Hend]. }
    destruct ((sget m "type" =s "status") && (sget m "state" =s "idle") && _) eqn:E2.
    { unfold mark in Hend. simplify_eq. apply andb_true_iff in E2 as [E2 Ha]. bool_to_prop.
      eapply idle_justified; [exact Hk'|exact Hc'|apply FrameTurnID_trimmed|by split|exact Ha]. }
    destruct (_ || _); [|done].
    eapply event_justified; [exact Hk'|apply FrameTurnID_trimmed| |exact Hend]. by intros H.
Qed.

(** * Properties *)

(** C32. A boundary never ends a turn without cause. Whatever messages came before, when it
    reports the end there was a running status, and: a stream end or idle status carries
    the id of a running turn, no running status named a newer generation, and a progress
    chunk has been seen; a stop carries that id too, unless no turn id was ever named.
    Once ended it stays ended, with the same reason. *)
Theorem boundary_end_justified (past : list message) (msg : message) (reason : string)
    (b : TurnBoundary) (Hrun : Ended (feed_all past new_boundary) = false)
    (Hend : Feed msg (feed_all past new_boundary) = (true, reason, b)) :
  justified (past ++ [msg]) msg reason ∧ ∀ later, Feed later b = (true, reason, b).
Proof. by apply feed_justified. Qed.

(** The turn generation a gate expects never goes back, whatever is observed. *)
Theorem gate_generation_monotone (msgs : list message) (g : TurnLifecycleGate) :
  (ParseTurnGeneration (ExpectedTurnID g) <=
   ParseTurnGeneration (ExpectedTurnID (foldl (λ g m, Observe m g) g msgs)))%Z.
Proof.
  revert g. induction msgs as [|m msgs IH]; intros g; simpl; [done|].
  pose proof (Observe_gen m g). specialize (IH (Observe m g)). lia.
Qed.

(** A turn that was cancelled before it progressed is not ended by its idle status: no
    message sets the flag the idle rule looks at. *)
Theorem boundary_cancel_never_seen (past : list message) (msg : message) (b : TurnBoundary)
    (Hrun : Ended (feed_all past new_boundary) = false)
    (Hnone : Forall (λ m, ¬ says_progress m) (past ++ [msg])) :
  Feed msg (feed_all past new_boundary) ≠ (true, TurnEndIdle, b).
Proof.
  intros Hend.
  destruct (feed_all_knows past new_boundary [] gate_knows_new Hrun) as (Hk & _ & Hc).
  simpl in Hk, Hc. set (b0 := feed_all past new_boundary) in *.
  assert (gate_knows (past ++ [msg]) (Observe msg (Gate b0))) as Hk' by by apply Observe_knows.
  assert (CancellationSeen (Observe msg (Gate b0)) = false) as Hc' by by rewrite Observe_cancel.
  assert (SawTurnProgress (Observe msg (Gate b0)) = false) as Hp.
  { destruct (SawTurnProgress _) eqn:E; [|done]. destruct (knows_progress _ _ Hk' E) as (p & Hin & Hs).
    rewrite Forall_forall in Hnone. by destruct (Hnone p Hin). }
  assert (∀ t, AllowIdleComplete t (Observe msg (Gate b0)) = false) as Ha.
  { intros t. unfold AllowIdleComplete, IsIdleTerminalAllowed. rewrite Hp, Hc'.
    destruct (_ || _); [done|]. destruct (_ <>s ""); [|done]. by destruct (negb _). }
  unfold Feed, feed_stopped, feed_event, mark in Hend. rewrite Hrun in Hend.
  cbn [Gate Ended Reason] in Hend. destruct msg as [e|m|s|er|m]; try done.
  - by case_match.
  - rewrite Ha, andb_false_r in Hend. by repeat case_match.
  - rewrite Ha, andb_false_r in Hend. by repeat case_match.
Qed.

Definition running (tid : string) : message :=
  MMap (Some (mlit [("type", VStr "status"); ("state", VStr "running"); ("turn_id", VStr tid)])).
Definition chunk (tid : string) : message :=
  MMap (Some (mlit [("type", VStr "event"); ("mode", VStr "messages"); ("turn_id", VStr tid)])).
Definition idle (tid : string) : message :=
  MMap (Some (mlit [("type", VStr "status"); ("state", VStr "idle"); ("turn_id", VStr tid)])).

Lemma boundary_end_justified_witness :
  ∃ b, Feed (idle "L:2") (feed_all [running "L:1"; running "L:2"; chunk "L:2"] new_boundary) =
         (true, TurnEndIdle, b) ∧
       ∀ later, Feed later b = (true, TurnEndIdle, b).
Proof.
  eexists. split; [vm_compute; reflexivity|].
  eapply (boundary_end_justified [running "L:1"; running "L:2"; chunk "L:2"] (idle "L:2"));
    vm_compute; reflexivity.
Defined.

Lemma boundary_cancel_never_seen_witness :
  ∀ b, Feed (idle "L:1") (feed_all [running "L:1"] new_boundary) ≠ (true, TurnEndIdle, b).
Proof.
  intros b. apply boundary_cancel_never_seen; [vm_compute; reflexivity|].
  repeat (constructor; [vm_compute; discriminate|]). constructor.
Defined.
