(* ===== verification/Runes.v ===== *)
(** Go runes: what [[]rune(s)] sees of a string. A byte that starts no valid UTF-8
    encoding is a rune of its own, the replacement character. *)

From S2P Require Import Prelude GoStr.

(** * Definitions *)

Definition in_bytes (lo hi : nat) (c : ascii) : bool :=
  (lo <=? Ascii.nat_of_ascii c)%nat && (Ascii.nat_of_ascii c <=? hi)%nat.

Definition cont (c : ascii) : bool := in_bytes 128 191 c.

(** The length of the encoding at the head of [l], 0 when there is none. *)
Definition rune_len (l : list ascii) : nat :=
  match l with
  | [] => 0
  | a :: l =>
      let n := Ascii.nat_of_ascii a in
      if (n <? 128)%nat then 1
      else if in_bytes 194 223 a then
        match l with b :: _ => if cont b then 2 else 0 | _ => 0 end
      else if in_bytes 224 239 a then
        match l with
        | b :: c :: _ =>
            if in_bytes (if (n =? 224)%nat then 160 else 128) (if (n =? 237)%nat then 159 else 191) b && cont c
            then 3 else 0
        | _ => 0
        end
      else if in_bytes 240 244 a then
        match l with
        | b :: c :: d :: _ =>
            if in_bytes (if (n =? 240)%nat then 144 else 128) (if (n =? 244)%nat then 143 else 191) b &&
               cont c && cont d
            then 4 else 0
        | _ => 0
        end
      else 0
  end.

Definition replacement : list ascii := [byte 239; byte 191; byte 189].

(** The runes of a text, each as the bytes [string(r)] gives back. *)
Fixpoint runes_of (fuel : nat) (l : list ascii) : list (list ascii) :=
  match fuel, l with
  | S fuel, _ :: rest =>
      match rune_len l with
      | O => replacement :: runes_of fuel rest
      | k => take k l :: runes_of fuel (drop k l)
      end
  | _, _ => []
  end.

Definition runes (s : string) : list (list ascii) :=
  runes_of (String.length s) (to_bytes s).

(** [len([]rune(s))]. *)
Definition RuneCount (s : string) : Z := Z.of_nat (length (runes s)).

(** [string(runes[:n])]. *)
Definition take_runes (n : nat) (s : string) : string := of_bytes (concat (take n (runes s))).

(** * Lemmas *)

Lemma rune_len_le l : rune_len l ≤ length l.
Proof. unfold rune_len. repeat (case_match; simpl; try lia). Qed.

Lemma runes_of_fuel f1 f2 l : length l ≤ f1 → length l ≤ f2 → runes_of f1 l = runes_of f2 l.
Proof.
  revert f2 l. induction f1 as [|f1 IH]; intros f2 l H1 H2.
  - destruct l; [by destruct f2|simpl in H1; lia].
  - destruct l as [|a l]; [by destruct f2|]. destruct f2 as [|f2]; [simpl in H2; lia|].
    cbn [runes_of]. simpl in H1, H2.
    destruct (rune_len (a :: l)) as [|k]; f_equal; apply IH; try lia;
      rewrite length_drop; simpl; lia.
Qed.

Lemma runes_of_length f l : length (runes_of f l) ≤ length l.
Proof.
  revert l. induction f as [|f IH]; intros l; [simpl; lia|]. destruct l as [|a l]; [done|].
  cbn [runes_of]. pose proof (rune_len_le (a :: l)) as Hl.
  destruct (rune_len (a :: l)) as [|k]; simpl; [specialize (IH l); lia|].
  specialize (IH (drop k l)). rewrite length_drop in IH. simpl in Hl. lia.
Qed.

Lemma length_to_bytes s : length (to_bytes s) = String.length s.
Proof. induction s as [|a s IH]; simpl; [done|by rewrite IH]. Qed.

Lemma RuneCount_le s : (RuneCount s <= Z.of_nat (String.length s))%Z.
Proof. unfold RuneCount, runes. pose proof (runes_of_length (String.length s) (to_bytes s)).
  rewrite length_to_bytes in *. lia. Qed.

Lemma RuneCount_pos s : s ≠ "" → (0 < RuneCount s)%Z.
Proof.
  unfold RuneCount, runes. destruct s as [|a s]; [done|]. intros _. cbn [to_bytes String.length runes_of].
  destruct (rune_len _); simpl; lia.
Qed.

Lemma RuneCount_empty : RuneCount "" = 0%Z.
Proof. done. Qed.

(** ** Cutting a text at a rune *)

Lemma rune_len_app l1 l2 k : rune_len l1 = S k → rune_len (take (S k) l1 ++ l2) = S k.
Proof.
  unfold rune_len. destruct l1 as [|a l1]; [done|].
  destruct (_ <? 128)%nat eqn:E1; [intros [= <-]; simpl; by rewrite E1|].
  destruct (in_bytes 194 223 a) eqn:E2.
  { destruct l1 as [|b l1]; [done|]. destruct (cont b) eqn:Eb; [|done]. intros [= <-].
    simpl. by rewrite E1, E2, Eb. }
  destruct (in_bytes 224 239 a) eqn:E3.
  { destruct l1 as [|b [|c l1]]; [done..|]. destruct (in_bytes _ _ b && _) eqn:Eb; [|done].
    intros [= <-]. simpl. by rewrite E1, E2, E3, Eb. }
  destruct (in_bytes 240 244 a) eqn:E4; [|done].
  destruct l1 as [|b [|c [|d l1]]]; [done..|]. destruct (in_bytes _ _ b && _ && _) eqn:Eb; [|done].
  intros [= <-]. simpl. by rewrite E1, E2, E3, E4, Eb.
Qed.

(** A list of bytes that decodes as one rune whatever follows. *)
Definition one_rune (r : list ascii) : Prop :=
  r ≠ [] ∧ ∀ l, rune_len (r ++ l) = length r.

Lemma runes_of_one f l : Forall one_rune (runes_of f l).
Proof.
  revert l. induction f as [|f IH]; intros l; [constructor|].
  destruct l as [|a l]; [constructor|]. cbn [runes_of].
  destruct (rune_len (a :: l)) as [|k] eqn:E; constructor; try apply IH; split; try done.
  intros l'. rewrite (rune_len_app _ _ _ E). rewrite length_take.
  pose proof (rune_len_le (a :: l)). lia.
Qed.

Lemma runes_of_app rs l f :
  Forall one_rune rs → length (concat rs ++ l) ≤ f →
  runes_of f (concat rs ++ l) = rs ++ runes_of (length l) l.
Proof.
  intros H. revert f. induction H as [|r rs [Hne Hr] _ IH]; intros f Hf.
  { simpl in *. apply runes_of_fuel; lia. }
  simpl in *. rewrite <-app_assoc in *.
  assert (∃ k, length r = S k) as [k Hk] by (destruct r; [done|by eexists]).
  rewrite length_app in Hf. destruct f as [|f]; [lia|].
  destruct (r ++ concat rs ++ l) as [|a rest] eqn:E; [by destruct r|]. cbn [runes_of].
  rewrite <-E, Hr, Hk. replace (S k) with (length r) by done.
  rewrite take_app_length, drop_app_length, IH by lia. done.
Qed.

Lemma length_app_string s t : String.length (s +:+ t) = String.length s + String.length t.
Proof. induction s as [|a s IH]; simpl; [done|by rewrite IH]. Qed.

Lemma RuneCount_take_app n s t :
  RuneCount t = 1%Z →
  RuneCount (take_runes n s +:+ t) = (Z.of_nat (n `min` length (runes s)) + 1)%Z.
Proof.
  unfold RuneCount. intros Ht.
  assert (runes (take_runes n s +:+ t) = take n (runes s) ++ runes t) as ->.
  { unfold runes at 1, take_runes. rewrite to_bytes_app, to_of_bytes.
    rewrite runes_of_app.
    - unfold runes at 2. by rewrite length_to_bytes.
    - apply Forall_take, runes_of_one.
    - rewrite length_app_string, length_app, length_to_bytes.
      by rewrite <-(length_to_bytes (of_bytes _)), to_of_bytes. }
  rewrite length_app, length_take. lia.
Qed.

#[export] Hint Resolve RuneCount_pos RuneCount_le : go.

Example runes_mixed : RuneCount "aé中…" = 4%Z.
Proof. by vm_compute. Qed.

Example runes_broken : runes (of_bytes [byte 228; byte 184; byte 65]) = [replacement; replacement; [byte 65]].
Proof. by vm_compute. Qed.
