(* ===== verification/Classifier.v ===== *)
(** The event classifier (appkit/classifier.go, appkit/thinking_step.go,
    intent_hints.go): which messages of a turn carry assistant text, which end the turn
    with a deliverable reply, which fail it, and which show as a thinking step. *)

From S2P Require Import Prelude GoStr Runes Value Events TurnId StreamTerminal Mux Protocol TurnGate.

(** * Results and configuration *)

Inductive ChatEventTerminal :=
  | ChatEventContinue
  | ChatEventDeliverableComplete
  | ChatEventFailedComplete.

#[export] Instance ChatEventTerminal_eq_dec : EqDecision ChatEventTerminal.
Proof. solve_decision. Defined.

(** [Err] is the text of the error, [None] when nil. *)
Record ChatEventResult := ChatResult {
  Content : string;
  ThinkingStep : string;
  Terminal : ChatEventTerminal;
  CompletionEvent : string;
  Err : option string;
}.

(** A nil [map[string]bool] is [None]. *)
Record ClassifierConfig := MkClassifierConfig {
  DeliverablePhases : option (gmap string bool);
  MinDeliverableRunes : Z;
  ThinkingStepEvents : option (gmap string bool);
  TreatStatusIdleAsComplete : bool;
  TreatStreamEndAsComplete : bool;
  GateTurnEndSignals : bool;
}.

(** [m[k]] of a [map[string]bool], nil or not. *)
Definition flag (m : option (gmap string bool)) (k : string) : bool := default false (m ≫= lookup k).

(** [NewEventClassifier]; [None] is its panic. A classifier is its configuration. *)
Definition NewEventClassifier (cfg : ClassifierConfig) : option ClassifierConfig :=
  match DeliverablePhases cfg with
  | None => None
  | Some _ =>
      Some (MkClassifierConfig (DeliverablePhases cfg)
              (if (MinDeliverableRunes cfg <=? 0)%Z then 8 else MinDeliverableRunes cfg)
              (ThinkingStepEvents cfg) (TreatStatusIdleAsComplete cfg)
              (TreatStreamEndAsComplete cfg) (GateTurnEndSignals cfg))
  end.

Definition IntentHintTextCompletion : string := "text_completion".
Definition IntentHintImageToText : string := "image_to_text".
Definition IntentHintOCR : string := "ocr".
Definition IntentHintEmbed : string := "embed".

Definition DefaultDeliverablePhases : gmap string bool :=
  list_to_map [("quiz", true); ("goal_completion", true); ("text_completion", true);
               ("image_to_text", true); ("ocr", true); ("embed", true); ("chitchat", true)].

(** * Thinking steps *)

Definition eventLoopHistoryReplayed : string := "soothe.lifecycle.loop.history.replayed".
Definition maxThinkingStepRunes : nat := 280.

Definition defaultThinkingStepEvents : gmap string bool :=
  list_to_map [("soothe.cognition.plan.step.started", true);
               ("soothe.cognition.plan.step.completed", true);
               ("soothe.cognition.plan.step.failed", true);
               ("soothe.lifecycle.iteration.started", true);
               ("soothe.agent.loop.step.started", true);
               ("soothe.agent.loop.started", true);
               (EventPlanBatchStarted, true);
               (EventPlanCreated, true);
               (EventGoalCreated, true);
               (EventToolStarted, true)].

Fixpoint strField (data : gomap) (keys : list string) : string :=
  match keys with
  | [] => ""
  | key :: keys =>
      match to_str (mget data key) with
      | Some v => let s := TrimSpace v in if s <>s "" then s else strField data keys
      | None => strField data keys
      end
  end.

Definition formatPlanStepLine (data : gomap) (suffix : string) : string :=
  let stepID := strField data ["step_id"] in
  let desc := strField data ["description"] in
  if (stepID <>s "") && (suffix <>s "") then "Step " +:+ stepID +:+ ": " +:+ suffix
  else if (stepID <>s "") && (desc <>s "") then "Step " +:+ stepID +:+ ": " +:+ desc
  else if stepID <>s "" then "Step " +:+ stepID
  else if (desc <>s "") && (suffix <>s "") then "Step: " +:+ suffix
  else if desc <>s "" then "Step: " +:+ desc
  else if suffix <>s "" then "Step: " +:+ suffix
  else "".

Definition formatAgentStepLine (data : gomap) (suffix : string) : string :=
  let stepID := strField data ["step_id"] in
  let desc := strField data ["description"] in
  if (stepID <>s "") && (desc <>s "") then "Step " +:+ stepID +:+ ": " +:+ desc
  else if desc <>s "" then
    if suffix <>s "" then "Step: " +:+ suffix else "Step: " +:+ desc
  else if stepID <>s "" then "Step " +:+ stepID
  else "".

(** The line of a failed plan step. *)
Definition failed_step_line (data : gomap) : string :=
  let stepID := strField data ["step_id"] in
  let errMsg := strField data ["error"] in
  if (stepID <>s "") && (errMsg <>s "") then "Step " +:+ stepID +:+ " failed: " +:+ errMsg
  else if stepID <>s "" then "Step " +:+ stepID +:+ " failed"
  else if errMsg <>s "" then "Step failed: " +:+ errMsg
  else "".

(** [prefix] before a field, nothing when the field is empty. *)
Definition labelled (prefix field : string) : string :=
  if field <>s "" then prefix +:+ field else "".

(** The line of an allowlisted event, [None] when the switch has no case for it. *)
Definition step_line (eventType : string) (data : gomap) : option string :=
  if eventType =s "soothe.cognition.plan.step.started" then Some (formatPlanStepLine data "")
  else if eventType =s "soothe.cognition.plan.step.completed" then Some (formatPlanStepLine data "done")
  else if eventType =s "soothe.cognition.plan.step.failed" then Some (failed_step_line data)
  else if eventType =s "soothe.agent.loop.step.started" then Some (formatAgentStepLine data "")
  else if eventType =s EventPlanBatchStarted then
    Some (match to_float (mget data "parallel_count") with
          | Some n => if SpecFloat.SFltb (SpecFloat.S754_zero false) n
                      then "Running " +:+ Itoa (int_of_float n) +:+ " steps in parallel" else ""
          | None => ""
          end)
  else if (eventType =s EventPlanCreated) || (eventType =s "soothe.agent.loop.started") then
    Some (labelled "Goal: " (strField data ["goal"]))
  else if eventType =s EventGoalCreated then
    Some (labelled "Goal: " (strField data ["friendly_message"; "description"]))
  else if eventType =s "soothe.lifecycle.iteration.started" then
    Some (labelled "Iteration: " (strField data ["goal_description"]))
  else if eventType =s EventToolStarted then
    Some (labelled "Tool: " (strField data ["tool_name"; "name"]))
  else None.

(** A line cut to the longest a step may be. *)
Definition clip (line : string) : string :=
  if (Z.of_nat maxThinkingStepRunes <? RuneCount line)%Z
  then take_runes maxThinkingStepRunes line +:+ "…" else line.

Definition extractThinkingStep (cl : ClassifierConfig) (eventType : string) (data : gomap) : option string :=
  match data with
  | None => None
  | Some _ =>
      if eventType =s "" then None
      else
        let eventType := TrimSpace eventType in
        let allow := match ThinkingStepEvents cl with
                     | None => Some defaultThinkingStepEvents
                     | allow => allow
                     end in
        if negb (flag allow eventType) then None
        else
          line ← step_line eventType data;
          let line := TrimSpace line in
          if line =s "" then None else Some (clip line)
  end.

(** * Classification *)

Definition deliverableResult (content completionEvent : string) : ChatEventResult :=
  ChatResult content "" ChatEventDeliverableComplete completionEvent None.
Definition continueResult (content : string) : ChatEventResult :=
  ChatResult content "" ChatEventContinue "" None.
Definition failedResult (err : string) : ChatEventResult :=
  ChatResult "" "" ChatEventFailedComplete "" (Some err).
Definition thinkingStepResult (step : string) : ChatEventResult :=
  ChatResult "" (TrimSpace step) ChatEventContinue "" None.

(** [ChatEventResult{Terminal: ChatEventContinue}]. *)
Definition nothing : ChatEventResult := continueResult "".

Definition isDeliverableLoopPhase (cl : ClassifierConfig) (phase : string) : bool :=
  flag (DeliverablePhases cl) phase.

Definition IsDeliverableCompletionEvent (cl : ClassifierConfig) (eventType : string) : bool :=
  if eventType =s "" then false
  else if bool_decide (eventType ∈ ["status.idle"; "status.stopped"; STREAM_END; "idle_timeout";
                                    "query_timeout"; "stream_closed"]) then true
  else if eventType =s EventFinalReport then true
  else if HasPrefix eventType "soothe.protocol.message." then
    isDeliverableLoopPhase cl (String.substring 24 (String.length eventType - 24) eventType)
  else Contains eventType "soothe.output" && Contains eventType "responded".

Definition IsSubstantiveAssistantReply (cl : ClassifierConfig) (content : string) : bool :=
  (MinDeliverableRunes cl <=? RuneCount (TrimSpace content))%Z.

Definition ResolveDeliverableFinalContent (cl : ClassifierConfig) (eventResult : ChatEventResult)
    (accumulated : string) : option string :=
  if bool_decide (Terminal eventResult ≠ ChatEventDeliverableComplete) then None
  else if negb (IsDeliverableCompletionEvent cl (CompletionEvent eventResult)) then None
  else
    let final := TrimSpace (Content eventResult) in
    if final <>s "" then Some final
    else
      let final := TrimSpace accumulated in
      if (final <>s "") && IsSubstantiveAssistantReply cl final then Some final else None.

Definition isStreamingMessageType (msgType : string) : bool :=
  bool_decide (msgType ∈ ["AIMessageChunk"; "ai_chunk"; "message_chunk"]).
Definition isTerminalMessageType (msgType : string) : bool :=
  bool_decide (msgType ∈ ["AIMessage"; "ai"; "assistant"]).

(** The text of a block. *)
Definition content_block_text (blk : value) : string :=
  match to_map blk with Some m => sget m "text" | None => "" end.

Definition extractContentFromMessage (msgMap : gomap) : string :=
  let c := sget msgMap "content" in
  if c <>s "" then c
  else match to_arr (mget msgMap "content") with
       | Some (_ :: _ as arr) => String.concat "" (item_text <$> arr)
       | _ =>
           match to_arr (mget msgMap "content_blocks") with
           | Some (_ :: _ as blocks) => String.concat "" (content_block_text <$> blocks)
           | _ => ""
           end
       end.

(** The first item of a messages payload, when it is a map. *)
Definition first_message (data : value) : option gomap :=
  match to_arr data with Some (item :: _) => to_map item | _ => None end.

Definition messagesModeAssistantContent (m : EventMessage) : option string :=
  if em_Mode m <>s "messages" then None
  else
    msgMap ← first_message (em_Data m);
    if TrimSpace (sget msgMap "phase") <>s "" then None
    else
      let msgType := sget msgMap "type" in
      if (msgType <>s "") && negb (isTerminalMessageType msgType) then None
      else
        let content := TrimSpace (extractContentFromMessage msgMap) in
        if content =s "" then None else Some content.

(** The type, content and phase of the first message. *)
Definition firstMessagePayload (data : value) : option (string * string * string) :=
  msgMap ← first_message data;
  Some (sget msgMap "type", extractContentFromMessage msgMap, sget msgMap "phase").

Definition isSubscriptionMetadataMap (data : gomap) : bool :=
  match data with
  | None => false
  | Some _ =>
      mhas data "loop_id" && mhas data "latest_seq" &&
      forallb (λ key, TrimSpace (sget data key) =s "")
        ["content"; "text"; "response"; "output"; "message"; "report"; "answer"]
  end.

Definition content_keys : list string :=
  ["final_stdout_message"; "completion_summary"; "content"; "text"; "response"; "output"; "message"; "report"].

(** The first non-empty field. *)
Fixpoint first_field (data : gomap) (keys : list string) : option string :=
  match keys with
  | [] => None
  | key :: keys => if sget data key <>s "" then Some (sget data key) else first_field data keys
  end.

Definition extractContentFromData (data : gomap) : option string :=
  if isSubscriptionMetadataMap data then None
  else match first_field data content_keys with
       | Some val => Some val
       | None =>
           nested ← to_map (mget data "data");
           if isSubscriptionMetadataMap nested then None else first_field nested content_keys
       end.

Definition isNamespaceMatch (ns dataType pattern : string) : bool :=
  Contains dataType pattern || Contains ns pattern.

Definition isFinalOutputEvent (cl : ClassifierConfig) (dataType ns : string) : bool :=
  let combined := dataType +:+ " " +:+ ns in
  Contains combined "final_report" ||
  existsb (Contains combined) (map_to_list (default ∅ (DeliverablePhases cl))).*1.

(** The stages of the event case: [None] falls through to the next. *)
Notation "a 'or_else' b" := (match a with Some r => Some r | None => b end)
  (at level 60, right associativity) : go_scope.

(** [if b then Some r else None] *)
Notation "'given' b 'yields' r" := (if b then Some r else None) (at level 55) : go_scope.

Section classifier.
Context (parse_json : string → option value) (cl : ClassifierConfig).

(** The object event data holds, parsed from a text if need be; the object is [None]
    when the text is [null]. *)
Definition normalizeEventData (data : value) : option gomap :=
  match data with
  | VMap m => Some m
  | VStr s =>
      match parse_json s with
      | Some (VMap m) => Some m
      | Some VNil => Some None
      | _ => None
      end
  | _ => None
  end.

Definition step_stage (m : EventMessage) : option ChatEventResult :=
  data ← normalizeEventData (em_Data m);
  let dt := sget data "type" in
  let dataType := if dt <>s "" then dt else EventType m in
  if dataType =s eventLoopHistoryReplayed then Some nothing
  else thinkingStepResult <$> extractThinkingStep cl dataType data.

Definition stream_end_stage (gate : option TurnLifecycleGate) (accumulated : string) (m : EventMessage) :
    option ChatEventResult :=
  given (em_Mode m =s "custom") && IsTurnEndCustomData (em_Data m) yields
    (if TreatStreamEndAsComplete cl && IsSubstantiveAssistantReply cl accumulated &&
        from_option (AllowStreamEnd (data_turn (em_Data m) (TrimSpace (em_TurnID m)))) false gate
     then deliverableResult (TrimSpace accumulated) STREAM_END else nothing).

(** A phased loop message. *)
Definition loop_message_result (loopMsg : LoopAIMessage) (content : string) : ChatEventResult :=
  if isStreamingMessageType (ai_Type loopMsg) then continueResult content
  else if isDeliverableLoopPhase cl (ai_Phase loopMsg) && IsSubstantiveAssistantReply cl content
  then deliverableResult content ("soothe.protocol.message." +:+ ai_Phase loopMsg)
  else continueResult content.

Definition raw_message_result (msgType rawContent phase : string) : ChatEventResult :=
  if isTerminalMessageType msgType || (msgType =s "") then
    if isDeliverableLoopPhase cl phase && IsSubstantiveAssistantReply cl rawContent
    then deliverableResult rawContent ("soothe.protocol.message." +:+ phase)
    else continueResult rawContent
  else continueResult rawContent.

Definition messages_stage (m : EventMessage) : option ChatEventResult :=
  if em_Mode m <>s "messages" then None
  else
    let payload := firstMessagePayload (em_Data m) in
    (match payload with
     | Some (msgType, rawContent, _) =>
         given (rawContent <>s "") && isStreamingMessageType msgType yields continueResult rawContent
     | None => None
     end)
    or_else
    (loopMsg ← EventLoopAIMessage m;
     let content := LoopAIText loopMsg in
     given content <>s "" yields loop_message_result loopMsg content)
    or_else (continueResult <$> messagesModeAssistantContent m)
    or_else
    (match payload with
     | Some (msgType, rawContent, phase) =>
         given rawContent <>s "" yields raw_message_result msgType rawContent phase
     | None => None
     end).

Definition error_result (ns dataType : string) (data : gomap) : ChatEventResult :=
  let errType := if dataType =s "" then ns else dataType in
  let msg := sget data "message" in
  if msg <>s "" then failedResult (errType +:+ ": " +:+ msg)
  else match extractContentFromData data with
       | Some content => failedResult (errType +:+ ": " +:+ content)
       | None => failedResult errType
       end.

Definition data_stage (m : EventMessage) : option ChatEventResult :=
  let ns := EventType m in
  match normalizeEventData (em_Data m) with
  | None => Some nothing
  | Some data =>
      let dataType := sget data "type" in
      let completionEvent := if dataType =s "" then ns else dataType in
      let matches := isNamespaceMatch ns dataType in
      (if matches "soothe.output" || matches "responded" then
         content ← extractContentFromData data;
         Some (if isFinalOutputEvent cl dataType ns then deliverableResult content completionEvent
               else continueResult content)
       else None)
      or_else
      (if matches "agent_loop.completed" || matches "agent_loop.reasoned" || matches "loop.completed"
       then continueResult <$> extractContentFromData data else None)
      or_else
      (if matches "final_report" then
         content ← extractContentFromData data; Some (deliverableResult content completionEvent)
       else None)
      or_else
      (given matches "soothe.error." yields error_result ns dataType data)
      or_else
      (if matches "stream" || matches "progress" || matches EventToolCallUpdatesBatch ||
          matches EventStreamToolCallUpdate
       then continueResult <$> to_str (mget data "delta") else None)
  end.

Definition event_result (gate : option TurnLifecycleGate) (accumulated : string) (m : EventMessage) :
    ChatEventResult :=
  default nothing
    (step_stage m or_else stream_end_stage gate accumulated m or_else messages_stage m or_else data_stage m).

Definition status_result (gate : option TurnLifecycleGate) (accumulated : string) (m : StatusResponse) :
    ChatEventResult :=
  if TreatStatusIdleAsComplete cl && EqualFold (TrimSpace (st_State m)) "idle" &&
     IsSubstantiveAssistantReply cl accumulated
  then
    if GateTurnEndSignals cl &&
       negb (from_option (AllowIdleComplete (TrimSpace (st_TurnID m))) false gate)
    then nothing else deliverableResult (TrimSpace accumulated) "status.idle"
  else nothing.

Definition processChatEvent (msg : message) (accumulated : string) (gate : option TurnLifecycleGate) :
    ChatEventResult :=
  match msg with
  | MEvent m => event_result gate accumulated m
  | MEnvelope m =>
      if env_Type m =s "error" then
        let '(code, text) :=
          match env_Error m with
          | Some e => (eo_Code e, eo_Message e)
          | None => ((-32603)%Z, "")
          end in
        failedResult ("daemon error [" +:+ Itoa code +:+ "]: " +:+ text)
      else nothing
  | MError m => failedResult ("daemon error [" +:+ er_Code m +:+ "]: " +:+ er_Message m)
  | MStatus m => status_result gate accumulated m
  | MMap _ => nothing
  end.

(** [ClassifyTurn]: the outcome and the gate, which is observed first. *)
Definition ClassifyTurn (msg : message) (accumulated : string) (gate : option TurnLifecycleGate) :
    ChatEventResult * option TurnLifecycleGate :=
  let gate := Observe msg <$> gate in
  (processChatEvent msg accumulated gate, gate).

Definition Classify (msg : message) (accumulated : string) : ChatEventResult :=
  (ClassifyTurn msg accumulated None).1.
End classifier.

(** * Lemmas *)

Lemma or_else_Some {A} (a b : option A) r : (a or_else b) = Some r → a = Some r ∨ b = Some r.
Proof. destruct a; naive_solver. Qed.

Lemma terminal_not_streaming ty : isTerminalMessageType ty = true → isStreamingMessageType ty = false.
Proof.
  unfold isTerminalMessageType, isStreamingMessageType. intros H%bool_decide_eq_true.
  apply bool_decide_eq_false. rewrite !elem_of_cons, elem_of_nil in *. naive_solver.
Qed.

Lemma substantive_nonempty cl c :
  (0 < MinDeliverableRunes cl)%Z → IsSubstantiveAssistantReply cl c = true → TrimSpace c ≠ "".
Proof.
  unfold IsSubstantiveAssistantReply. intros Hm H%Z.leb_le E. rewrite E, RuneCount_empty in H. lia.
Qed.

Lemma NewEventClassifier_min cfg cl : NewEventClassifier cfg = Some cl → (0 < MinDeliverableRunes cl)%Z.
Proof.
  unfold NewEventClassifier. destruct (DeliverablePhases cfg); [|done]. intros [= <-]. simpl.
  destruct (Z.leb_spec (MinDeliverableRunes cfg) 0); lia.
Qed.

Lemma first_field_ne data keys val : first_field data keys = Some val → val ≠ "".
Proof.
  induction keys as [|k keys IH]; [done|]. simpl.
  destruct (String.eqb_spec (sget data k) ""); simpl; [done|]. by intros [= <-].
Qed.

Lemma extractContentFromData_ne data val : extractContentFromData data = Some val → val ≠ "".
Proof.
  unfold extractContentFromData. destruct (isSubscriptionMetadataMap data); [done|].
  destruct (first_field data content_keys) eqn:E.
  { intros [= <-]. by eapply first_field_ne. }
  intros H. apply bind_Some in H as (nested & _ & H). revert H.
  destruct (isSubscriptionMetadataMap nested); [done|]. apply first_field_ne.
Qed.

(** ** Thinking steps *)

Lemma clip_bounded line :
  (RuneCount (clip line) <= 281)%Z ∧ (line ≠ "" → clip line ≠ "") ∧
  ((RuneCount line <= 280)%Z → clip line = line).
Proof.
  unfold clip. change (Z.of_nat maxThinkingStepRunes) with 280%Z.
  destruct (Z.ltb_spec 280 (RuneCount line)) as [H|H].
  - rewrite RuneCount_take_app by (vm_compute; reflexivity). split; [|split; [|lia]].
    + change (RuneCount "…") with 1%Z. unfold maxThinkingStepRunes. lia.
    + intros _ E. apply (f_equal String.length) in E. rewrite length_app_string in E. simpl in E. lia.
  - split; [lia|]. by split.
Qed.

Lemma extractThinkingStep_spec cl t data step :
  extractThinkingStep cl t data = Some step →
  ∃ line, flag (match ThinkingStepEvents cl with None => Some defaultThinkingStepEvents | a => a end)
            (TrimSpace t) = true ∧
    step_line (TrimSpace t) data = Some line ∧ TrimSpace line ≠ "" ∧ step = clip (TrimSpace line).
Proof.
  unfold extractThinkingStep. destruct data as [d|]; [|done].
  destruct (t =s ""); [done|]. destruct (flag _ _) eqn:Ef; [|done]. simpl.
  intros H. apply bind_Some in H as (line & Hl & H). exists line.
  destruct (String.eqb_spec (TrimSpace line) ""); [done|]. by simplify_eq.
Qed.

(** * What a deliverable result is evidence of *)

(** The reply [content] and completion event [ev] that message [msg] delivers, and why. *)
Inductive delivers (parse_json : string → option value) (cl : ClassifierConfig)
    (gate : option TurnLifecycleGate) (accumulated : string) : message → string → string → Prop :=
  | by_phase m msgType phase content :
      em_Mode m = "messages" →
      (∃ lm, EventLoopAIMessage m = Some lm ∧ msgType = ai_Type lm ∧ phase = ai_Phase lm ∧ content = LoopAIText lm) ∨
      firstMessagePayload (em_Data m) = Some (msgType, content, phase) →
      isStreamingMessageType msgType = false →
      isDeliverableLoopPhase cl phase = true → IsSubstantiveAssistantReply cl content = true →
      delivers parse_json cl gate accumulated (MEvent m) content ("soothe.protocol.message." +:+ phase)
  | by_output m data content :
      normalizeEventData parse_json (em_Data m) = Some data → extractContentFromData data = Some content →
      isNamespaceMatch (EventType m) (sget data "type") "final_report" = true ∨
      (isNamespaceMatch (EventType m) (sget data "type") "soothe.output" = true ∨
       isNamespaceMatch (EventType m) (sget data "type") "responded" = true) ∧
      isFinalOutputEvent cl (sget data "type") (EventType m) = true →
      delivers parse_json cl gate accumulated (MEvent m) content
        (if sget data "type" =s "" then EventType m else sget data "type")
  | by_stream_end m g :
      em_Mode m = "custom" → IsTurnEndCustomData (em_Data m) = true → gate = Some g →
      TreatStreamEndAsComplete cl = true →
      AllowStreamEnd (data_turn (em_Data m) (TrimSpace (em_TurnID m))) g = true →
      IsSubstantiveAssistantReply cl accumulated = true →
      delivers parse_json cl gate accumulated (MEvent m) (TrimSpace accumulated) STREAM_END
  | by_idle s :
      TreatStatusIdleAsComplete cl = true → EqualFold (TrimSpace (st_State s)) "idle" = true →
      (GateTurnEndSignals cl = true →
         ∃ g, gate = Some g ∧ AllowIdleComplete (TrimSpace (st_TurnID s)) g = true) →
      IsSubstantiveAssistantReply cl accumulated = true →
      delivers parse_json cl gate accumulated (MStatus s) (TrimSpace accumulated) "status.idle".

(** The messages that fail a turn, with the error they report. *)
Inductive reports_error (parse_json : string → option value) : message → string → Prop :=
  | by_envelope e code text :
      env_Type e = "error" →
      (code, text) = match env_Error e with Some o => (eo_Code o, eo_Message o) | None => ((-32603)%Z, "") end →
      reports_error parse_json (MEnvelope e) ("daemon error [" +:+ Itoa code +:+ "]: " +:+ text)
  | by_response e :
      reports_error parse_json (MError e) ("daemon error [" +:+ er_Code e +:+ "]: " +:+ er_Message e)
  | by_error_event m data text :
      normalizeEventData parse_json (em_Data m) = Some data →
      isNamespaceMatch (EventType m) (sget data "type") "soothe.error." = true →
      Err (error_result (EventType m) (sget data "type") data) = Some text →
      reports_error parse_json (MEvent m) text.

(** A result that takes part in the turn without ending it. *)
Definition goes_on (r : ChatEventResult) : Prop :=
  Terminal r = ChatEventContinue ∧ Err r = None ∧ CompletionEvent r = "" ∧
  (ThinkingStep r ≠ "" → Content r = "").

(** A result is one of these three. *)
Definition accounted parse_json cl gate acc msg (r : ChatEventResult) : Prop :=
  goes_on r ∨
  (∃ content ev, r = deliverableResult content ev ∧ delivers parse_json cl gate acc msg content ev) ∨
  ∃ err, r = failedResult err ∧ reports_error parse_json msg err.

Section classified.
Context (parse_json : string → option value) (cl : ClassifierConfig).
Context (gate : option TurnLifecycleGate) (acc : string).
Local Abbreviation accounted := (accounted parse_json cl gate acc).

Lemma continue_accounted msg c : accounted msg (continueResult c).
Proof. left. by split. Qed.

Lemma step_accounted m r : step_stage parse_json cl m = Some r → accounted (MEvent m) r.
Proof.
  unfold step_stage. intros H. apply bind_Some in H as (data & _ & H). left.
  destruct (_ =s eventLoopHistoryReplayed); [by simplify_eq|].
  destruct (extractThinkingStep _ _ _); simplify_eq/=. by split.
Qed.

Lemma stream_end_accounted m r : stream_end_stage cl gate acc m = Some r → accounted (MEvent m) r.
Proof.
  unfold stream_end_stage. destruct (_ && _) eqn:E; [|done]. intros [= <-]. bool_to_prop.
  destruct (_ && _) eqn:E2; [|apply continue_accounted]. right. left. bool_to_prop.
  destruct gate as [g|]; [|done]. do 2 eexists. split; [done|]. by eapply by_stream_end.
Qed.

Lemma messages_accounted m r : messages_stage cl m = Some r → accounted (MEvent m) r.
Proof.
  unfold messages_stage. destruct (String.eqb_spec (em_Mode m) "messages") as [Hm|]; [|done]. simpl.
  intros H. apply or_else_Some in H as [H|H].
  { destruct (firstMessagePayload _) as [[[ty c] ph]|]; [|done].
    destruct (_ && _); simplify_eq. apply continue_accounted. }
  apply or_else_Some in H as [H|H].
  { apply bind_Some in H as (lm & Hlm & H). destruct (_ <>s ""); [|done]. injection H as <-.
    unfold loop_message_result. destruct (isStreamingMessageType _) eqn:Es; [apply continue_accounted|].
    destruct (_ && _) eqn:Ed; [|apply continue_accounted]. bool_to_prop. right. left.
    do 2 eexists. split; [done|]. eapply by_phase; eauto. left. by exists lm. }
  apply or_else_Some in H as [H|H].
  { destruct (messagesModeAssistantContent m); simplify_eq/=. apply continue_accounted. }
  destruct (firstMessagePayload _) as [[[ty c] ph]|] eqn:Ep; [|done].
  destruct (_ <>s ""); [|done]. injection H as <-. unfold raw_message_result.
  destruct (_ || _) eqn:Et; [|apply continue_accounted].
  destruct (_ && _) eqn:Ed; [|apply continue_accounted]. bool_to_prop. right. left.
  do 2 eexists. split; [done|]. eapply (by_phase _ _ _ _ m ty); eauto.
  apply orb_true_iff in Et as [Et|Et].
  - by apply terminal_not_streaming.
  - bool_to_prop. by subst.
Qed.

Lemma error_accounted m data :
  normalizeEventData parse_json (em_Data m) = Some data →
  isNamespaceMatch (EventType m) (sget data "type") "soothe.error." = true →
  accounted (MEvent m) (error_result (EventType m) (sget data "type") data).
Proof.
  intros Hd Hm. right. right.
  assert (∃ e, error_result (EventType m) (sget data "type") data = failedResult e) as [e He].
  { unfold error_result. destruct (_ <>s ""); [by eexists|].
    destruct (extractContentFromData data); by eexists. }
  exists e. split; [done|]. eapply by_error_event; [done..|]. by rewrite He.
Qed.

Lemma data_accounted m r : data_stage parse_json cl m = Some r → accounted (MEvent m) r.
Proof.
  unfold data_stage. destruct (normalizeEventData _ _) as [data|] eqn:Ed.
  2:{ intros [= <-]. apply continue_accounted. }
  intros H. apply or_else_Some in H as [H|H].
  { destruct (_ || _) eqn:Em; [|done]. apply bind_Some in H as (c & Hc & H).
    destruct (isFinalOutputEvent _ _ _) eqn:Ef; injection H as <-; [|apply continue_accounted].
    right. left. do 2 eexists. split; [done|]. eapply by_output; [done..|].
    right. split; [|done]. by apply orb_true_iff. }
  apply or_else_Some in H as [H|H].
  { destruct (_ || _); [|done]. destruct (extractContentFromData _); simplify_eq/=. apply continue_accounted. }
  apply or_else_Some in H as [H|H].
  { destruct (isNamespaceMatch _ _ "final_report") eqn:Em; [|done].
    apply bind_Some in H as (c & Hc & H). injection H as <-. right. left.
    do 2 eexists. split; [done|]. eapply by_output; [done..|]. by left. }
  apply or_else_Some in H as [H|H].
  { destruct (isNamespaceMatch _ _ "soothe.error.") eqn:Em; [|done]. injection H as <-.
    by apply error_accounted. }
  destruct (_ || _); [|done]. destruct (to_str _); simplify_eq/=. apply continue_accounted.
Qed.

Lemma process_accounted msg : accounted msg (processChatEvent parse_json cl msg acc gate).
Proof.
  destruct msg as [e|m|s|e|m]; simpl.
  - destruct (String.eqb_spec (env_Type e) "error") as [E|]; [|apply continue_accounted].
    right. right. destruct (env_Error e) as [o|] eqn:Eo; eexists; (split; [done|]);
      apply by_envelope; try done; by rewrite Eo.
  - unfold event_result.
    destruct (step_stage _ _ m or_else _) as [r|] eqn:E; [|apply continue_accounted]. simpl.
    apply or_else_Some in E as [E|E]; [by apply step_accounted|].
    apply or_else_Some in E as [E|E]; [by apply stream_end_accounted|].
    apply or_else_Some in E as [E|E]; [by apply messages_accounted|by apply data_accounted].
  - unfold status_result. destruct (_ && _) eqn:E; [|apply continue_accounted]. bool_to_prop.
    destruct (GateTurnEndSignals cl && _) eqn:Eg; [apply continue_accounted|]. right. left.
    do 2 eexists. split; [done|]. apply by_idle; try done. intros HG. rewrite HG in Eg. simpl in Eg.
    apply negb_false_iff in Eg. destruct gate as [g|]; [|done]. by exists g.
  - right. right. eexists. split; [done|]. apply by_response.
  - apply continue_accounted.
Qed.
End classified.

Lemma substring_app_prefix p s : String.substring (String.length p) (String.length (p +:+ s) - String.length p) (p +:+ s) = s.
Proof.
  induction p as [|a p IH].
  - change ("" +:+ s) with s. simpl String.length. rewrite Nat.sub_0_r.
    induction s as [|a s IH]; simpl; [done|by rewrite IH].
  - exact IH.
Qed.

Lemma HasPrefix_app p s : HasPrefix (p +:+ s) p = true.
Proof.
  unfold HasPrefix. induction p as [|a p IH]; [by destruct s|]. simpl. by destruct (Ascii.ascii_dec a a).
Qed.

Lemma phase_event_recognised cl phase :
  isDeliverableLoopPhase cl phase = true →
  IsDeliverableCompletionEvent cl ("soothe.protocol.message." +:+ phase) = true.
Proof.
  intros Hp. unfold IsDeliverableCompletionEvent.
  destruct (bool_decide _); [done|]. destruct (_ =s EventFinalReport); [done|].
  rewrite HasPrefix_app.
  etrans; [|exact Hp]. f_equal. exact (substring_app_prefix "soothe.protocol.message." phase).
Qed.

(** What [ResolveDeliverableFinalContent] accepts is a deliverable result with a
    recognised event, and what it yields is not blank. *)
Lemma Resolve_spec cl r acc final :
  ResolveDeliverableFinalContent cl r acc = Some final →
  Terminal r = ChatEventDeliverableComplete ∧ IsDeliverableCompletionEvent cl (CompletionEvent r) = true ∧
  TrimSpace final = final ∧ final ≠ "" ∧
  (final = TrimSpace (Content r) ∨
   TrimSpace (Content r) = "" ∧ final = TrimSpace acc ∧ IsSubstantiveAssistantReply cl final = true).
Proof.
  unfold ResolveDeliverableFinalContent. case_bool_decide as Ht; [done|].
  destruct (IsDeliverableCompletionEvent _ _) eqn:Ei; [|done]. simpl.
  destruct (String.eqb_spec (TrimSpace (Content r)) "") as [Ec|Ec]; simpl.
  - destruct (String.eqb_spec (TrimSpace acc) "") as [Ea|Ea]; [done|]. simpl.
    destruct (IsSubstantiveAssistantReply _ _) eqn:Es; [|done]. intros [= <-].
    rewrite TrimSpace_idemp. tauto.
  - intros [= <-]. rewrite TrimSpace_idemp. tauto.
Qed.

Lemma substantive_trim cl c : IsSubstantiveAssistantReply cl (TrimSpace c) = IsSubstantiveAssistantReply cl c.
Proof. unfold IsSubstantiveAssistantReply. by rewrite TrimSpace_idemp. Qed.

(** * Properties *)


(** A final message of a deliverable phase with a long enough text completes the turn: it
    is delivered under the phase's completion event, which the completion check accepts,
    so its trimmed text is the reply that gets persisted, whatever was accumulated. *)
Theorem phase_reply_completes (parse_json : string → option value) (cl : ClassifierConfig)
    (m : EventMessage) (msg : gomap) (rest : list value) (acc : string) (gate : option TurnLifecycleGate)
    (Hmode : em_Mode m = "messages") (Hdata : em_Data m = VArr (VMap msg :: rest))
    (Htype : isTerminalMessageType (sget msg "type") = true)
    (Hphase : isLoopAssistantPhase (sget msg "phase") = true)
    (Hdel : isDeliverableLoopPhase cl (sget msg "phase") = true)
    (Htext : sget msg "content" ≠ "")
    (Hmin : (0 < MinDeliverableRunes cl)%Z)
    (Hsub : IsSubstantiveAssistantReply cl (sget msg "content") = true) :
  let r := (ClassifyTurn parse_json cl (MEvent m) acc gate).1 in
  r = deliverableResult (sget msg "content") ("soothe.protocol.message." +:+ sget msg "phase") ∧
  ResolveDeliverableFinalContent cl r acc = Some (TrimSpace (sget msg "content")).
Proof.
  assert (Hc : mget msg "content" = VStr (sget msg "content")) by (by apply sget_eq).
  assert (Hst : isStreamingMessageType (sget msg "type") = false) by (by apply terminal_not_streaming).
  assert (Hph : sget msg "phase" ≠ "") by (intros E; by rewrite E in Hphase).
  assert (Hty : sget msg "type" ≠ "") by (intros E; by rewrite E in Htype).
  assert (E : (ClassifyTurn parse_json cl (MEvent m) acc gate).1 =
    deliverableResult (sget msg "content") ("soothe.protocol.message." +:+ sget msg "phase")).
  { simpl. unfold event_result, step_stage, normalizeEventData. rewrite Hdata. simpl.
    unfold stream_end_stage. rewrite Hmode. simpl.
    unfold messages_stage. rewrite Hmode. simpl. unfold firstMessagePayload, first_message.
    rewrite Hdata. simpl. rewrite Hst, andb_false_r. unfold EventLoopAIMessage. rewrite Hmode, Hdata. simpl.
    rewrite (proj2 (String.eqb_neq _ _) Hph), Hphase. simpl. unfold LoopAIText. simpl. rewrite Hc.
    rewrite (proj2 (String.eqb_neq _ _) Htext), (proj2 (String.eqb_neq _ _) Hty). simpl.
    unfold loop_message_result. simpl. by rewrite Hst, Hdel, Hsub. }
  simpl in *. rewrite E. split; [done|]. unfold ResolveDeliverableFinalContent. simpl.
  rewrite phase_event_recognised by done. simpl.
  apply substantive_nonempty in Hsub; [|done]. by rewrite (proj2 (String.eqb_neq _ _) Hsub).
Qed.

(** A thinking step is short and says something: it comes from an event on the allowlist,
    has at least one and at most 280 runes and an ellipsis, is the event's line unless
    that is longer, and never comes with reply text or an end. *)
Theorem thinking_step_bounded (cl : ClassifierConfig) (eventType : string) (data : gomap) (step : string)
    (Hstep : extractThinkingStep cl eventType data = Some step) :
  (0 < RuneCount step <= 281)%Z ∧
  ∃ line, step_line (TrimSpace eventType) data = Some line ∧
    ((RuneCount (TrimSpace line) <= 280)%Z → step = TrimSpace line) ∧
    goes_on (thinkingStepResult step) ∧
    flag (match ThinkingStepEvents cl with None => Some defaultThinkingStepEvents | a => a end)
      (TrimSpace eventType) = true.
Proof.
  apply extractThinkingStep_spec in Hstep as (line & Hf & Hl & Hne & ->).
  destruct (clip_bounded (TrimSpace line)) as (H1 & H2 & H3). split.
  - split; [|done]. by apply RuneCount_pos, H2.
  - exists line. split; [done|]. split; [done|]. by split.
Qed.

(** The two notions of a deliverable event disagree: a final output event of a deliverable
    phase is delivered, and its reply is then refused, unless its name also says
    [responded]. *)
Theorem completion_checks_disagree (cl : ClassifierConfig)
    (Hcl : NewEventClassifier (MkClassifierConfig (Some DefaultDeliverablePhases) 0 None false false false) = Some cl) :
  let msg := MEvent (MkEventMessage "" "event" "" "" 0 (VStr "soothe.output.goal_completion.reported") "updates"
                       (obj [("text", VStr "The answer is 42.")]) zero_time) in
  let r := Classify (λ _, None) cl msg "" in
  r = deliverableResult "The answer is 42." "soothe.output.goal_completion.reported" ∧
  ResolveDeliverableFinalContent cl r "The answer is 42." = None.
Proof. injection Hcl as <-. vm_compute. done. Qed.

(** A phase the application lists as not deliverable still makes its output events final. *)
Theorem disabled_phase_still_final (cl : ClassifierConfig)
    (Hcl : NewEventClassifier (MkClassifierConfig (Some (list_to_map [("quiz", false)])) 0 None false false false)
           = Some cl) :
  isDeliverableLoopPhase cl "quiz" = false ∧ isFinalOutputEvent cl "soothe.output.quiz.responded" "" = true.
Proof. injection Hcl as <-. vm_compute. done. Qed.

(** * Examples *)

Definition kit_config : ClassifierConfig :=
  MkClassifierConfig (Some DefaultDeliverablePhases) 0 None true true true.
Definition kit : ClassifierConfig :=
  MkClassifierConfig (Some DefaultDeliverablePhases) 8 None true true true.
Definition no_json (_ : string) : option value := None.

Definition reply_event (phase text : string) : EventMessage :=
  MkEventMessage "" "event" "L" "L:1" 3 VNil "messages"
    (VArr [obj [("type", VStr "AIMessage"); ("phase", VStr phase); ("content", VStr text)]]) zero_time.
Definition tool_started : gomap := Some (mlit [("tool_name", VStr " grep ")]).


Lemma phase_reply_completes_witness :
  ResolveDeliverableFinalContent kit
    (ClassifyTurn no_json kit (MEvent (reply_event "quiz" "A long enough reply.")) "draft" None).1 "draft" =
  Some (TrimSpace "A long enough reply.").
Proof.
  refine (proj2 (phase_reply_completes no_json kit (reply_event "quiz" "A long enough reply.")
    (Some (mlit [("type", VStr "AIMessage"); ("phase", VStr "quiz"); ("content", VStr "A long enough reply.")]))
    [] "draft" None _ _ _ _ _ _ _ _)); try (vm_compute; reflexivity).
  vm_compute. discriminate.
Defined.

Lemma thinking_step_bounded_witness :
  extractThinkingStep kit EventToolStarted tool_started = Some "Tool: grep" ∧
  (0 < RuneCount "Tool: grep" <= 281)%Z.
Proof.
  assert (extractThinkingStep kit EventToolStarted tool_started = Some "Tool: grep") as E
    by (vm_compute; reflexivity).
  split; [exact E|]. exact (proj1 (thinking_step_bounded kit EventToolStarted tool_started "Tool: grep" E)).
Defined.
