(* ===== verification/ChunkFilter.v ===== *)
(** The filter that drops stream chunks before the turn pipeline
    (appkit/chunk_filter.go). *)

From S2P Require Import Prelude GoStr Value.

(** * Definitions *)

Definition hasSuffix (s suffix : string) : bool :=
  let n := String.length s in
  let k := String.length suffix in
  (k <=? n)%nat && (String.substring (n - k) k s =s suffix).

(** The bytes [trimSpace] strips. *)
Definition is_blank (c : ascii) : bool :=
  bool_decide (c ∈ [" "%char; "009"%char; "010"%char; "013"%char]).

Fixpoint skip_blank (l : list ascii) : list ascii :=
  match l with
  | [] => []
  | c :: l' => if is_blank c then skip_blank l' else l
  end.

Definition trimSpace (s : string) : string :=
  of_bytes (reverse (skip_blank (reverse (skip_blank (to_bytes s))))).

(** The first nested body among the wire keys. *)
Fixpoint nested_body (msg : gomap) (keys : list string) : gomap :=
  match keys with
  | [] => msg
  | key :: keys =>
      match asMap (mget msg key) with
      | Some _ as nested => nested
      | None => nested_body msg keys
      end
  end.

Definition wireBody (msg : gomap) : gomap := nested_body msg ["kwargs"; "data"].

Definition tool_item (item : value) : bool :=
  match to_map item with
  | None => false
  | Some m =>
      let t := sget m "type" in
      (t =s "tool_call") || (t =s "tool_call_chunk") || (t =s "tool_use")
  end.

Definition dictHasToolInvocation (msg : gomap) : bool :=
  let body := wireBody msg in
  if negb (is_nil (mget body "tool_calls")) || negb (is_nil (mget body "tool_call_chunks")) then true
  else existsb (λ key,
         match to_arr (mget body key) with
         | None => false
         | Some raw => existsb tool_item raw
         end) ["content"; "content_blocks"].

(** The text one content block contributes. *)
Definition block_text (block : value) : string :=
  match block with
  | VStr s => s
  | VMap m => sget m "text"
  | _ => ""
  end.

Definition message_content (msg : gomap) : value :=
  let content := mget (wireBody msg) "content" in
  if is_nil content then mget msg "content" else content.

Definition plainText (msg : gomap) : string :=
  match message_content msg with
  | VStr t => trimSpace t
  | VArr t => trimSpace (String.concat "" (block_text <$> t))
  | _ => ""
  end.

Definition updatesChunkIsNoop (data : value) : bool :=
  match asMap data with
  | None => true
  | Some _ as m => negb (mhas m "__interrupt__")
  end.

(** The wire type of a message chunk. *)
Definition raw_type (msg : gomap) : string :=
  let raw := sget (wireBody msg) "type" in if raw =s "" then sget msg "type" else raw.

Definition messageChunkIsNonActionable (data : value) : bool :=
  match to_arr data with
  | Some [first; _] =>
      if is_nil first then true
      else match asMap first with
           | None => false
           | Some _ as msg =>
               let raw := raw_type msg in
               if (raw =s "tool") || (raw =s "ToolMessage") || hasSuffix raw "ToolMessage" then false
               else if dictHasToolInvocation msg then false
               else if negb (is_nil (mget (wireBody msg) "phase")) || negb (is_nil (mget msg "phase"))
               then false
               else plainText msg =s ""
           end
  | _ => false
  end.

Definition ShouldDropStreamChunkEarly (namespace : option (list value)) (mode : string) (data : value) : bool :=
  if mode =s "updates" then updatesChunkIsNoop data
  else if mode =s "messages" then messageChunkIsNonActionable data
  else false.

(** * Lemmas *)

Lemma skip_blank_nil l : skip_blank l = [] ↔ Forall (λ c, is_blank c = true) l.
Proof.
  induction l as [|c l IH]; simpl; [done|]. destruct (is_blank c) eqn:E.
  - rewrite IH, Forall_cons. tauto.
  - split; [done|]. rewrite Forall_cons, E. by intros [? _].
Qed.

Lemma skip_blank_suffix l : ∃ p, l = p ++ skip_blank l.
Proof.
  induction l as [|c l [p IH]]; simpl; [by exists []|].
  destruct (is_blank c); [exists (c :: p); simpl; by f_equal|by exists []].
Qed.

Lemma Forall_reverse_iff {A} (P : A → Prop) l : Forall P (reverse l) ↔ Forall P l.
Proof. by rewrite reverse_Permutation. Qed.

Lemma trimSpace_blank s : trimSpace s = "" ↔ Forall (λ c, is_blank c = true) (to_bytes s).
Proof.
  unfold trimSpace. split.
  - intros H. apply (f_equal to_bytes) in H. rewrite to_of_bytes in H. simpl in H.
    apply (f_equal reverse) in H. rewrite reverse_involutive in H. simpl in H.
    apply skip_blank_nil in H. rewrite Forall_reverse_iff in H.
    assert (skip_blank (to_bytes s) = []) as Hs; [|by apply skip_blank_nil].
    destruct (skip_blank (to_bytes s)) as [|c l] eqn:E; [done|].
    apply Forall_cons in H as [Hc _]. exfalso. clear -E Hc.
    induction (to_bytes s) as [|d t IH]; [done|]. simpl in E.
    destruct (is_blank d) eqn:Ed; [auto|]. injection E as -> ->. congruence.
  - intros H. apply skip_blank_nil in H as ->. done.
Qed.

(** A string with a byte that is not blank. *)
Definition has_text (s : string) : Prop := ∃ c, c ∈ to_bytes s ∧ is_blank c = false.

Lemma has_text_kept s : has_text s → trimSpace s ≠ "".
Proof.
  intros (c & Hc & Hb) H. apply trimSpace_blank in H. rewrite Forall_forall in H.
  specialize (H c Hc). congruence.
Qed.

Lemma has_text_concat l s : s ∈ l → has_text s → has_text (String.concat "" l).
Proof.
  intros Hs (c & Hc & Hb). exists c. split; [|done].
  induction l as [|x l IH]; [by apply not_elem_of_nil in Hs|].
  assert (to_bytes (String.concat "" (x :: l)) = to_bytes x ++ to_bytes (String.concat "" l)) as ->.
  { destruct l; [simpl; by rewrite app_nil_r|]. simpl. by rewrite !to_bytes_app. }
  apply elem_of_app. apply elem_of_cons in Hs as [->|Hs]; auto.
Qed.

(** * Properties *)

(** The chunks a turn needs: custom and other modes, interrupts, tool traffic,
    phase-tagged messages, and text. *)
Inductive actionable : string → value → Prop :=
  | act_mode mode data : mode ≠ "updates" → mode ≠ "messages" → actionable mode data
  | act_interrupt m : mhas m "__interrupt__" = true → actionable "updates" (VMap m)
  | act_tool_result msg meta :
      raw_type msg = "tool" ∨ raw_type msg = "ToolMessage" →
      actionable "messages" (VArr [VMap msg; meta])
  | act_tool_call msg meta key items item m :
      key ∈ ["content"; "content_blocks"] → mget (wireBody msg) key = VArr items →
      item ∈ items → item = VMap m → sget m "type" ∈ ["tool_call"; "tool_call_chunk"; "tool_use"] →
      actionable "messages" (VArr [VMap msg; meta])
  | act_phase msg meta p :
      mget msg "phase" = VStr p → actionable "messages" (VArr [VMap msg; meta])
  | act_text msg meta s :
      message_content msg = VStr s → has_text s → actionable "messages" (VArr [VMap msg; meta])
  | act_block msg meta blocks block :
      message_content msg = VArr blocks → block ∈ blocks → has_text (block_text block) →
      actionable "messages" (VArr [VMap msg; meta]).

(** No actionable chunk is dropped before the pipeline. *)
Theorem actionable_chunk_kept (namespace : option (list value)) (mode : string) (data : value)
    (Ha : actionable mode data) : ShouldDropStreamChunkEarly namespace mode data = false.
Proof.
  assert (Hmsg : ∀ msg meta,
    (∀ m, msg = Some m →
      (raw_type msg =s "tool") || (raw_type msg =s "ToolMessage") || hasSuffix (raw_type msg) "ToolMessage" = true ∨
      dictHasToolInvocation msg = true ∨
      negb (is_nil (mget (wireBody msg) "phase")) || negb (is_nil (mget msg "phase")) = true ∨
      plainText msg ≠ "") →
    ShouldDropStreamChunkEarly namespace "messages" (VArr [VMap msg; meta]) = false).
  { intros msg meta H. unfold ShouldDropStreamChunkEarly, messageChunkIsNonActionable. simpl.
    destruct msg as [m|]; [|done]. specialize (H m eq_refl). cbv zeta.
    destruct (_ || _ || _); [done|]. destruct (dictHasToolInvocation _); [done|].
    destruct (negb _ || negb _); [done|]. apply String.eqb_neq. naive_solver. }
  destruct Ha as [mode data Hu Hm|m Hi|msg meta Ht|msg meta key items item m Hk Hb Hin -> Ht|msg meta p Hp|msg meta s Hc Ht|msg meta blocks block Hc Hb Ht];
    try (apply Hmsg; intros m' ->).
  - unfold ShouldDropStreamChunkEarly.
    rewrite (proj2 (String.eqb_neq _ _) Hu). by rewrite (proj2 (String.eqb_neq _ _) Hm).
  - unfold ShouldDropStreamChunkEarly, updatesChunkIsNoop. destruct m as [m|]; [|done]. simpl.
    by rewrite Hi.
  - left. destruct Ht as [-> | ->]; done.
  - right; left. unfold dictHasToolInvocation. cbv zeta. destruct (_ || _); [done|].
    apply existsb_exists. exists key. rewrite <-list_elem_of_In. split; [done|].
    rewrite Hb. simpl. apply existsb_exists. exists (VMap m). rewrite <-list_elem_of_In.
    split; [done|]. rewrite !elem_of_cons, elem_of_nil in Ht. unfold tool_item. cbv [to_map].
    destruct Ht as [E|[E|[E|[]]]]; by rewrite E.
  - do 2 right; left. rewrite Hp. simpl. by rewrite orb_true_r.
  - do 3 right. unfold plainText. rewrite Hc. by apply has_text_kept.
  - do 3 right. unfold plainText. rewrite Hc. apply has_text_kept.
    eapply has_text_concat; [|done]. by apply list_elem_of_fmap_2.
Qed.

Lemma actionable_chunk_kept_witness :
  ShouldDropStreamChunkEarly None "messages"
    (VArr [obj [("content", VArr [VStr " "; obj [("text", VStr " hi")]])]; VNil]) = false.
Proof.
  apply actionable_chunk_kept.
  eapply (act_block _ _ _ (obj [("text", VStr " hi")])); [vm_compute; reflexivity|set_solver|].
  exists "h"%char. split; [vm_compute; set_solver|reflexivity].
Defined.
