(* ===== verification/Session.v ===== *)
(** A turn of a daemon session (appkit/daemon_session.go): the loop that streams the
    chunks of one turn until the daemon ends it, and the drain after it. The decision on
    one frame is a pure step; the loop runs it over the events the client reads. *)

From S2P Require Import Prelude GoStr Value TurnId StreamTerminal Pending Protocol Mux Client Reader.
From S2P Require Import TurnGate ChunkFilter.

(** * Helpers (appkit/events.go) *)

Definition UnwrapNext (event : gomap) : gomap :=
  match event with
  | None => None
  | Some _ =>
      if sget event "type" <>s "next" then event
      else
        match asMap (mget event "payload") with
        | None => event
        | Some _ as payload =>
            match asMap (mget payload "data") with
            | Some _ as data => data
            | None => event
            end
        end
  end.

Definition asNamespace (v : value) : option (list value) :=
  match v with
  | VArr t => Some t
  | VStrs t => Some (VStr <$> t)
  | _ => None
  end.

(** * The turn *)

Record TurnChunk := MkChunk {
  ch_Namespace : option (list value);
  ch_Mode : string;
  ch_Data : value;
}.

(** The variables of the loop, and the session fields it writes. *)
Record turn := Turn {
  queryStarted : bool;
  expectedLoopID : string;
  expectedTurnID : string;
  turnProgressSeen : bool;
  LastTurnCancelSeen : bool;
  loopID : string;
  FilteredEarly : Z;
}.

Definition new_turn (sessionLoop : string) : turn := Turn false sessionLoop "" false false sessionLoop 0.

Inductive step_out :=
  | Continue (t : turn)
  | Yield (t : turn) (c : TurnChunk)
  | Finish (t : turn) (end_state : string) (c : option TurnChunk)
  | Fail (text : string).

Definition set_running (frame : gomap) (t : turn) : turn :=
  let '(e, p) := bind_turn (FrameTurnID frame) (expectedTurnID t) (turnProgressSeen t) in
  Turn true (expectedLoopID t) e p (LastTurnCancelSeen t) (loopID t) (FilteredEarly t).

Definition set_loop (lid : string) (t : turn) : turn :=
  if lid =s "" then t
  else Turn (queryStarted t) lid (expectedTurnID t) (turnProgressSeen t) (LastTurnCancelSeen t) lid (FilteredEarly t).

Definition set_cancel (t : turn) : turn :=
  Turn (queryStarted t) (expectedLoopID t) (expectedTurnID t) (turnProgressSeen t) true (loopID t) (FilteredEarly t).

Definition count_filtered (t : turn) : turn :=
  Turn (queryStarted t) (expectedLoopID t) (expectedTurnID t) (turnProgressSeen t) (LastTurnCancelSeen t)
    (loopID t) (FilteredEarly t + 1).

Definition set_progress (b : bool) (t : turn) : turn :=
  Turn (queryStarted t) (expectedLoopID t) (expectedTurnID t) (b || turnProgressSeen t) (LastTurnCancelSeen t)
    (loopID t) (FilteredEarly t).

(** Whether a frame belongs to another turn than the bound one. *)
Definition foreign_turn (t : turn) (frame : gomap) : bool :=
  let eventType := sget frame "type" in
  let evTurnID := FrameTurnID frame in
  let statusState := if eventType =s "status" then sget frame "state" else "" in
  if (expectedTurnID t <>s "") && ((eventType =s "event") || (eventType =s "status")) &&
     (statusState <>s "running")
  then
    if (statusState =s "idle") || (statusState =s "stopped")
    then (evTurnID <>s "") && negb (TurnIDsMatch (expectedTurnID t) evTurnID)
    else negb (TurnIDsMatch (expectedTurnID t) evTurnID)
  else false.

Definition foreign_loop (exp : string) (frame : gomap) : bool :=
  let eventLoopID := sget frame "loop_id" in
  (exp <>s "") && (eventLoopID <>s "") && (eventLoopID <>s exp).

Definition error_text (frame : gomap) : string :=
  let msg := sget frame "message" in
  let msg :=
    match to_map (mget frame "error") with
    | Some errObj => let m := sget errObj "message" in if m <>s "" then m else msg
    | None => msg
    end in
  if msg =s "" then "daemon error" else msg.

Definition status_step (frame : gomap) (t : turn) : step_out :=
  let t := set_loop (sget frame "loop_id") t in
  let state := sget frame "state" in
  if state =s "running" then Continue (set_running frame t)
  else if queryStarted t && (state =s "stopped") then
    if (expectedTurnID t <>s "") && negb (TurnIDsMatch (expectedTurnID t) (FrameTurnID frame))
    then Continue t else Finish t state None
  else if queryStarted t && (state =s "idle") then
    if IsIdleTerminalAllowed (expectedTurnID t) (FrameTurnID frame) (queryStarted t)
         (turnProgressSeen t) (LastTurnCancelSeen t)
    then Finish t state None else Continue t
  else Continue t.

(** [earlyDropFn]; nil drops nothing. *)
Abbreviation early_drop := (option (option (list value) → string → value → bool)).

Definition dropped (drop : early_drop) (ns : option (list value)) (mode : string) (data : value) : bool :=
  match drop with Some f => f ns mode data | None => false end.

Definition event_step (drop : early_drop) (frame : gomap) (t : turn) : step_out :=
  let data := mget frame "data" in
  let namespace := asNamespace (mget frame "namespace") in
  let mode := sget frame "mode" in
  if dropped drop namespace mode data then Continue (count_filtered t)
  else
    let terminal := (mode =s "custom") && IsTurnEndCustomData data in
    if terminal &&
       negb (IsTurnTerminalAllowed (expectedTurnID t) (data_turn data (FrameTurnID frame))
               (queryStarted t) (turnProgressSeen t))
    then Continue t
    else
      let t := set_progress (IsTurnProgressChunk mode data) t in
      let c := MkChunk namespace mode data in
      if terminal then
        Finish t (if sget (asMap data) "type" =s STREAM_END then "stream_end" else "completed") (Some c)
      else Yield t c.

(** One event of the turn loop. *)
Definition turn_step (drop : early_drop) (ev : gomap) (t : turn) : step_out :=
  let frame := if sget ev "type" =s "next" then UnwrapNext ev else ev in
  let eventType := sget frame "type" in
  if foreign_loop (expectedLoopID t) frame then Continue t
  else if foreign_turn t frame then Continue t
  else if eventType =s "error" then Fail (error_text frame)
  else if eventType =s "status" then status_step frame t
  else if eventType =s "command_response" then
    Continue (if Contains (sget frame "content") "Cancellation requested" then set_cancel t else t)
  else if eventType <>s "event" then Continue t
  else event_step drop frame t.

(** ** The drain *)

Inductive drain_out := DStop | DSkip (exp lid : string) (filtered : bool) | DChunk (c : TurnChunk).

(** One event of the drain: [exp] is the loop expected, [lid] the session's. *)
Definition drain_step (drop : early_drop) (ev : gomap) (exp lid : string) : drain_out :=
  let frame := if sget ev "type" =s "next" then UnwrapNext ev else ev in
  let eventType := sget frame "type" in
  if foreign_loop exp frame then DSkip exp lid false
  else if eventType =s "error" then DStop
  else if eventType =s "status" then
    let l := sget frame "loop_id" in if l =s "" then DSkip exp lid false else DSkip l l false
  else if eventType <>s "event" then DSkip exp lid false
  else
    let data := mget frame "data" in
    let namespace := asNamespace (mget frame "namespace") in
    let mode := sget frame "mode" in
    if dropped drop namespace mode data then DSkip exp lid true
    else DChunk (MkChunk namespace mode data).

(** ** The loops *)

(** What the loop finds at its head: the context done, the deadline passed, or neither. *)
Inductive check := CtxErr | PastDeadline | Go.

Inductive turn_error :=
  | TurnContext
  | TurnTimeout
  | TurnRead (e : error)
  | TurnLost
  | TurnDaemon (text : string).

(** How far a turn got: [Waiting] when the given checks ran out first. *)
Inductive outcome := Waiting | Ended (end_state : string) | Failed (end_state : string) (e : turn_error).

Record turn_result := Result {
  chunks : list TurnChunk;
  last_turn : turn;
  result : outcome;
  PostIdleDrained : Z;
}.

Definition prepend (c : list TurnChunk) (r : turn_result) : turn_result :=
  Result (c ++ chunks r) (last_turn r) (result r) (PostIdleDrained r).

Section session.
Context (parse_json : string → option value) (parse_time : string → option string).
Context (drop : early_drop).

(** [drainAfterIdle]: the chunks drained, the turn and their number. [drains] has an
    element per round before the deadline, [true] when the context is done. *)
Fixpoint drainAfterIdle (drains : list bool) (exp : string) (t : turn) :
    M (list TurnChunk * turn * Z) :=
  match drains with
  | [] | true :: _ => ret ([], t, 0%Z)
  | false :: drains =>
      let! r := ReadEventWithTimeout parse_json parse_time in
      match r with
      | (_, Some _) | (None, None) => ret ([], t, 0%Z)
      | (Some _ as ev, None) =>
          match drain_step drop ev exp (loopID t) with
          | DStop => ret ([], t, 0%Z)
          | DSkip exp lid filtered =>
              let t := Turn (queryStarted t) (expectedLoopID t) (expectedTurnID t) (turnProgressSeen t)
                         (LastTurnCancelSeen t) lid (if filtered then FilteredEarly t + 1 else FilteredEarly t)%Z in
              drainAfterIdle drains exp t
          | DChunk c =>
              let! (cs, t, n) := drainAfterIdle drains exp t in ret (c :: cs, t, n + 1)%Z
          end
      end
  end.

Definition finish_turn (drains : list bool) (t : turn) (end_state : string) : M turn_result :=
  let! (cs, t, n) := drainAfterIdle drains (expectedLoopID t) t in
  ret (Result cs t (Ended end_state) n).

Fixpoint turn_loop (checks : list check) (drains : list bool) (t : turn) : M turn_result :=
  match checks with
  | [] => ret (Result [] t Waiting 0)
  | CtxErr :: _ => ret (Result [] t (Failed "" TurnContext) 0)
  | PastDeadline :: _ => ret (Result [] t (Failed "" TurnTimeout) 0)
  | Go :: checks =>
      let! r := ReadEvent parse_json parse_time in
      match r with
      | (_, Some e) => ret (Result [] t (Failed "" (TurnRead e)) 0)
      | (None, None) =>
          let! alive := get IsConnectionAlive in
          if queryStarted t && negb alive then ret (Result [] t (Failed "connection_lost" TurnLost) 0)
          else ret (Result [] t (Ended "") 0)
      | (Some _ as ev, None) =>
          match turn_step drop ev t with
          | Continue t => turn_loop checks drains t
          | Yield t c => let! r := turn_loop checks drains t in ret (prepend [c] r)
          | Fail text => ret (Result [] t (Failed "" (TurnDaemon text)) 0)
          | Finish t end_state c =>
              let! r := finish_turn drains t end_state in
              ret (prepend (option_list c) r)
          end
      end
  end.

(** [iterTurnChunksLocked]: also the frames the client dropped meanwhile. *)
Definition iterTurnChunksLocked (checks : list check) (drains : list bool) (sessionLoop : string) :
    M (turn_result * Z) :=
  let! inboundBaseline := get InboundDropped in
  PeelStalePendingControlEvents parse_json parse_time;;!
  let! r := turn_loop checks drains (new_turn sessionLoop) in
  let! d := get InboundDropped in
  ret (r, Z.max 0 (d - inboundBaseline)).
End session.

(** * The loop as a run over the events it reads *)

Inductive trace_end := TRunning (t : turn) | TEnded (t : turn) (end_state : string) | TFailed (text : string).

Fixpoint turn_trace (drop : early_drop) (evs : list gomap) (t : turn) : list TurnChunk * trace_end :=
  match evs with
  | [] => ([], TRunning t)
  | ev :: evs =>
      match turn_step drop ev t with
      | Continue t => turn_trace drop evs t
      | Yield t c => let '(cs, e) := turn_trace drop evs t in (c :: cs, e)
      | Finish t end_state c => (option_list c, TEnded t end_state)
      | Fail text => ([], TFailed text)
      end
  end.

(** The frame an event carries. *)
Definition frame_of (ev : gomap) : gomap := if sget ev "type" =s "next" then UnwrapNext ev else ev.

(** The frames of the turn's own loop among the events, up to the one that ends it. *)
Fixpoint own_frames (drop : early_drop) (evs : list gomap) (t : turn) : list gomap :=
  match evs with
  | [] => []
  | ev :: evs =>
      (if foreign_loop (expectedLoopID t) (frame_of ev) then [] else [frame_of ev]) ++
      match turn_step drop ev t with
      | Continue t | Yield t _ => own_frames drop evs t
      | _ => []
      end
  end.

(** Events the client returned, one after the other. *)
Inductive reads (parse_json : string → option value) (parse_time : string → option string) :
    client → list gomap → client → Prop :=
  | reads_nil c : reads parse_json parse_time c [] c
  | reads_cons c ev c1 evs c2 :
      ReadEvent parse_json parse_time c = Some ((ev, None), c1) → ev ≠ None →
      reads parse_json parse_time c1 evs c2 → reads parse_json parse_time c (ev :: evs) c2.

(** * Lemmas *)

Definition gate_of (t : turn) : TurnLifecycleGate :=
  LifecycleGate (queryStarted t) (turnProgressSeen t) (expectedTurnID t) (LastTurnCancelSeen t).

(** What the turn knows from the frames of its loop. *)
Record turn_knows (own : list gomap) (t : turn) : Prop := {
  tk_gate : gate_knows (MMap <$> own) (gate_of t);
  tk_cancel : LastTurnCancelSeen t = true →
    ∃ f, f ∈ own ∧ sget f "type" = "command_response" ∧
         Contains (sget f "content") "Cancellation requested" = true;
}.

Lemma knows_skip own f t :
  turn_knows own t → (∀ tid, ¬ says_running (MMap f) tid) → turn_knows (own ++ [f]) t.
Proof.
  intros [Hg Hc] Hn. split.
  - rewrite fmap_app. by apply gate_knows_mono.
  - intros H. destruct (Hc H) as (f' & ? & ?). exists f'. split; [set_solver|done].
Qed.

Lemma turn_knows_ext own t t' :
  gate_of t' = gate_of t → turn_knows own t → turn_knows own t'.
Proof.
  intros E [Hg Hc]. split; [by rewrite E|]. injection E as _ _ _ E. by rewrite E.
Qed.

Lemma gate_of_running f t : gate_of (set_running f t) = gate_running (FrameTurnID f) (gate_of t).
Proof. unfold set_running, gate_running, gate_of. simpl. by destruct (bind_turn _ _ _). Qed.

Lemma gate_of_set_loop l t : gate_of (set_loop l t) = gate_of t.
Proof. unfold set_loop. by destruct (_ =s ""). Qed.

Lemma knows_running_frame own f t :
  turn_knows own t → sget f "type" = "status" → sget f "state" = "running" →
  turn_knows (own ++ [f]) (set_running f t).
Proof.
  intros [Hg Hc] Ht Hs. split.
  - rewrite fmap_app, gate_of_running. apply (gate_running_knows _ (MMap f)); [done|done| |apply FrameTurnID_trimmed].
    by intros t' (_ & _ & ->).
  - unfold set_running. destruct (bind_turn _ _ _) as [e p]. simpl. intros H.
    destruct (Hc H) as (f' & ? & ?). exists f'. split; [set_solver|done].
Qed.

Lemma not_running_type f : sget f "type" ≠ "status" → ∀ tid, ¬ says_running (MMap f) tid.
Proof. intros H tid (E & _). done. Qed.

Lemma not_running_state f : sget f "state" ≠ "running" → ∀ tid, ¬ says_running (MMap f) tid.
Proof. intros H tid (_ & E & _). done. Qed.

(** A frame of the bound turn, or one that a foreign turn may not send. *)
Lemma foreign_turn_running t f :
  foreign_turn t f = true → ∀ tid, ¬ says_running (MMap f) tid.
Proof.
  unfold foreign_turn. intros H tid (E1 & E2 & _). rewrite E1, E2 in H.
  cbn [String.eqb negb] in H. by rewrite andb_false_r in H.
Qed.

Lemma status_step_knows own f t :
  turn_knows own t → sget f "type" = "status" →
  match status_step f t with
  | Continue t' | Yield t' _ => turn_knows (own ++ [f]) t'
  | Finish t' _ _ => turn_knows (own ++ [f]) t'
  | Fail _ => True
  end.
Proof.
  intros Hk Ht. unfold status_step. cbv zeta. set (t1 := set_loop _ t).
  assert (turn_knows own t1) as Hk1 by (eapply turn_knows_ext; [apply gate_of_set_loop|done]).
  destruct (String.eqb_spec (sget f "state") "running") as [Hr|Hr]; [by apply knows_running_frame|].
  assert (turn_knows (own ++ [f]) t1) as Hk2 by (apply knows_skip; [done|by apply not_running_state]).
  repeat match goal with |- context [if ?c then _ else _] => destruct c end; done.
Qed.

Lemma event_step_knows drop own f t :
  turn_knows own t → sget f "type" = "event" →
  match event_step drop f t with
  | Continue t' | Yield t' _ => turn_knows (own ++ [f]) t'
  | Finish t' _ _ => turn_knows (own ++ [f]) t'
  | Fail _ => True
  end.
Proof.
  intros Hk Ht. unfold event_step. cbv zeta.
  assert (turn_knows (own ++ [f]) t) as Hk1
    by (apply knows_skip; [done|apply not_running_type; by rewrite Ht]).
  assert (turn_knows (own ++ [f]) (set_progress (IsTurnProgressChunk (sget f "mode") (mget f "data")) t)) as Hk2.
  { destruct (IsTurnProgressChunk _ _) eqn:E; [|by eapply turn_knows_ext; [|exact Hk1]].
    destruct Hk1 as [Hg Hc]. split; [|done].
    change (gate_of (set_progress true t)) with (gate_progress (gate_of t)).
    apply (gate_progress_knows _ (MMap f)); [done|apply list_elem_of_fmap_2; set_solver|done]. }
  destruct (dropped _ _ _ _); [by eapply turn_knows_ext; [|exact Hk1]|].
  repeat match goal with |- context [if ?c then _ else _] => destruct c end; done.
Qed.

Lemma turn_step_knows drop own ev t :
  turn_knows own t →
  let own' := own ++ (if foreign_loop (expectedLoopID t) (frame_of ev) then [] else [frame_of ev]) in
  match turn_step drop ev t with
  | Continue t' | Yield t' _ => turn_knows own' t'
  | Finish t' _ _ => turn_knows own' t'
  | Fail _ => True
  end.
Proof.
  intros Hk own'. unfold own'. clear own'. unfold turn_step. fold (frame_of ev). cbv zeta.
  set (f := frame_of ev). destruct (foreign_loop _ f); [by rewrite app_nil_r|].
  destruct (foreign_turn t f) eqn:Ef.
  { apply knows_skip; [done|]. by eapply foreign_turn_running. }
  destruct (sget f "type" =s "error"); [done|].
  destruct (String.eqb_spec (sget f "type") "status") as [Hs|Hs]; [by apply status_step_knows|].
  assert (turn_knows (own ++ [f]) t) as Hk1 by (apply knows_skip; [done|by apply not_running_type]).
  destruct (String.eqb_spec (sget f "type") "command_response") as [Hc|Hc].
  { destruct (Contains _ _) eqn:Ec; [|done]. destruct Hk1 as [Hg _].
    split; [|intros _; exists f; split; [set_solver|done]].
    by destruct Hg as [H1 H2 H3 H4 H5 H6]; split. }
  destruct (String.eqb_spec (sget f "type") "event") as [He|He]; [|done]. simpl.
  by apply event_step_knows.
Qed.

(** Why the turn was ended by its last frame [f]. *)
Inductive end_reason (own : list gomap) (f : gomap) : string → Prop :=
  | reason_stream tid p es :
      es = "stream_end" ∨ es = "completed" →
      says_stream_end (MMap f) tid → newest_running (MMap <$> own) tid →
      p ∈ own → says_progress (MMap p) → end_reason own f es
  | reason_idle tid p :
      says_state (MMap f) "idle" tid → newest_running (MMap <$> own) tid →
      p ∈ own → says_progress (MMap p) → end_reason own f "idle"
  | reason_cancelled tid q :
      says_state (MMap f) "idle" tid →
      tid = "" ∨ newest_running (MMap <$> own) tid →
      q ∈ own → sget q "type" = "command_response" →
      Contains (sget q "content") "Cancellation requested" = true → end_reason own f "idle"
  | reason_stopped tid :
      says_state (MMap f) "stopped" tid →
      (∃ r t, r ∈ own ∧ says_running (MMap r) t) →
      newest_running (MMap <$> own) tid ∨ (∀ r t, r ∈ own → says_running (MMap r) t → t = "") →
      end_reason own f "stopped".

Lemma in_messages (own : list gomap) m : m ∈ MMap <$> own → ∃ f, m = MMap f ∧ f ∈ own.
Proof. intros (f & -> & ?)%list_elem_of_fmap. eauto. Qed.

Lemma status_step_end own f t t' es c :
  turn_knows own t → sget f "type" = "status" → status_step f t = Finish t' es c →
  end_reason (own ++ [f]) f es ∧ c = None.
Proof.
  intros Hk Ht Hf. pose proof (status_step_knows own f t Hk Ht) as Hk'. rewrite Hf in Hk'.
  revert Hf. unfold status_step. cbv zeta. set (t1 := set_loop _ t).
  destruct (_ =s "running"); [done|].
  destruct (queryStarted t1 && (sget f "state" =s "stopped")) eqn:E1.
  { apply andb_true_iff in E1 as [Hq Hst]. bool_to_prop.
    destruct (_ && _) eqn:E2; [done|]. intros [= <- <- <-]. split; [|done]. rewrite Hst.
    destruct Hk' as [Hg _]. eapply (reason_stopped _ _ (FrameTurnID f)); [done| |].
    - destruct (knows_running _ _ Hg Hq) as (r & tid & (fr & -> & ?)%in_messages & ?). eauto.
    - apply andb_false_iff in E2 as [E2|E2].
      + right. bool_to_prop. intros r tid Hr Hrun. destruct (decide (tid = "")) as [|Hne]; [done|].
        by destruct (knows_bound _ _ Hg (MMap r) tid (list_elem_of_fmap_2 _ _ _ Hr) Hrun Hne).
      + left. apply negb_false_iff in E2. apply (knows_match _ (gate_of t1)); [done|apply FrameTurnID_trimmed|done]. }
  destruct (queryStarted t1 && (sget f "state" =s "idle")) eqn:E2; [|done].
  apply andb_true_iff in E2 as [Hq Hst]. bool_to_prop.
  destruct (IsIdleTerminalAllowed _ _ _ _ _) eqn:Ea; [|done]. intros [= <- <- <-]. split; [|done].
  rewrite Hst. destruct Hk' as [Hg Hc]. unfold IsIdleTerminalAllowed in Ea.
  destruct (_ || _); [done|]. rewrite FrameTurnID_trimmed in Ea.
  destruct (String.eqb_spec (FrameTurnID f) "") as [E|E]; simpl in Ea.
  - destruct (Hc Ea) as (q & ? & ? & ?). eapply (reason_cancelled _ _ (FrameTurnID f)); eauto. done.
  - destruct (TurnIDsMatch _ _) eqn:Em; [|done]. simpl in Ea.
    assert (newest_running (MMap <$> own ++ [f]) (FrameTurnID f)) as Hn.
    { apply (knows_match _ (gate_of t1)); [done|apply FrameTurnID_trimmed|done]. }
    apply orb_true_iff in Ea as [Hp|Hcan].
    + destruct (knows_progress _ _ Hg Hp) as (p & (fp & -> & ?)%in_messages & ?).
      by eapply (reason_idle _ _ (FrameTurnID f) fp).
    + destruct (Hc Hcan) as (q & ? & ? & ?). eapply (reason_cancelled _ _ (FrameTurnID f)); eauto. done.
Qed.

Lemma event_step_end drop own f t t' es c :
  turn_knows own t → sget f "type" = "event" → event_step drop f t = Finish t' es c →
  end_reason (own ++ [f]) f es.
Proof.
  intros Hk Ht. assert (turn_knows (own ++ [f]) t) as [Hg _]
    by (apply knows_skip; [done|apply not_running_type; by rewrite Ht]).
  unfold event_step. cbv zeta. destruct (dropped _ _ _ _); [done|].
  destruct ((sget f "mode" =s "custom") && IsTurnEndCustomData (mget f "data")) eqn:Et;
    [|simpl; done]. simpl.
  destruct (IsTurnTerminalAllowed _ _ _ _) eqn:Ea; simpl; [|done]. intros [= <- <- <-].
  apply andb_true_iff in Et as [_ Htd]. unfold IsTurnTerminalAllowed in Ea.
  destruct (_ || _) eqn:Eo; [done|]. apply orb_false_iff in Eo as [_ Hp]. apply negb_false_iff in Hp.
  destruct (knows_progress _ _ Hg Hp) as (p & (fp & -> & ?)%in_messages & ?).
  eapply (reason_stream _ _ (data_turn (mget f "data") (FrameTurnID f)) fp); [|done| |done|done].
  - destruct (_ =s STREAM_END); auto.
  - apply (knows_match _ (gate_of t)); [done| |done]. apply data_turn_trimmed, FrameTurnID_trimmed.
Qed.

Lemma trace_end_justified drop evs t own cs t' es :
  turn_knows own t → turn_trace drop evs t = (cs, TEnded t' es) →
  ∃ f past, own ++ own_frames drop evs t = past ++ [f] ∧ end_reason (past ++ [f]) f es.
Proof.
  revert t own cs. induction evs as [|ev evs IH]; intros t own cs Hk Htr; [done|]. simpl in *.
  pose proof (turn_step_knows drop own ev t Hk) as Hk'. cbv zeta in Hk'.
  destruct (turn_step drop ev t) as [t1|t1 c|t1 es1 c|text] eqn:Es.
  - rewrite app_assoc. by eapply IH.
  - destruct (turn_trace drop evs t1) as [cs1 e1] eqn:E1. simplify_eq. rewrite app_assoc. by eapply IH.
  - simplify_eq. rewrite app_nil_r. exists (frame_of ev), own. revert Es. unfold turn_step.
    fold (frame_of ev). cbv zeta. destruct (foreign_loop _ _); [done|]. destruct (foreign_turn _ _); [done|].
    destruct (_ =s "error"); [done|].
    destruct (String.eqb_spec (sget (frame_of ev) "type") "status") as [Hs|Hs].
    { intros Hf. split; [done|]. by eapply status_step_end. }
    destruct (_ =s "command_response"); [done|].
    destruct (String.eqb_spec (sget (frame_of ev) "type") "event") as [He|He]; [|done]. simpl.
    intros Hf. split; [done|]. by eapply event_step_end.
  - done.
Qed.

Lemma turn_knows_new lid : turn_knows [] (new_turn lid).
Proof. split; [apply gate_knows_new|done]. Qed.

Section session_lemmas.
Context (parse_json : string → option value) (parse_time : string → option string).
Context (drop : early_drop).
Local Abbreviation turn_loop := (turn_loop parse_json parse_time drop).
Local Abbreviation reads := (reads parse_json parse_time).

(** The loop runs the trace of the events it reads, up to the drain. *)
Lemma turn_loop_trace checks drains t c r c' es :
  turn_loop checks drains t c = Some (r, c') → result r = Ended es → es ≠ "" →
  ∃ evs c1 t' cs rest, reads c evs c1 ∧ turn_trace drop evs t = (cs, TEnded t' es) ∧
    chunks r = cs ++ rest.
Proof.
  revert t c r. induction checks as [|ch checks IH]; intros t c r Hr He Hne.
  { injection Hr as <- _. done. }
  destruct ch; [by injection Hr as <- _|by injection Hr as <- _|].
  simpl in Hr. unfold bind at 1 in Hr.
  destruct (ReadEvent _ _ c) as [[[ev err] c1]|] eqn:Hev; [|done].
  destruct ev as [m|].
  2:{ destruct err as [e|]; [by injection Hr as <- _|]. unfold bind, get in Hr.
      destruct (_ && _); injection Hr as <- _; simpl in He; by simplify_eq. }
  destruct err as [e|]; [by injection Hr as <- _|].
  assert (∀ evs c2, reads c1 evs c2 → reads c (Some m :: evs) c2) as Hcons.
  { intros evs c2 H. by eapply reads_cons. }
  destruct (turn_step drop (Some m) t) as [t1|t1 ch|t1 es1 o|text] eqn:Es.
  - destruct (IH t1 c1 r Hr He Hne) as (evs & c2 & t' & cs & rest & H1 & H2 & H3).
    exists (Some m :: evs), c2, t', cs, rest. split; [by apply Hcons|].
    split; [|done]. simpl. by rewrite Es.
  - unfold bind in Hr. destruct (turn_loop checks drains t1 c1) as [[r1 c2]|] eqn:El; [|done].
    injection Hr as <- ->. simpl in He.
    destruct (IH t1 c1 r1 El He Hne) as (evs & c3 & t' & cs & rest & H1 & H2 & H3).
    exists (Some m :: evs), c3, t', (ch :: cs), rest. split; [by apply Hcons|].
    split; [simpl; by rewrite Es, H2|]. simpl. by rewrite H3.
  - unfold bind, finish_turn in Hr. unfold bind in Hr.
    destruct (drainAfterIdle _ _ _ _ _ _ _) as [[[[cs1 t2] n] c2]|]; [|done].
    injection Hr as <- _. simpl in He. injection He as ->.
    exists [Some m], c1, t1, (option_list o), cs1. split; [apply Hcons, reads_nil|].
    split; [|done]. simpl. by rewrite Es.
  - by injection Hr as <- _.
Qed.

Lemma drain_total drains exp t c :
  client_inv c → ∃ r c', drainAfterIdle parse_json parse_time drop drains exp t c = Some (r, c').
Proof.
  revert exp t c. induction drains as [|[] drains IH]; intros exp t c Hi; simpl; [by do 2 eexists..|].
  assert (∃ r c1, ReadEventWithTimeout parse_json parse_time c = Some (r, c1) ∧ client_inv c1)
    as (r & c1 & Hr & Hi1).
  { unfold ReadEventWithTimeout, bind, pop_event, get.
    destruct (pop_pending (c_in c)) as [[ev q]|]; [by do 2 eexists|].
    destruct (conn c); [|by do 2 eexists]. simpl.
    destruct (ReadEvent_total parse_json parse_time c Hi) as (r & c1 & Hr & Hi1 & _). rewrite Hr.
    destruct r as [ev [[]|]]; by do 2 eexists. }
  rewrite (bind_eq _ _ _ _ _ Hr). destruct r as [[m|] [e|]]; try by do 2 eexists.
  destruct (drain_step drop (Some m) exp (loopID t)) as [|exp' lid f|ch]; [by do 2 eexists|by apply IH|].
  destruct (IH exp t c1 Hi1) as ([[cs t1] n] & c2 & H2). rewrite (bind_eq _ _ _ _ _ H2).
  by do 2 eexists.
Qed.

Lemma turn_loop_ends_aux n drains t c :
  client_inv c → backlog c < n →
  ∃ r c', turn_loop (replicate n Go) drains t c = Some (r, c') ∧ result r ≠ Waiting.
Proof.
  revert t c. induction n as [|n IH]; intros t c Hi Hn; [lia|]. simpl.
  destruct (ReadEvent_total parse_json parse_time c Hi) as (r & c1 & Hr & Hi1 & _).
  rewrite (bind_eq _ _ _ _ _ Hr). destruct r as [[m|] [e|]]; try by do 2 eexists.
  2:{ rewrite (bind_eq _ _ c1 (IsConnectionAlive c1) c1) by done.
      destruct (_ && _); by do 2 eexists. }
  destruct (ReadEvent_backlog parse_json parse_time c (Some m) c1 Hi Hr) as [Hlt _]; [done|].
  destruct (turn_step drop (Some m) t) as [t1|t1 ch|t1 es o|text]; [apply IH; [done|lia]| | |by do 2 eexists].
  - destruct (IH t1 c1 Hi1 ltac:(lia)) as (r & c2 & H2 & Hw). rewrite (bind_eq _ _ _ _ _ H2).
    by do 2 eexists.
  - destruct (drain_total drains (expectedLoopID t1) t1 c1 Hi1) as ([[cs t2] k] & c2 & H2).
    unfold finish_turn, bind. rewrite H2. by do 2 eexists.
Qed.
End session_lemmas.

(** * Properties *)

(** A turn never ends without cause: when the loop ends with a state, it has read events
    whose last frame of the loop is the cause: a stream end or idle status that carries
    the id of a running turn no newer running status supersedes, after a progress chunk;
    an idle status after a confirmed cancellation; or a stop of that turn. *)
Theorem turn_end_justified (parse_json : string → option value) (parse_time : string → option string)
    (drop : early_drop) (checks : list check) (drains : list bool) (lid : string) (c c' : client)
    (r : turn_result) (es : string)
    (Hr : turn_loop parse_json parse_time drop checks drains (new_turn lid) c = Some (r, c'))
    (Hes : result r = Ended es) (Hne : es ≠ "") :
  ∃ evs c1 past f, reads parse_json parse_time c evs c1 ∧
    own_frames drop evs (new_turn lid) = past ++ [f] ∧ end_reason (past ++ [f]) f es.
Proof.
  destruct (turn_loop_trace _ _ _ _ _ _ _ _ _ _ Hr Hes Hne) as (evs & c1 & t' & cs & rest & H1 & H2 & _).
  destruct (trace_end_justified _ _ _ [] _ _ _ (turn_knows_new lid) H2) as (f & past & E & He).
  by exists evs, c1, past, f.
Qed.

(** The turn loop ends: once the socket fails or is exhausted it returns, after at most
    as many rounds as there were events to read, and it never panics. *)
Theorem turn_loop_ends (parse_json : string → option value) (parse_time : string → option string)
    (drop : early_drop) (n : nat) (drains : list bool) (t : turn) (c : client)
    (Hi : client_inv c) (Hn : backlog c < n) :
  ∃ r c', turn_loop parse_json parse_time drop (replicate n Go) drains t c = Some (r, c') ∧
    result r ≠ Waiting.
Proof. by apply turn_loop_ends_aux. Qed.

(** A chunk is passed on only from the turn that is bound: whatever event the step turns
    into a chunk carries the id of that turn and is not of another loop. *)
Theorem chunk_of_bound_turn (drop : early_drop) (ev : gomap) (t t' : turn) (ch : TurnChunk) (es : string)
    (Hb : expectedTurnID t ≠ "")
    (Hs : turn_step drop ev t = Yield t' ch ∨ turn_step drop ev t = Finish t' es (Some ch)) :
  TurnIDsMatch (expectedTurnID t) (FrameTurnID (frame_of ev)) = true ∧
  (expectedLoopID t = "" ∨ sget (frame_of ev) "loop_id" = "" ∨
   sget (frame_of ev) "loop_id" = expectedLoopID t) ∧
  expectedTurnID t' = expectedTurnID t ∧
  ch_Data ch = mget (frame_of ev) "data" ∧ ch_Mode ch = sget (frame_of ev) "mode".
Proof.
  unfold turn_step in Hs. fold (frame_of ev) in Hs. cbv zeta in Hs. set (f := frame_of ev) in *.
  destruct (foreign_loop (expectedLoopID t) f) eqn:El; [by destruct Hs|].
  destruct (foreign_turn t f) eqn:Ef; [by destruct Hs|].
  destruct (_ =s "error"); [by destruct Hs|].
  destruct (String.eqb_spec (sget f "type") "status") as [Ht|_].
  { destruct Hs as [Hs|Hs]; revert Hs; unfold status_step; cbv zeta;
      repeat match goal with |- context [if ?c then _ else _] => destruct c end; done. }
  destruct (_ =s "command_response"); [by destruct Hs|].
  destruct (String.eqb_spec (sget f "type") "event") as [Ht|_]; [|by destruct Hs].
  simpl in Hs. split; [|split].
  - unfold foreign_turn in Ef. rewrite Ht in Ef. simpl in Ef.
    apply String.eqb_neq in Hb. rewrite Hb in Ef. simpl in Ef.
    by apply negb_false_iff in Ef.
  - unfold foreign_loop in El. cbv zeta in El.
    destruct (String.eqb_spec (expectedLoopID t) ""), (String.eqb_spec (sget f "loop_id") ""),
      (String.eqb_spec (sget f "loop_id") (expectedLoopID t)); auto. done.
  - destruct Hs as [Hs|Hs]; revert Hs; unfold event_step; cbv zeta;
      repeat match goal with |- context [if ?c then _ else _] => destruct c end; intros; by simplify_eq.
Qed.

(** An event that arrives wrapped in a [next] frame is lost to a bound turn: decoding
    takes the turn id of its frame away, so unless its data repeats the id (a list of
    message chunks cannot) the loop skips it as another turn's. *)
Theorem wrapped_event_skipped (parse_time : string → option string) (v : value) (em : EventMessage)
    (drop : early_drop) (t : turn)
    (Hd : DecodeMessage parse_time v = Some (MEvent em)) (Hnext : sget (asMap v) "type" = "next")
    (Hb : expectedTurnID t ≠ "") (Hdata : to_map (em_Data em) = None) :
  turn_step drop (wire_map (MEvent em)) t = Continue t.
Proof.
  assert (em_Type em = "event" ∧ em_TurnID em = "") as [Hty Htu].
  { destruct (DecodeMessage_inv _ _ _ Hd) as (typ & Ht & [(_ & e & _ & He)|(-> & _)]).
    - by apply nextToEventMessage_inv in He as (? & ? & _).
    - unfold sget in Hnext. destruct (mget (asMap v) "type"); by simplify_eq/=. }
  destruct (enc_event_get em) as (T & _ & _ & _ & Tu & D). simpl wire_map.
  assert (FrameTurnID (Some (enc_event em)) = "") as Hf.
  { unfold FrameTurnID. rewrite D, Hdata.
    assert (turn_id_field (Some (enc_event em)) = None) as ->; [|done].
    rewrite Htu in Tu. unfold turn_id_field, sget in *.
    destruct (mget (Some (enc_event em)) "turn_id") as [| | | | |s| | |]; try done.
    simpl in *. by subst s. }
  unfold turn_step. cbv zeta. rewrite T, Hty. change ("event" =s "next") with false. cbv iota.
  destruct (foreign_loop _ _); [done|].
  assert (foreign_turn t (Some (enc_event em)) = true) as ->; [|done].
  unfold foreign_turn. cbv zeta. rewrite T, Hty, Hf.
  rewrite (proj2 (String.eqb_neq _ _) Hb). simpl.
  destruct (TurnIDsMatch (expectedTurnID t) "") eqn:E; [|done].
  apply TurnIDsMatch_spec in E as [E Hne]. by rewrite E in Hne.
Qed.

(** * Examples *)

Definition turn_json (s : string) : option value :=
  if s =s "PING" then Some (obj [("type", VStr "ping")])
  else if s =s "RUN" then
    Some (obj [("type", VStr "status"); ("state", VStr "running"); ("turn_id", VStr "L:2")])
  else if s =s "TEXT" then
    Some (obj [("type", VStr "event"); ("mode", VStr "messages"); ("turn_id", VStr "L:2");
               ("data", VArr [VStr "hi"])])
  else if s =s "END" then
    Some (obj [("type", VStr "event"); ("mode", VStr "custom"); ("turn_id", VStr "L:2");
               ("data", obj [("type", VStr STREAM_END)])])
  else None.

Definition filter_on : early_drop := Some ShouldDropStreamChunkEarly.

(** A ping in the middle of a turn ends it, without an error and without a state, while
    the connection is alive and the rest of the turn is still to be read. *)
Theorem ping_ends_turn :
  match turn_loop turn_json Some filter_on (replicate 5 Go) [] (new_turn "L")
          (live [RData "RUN"; RData "PING"; RData "TEXT"; RData "END"]) with
  | Some (r, c) =>
      result r = Ended "" ∧ chunks r = [] ∧ queryStarted (last_turn r) = true ∧
      IsConnectionAlive c = true ∧ sock_in c = [RData "TEXT"; RData "END"]
  | None => False
  end.
Proof. vm_compute. repeat split. Qed.

Definition status_frame (state tid : string) : gomap :=
  Some (mlit [("type", VStr "status"); ("state", VStr state); ("turn_id", VStr tid)]).
Definition chunk_frame (tid : string) : gomap :=
  Some (mlit [("type", VStr "event"); ("mode", VStr "messages"); ("turn_id", VStr tid)]).

(** The boundary and the session disagree on whose progress counts: a chunk of the
    previous turn lets the boundary end the new one, which the session keeps running. *)
Theorem boundary_counts_foreign_progress :
  let frames := [status_frame "running" "L:2"; chunk_frame "L:1"; status_frame "idle" "L:2"] in
  TurnGate.Ended (feed_all (MMap <$> frames) new_boundary) = true ∧
  match turn_trace None frames (new_turn "L") with
  | (cs, TRunning t) => cs = [] ∧ turnProgressSeen t = false
  | _ => False
  end.
Proof. vm_compute. repeat split. Qed.

Definition full_turn : client := live [RData "RUN"; RData "TEXT"; RData "END"].

Lemma turn_end_justified_witness :
  match turn_loop turn_json Some filter_on (replicate 4 Go) [] (new_turn "L") full_turn with
  | Some (r, c') => result r = Ended "stream_end" ∧
      ∃ evs c1 past f, reads turn_json Some full_turn evs c1 ∧
        own_frames filter_on evs (new_turn "L") = past ++ [f] ∧ end_reason (past ++ [f]) f "stream_end"
  | None => False
  end.
Proof.
  destruct (turn_loop turn_json Some filter_on (replicate 4 Go) [] (new_turn "L") full_turn)
    as [[r c']|] eqn:E; [|vm_compute in E; discriminate E].
  assert (result r = Ended "stream_end") as Hr.
  { assert (option_map (λ x, result x.1) (Some (r, c')) = Some (Ended "stream_end")) as H
      by (rewrite <-E; vm_compute; reflexivity). simpl in H. congruence. }
  split; [exact Hr|].
  apply (turn_end_justified turn_json Some filter_on _ [] "L" full_turn c' r "stream_end" E Hr).
  discriminate.
Defined.

Lemma turn_loop_ends_witness :
  ∃ r c', turn_loop turn_json Some filter_on (replicate 4 Go) [] (new_turn "L") full_turn = Some (r, c') ∧
    result r ≠ Waiting.
Proof. apply turn_loop_ends; [apply live_inv|vm_compute; lia]. Defined.

Definition bound_turn : turn := Turn true "" "L:2" true false "" 0.

Lemma chunk_of_bound_turn_witness :
  ∃ t' ch, turn_step None (chunk_frame "L:2") bound_turn = Yield t' ch ∧
    TurnIDsMatch "L:2" (FrameTurnID (frame_of (chunk_frame "L:2"))) = true.
Proof.
  do 2 eexists. split; [vm_compute; reflexivity|].
  eapply (chunk_of_bound_turn None (chunk_frame "L:2") bound_turn _ _ "");
    [discriminate|left; vm_compute; reflexivity].
Defined.

Definition wrapped_chunk : value :=
  obj [("type", VStr "next");
       ("payload", obj [("mode", VStr "event");
          ("data", obj [("type", VStr "event"); ("mode", VStr "messages"); ("turn_id", VStr "L:2");
                        ("data", VArr [VStr "hi"])])])].

Lemma wrapped_event_skipped_witness :
  ∃ em, DecodeMessage Some wrapped_chunk = Some (MEvent em) ∧
    turn_step None (wire_map (MEvent em)) bound_turn = Continue bound_turn.
Proof.
  eexists. split; [vm_compute; reflexivity|].
  apply (wrapped_event_skipped Some wrapped_chunk);
    [vm_compute; reflexivity|vm_compute; reflexivity|discriminate|reflexivity].
Defined.
