(* ===== verification/DaemonSession.v ===== *)
(** The daemon session (appkit/daemon_session.go): two sockets to one daemon, a stream that
    carries the turns of a loop and a sidecar for requests about it. Its operations,
    on top of the turn loop of Session, run one at a time. *)

From S2P Require Import Prelude GoStr Value StreamTerminal Pending DeliveryAck Protocol GoChan Mux Heartbeat Client Reader.
From S2P Require Import ChunkFilter Session Handshake Rpc Bootstrap Preserve Sends Jobs Helpers.

(** * Data *)

(** The counters of a turn; only the last of them are ever written
    ([FilteredEarly], [PostIdleDrained], [InboundDropped]). *)
Record TurnEventStats := MkStats {
  ts_Total : Z;
  ts_Messages : Z;
  ts_Updates : Z;
  ts_Custom : Z;
  ts_Skipped : Z;
  ts_FilteredEarly : Z;
  ts_ToolCalls : Z;
  ts_ToolResults : Z;
  ts_TextChunks : Z;
  ts_HeartbeatsDropped : Z;
  ts_PostIdleDrained : Z;
  ts_InboundDropped : Z;
}.

Definition NewTurnEventStats : TurnEventStats := MkStats 0 0 0 0 0 0 0 0 0 0 0 0.

(** [ds_LastTurnError] is the error whose text is [LastTurnErrorMessage]. *)
Record DaemonSession := MkSession {
  ds_wsURL : string;
  ds_workspace : string;
  ds_streamDelivery : string;
  ds_postIdleDrain : Z;
  ds_cfg : Config;
  ds_client : client;
  ds_rpcClient : client;
  ds_loopID : string;
  ds_rpcConnected : bool;
  ds_closed : bool;
  ds_earlyDropFn : early_drop;
  ds_stats : TurnEventStats;
  ds_LastTurnEndState : string;
  ds_LastTurnCancelSeen : bool;
  ds_LastTurnError : option turn_error;
}.

Record DaemonSessionOptions := MkSessionOptions {
  so_Workspace : string;
  so_StreamDelivery : string;
  so_PostIdleDrain : Z;
  so_Config : option Config;
  so_EarlyDropFn : early_drop;
}.

Definition DefaultPostIdleDrain : Z := 500 * millisecond.

Definition NewDaemonSession (wsURL : string) (opts : option DaemonSessionOptions) : DaemonSession :=
  let opts := default (MkSessionOptions "" "" 0 None None) opts in
  let cfg := default DefaultConfig (so_Config opts) in
  let delivery := if so_StreamDelivery opts =s "" then "adaptive" else so_StreamDelivery opts in
  let drain := (if so_PostIdleDrain opts <=? 0 then DefaultPostIdleDrain else so_PostIdleDrain opts)%Z in
  let dropFn := match so_EarlyDropFn opts with None => Some ShouldDropStreamChunkEarly | f => f end in
  MkSession wsURL (so_Workspace opts) delivery drain cfg NewClient NewClient "" false false dropFn
    NewTurnEventStats "" false None.

(** ** Updates *)

Definition set_client (c : client) : DaemonSession → DaemonSession :=
  λ '(MkSession u w d p g _ r l rc cl f st e n m), MkSession u w d p g c r l rc cl f st e n m.
Definition set_rpcClient (c : client) : DaemonSession → DaemonSession :=
  λ '(MkSession u w d p g s _ l rc cl f st e n m), MkSession u w d p g s c l rc cl f st e n m.
Definition set_loopID (l : string) : DaemonSession → DaemonSession :=
  λ '(MkSession u w d p g s r _ rc cl f st e n m), MkSession u w d p g s r l rc cl f st e n m.
Definition set_rpcConnected (b : bool) : DaemonSession → DaemonSession :=
  λ '(MkSession u w d p g s r l _ cl f st e n m), MkSession u w d p g s r l b cl f st e n m.
Definition set_closed (b : bool) : DaemonSession → DaemonSession :=
  λ '(MkSession u w d p g s r l rc _ f st e n m), MkSession u w d p g s r l rc b f st e n m.
Definition set_turn (st : TurnEventStats) (e : string) (n : bool) (m : option turn_error) :
    DaemonSession → DaemonSession :=
  λ '(MkSession u w d p g s r l rc cl f _ _ _ _), MkSession u w d p g s r l rc cl f st e n m.

(** ** The session's monad: client computations are lifted to one of the two sockets *)

Definition SM (A : Type) : Type := DaemonSession → option (A * DaemonSession).

#[export] Instance SM_ret : MRet SM := λ A x s, Some (x, s).
#[export] Instance SM_bind : MBind SM := λ A B f m s,
  match m s with Some (x, s) => f x s | None => None end.

Definition gets {A} (f : DaemonSession → A) : SM A := λ s, Some (f s, s).
Definition modifies (f : DaemonSession → DaemonSession) : SM unit := λ s, Some (tt, f s).

Definition on_stream {A} (m : M A) : SM A := λ s,
  match m (ds_client s) with Some (x, c) => Some (x, set_client c s) | None => None end.
Definition on_rpc {A} (m : M A) : SM A := λ s,
  match m (ds_rpcClient s) with Some (x, c) => Some (x, set_rpcClient c s) | None => None end.

(** * Operations *)

(** [errors.As] for a stale loop: the error or one it wraps. *)
Fixpoint is_stale (e : error) : bool :=
  match e with
  | ErrStaleLoop _ _ => true
  | ErrWrap _ e | ErrConnection _ _ e => is_stale e
  | _ => false
  end.

(** What a recovery meets: the reconnection, the retries after it fails, the calls of the
    reattachment, and those of a fresh bootstrap. *)
Record recovery := Recovery {
  rv_dial : option (list read_result * bool);
  rv_rounds : nat;
  rv_ctx : bool;
  rv_retries : nat → attempt;
  rv_reattach : call;
  rv_resubscribe : call;
  rv_probe : call;
  rv_new : call;
  rv_subscribe : call;
}.

Record SendTurnOptions := MkSendTurnOptions {
  to_PreferredSubagent : string;
  to_Model : string;
  to_ModelParams : gomap;
  to_Attachments : option (list gomap);
  to_ClarificationMode : string;
  to_InteractionMode : string;
  to_ClarificationAnswer : bool;
  to_IntentHint : string;
}.

Section session.
Context (parse_json : string → option value) (parse_time : string → option string).
Local Abbreviation pj := parse_json.
Local Abbreviation pt := parse_time.

Definition bootstrapLoop (k1 k2 : call) (resumeLoopID : string) : SM result :=
  ws ← gets ds_workspace;
  cfg ← gets ds_cfg;
  let sessionOpts := if ws <>s "" then Some (SessionOptions ws "" "") else None in
  r ← on_stream (BootstrapLoopSession pj pt k1 k2 resumeLoopID ws (Some cfg) sessionOpts);
  match r with
  | inr e => mret (inr e)
  | inl loopID =>
      modifies (set_loopID loopID);;
      mret (inl (Some (mlit [("type", VStr "status"); ("loop_id", VStr loopID); ("state", VStr "ready")])))
  end.

Definition Connect (env : nat → attempt) (k1 k2 : call) (resumeLoopID : string) : SM result :=
  err ← on_stream (ConnectWithRetries pj pt env 40);
  match err with
  | Some e => mret (inr e)
  | None => bootstrapLoop k1 k2 resumeLoopID
  end.

Definition NewLoop (k1 k2 : call) : SM result := bootstrapLoop k1 k2 "".
Definition SwitchLoop (k1 k2 : call) (loopID : string) : SM result := bootstrapLoop k1 k2 loopID.

Definition close_sidecar : SM unit :=
  on ← gets ds_rpcConnected;
  if on : bool then on_rpc Close;; modifies (set_rpcConnected false) else mret tt.

(** Reconnect, and connect anew when that fails. *)
Definition redial (e : recovery) : SM (option error) :=
  err ← on_stream (Reconnect pj pt (rv_dial e) (rv_rounds e) (rv_ctx e));
  match err with
  | None => mret None
  | Some _ => on_stream Close;; on_stream (ConnectWithRetries pj pt (rv_retries e) 40)
  end.

Definition fresh_bootstrap (e : recovery) : SM (option error) :=
  r ← bootstrapLoop (rv_new e) (rv_subscribe e) "";
  mret (match r with inl _ => None | inr e => Some e end).

(** The loop to resume is reattached; when it is stale a new one is opened. *)
Definition resume_loop (e : recovery) (resume : string) : SM (option error) :=
  if resume =s "" then fresh_bootstrap e
  else
    cfg ← gets ds_cfg;
    err ← on_stream (ReattachAndProbe pj pt (rv_reattach e) (rv_resubscribe e) (rv_probe e) cfg resume);
    match err with
    | None => modifies (set_loopID resume);; mret None
    | Some x => if is_stale x then fresh_bootstrap e else mret (Some x)
    end.

Definition EnsureConnected (e : recovery) : SM (option error) :=
  alive ← gets (IsConnectionAlive ∘ ds_client);
  if alive : bool then mret None
  else
    resume ← gets ds_loopID;
    close_sidecar;;
    err ← redial e;
    match err with
    | Some x => mret (Some x)
    | None => resume_loop e resume
    end.

Definition Close : SM unit :=
  closed ← gets ds_closed;
  if closed : bool then mret tt
  else
    modifies (set_closed true);;
    on_stream Close;;
    on_rpc Close;;
    modifies (set_rpcConnected false).

Definition Detach (ctx_done : bool) : SM (option error) :=
  connected ← gets (IsConnected ∘ ds_client);
  if connected : bool then on_stream (Notify ctx_done "disconnect" (Some ∅)) else mret None.

(** The input options of a turn, after the loop. *)
Definition turn_options (opts : option SendTurnOptions) : list InputOption :=
  match opts with
  | None => []
  | Some o =>
      (if to_PreferredSubagent o <>s "" then [WithSubagent (to_PreferredSubagent o)] else []) ++
      (if to_Model o <>s "" then [WithModel (to_Model o)] else []) ++
      (if bool_decide (is_Some (to_ModelParams o)) then [WithModelParams (to_ModelParams o)] else []) ++
      (if bool_decide (is_Some (to_Attachments o)) then [WithAttachments (to_Attachments o)] else []) ++
      (if to_ClarificationMode o <>s "" then [WithClarificationMode (to_ClarificationMode o)] else []) ++
      (if to_InteractionMode o <>s "" then [WithInteractionMode (to_InteractionMode o)] else []) ++
      (if to_ClarificationAnswer o then [WithClarificationAnswer] else []) ++
      (if to_IntentHint o <>s "" then [WithIntentHint (to_IntentHint o)] else [])
  end.

Definition SendTurn (ctx_done : bool) (text : string) (opts : option SendTurnOptions) : SM (option error) :=
  loopID ← gets ds_loopID;
  if loopID =s "" then mret (Some (ErrMsg "no active loop session"))
  else on_stream (SendInput ctx_done text (WithLoopID loopID :: turn_options opts)).

Definition InvokeSkill (k : call) (skill args interactionMode : string) : SM result :=
  on_stream (InvokeSkill pj pt k skill args interactionMode (120 * second)).

Definition CancelActiveTurn (ctx_done : bool) : SM (option error) :=
  on_stream (Notify ctx_done "slash_command" (Some (mlit [("cmd", VStr "/cancel")]))).

(** ** The sidecar *)

Definition ensureRPCConnectedLocked (env : nat → attempt) : SM (option error) :=
  up ← gets (λ s, ds_rpcConnected s && IsConnected (ds_rpcClient s));
  if up : bool then mret None
  else
    err ← on_rpc (ConnectWithRetries pj pt env 5);
    match err with
    | Some e => mret (Some e)
    | None => modifies (set_rpcConnected true);; mret None
    end.

(** A request over the sidecar, once it is connected. *)
Definition over_sidecar (env : nat → attempt) (m : M result) : SM result :=
  err ← ensureRPCConnectedLocked env;
  match err with
  | Some e => mret (inr e)
  | None => on_rpc m
  end.

Definition ListLoops (env : nat → attempt) (k : call) (limit : Z) : SM result :=
  over_sidecar env (LoopList pj pt k None (if limit <=? 0 then 20 else limit)%Z (15 * second)).

Definition FetchLoopHistory (env : nat → attempt) (k : call) (loopID : string) : SM result :=
  over_sidecar env (FetchLoopHistory pj pt k loopID (30 * second)).

Definition SetClarificationMode (env : nat → attempt) (k : call) (mode interactionMode : string) :
    SM (bool + error) :=
  loopID ← gets ds_loopID;
  if loopID =s "" then mret (inl false)
  else
    let payload := mlit ([("type", VStr "loop_set_clarification_mode"); ("loop_id", VStr loopID);
                          ("mode", VStr mode)] ++ str_opt "interaction_mode" interactionMode) in
    r ← over_sidecar env
          (RequestResponse pj pt k payload "loop_set_clarification_mode_response" (5 * second));
    mret (match r with
          | inr e => inr e
          | inl resp => inl (default false (to_bool (mget resp "applied")))
          end).

(** ** The turn *)

(** The fields a turn leaves behind. *)
Definition note_turn (r : turn_result) (dropped : Z) (s : DaemonSession) : DaemonSession :=
  let t := last_turn r in
  let stats := MkStats 0 0 0 0 0 (FilteredEarly t) 0 0 0 0 (PostIdleDrained r) dropped in
  let s := set_loopID (loopID t) s in
  match Session.result r with
  | Waiting => set_turn stats "" (LastTurnCancelSeen t) None s
  | Ended es => set_turn stats es (LastTurnCancelSeen t) None s
  | Failed es e => set_turn stats es (LastTurnCancelSeen t) (Some e) s
  end.

(** [IterTurnChunks], for a consumer that takes every chunk: what it takes, and how the
    turn ended. *)
Definition IterTurnChunks (checks : list check) (drains : list bool) : SM (list TurnChunk * Session.outcome) :=
  drop ← gets ds_earlyDropFn;
  lid ← gets ds_loopID;
  r ← on_stream (iterTurnChunksLocked pj pt drop checks drains lid);
  modifies (note_turn r.1 r.2);;
  mret (chunks r.1, Session.result r.1).
End session.

(** * Lemmas *)

Definition session_inv (s : DaemonSession) : Prop := client_inv (ds_client s) ∧ client_inv (ds_rpcClient s).

Lemma new_session_inv url opts : session_inv (NewDaemonSession url opts).
Proof. by split; apply new_unregistered. Qed.

Lemma sbind_eq {A B} (m : SM A) (f : A → SM B) s x s' : m s = Some (x, s') → (m ≫= f) s = f x s'.
Proof. intros H. unfold mbind, SM_bind. by rewrite H. Qed.

Lemma on_stream_eq {A} (m : M A) s x c : m (ds_client s) = Some (x, c) → on_stream m s = Some (x, set_client c s).
Proof. intros H. unfold on_stream. by rewrite H. Qed.

Lemma on_rpc_eq {A} (m : M A) s x c : m (ds_rpcClient s) = Some (x, c) → on_rpc m s = Some (x, set_rpcClient c s).
Proof. intros H. unfold on_rpc. by rewrite H. Qed.

(** Fields of an updated session. *)
Lemma client_set_client c s : ds_client (set_client c s) = c.
Proof. by destruct s. Qed.
Lemma rpc_set_client c s : ds_rpcClient (set_client c s) = ds_rpcClient s.
Proof. by destruct s. Qed.
Lemma loop_set_client c s : ds_loopID (set_client c s) = ds_loopID s.
Proof. by destruct s. Qed.
Lemma loop_set_loopID l s : ds_loopID (set_loopID l s) = l.
Proof. by destruct s. Qed.
Lemma set_loopID_same s : set_loopID (ds_loopID s) s = s.
Proof. by destruct s. Qed.
Lemma set_client_set_client c c' s : set_client c (set_client c' s) = set_client c s.
Proof. by destruct s. Qed.
Lemma set_client_set_loopID c l s : set_client c (set_loopID l s) = set_loopID l (set_client c s).
Proof. by destruct s. Qed.
Lemma client_set_loopID l s : ds_client (set_loopID l s) = ds_client s.
Proof. by destruct s. Qed.
Lemma set_loopID_set_loopID l l' s : set_loopID l (set_loopID l' s) = set_loopID l s.
Proof. by destruct s. Qed.

Create Rewrite HintDb session.
#[export] Hint Rewrite client_set_client rpc_set_client loop_set_client loop_set_loopID set_loopID_same
  set_client_set_client set_client_set_loopID client_set_loopID set_loopID_set_loopID : session.

Section lemmas.
Context (parse_json : string → option value) (parse_time : string → option string).
Local Abbreviation pj := parse_json.
Local Abbreviation pt := parse_time.

(** Bootstrapping touches the stream and, on success, the loop id. *)
Lemma bootstrapLoop_spec k1 k2 resume s :
  client_inv (ds_client s) →
  ∃ r c l, bootstrapLoop pj pt k1 k2 resume s = Some (r, set_loopID l (set_client c s)) ∧ client_inv c ∧
    (∀ P, Quiet P → P (ds_client s) → P c) ∧
    match r with
    | inl _ => l ≠ "" ∧ TrimSpace l = l ∧ (TrimSpace resume ≠ "" → l = TrimSpace resume)
    | inr _ => l = ds_loopID s
    end.
Proof.
  intros Hi. unfold bootstrapLoop. set (opts := if ds_workspace s <>s "" then Some (SessionOptions (ds_workspace s) "" "") else None).
  destruct (BootstrapLoopSession_total pj pt k1 k2 resume (ds_workspace s) (Some (ds_cfg s)) opts _ Hi)
    as (r & c & H & Hi' & Hr).
  assert (∀ P, Quiet P → P (ds_client s) → P c) as HP.
  { intros P HQ Hp. by eapply (preserves_Bootstrap P pj pt); [exact Hp|exact H]. }
  rewrite (sbind_eq (gets ds_workspace) _ s (ds_workspace s) s), (sbind_eq (gets ds_cfg) _ s (ds_cfg s) s) by done.
  cbv zeta. fold opts. rewrite (sbind_eq _ _ _ _ _ (on_stream_eq _ _ _ _ H)). destruct r as [id|e].
  - eexists _, c, id. split; [reflexivity|]. by destruct (Hr id eq_refl) as (? & ? & ?).
  - exists (inr e), c, (ds_loopID s). split; [by destruct s|done].
Qed.

(** Reconnecting ends, and succeeds only on a ready client. *)
Lemma redial_spec e s :
  client_inv (ds_client s) →
  ∃ err c, redial pj pt e s = Some (err, set_client c s) ∧ client_inv c ∧ (err = None → ready c).
Proof.
  intros Hi. unfold redial.
  assert (∃ err c, Reconnect pj pt (rv_dial e) (rv_rounds e) (rv_ctx e) (ds_client s) = Some (err, c) ∧
    client_inv c ∧ (err = None → ready c)) as (err & c & H & Hi1 & Hr).
  { unfold Reconnect. rewrite (bind_eq _ _ _ (conn (ds_client s)) (ds_client s)) by done.
    set (c0 := if conn (ds_client s) then upd_sock_w false (upd_sock_in [] (ds_client s)) else ds_client s).
    rewrite (bind_eq _ _ _ tt c0) by (unfold c0; by destruct (conn _)).
    assert (client_inv c0) as Hi0 by (unfold c0; by destruct (conn _)).
    destruct (Connect_total pj pt (rv_dial e) (rv_rounds e) (rv_ctx e) c0) as (err & c & H & Hi' & _).
    exists err, c. split; [done|]. split; [auto|]. intros ->. by eapply Connect_success. }
  rewrite (sbind_eq _ _ _ _ _ (on_stream_eq _ _ _ _ H)). destruct err as [x|]; [|by exists None, c; auto].
  destruct (Close_closes c Hi1) as (c1 & H1 & Hi2 & _).
  rewrite (sbind_eq _ _ _ tt (set_client c1 s)) by (rewrite (on_stream_eq _ _ tt c1); by autorewrite with session).
  destruct (ConnectWithRetries_total pj pt (rv_retries e) 40 c1 Hi2) as (err & c2 & H2 & Hi3).
  exists err, c2. split; [|split; [done|intros ->; by eapply ConnectWithRetries_success]].
  rewrite (on_stream_eq _ _ err c2); autorewrite with session; [done|exact H2].
Qed.

(** The resumed loop was refused as stale. *)
Definition refused (e : recovery) (s : DaemonSession) : Prop :=
  ∃ x c, ReattachAndProbe pj pt (rv_reattach e) (rv_resubscribe e) (rv_probe e) (ds_cfg s) (ds_loopID s)
    (ds_client s) = Some (Some x, c) ∧ is_stale x = true.

Lemma fresh_bootstrap_spec e s :
  client_inv (ds_client s) →
  ∃ err c l, fresh_bootstrap pj pt e s = Some (err, set_loopID l (set_client c s)) ∧ client_inv c ∧
    (∀ P, Quiet P → P (ds_client s) → P c) ∧
    match err with None => l ≠ "" | Some _ => l = ds_loopID s end.
Proof.
  intros Hi. unfold fresh_bootstrap.
  destruct (bootstrapLoop_spec (rv_new e) (rv_subscribe e) "" s Hi) as (r & c & l & H & Hi' & HP & Hr).
  rewrite (sbind_eq _ _ _ _ _ H). eexists _, c, l. split; [done|]. by destruct r; [destruct Hr as (? & _)|].
Qed.

Lemma resume_loop_spec e s :
  client_inv (ds_client s) →
  ∃ err c l, resume_loop pj pt e (ds_loopID s) s = Some (err, set_loopID l (set_client c s)) ∧ client_inv c ∧
    (∀ P, Quiet P → P (ds_client s) → P c) ∧
    match err with
    | None => l ≠ "" ∧ (l = ds_loopID s ∨ ds_loopID s = "" ∨ refused e s)
    | Some _ => l = ds_loopID s
    end.
Proof.
  intros Hi. unfold resume_loop. destruct (String.eqb_spec (ds_loopID s) "") as [E|E].
  { destruct (fresh_bootstrap_spec e s Hi) as (err & c & l & H & ? & ? & Hl). exists err, c, l.
    split; [done|]. split; [done|]. split; [done|]. destruct err; [done|]. auto. }
  rewrite (sbind_eq (gets ds_cfg) _ s (ds_cfg s) s) by done.
  destruct (ReattachAndProbe_total pj pt (rv_reattach e) (rv_resubscribe e) (rv_probe e) (ds_cfg s) (ds_loopID s)
    _ Hi E) as (err & c & H & Hi' & _).
  assert (∀ P, Quiet P → P (ds_client s) → P c) as HP.
  { intros P HQ Hp. by eapply (preserves_Reattach P pj pt); [exact Hp|exact H]. }
  rewrite (sbind_eq _ _ _ _ _ (on_stream_eq _ _ _ _ H)). destruct err as [x|].
  2:{ eexists None, c, (ds_loopID s). split; [done|]. auto. }
  destruct (is_stale x) eqn:Ex.
  - destruct (fresh_bootstrap_spec e (set_client c s)) as (err & c2 & l & H2 & Hi2 & HP2 & Hl);
      [by autorewrite with session|].
    autorewrite with session in *. exists err, c2, l. split; [done|]. split; [done|].
    split; [intros P HQ Hp; by apply HP2, HP|]. destruct err; [done|]. split; [done|]. right. right.
    by exists x, c.
  - exists (Some x), c, (ds_loopID s). split; [|done]. by destruct s.
Qed.
End lemmas.

(** ** Peeling what an earlier turn left *)

Lemma enqueue_length (ev : gomap) (q : inbound gomap) :
  length (pendingEvents (enqueuePendingLocked ev q)) ≤ 1 + length (pendingEvents q).
Proof.
  unfold enqueuePendingLocked, noteInboundDropLocked. destruct (_ <? _)%Z; simpl; [rewrite length_app; simpl; lia|].
  destruct (scan_drop _ _ _ _) as [i p]. destruct (_ && _)%Z; simpl.
  - rewrite !length_app, length_take, length_drop. simpl. lia.
  - destruct (_ <=? _)%Z; simpl; [lia|]. destruct (pendingEvents q) eqn:E; simpl; [rewrite E; simpl; lia|].
    rewrite length_app. simpl. lia.
Qed.

Section peel.
Context (parse_json : string → option value) (parse_time : string → option string).

Lemma ReadEventWithTimeout_spec c :
  client_inv c →
  ∃ r c', ReadEventWithTimeout parse_json parse_time c = Some (r, c') ∧ client_inv c' ∧
    backlog c' ≤ backlog c ∧ (r.1 ≠ None → r.2 = None → backlog c' < backlog c).
Proof.
  intros Hi. unfold ReadEventWithTimeout, bind at 1, pop_event, pop_pending.
  destruct (pendingEvents (c_in c)) as [|ev q] eqn:Hp.
  2:{ eexists _, _. split; [done|]. split; [done|]. unfold backlog. simpl. rewrite Hp. simpl. lia. }
  rewrite (bind_eq _ _ c (conn c) c) by done. destruct (conn c) eqn:Ho; simpl; [|by eexists _, c].
  destruct (ReadEvent_total parse_json parse_time c Hi) as (r & c1 & Hr & Hi1 & _).
  assert (backlog c1 ≤ backlog c) as Hle
    by (eapply (preserves_ReadEvent (λ c', backlog c' ≤ backlog c)); [|exact Hr]; done).
  rewrite (bind_eq _ _ _ _ _ Hr). destruct r as [ev [e|]].
  - assert (∀ e' : option error, ∃ r c', ret ((None : gomap), e') c1 = Some (r, c') ∧ client_inv c' ∧
      backlog c' ≤ backlog c ∧ (r.1 ≠ None → r.2 = None → backlog c' < backlog c)) as He
      by (intros e'; by eexists _, c1).
    destruct e; apply He.
  - eexists _, c1. split; [done|]. split; [done|]. split; [done|]. intros Hev _.
    by apply (ReadEvent_backlog parse_json parse_time c ev c1 Hi Hr).
Qed.

Lemma peel_spec c :
  client_inv c →
  ∃ l c', PeelStalePendingControlEvents parse_json parse_time c = Some (l, c') ∧ client_inv c' ∧
    backlog c' ≤ backlog c.
Proof.
  intros Hi. unfold PeelStalePendingControlEvents.
  set (c0 := upd_in (set_pending (filter (λ ev, StalePendingFrameLabel ev = "") (pendingEvents (c_in c))) (c_in c)) c).
  rewrite (bind_eq _ _ c _ c0) by done. set (l0 := filter _ _).
  assert (client_inv c0) as Hi0 by done.
  assert (backlog c0 ≤ backlog c) as H0.
  { unfold backlog. simpl. pose proof (length_filter (λ ev, StalePendingFrameLabel ev = "") (pendingEvents (c_in c))). lia. }
  cut (∃ l c', peel_live parse_json parse_time 8 l0 c0 = Some (l, c') ∧ client_inv c' ∧ backlog c' ≤ backlog c0).
  { intros (l & c' & ? & ? & ?). exists l, c'. split; [done|]. split; [done|lia]. }
  clearbody l0 c0. clear -Hi0. generalize 8 as n. intros n. revert l0 c0 Hi0.
  induction n as [|n IH]; intros l c Hi; [by exists l, c|]. cbn [peel_live].
  destruct (ReadEventWithTimeout_spec c Hi) as (r & c1 & Hr & Hi1 & Hle & Hlt).
  rewrite (bind_eq _ _ _ _ _ Hr). destruct r as [[m|] [e|]]; try (by exists l, c1).
  specialize (Hlt ltac:(done) eq_refl). destruct (_ <>s "").
  - destruct (IH (l ++ [StalePendingFrameLabel (Some m)]) c1 Hi1) as (l' & c2 & H2 & Hi2 & Hle2).
    exists l', c2. split; [done|]. split; [done|lia].
  - eexists l, _. split; [done|]. split; [done|]. unfold backlog in *. simpl.
    pose proof (enqueue_length (Some m) (c_in c1)). lia.
Qed.
End peel.

(** ** Closing, the sidecar, and the input of a turn *)

Lemma close_sidecar_spec s :
  session_inv s →
  ∃ s', close_sidecar s = Some (tt, s') ∧ session_inv s' ∧ ds_client s' = ds_client s ∧
    ds_loopID s' = ds_loopID s ∧ ds_cfg s' = ds_cfg s ∧ ds_closed s' = ds_closed s ∧ ds_rpcConnected s' = false ∧
    (ds_rpcConnected s = true → IsConnected (ds_rpcClient s') = false).
Proof.
  intros [Hi Hj]. unfold close_sidecar. rewrite (sbind_eq (gets ds_rpcConnected) _ s (ds_rpcConnected s) s) by done.
  destruct (ds_rpcConnected s) eqn:E; [|by exists s].
  destruct (Close_closes (ds_rpcClient s) Hj) as (c & H & Hi' & Hc).
  rewrite (sbind_eq _ _ _ _ _ (on_rpc_eq _ _ _ _ H)). eexists. split; [done|]. by destruct s.
Qed.

(** The sidecar is all that a request over it may touch. *)
Definition beside (s s' : DaemonSession) : Prop :=
  ∃ c b, s' = set_rpcConnected b (set_rpcClient c s) ∧ (client_inv (ds_rpcClient s) → client_inv c).

Lemma beside_refl s : beside s s.
Proof. exists (ds_rpcClient s), (ds_rpcConnected s). by destruct s. Qed.

Lemma beside_trans s1 s2 s3 : beside s1 s2 → beside s2 s3 → beside s1 s3.
Proof.
  intros (c & b & -> & Hc) (c' & b' & -> & Hc'). exists c', b'. destruct s1; simpl in *. split; [done|auto].
Qed.

Lemma over_sidecar_spec pj pt env (m : M result) s :
  total m → client_inv (ds_rpcClient s) →
  ∃ r s', over_sidecar pj pt env m s = Some (r, s') ∧ beside s s' ∧
    (∀ x, r = inl x → ds_rpcConnected s' = true).
Proof.
  intros Hm Hi. unfold over_sidecar, ensureRPCConnectedLocked.
  assert (∃ err s1, ensureRPCConnectedLocked pj pt env s = Some (err, s1) ∧ beside s s1 ∧
    client_inv (ds_rpcClient s1) ∧ (err = None → ds_rpcConnected s1 = true)) as (err & s1 & H1 & Hb & Hi1 & Hc).
  { unfold ensureRPCConnectedLocked. set (up := ds_rpcConnected s && IsConnected (ds_rpcClient s)).
    rewrite (sbind_eq (gets _) _ s up s) by done. destruct up eqn:E.
    - exists None, s. split; [done|]. split; [apply beside_refl|]. split; [done|].
      unfold up in E. by apply andb_true_iff in E as [-> _].
    - destruct (ConnectWithRetries_total pj pt env 5 (ds_rpcClient s) Hi) as (err & c & H & Hi').
      rewrite (sbind_eq _ _ _ _ _ (on_rpc_eq _ _ _ _ H)). destruct err as [e|].
      + eexists _, _. split; [done|]. split; [|by destruct s].
        exists c, (ds_rpcConnected s). by destruct s.
      + eexists _, _. split; [reflexivity|]. split; [by exists c, true|]. by destruct s. }
  unfold ensureRPCConnectedLocked in H1. rewrite (sbind_eq _ _ _ _ _ H1). destruct err as [e|].
  - eexists _, s1. by split; [done|split].
  - destruct (Hm _ Hi1) as (r & c & H & Hi'). rewrite (on_rpc_eq _ _ _ _ H). eexists _, _. split; [done|].
    specialize (Hc eq_refl). split; [|by destruct s1].
    eapply beside_trans; [exact Hb|]. exists c, (ds_rpcConnected s1). by destruct s1.
Qed.

(** The options a turn is sent with: an option that is not given has its default. *)
Lemma turn_options_apply loopID o :
  apply_options (WithLoopID loopID :: turn_options (Some o)) =
    InputOptions loopID (to_PreferredSubagent o) "" (to_Model o) (to_ModelParams o) (to_Attachments o)
      (to_IntentHint o) None "" None (to_ClarificationMode o) (to_InteractionMode o) (to_ClarificationAnswer o) None.
Proof.
  unfold turn_options. destruct o as [sub model params atts cmode imode ans hint]. simpl.
  unfold apply_options. cbn [foldl]. rewrite !foldl_app.
  destruct (String.eqb_spec sub "") as [->|], (String.eqb_spec model "") as [->|],
    (String.eqb_spec cmode "") as [->|], (String.eqb_spec imode "") as [->|], (String.eqb_spec hint "") as [->|],
    params, atts, ans; reflexivity.
Qed.

(** What [loop_input] carries for a turn. *)
Definition turn_input (loopID text : string) (opts : option SendTurnOptions) (params : gmap string value) : Prop :=
  params !! "loop_id" = Some (VStr (TrimSpace loopID)) ∧ params !! "content" = Some (VStr text) ∧
  match opts with
  | None => ∀ k, k ≠ "loop_id" → k ≠ "content" → params !! k = None
  | Some o =>
      params !! "preferred_subagent" = str_val (to_PreferredSubagent o) ∧
      params !! "model" = str_val (to_Model o) ∧
      params !! "model_params" = map_val (to_ModelParams o) ∧
      params !! "attachments" = (λ l, VArr (VMap <$> l)) <$> to_Attachments o ∧
      params !! "clarification_mode" = str_val (to_ClarificationMode o) ∧
      params !! "interaction_mode" = str_val (to_InteractionMode o) ∧
      params !! "clarification_answer" = (if to_ClarificationAnswer o then Some (VBool true) else None) ∧
      params !! "intent_hint" = str_val (to_IntentHint o)
  end.

Lemma turn_input_params loopID text opts :
  turn_input loopID text opts (loop_input_params text (apply_options (WithLoopID loopID :: turn_options opts))).
Proof.
  unfold turn_input. destruct opts as [o|].
  - rewrite turn_options_apply. repeat split; rewrite lookup_input_params, ?decide_False by discriminate;
      rewrite decide_True by reflexivity; rewrite ?decide_False by discriminate;
      cbn [str_val in_intakeScope String.eqb negb];
      rewrite ?(left_id_L None (∪)), ?(right_id_L None (∪)); try reflexivity.
  - change (apply_options (WithLoopID loopID :: turn_options None)) with (WithLoopID loopID no_options).
    split; [|split].
    + rewrite lookup_input_params, !decide_False, decide_True by done. reflexivity.
    + rewrite lookup_input_params, !decide_False, decide_True by done. reflexivity.
    + intros k H1 H2. rewrite lookup_input_params. rewrite (decide_False (P := "loop_id" = k)) by done.
      rewrite (decide_False (P := "content" = k)) by done.
      repeat match goal with |- context [if decide ?P then ?a else None] =>
        replace (if decide P then a else None) with (@None value) by (by case_decide) end.
      reflexivity.
Qed.

(** * Properties *)

Section properties.
Context (parse_json : string → option value) (parse_time : string → option string).
Local Abbreviation pj := parse_json.
Local Abbreviation pt := parse_time.

(** What recovering a lost stream gives. *)
Lemma EnsureConnected_spec e s :
  session_inv s → IsConnectionAlive (ds_client s) = false →
  ∃ err s', EnsureConnected pj pt e s = Some (err, s') ∧ session_inv s' ∧ ds_closed s' = ds_closed s ∧
    ds_rpcConnected s' = false ∧ (ds_rpcConnected s = true → IsConnected (ds_rpcClient s') = false) ∧
    match err with
    | None =>
        link (ds_client s') = (true, false, true, "ready") ∧ clear (ds_client s') ∧ ds_loopID s' ≠ "" ∧
        (ds_loopID s' = ds_loopID s ∨ ds_loopID s = "" ∨
         ∃ s1, ready (ds_client s1) ∧ ds_loopID s1 = ds_loopID s ∧ refused pj pt e s1)
    | Some _ => ds_loopID s' = ds_loopID s
    end.
Proof.
  intros Hi Ha. unfold EnsureConnected.
  rewrite (sbind_eq (gets _) _ s false s) by (unfold gets; simpl; by rewrite Ha).
  rewrite (sbind_eq (gets ds_loopID) _ s (ds_loopID s) s) by done.
  destruct (close_sidecar_spec s Hi) as (s1 & H1 & [Hi1 Hj1] & _ & El & _ & Ecl & Er & Ec).
  rewrite (sbind_eq _ _ _ _ _ H1). destruct (redial_spec pj pt e s1 Hi1) as (err & c & H2 & Hi2 & Hrd).
  rewrite (sbind_eq _ _ _ _ _ H2). destruct err as [x|].
  { eexists _, _. split; [done|]. destruct s1; simpl in *. by subst. }
  specialize (Hrd eq_refl). set (s2 := set_client c s1).
  assert (ds_loopID s2 = ds_loopID s ∧ ds_rpcClient s2 = ds_rpcClient s1 ∧ ds_closed s2 = ds_closed s ∧
    ds_rpcConnected s2 = false ∧ ds_client s2 = c) as (F1 & F2 & F3 & F4 & F5)
    by (unfold s2; destruct s1; simpl in *; by subst).
  rewrite <-F1. destruct (resume_loop_spec pj pt e s2) as (err & c3 & l & H3 & Hi3 & HP & Hl); [by rewrite F5|].
  exists err, (set_loopID l (set_client c3 s2)). split; [exact H3|].
  assert (session_inv (set_loopID l (set_client c3 s2))) as Hinv.
  { split; [by autorewrite with session|]. rewrite <-F2 in Hj1. clear -Hj1. by destruct s2. }
  split; [done|]. rewrite <-F3, <-F2 in *. clear Hinv. rewrite <-F4 in Er.
  assert (∀ P, Quiet P → P c → P c3) as HPc by (intros P HQ Hp; apply HP; [done|by rewrite F5]).
  split; [by destruct s2|]. split; [by rewrite <-F4; destruct s2|]. split; [by destruct s2|].
  destruct err as [x|]; autorewrite with session; [done|].
  split; [by apply (HPc (λ c', link c' = _) _), rd_link|]. split; [by apply (HPc clear _), rd_clear|].
  destruct Hl as [Hl [Hl'|[Hl'|Hl']]]; (split; [done|]); [by left|by right; left|].
  right. right. exists s2. by rewrite F5.
Qed.

Lemma SendTurn_spec text opts s :
  writable (ds_client s) = true → TrimSpace (ds_loopID s) ≠ "" →
  ∃ params c, SendTurn false text opts s = Some (None, set_client c s) ∧ turn_input (ds_loopID s) text opts params ∧
    c = add_out (NewNotificationEnvelope "loop_input" (Some params)) (ds_client s).
Proof.
  intros Hw Hl. unfold SendTurn. rewrite (sbind_eq (gets ds_loopID) _ s (ds_loopID s) s) by done.
  destruct (String.eqb_spec (ds_loopID s) "") as [E|_]; [by rewrite E in Hl|].
  set (o := WithLoopID (ds_loopID s) :: turn_options opts).
  exists (loop_input_params text (apply_options o)). eexists. split; [|split; [apply turn_input_params|done]].
  apply on_stream_eq. unfold SendInput. cbv zeta.
  assert (in_loopID (apply_options o) = ds_loopID s) as ->.
  { unfold o. destruct opts as [x|]; [by rewrite turn_options_apply|done]. }
  rewrite (proj2 (String.eqb_neq _ _) Hl). by apply SendMessage_ok.
Qed.


(** C24. A turn can be sent as soon as a lost stream has recovered, and it goes to the loop the
    session follows: one [loop_input] notification with the text and exactly the options
    that were given. *)
Theorem recovered_turn_sent (e : recovery) (s s1 : DaemonSession) (text : string) (opts : option SendTurnOptions)
    (Hi : session_inv s) (Hdead : IsConnectionAlive (ds_client s) = false)
    (Hrec : EnsureConnected pj pt e s = Some (None, s1)) (Hloop : TrimSpace (ds_loopID s1) ≠ "") :
  ∃ s2 params, SendTurn false text opts s1 = Some (None, s2) ∧
    sock_out (ds_client s2) =
      sock_out (ds_client s1) ++ [NewNotificationEnvelope "loop_input" (Some params)] ∧
    turn_input (ds_loopID s1) text opts params ∧ ds_loopID s2 = ds_loopID s1.
Proof.
  destruct (EnsureConnected_spec e s Hi Hdead) as (err & s' & H & _ & _ & _ & _ & Hm).
  rewrite Hrec in H. injection H as <- <-. destruct Hm as (Hlk & [Hw _] & _).
  destruct (SendTurn_spec text opts s1) as (params & c & H & Hp & ->); [|done|].
  { injection Hlk as Ho Hc _ _. unfold writable. by rewrite Ho, Hc, Hw. }
  eexists _, params. split; [exact H|]. autorewrite with session. done.
Qed.

(** C28. The requests over the sidecar never touch the stream: whatever becomes of them, the
    session keeps its stream socket, its loop and its last turn, and when one gives a
    result the sidecar is up. *)
Theorem sidecar_isolated (env : nat → attempt) (k : call) (limit : Z) (s1 s2 : string) (s : DaemonSession)
    (Hi : client_inv (ds_rpcClient s)) :
  Forall (λ op : SM result, ∃ r s', op s = Some (r, s') ∧ beside s s' ∧ (∀ x, r = inl x → ds_rpcConnected s' = true))
    [ListLoops pj pt env k limit; FetchLoopHistory pj pt env k s1] ∧
  ∃ r s', SetClarificationMode pj pt env k s1 s2 s = Some (r, s') ∧ beside s s' ∧
    (ds_loopID s = "" → r = inl false ∧ s' = s).
Proof.
  split; [constructor; [|constructor; [|constructor]]|].
  - apply over_sidecar_spec; [|done]. apply total_Request.
  - apply over_sidecar_spec; [|done]. apply total_need, total_Request.
  - unfold SetClarificationMode. rewrite (sbind_eq (gets ds_loopID) _ s (ds_loopID s) s) by done.
    destruct (String.eqb_spec (ds_loopID s) "") as [E|E].
    { eexists _, s. split; [done|]. split; [apply beside_refl|done]. }
    cbv zeta. set (m := RequestResponse _ _ _ _ _ _).
    destruct (over_sidecar_spec pj pt env m s (total_Request _ _ _ _ _ _) Hi) as (r & s' & H & Hb & _).
    rewrite (sbind_eq _ _ _ _ _ H). by eexists _, s'.
Qed.

(** Closing closes both sockets, once: a second close changes nothing. *)
Theorem close_closes_both (s : DaemonSession) (Hi : session_inv s) (Ho : ds_closed s = false) :
  ∃ s', Close s = Some (tt, s') ∧ IsConnected (ds_client s') = false ∧ IsConnected (ds_rpcClient s') = false ∧
    ds_rpcConnected s' = false ∧ ds_loopID s' = ds_loopID s ∧ session_inv s' ∧ Close s' = Some (tt, s').
Proof.
  unfold Close. rewrite (sbind_eq (gets ds_closed) _ s false s) by (unfold gets; by rewrite Ho).
  destruct Hi as [Hi Hj]. set (s1 := set_closed true s).
  rewrite (sbind_eq (modifies _) _ s tt s1) by done.
  assert (ds_client s1 = ds_client s ∧ ds_rpcClient s1 = ds_rpcClient s ∧ ds_closed s1 = true ∧ ds_loopID s1 = ds_loopID s)
    as (E1 & E2 & E3 & E4) by (unfold s1; by destruct s).
  destruct (Close_closes (ds_client s) Hi) as (c & Hc & Hci & Hcc).
  destruct (Close_closes (ds_rpcClient s) Hj) as (c' & Hc' & Hci' & Hcc').
  rewrite (sbind_eq (on_stream _) _ s1 tt (set_client c s1)) by (apply on_stream_eq; by rewrite E1).
  rewrite (sbind_eq (on_rpc _) _ _ tt (set_rpcClient c' (set_client c s1)))
    by (apply on_rpc_eq; by rewrite rpc_set_client, E2).
  eexists. split; [reflexivity|]. unfold s1. by destruct s.
Qed.

(** A session that is used after it was closed opens sockets that no later close reaches:
    a recovery connects the stream again, and closing then changes nothing. *)
Theorem closed_session_reopens (e : recovery) (s s1 : DaemonSession) (Hi : session_inv s)
    (Hclosed : ds_closed s = true) (Hdead : IsConnectionAlive (ds_client s) = false)
    (Hrec : EnsureConnected pj pt e s = Some (None, s1)) :
  IsConnected (ds_client s1) = true ∧ Close s1 = Some (tt, s1).
Proof.
  destruct (EnsureConnected_spec e s Hi Hdead) as (err & s' & H & _ & Hcl & _ & _ & Hm).
  rewrite Hrec in H. injection H as <- <-. destruct Hm as (Hlk & _). split.
  - injection Hlk as Ho Hc _ _. unfold IsConnected. by rewrite Ho, Hc.
  - unfold Close. by rewrite (sbind_eq (gets ds_closed) _ s1 true s1) by (unfold gets; by rewrite Hcl, Hclosed).
Qed.


End properties.

(** * Examples *)

(** A session that followed a loop and lost its stream, and a recovery that meets a daemon
    which still has the loop. *)
Definition lost_session : DaemonSession := set_loopID "L1" (NewDaemonSession "ws://localhost:8765" None).

Definition answered (id : string) (frame : gomap) : call := Call id false [] [Round true [frame]].

Definition smooth : recovery :=
  Recovery (Some ([RData "WARMING"; RData "READY"], true)) 3 false (λ _, Attempt None 0 false false)
    (answered "r1" sample_reply) (answered "s1" (next_frame "s1")) (answered "r1" sample_reply) (ask []) (ask []).

Lemma lost_session_inv : session_inv lost_session.
Proof. by split; apply new_unregistered. Qed.


Lemma recovered_turn_sent_witness :
  ∃ s1 s2, EnsureConnected ack_json Some smooth lost_session = Some (None, s1) ∧
    SendTurn false "hi" None s1 = Some (None, s2) ∧ ds_loopID s2 = "L1".
Proof.
  assert (match EnsureConnected ack_json Some smooth lost_session with
          | Some (None, s1) => ds_loopID s1 = "L1" | _ => False end) as E1 by (vm_compute; reflexivity).
  destruct (EnsureConnected ack_json Some smooth lost_session) as [[[e|] s1]|] eqn:H1; [contradiction| |contradiction].
  destruct (recovered_turn_sent ack_json Some smooth lost_session s1 "hi" None lost_session_inv eq_refl H1)
    as (s2 & params & H2 & _ & _ & E2); [by rewrite E1|].
  exists s1, s2. rewrite E2. exact (conj eq_refl (conj H2 E1)).
Defined.

Lemma sidecar_isolated_witness :
  ∃ r s', SetClarificationMode ack_json Some (λ _, Attempt None 0 false false) (ask []) "auto" "" lost_session =
    Some (r, s') ∧ beside lost_session s'.
Proof.
  destruct (sidecar_isolated ack_json Some (λ _, Attempt None 0 false false) (ask []) 0 "auto" "" lost_session
    (proj2 lost_session_inv)) as [_ (r & s' & H & Hb & _)].
  by exists r, s'.
Defined.

Lemma close_closes_both_witness :
  ∃ s', Close lost_session = Some (tt, s') ∧ Close s' = Some (tt, s').
Proof.
  destruct (close_closes_both lost_session lost_session_inv eq_refl) as (s' & H & _ & _ & _ & _ & _ & H').
  by exists s'.
Defined.

Lemma closed_session_reopens_witness :
  ∃ s1, EnsureConnected ack_json Some smooth (set_closed true lost_session) = Some (None, s1) ∧
    IsConnected (ds_client s1) = true ∧ Close s1 = Some (tt, s1).
Proof.
  assert (match EnsureConnected ack_json Some smooth (set_closed true lost_session) with
          | Some (None, _) => True | _ => False end) as E1 by (vm_compute; exact I).
  destruct (EnsureConnected ack_json Some smooth (set_closed true lost_session)) as [[[e|] s1]|] eqn:H1;
    [contradiction| |contradiction].
  exists s1. split; [reflexivity|].
  exact (closed_session_reopens ack_json Some smooth (set_closed true lost_session) s1
    lost_session_inv eq_refl eq_refl H1).
Defined.

Definition streaming : DaemonSession := set_client full_turn lost_session.


