(* ===== verification/Errors.v ===== *)
(** The errors of the package (errors.go, and [HeartbeatError] of heartbeat.go): their
    texts, their chains as [errors.Unwrap] and [errors.As] walk them, and how the errors of
    the client's calls ([error] of Client) sit in them. *)

From Stdlib Require Import SpecFloat.
From stdpp Require Import sorting.
From S2P Require Import Prelude GoStr Value Protocol GoChan Mux Heartbeat Client Reader Rpc Bootstrap DaemonSession.

(** * Error values *)

(** The records that hold a cause are over the type of errors. *)
Record ConnectionError (E : Type) := MkConnectionError { ce_URL : string; ce_Attempt : Z; ce_Err : option E }.
Record TimeoutError := MkTimeoutError { te_Operation : string; te_Duration : string }.
Record ReconnectError (E : Type) := MkReconnectError { re_URL : string; re_Attempts : Z; re_Err : option E }.
Record StaleLoopError (E : Type) := MkStaleLoopError { se_LoopID : string; se_Err : option E }.
Arguments MkConnectionError {E} _ _ _.
Arguments ce_URL {E} _.
Arguments ce_Attempt {E} _.
Arguments ce_Err {E} _.
Arguments MkReconnectError {E} _ _ _.
Arguments re_URL {E} _.
Arguments re_Attempts {E} _.
Arguments re_Err {E} _.
Arguments se_LoopID {E} _.
Arguments se_Err {E} _.
Arguments MkStaleLoopError {E} _ _.

(** A Go [error]: a text alone (an [errors.New], or an error of a library, which wraps none
    of the package), a [fmt.Errorf] that wraps with [%w] at its end, or a type of the
    package. A nil cause is [None]. *)
#[warnings="-register-all"]
Inductive goerr :=
  | GoText (text : string)
  | GoWrap (text : string) (err : goerr)
  | GoConnection (e : ConnectionError goerr)
  | GoDaemon (e : DaemonError)
  | GoTimeout (e : TimeoutError)
  | GoReconnect (e : ReconnectError goerr)
  | GoStaleLoop (e : StaleLoopError goerr)
  | GoHeartbeat (e : HeartbeatError).

Definition NewConnectionError (url : string) (attempt : Z) (err : option goerr) : ConnectionError goerr :=
  MkConnectionError url attempt err.
Definition NewDaemonError (code : Z) (message : string) : DaemonError := MkDaemonError code message None.
Definition NewTimeoutError (operation duration : string) : TimeoutError := MkTimeoutError operation duration.
Definition NewReconnectError (url : string) (attempts : Z) (err : option goerr) : ReconnectError goerr :=
  MkReconnectError url attempts err.
Definition NewStaleLoopError (loopID : string) (err : option goerr) : StaleLoopError goerr :=
  MkStaleLoopError loopID err.

(** * Texts *)

(** [Duration.String] of the standard library: the fraction of a unit without its trailing
    zeros, and what is left of the number. *)
Fixpoint fmtFrac (prec : nat) (v : Z) (printing : bool) (acc : string) : string * Z :=
  match prec with
  | O => (if printing then "." +:+ acc else acc, v)
  | S prec =>
      let digit := (v mod 10)%Z in
      let printing := printing || negb (digit =? 0)%Z in
      fmtFrac prec (v / 10) printing (if printing then Itoa digit +:+ acc else acc)
  end.

Definition with_frac (prec : nat) (v : Z) (unit : string) : string :=
  let '(frac, v) := fmtFrac prec v false "" in Itoa v +:+ frac +:+ unit.

Definition Duration_String (d : Z) : string :=
  let u := Z.abs d in
  let text :=
    if (u =? 0)%Z then "0s"
    else if (u <? 1000)%Z then Itoa u +:+ "ns"
    else if (u <? 1000000)%Z then with_frac 3 u "µs"
    else if (u <? second)%Z then with_frac 6 u "ms"
    else
      let seconds := with_frac 9 (u mod (60 * second)) "s" in
      let minutes := (u / (60 * second))%Z in
      if (minutes =? 0)%Z then seconds
      else
        let hours := (minutes / 60)%Z in
        (if (hours =? 0)%Z then "" else Itoa hours +:+ "h") +:+ Itoa (minutes mod 60) +:+ "m" +:+ seconds in
  if (d <? 0)%Z then "-" +:+ text else text.

(** [%v] of an [error] that may be nil. *)
Definition show_cause (text : option string) : string := default "<nil>" text.

(** The order of the keys of a printed map. *)
Definition key_le (a b : string * string) : Prop := String.leb a.1 b.1 = true.
#[local] Instance key_le_dec : RelDecision key_le.
Proof. intros a b. unfold key_le. apply _. Defined.

Fixpoint spaced (texts : list string) : string :=
  match texts with
  | [] => ""
  | [s] => s
  | s :: texts => s +:+ " " +:+ spaced texts
  end.

Section texts.
Context (show_float : spec_float → string) (show_time : Z → string).

(** [%v] of a dynamic value; maps print in the order of their keys. *)
Fixpoint show_value (v : value) : string :=
  match v with
  | VNil => "<nil>"
  | VBool b => if b then "true" else "false"
  | VInt z | VInt64 z => Itoa z
  | VFloat f => show_float f
  | VStr s => s
  | VArr l => "[" +:+ spaced (show_value <$> l) +:+ "]"
  | VStrs l => "[" +:+ spaced l +:+ "]"
  | VMap None => "map[]"
  | VMap (Some m) =>
      let entries := map_fold (λ k v acc, (k, show_value v) :: acc) [] m in
      "map[" +:+ spaced ((λ e, e.1 +:+ ":" +:+ e.2) <$> merge_sort key_le entries) +:+ "]"
  end.

Definition DaemonError_Error (e : DaemonError) : string :=
  let text := "daemon error [" +:+ Itoa (Code e) +:+ "]: " +:+ Message e in
  if (0 <? size (default ∅ (Data e)))%nat then text +:+ " (" +:+ show_value (VMap (Data e)) +:+ ")" else text.

Definition TimeoutError_Error (e : TimeoutError) : string :=
  "timeout after " +:+ te_Duration e +:+ " waiting for " +:+ te_Operation e.

Definition HeartbeatError_Error (e : HeartbeatError) : string :=
  if (he_LastHeartbeat e =? 0)%Z then he_Message e +:+ " (no heartbeat received)"
  else he_Message e +:+ " (last heartbeat: " +:+ show_time (he_LastHeartbeat e) +:+ ", state: " +:+ he_State e +:+ ")".

(** The texts that end in a cause's are functions of that text. *)
Definition ConnectionError_Error {E} (e : ConnectionError E) (cause : option string) : string :=
  "connection error to " +:+ ce_URL e +:+ " (attempt " +:+ Itoa (ce_Attempt e) +:+ "): " +:+ show_cause cause.

Definition ReconnectError_Error {E} (e : ReconnectError E) (cause : option string) : string :=
  "reconnect to " +:+ re_URL e +:+ " failed after " +:+ Itoa (re_Attempts e) +:+ " attempts: " +:+ show_cause cause.

Definition StaleLoopError_Error {E} (e : StaleLoopError E) (cause : option string) : string :=
  "stale loop " +:+ se_LoopID e +:+ ": reattach accepted but liveness probe failed" +:+
  match cause with Some cause => ": " +:+ cause | None => "" end.

(** [Error()] of whatever type the error has. *)
Fixpoint Error_of (e : goerr) : string :=
  match e with
  | GoText text => text
  | GoWrap text err => text +:+ ": " +:+ Error_of err
  | GoConnection e =>
      ConnectionError_Error e match e with MkConnectionError _ _ (Some err) => Some (Error_of err) | _ => None end
  | GoDaemon e => DaemonError_Error e
  | GoTimeout e => TimeoutError_Error e
  | GoReconnect e =>
      ReconnectError_Error e match e with MkReconnectError _ _ (Some err) => Some (Error_of err) | _ => None end
  | GoStaleLoop e =>
      StaleLoopError_Error e match e with MkStaleLoopError _ (Some err) => Some (Error_of err) | _ => None end
  | GoHeartbeat e => HeartbeatError_Error e
  end.
End texts.

(** * Chains *)

Definition ConnectionError_Unwrap {E} (e : ConnectionError E) : option E := ce_Err e.
Definition ReconnectError_Unwrap {E} (e : ReconnectError E) : option E := re_Err e.
Definition StaleLoopError_Unwrap {E} (e : StaleLoopError E) : option E := se_Err e.

(** [errors.Unwrap] *)
Definition Unwrap (e : goerr) : option goerr :=
  match e with
  | GoWrap _ err => Some err
  | GoConnection e => ConnectionError_Unwrap e
  | GoReconnect e => ReconnectError_Unwrap e
  | GoStaleLoop e => StaleLoopError_Unwrap e
  | GoText _ | GoDaemon _ | GoTimeout _ | GoHeartbeat _ => None
  end.

(** [errors.As] for the type that [is_it] picks out: the first of the chain. *)
Fixpoint As {A} (is_it : goerr → option A) (e : goerr) : option A :=
  match is_it e with
  | Some x => Some x
  | None =>
      match e with
      | GoWrap _ err => As is_it err
      | GoConnection (MkConnectionError _ _ (Some err)) | GoReconnect (MkReconnectError _ _ (Some err))
      | GoStaleLoop (MkStaleLoopError _ (Some err)) => As is_it err
      | _ => None
      end
  end.

Definition is_StaleLoopError (e : goerr) : option (StaleLoopError goerr) :=
  match e with GoStaleLoop e => Some e | _ => None end.
Definition is_DaemonError (e : goerr) : option DaemonError :=
  match e with GoDaemon e => Some e | _ => None end.

(** The error of a client's call as a Go error. [open] gives the texts that come from
    elsewhere: of the context, of the dialler and the socket, and of a handshake that timed
    out, whose timeout is the configuration's. *)
Fixpoint go_error (show_float : spec_float → string) (open : error → string) (e : error) : goerr :=
  match e with
  | ErrNotConnected => GoText "soothe: not connected"
  | ErrContext | ErrWrite | ErrTimeout _ | ErrDial => GoText (open e)
  | ErrReadTimeout => GoWrap "websocket read timed out" (GoText (open e))
  | ErrMsg text => GoText text
  | ErrReply text reply => GoText (text +:+ ": " +:+ show_value show_float (VMap reply))
  | ErrTimeoutAfter timeout what => GoText ("timeout after " +:+ Duration_String timeout +:+ " waiting for " +:+ what)
  | ErrConnectionClosed what => GoText ("connection closed waiting for " +:+ what)
  | ErrDaemon e => GoDaemon e
  | ErrWrap prefix err => GoWrap prefix (go_error show_float open err)
  | ErrHandshake code text => GoText ("daemon handshake error [" +:+ Itoa code +:+ "]: " +:+ text)
  | ErrStaleLoop loopID err => GoStaleLoop (NewStaleLoopError loopID (Some (go_error show_float open err)))
  | ErrConnection url attempt err => GoConnection (NewConnectionError url attempt (Some (go_error show_float open err)))
  end.

Example duration_texts :
  Duration_String <$>
    [0; 7; 1500; 250 * millisecond; second; 15 * second; 90 * second; 3600 * second; 1234567 * millisecond; - second]%Z =
  ["0s"; "7ns"; "1.5µs"; "250ms"; "1s"; "15s"; "1m30s"; "1h0m0s"; "20m34.567s"; "-1s"].
Proof. vm_compute. reflexivity. Qed.

(** * Lemmas *)

(** What a call on a client returns, whenever it returns. *)
Definition gives {A} (Q : A → Prop) (m : M A) : Prop := ∀ c x c', m c = Some (x, c') → Q x.

Section gives.
Context {A : Type} (Q : A → Prop).

Lemma gives_ret (x : A) : Q x → gives Q (ret x).
Proof. by intros Hx c y c' [= <- <-]. Qed.

Lemma gives_bind_with {B} (P : B → Prop) (m : M B) (f : B → M A) :
  gives P m → (∀ x, P x → gives Q (f x)) → gives Q (bind m f).
Proof.
  intros Hm Hf c y c' H. unfold bind in H. destruct (m c) as [[x c1]|] eqn:E; [|done].
  by apply (Hf x (Hm _ _ _ E) _ _ _ H).
Qed.

Lemma gives_bind {B} (m : M B) (f : B → M A) : (∀ x, gives Q (f x)) → gives Q (bind m f).
Proof. intros Hf. apply (gives_bind_with (λ _, True)); [done|auto]. Qed.
End gives.

(** Errors outside the probe of a loop. *)
Definition not_stale (e : option error) : Prop := match e with Some e => is_stale e = false | None => True end.
Definition fresh_result {R} (r : R + error) : Prop := match r with inr e => is_stale e = false | inl _ => True end.

Ltac follow_m :=
  repeat match goal with
    | |- gives _ (ret _) => apply gives_ret
    | |- gives _ (if ?b then _ else _) => destruct b eqn:?
    | |- gives _ (match ?x with _ => _ end) => destruct x eqn:?
    | |- gives _ (bind _ _) => apply gives_bind; intros ?
    end.

Lemma SendMessage_plain ctx e : gives not_stale (SendMessage ctx e).
Proof. unfold SendMessage. follow_m; done. Qed.

Lemma poll_call_plain pc : gives (λ r, match r with Some r => fresh_result r | None => True end) (poll_call pc).
Proof. unfold poll_call. follow_m; [done|]. by destruct (_ : option DaemonError). Qed.

Lemma poll_stream_plain ps : gives (λ r, match r with Some r => fresh_result r | None => True end) (poll_stream ps).
Proof. unfold poll_stream. follow_m. destruct (_ : option gomap) as [[f|]|]; [|done..]. simpl. by destruct (_ =s _). Qed.

Section plain.
Context (parse_json : string → option value) (parse_time : string → option string).

Lemma ReadEvent_plain : gives (λ r, not_stale r.2) (ReadEvent parse_json parse_time).
Proof. unfold ReadEvent. follow_m; done. Qed.

Lemma await_active_plain poll timeout what rs :
  gives (λ r, match r with Some r => fresh_result r | None => True end) poll →
  gives fresh_result (await_active poll timeout what rs).
Proof.
  intros Hp. induction rs as [|[|reader routed] rs IH]; simpl; [by apply gives_ret|by apply gives_ret|].
  apply gives_bind; intros _. apply gives_bind; intros _. eapply gives_bind_with; [exact Hp|].
  intros [r|] Hr; [by apply gives_ret|exact IH].
Qed.

Lemma await_plain poll own timeout what rs :
  gives (λ r, match r with Some r => fresh_result r | None => True end) poll →
  (∀ ev r, own ev = Mine r → fresh_result r) →
  gives fresh_result (await parse_json parse_time poll own timeout what rs).
Proof.
  intros Hp Ho. induction rs as [|[|reader routed] rs IH]; simpl; [by apply gives_ret|by apply gives_ret|].
  do 2 (apply gives_bind; intros _). apply gives_bind; intros active.
  eapply gives_bind_with; [exact Hp|]. intros [r|] Hr; [by apply gives_ret|].
  destruct active; [by apply await_active_plain|].
  eapply gives_bind_with; [apply ReadEvent_plain|]. intros [ev [e|]] He; [destruct ev; by apply gives_ret|].
  destruct ev as [ev|].
  - destruct (own (Some ev)) as [r| |] eqn:E; [apply gives_ret; by eapply Ho|exact IH|apply gives_bind; intros _; exact IH].
  - eapply gives_bind_with; [exact Hp|]. intros [r|] Hr2; by apply gives_ret.
Qed.

Lemma Request_plain k payload what timeout : gives fresh_result (RequestResponse parse_json parse_time k payload what timeout).
Proof.
  unfold RequestResponse, correlated. destruct (_ =s ""); [by apply gives_ret|].
  eapply gives_bind_with; [apply SendMessage_plain|]. intros [e|] He; [by apply gives_ret|].
  do 2 (apply gives_bind; intros ?).
  eapply gives_bind_with; [apply await_plain; [apply poll_call_plain|]|].
  - intros ev r. unfold call_verdict. by branches; intros [= <-].
  - intros r Hr. apply gives_bind; intros _. by apply gives_ret.
Qed.

Lemma Subscribe_plain k loopID verbosity timeout : gives fresh_result (LoopSubscribe parse_json parse_time k loopID verbosity timeout).
Proof.
  unfold LoopSubscribe, subscription.
  eapply gives_bind_with; [apply SendMessage_plain|]. intros [e|] He; [by apply gives_ret|].
  do 2 (apply gives_bind; intros ?).
  eapply gives_bind_with; [apply await_plain; [apply poll_stream_plain|]|].
  - intros ev r. unfold stream_verdict. branches; intros [= <-]; unfold confirm; by branches.
  - intros r Hr. apply gives_bind; intros _. by apply gives_ret.
Qed.
End plain.

(** The session's test of an error is [errors.As]. *)
Lemma is_stale_As show_float open e : is_stale e = false ↔ As is_StaleLoopError (go_error show_float open e) = None.
Proof. induction e; simpl; done. Qed.

Definition wraps (e cause : goerr) : Prop := Unwrap e = Some cause.

Lemma ends_app (u t s : string) : (∃ p, t = p +:+ s) → ∃ p, u +:+ t = p +:+ s.
Proof. intros [p ->]. exists (u +:+ p). apply string_app_assoc. Qed.

Lemma wraps_text sf st e cause : wraps e cause → ∃ p, Error_of sf st e = p +:+ Error_of sf st cause.
Proof.
  unfold wraps. destruct e as [|t err|[u n err]| | |[u n err]|[l err]|]; 
    cbn [Unwrap ConnectionError_Unwrap ReconnectError_Unwrap StaleLoopError_Unwrap ce_Err re_Err se_Err]; intros [= ->];
    cbn [Error_of]; unfold ConnectionError_Error, ReconnectError_Error, StaleLoopError_Error, show_cause; cbn [from_option]; repeat apply ends_app; by exists "".
Qed.

Lemma As_wraps {A} (is_it : goerr → option A) e :
  As is_it e = match is_it e with Some x => Some x | None => Unwrap e ≫= As is_it end.
Proof. destruct e as [|t err|[u n [err|]]| | |[u n [err|]]|[l [err|]]|]; reflexivity. Qed.

(** The length of a chain. *)
Fixpoint links (e : goerr) : nat :=
  match e with
  | GoWrap _ err => S (links err)
  | GoConnection (MkConnectionError _ _ (Some err)) | GoReconnect (MkReconnectError _ _ (Some err))
  | GoStaleLoop (MkStaleLoopError _ (Some err)) => S (links err)
  | _ => 0
  end.

Lemma wraps_links e cause : wraps e cause → links e = S (links cause).
Proof. unfold wraps. by destruct e as [|t err|[u n [err|]]| | |[u n [err|]]|[l [err|]]|]; simpl; intros [= <-]. Qed.

Section As.
Context {A : Type} (is_it : goerr → option A) (x : A).

(** The first error of its type, [n] links down. *)
Definition first_at (e : goerr) (n : nat) (cause : goerr) : Prop :=
  is_it cause = Some x ∧ nsteps wraps n e cause ∧ ∀ k e', k < n → nsteps wraps k e e' → is_it e' = None.

Lemma As_found e : As is_it e = Some x → ∃ cause n, first_at e n cause.
Proof.
  remember (links e) as d eqn:Hd. revert e Hd. induction d as [|d IH]; intros e Hd; rewrite As_wraps;
    destruct (is_it e) as [y|] eqn:E.
  1,3: intros [= ->]; exists e, 0; split; [done|]; split; [constructor|lia].
  - intros (c & Hc & _)%bind_Some. apply wraps_links in Hc. lia.
  - intros (c & Hc & H)%bind_Some. destruct (IH c) as (cause & n & Hx & Hn & Hk); [apply wraps_links in Hc; lia|done|].
    exists cause, (S n). split; [done|]. split; [by eapply nsteps_l|]. intros [|k] e' Hlt Hs.
    + by inversion Hs; subst.
    + inversion Hs as [|? ? e1 ? He1 Hr]; subst. unfold wraps in He1. rewrite Hc in He1. injection He1 as <-.
      apply (Hk k); [lia|done].
Qed.

Lemma As_finds e n cause : first_at e n cause → As is_it e = Some x.
Proof.
  revert e. induction n as [|n IH]; intros e (Hx & Hn & Hk); rewrite As_wraps.
  - inversion Hn; subst. by rewrite Hx.
  - rewrite (Hk 0 e); [|lia|constructor]. inversion Hn as [|? ? e1 ? He1 Hr]; subst. unfold wraps in He1. rewrite He1. simpl.
    apply IH. split; [done|]. split; [done|]. intros k e' Hlt Hs. apply (Hk (S k)); [lia|]. by eapply nsteps_l.
Qed.
End As.

(** * Properties *)

Section properties.
Context (open : error → string) (show_float : spec_float → string) (show_time : Z → string).
Local Abbreviation Error_of := (Error_of show_float show_time).
Local Abbreviation go_error := (go_error show_float open).

(** An error prints the errors it wraps, at any depth, at the end of its text; and
    [errors.As] finds exactly the first error of its type on the way there. *)
Theorem chain_printed_and_found {A} (is_it : goerr → option A) (e : goerr) :
  (∀ cause, rtc wraps e cause → ∃ p, Error_of e = p +:+ Error_of cause) ∧
  (∀ x, As is_it e = Some x ↔ ∃ cause n, first_at is_it x e n cause).
Proof.
  split.
  - intros cause H. induction H as [e|e e1 cause He _ (p & IH)]; [by exists ""|].
    destruct (wraps_text show_float show_time _ _ He) as [q Hq]. exists (q +:+ p). by rewrite Hq, IH, string_app_assoc.
  - intros x. split.
    + apply As_found.
    + intros (cause & n & H). by eapply As_finds.
Qed.

(** C23. When [ReattachAndProbe] fails, [errors.As] finds a stale loop in its error exactly when
    the reattachment and the subscription were accepted and the probe of the loop then
    failed; what it finds names that loop and holds the error of the probe. *)
Theorem stale_names_probe (parse_json : string → option value) (parse_time : string → option string)
    (k1 k2 k3 : call) (cfg : Config) (loopID : string) (c c' : client) (err : error)
    (H : ReattachAndProbe parse_json parse_time k1 k2 k3 cfg loopID c = Some (Some err, c')) :
  match As is_StaleLoopError (go_error err) with
  | Some s => se_LoopID s = loopID ∧
      ∃ resp1 c1 resp2 c2 cause,
        RequestResponse parse_json parse_time k1 (mlit [("type", VStr "loop_reattach"); ("loop_id", VStr loopID)])
          "loop_reattach" (timeout_or (LoopStatusTimeout cfg) 15) c = Some (inl resp1, c1) ∧
        LoopSubscribe parse_json parse_time k2 loopID (VerbosityLevel cfg) (timeout_or (SubscriptionTimeout cfg) 10) c1 =
          Some (inl resp2, c2) ∧
        LoopGet parse_json parse_time k3 loopID false (timeout_or (ReattachProbeTimeout cfg) 5) c2 = Some (inr cause, c') ∧
        Unwrap (go_error err) = Some (go_error cause)
  | None => loopID = "" ∨ ∃ cause, err = ErrWrap "loop_reattach" cause ∨ err = ErrWrap "loop_subscribe" cause
  end.
Proof.
  revert H. unfold ReattachAndProbe. destruct (loopID =s "") eqn:Eid.
  { bool_to_prop. intros [= <- <-]. by left. }
  unfold bind at 1. destruct (RequestResponse _ _ _ _ _ _ c) as [[[resp1|e] c1]|] eqn:E1; [| |done].
  2: { intros [= <- <-]. pose proof (Request_plain _ _ _ _ _ _ _ _ _ E1) as Hp. simpl in *.
       apply (is_stale_As show_float open) in Hp. rewrite Hp. right. eauto. }
  unfold bind at 1. destruct (LoopSubscribe _ _ _ _ _ _ c1) as [[[resp2|e] c2]|] eqn:E2; [| |done].
  2: { intros [= <- <-]. pose proof (Subscribe_plain _ _ _ _ _ _ _ _ _ E2) as Hp. simpl in *.
       apply (is_stale_As show_float open) in Hp. rewrite Hp. right. eauto. }
  unfold bind. destruct (LoopGet _ _ _ _ _ _ c2) as [[[resp3|e] c3]|] eqn:E3; [done| |done].
  intros [= <- <-]. simpl. split; [done|]. by eexists _, _, _, _, _.
Qed.
End properties.

(** * Examples *)

(** The texts of examples/errors_example_test.go. *)
Example example_texts :
  let text := Error_of (λ _, "") (λ _, "") in
  text (GoConnection (NewConnectionError "ws://localhost:8765" 3 (Some (GoText "dial tcp: connection refused")))) =
    "connection error to ws://localhost:8765 (attempt 3): dial tcp: connection refused" ∧
  text (GoDaemon (NewDaemonError (-32200) "loop not found")) = "daemon error [-32200]: loop not found" ∧
  text (GoDaemon (MkDaemonError (-32603) "internal error"
    (Some (mlit [("detail", VStr "checkpoint corruption"); ("at", VArr [VNil; VBool true; VInt (-3)])])))) =
    "daemon error [-32603]: internal error (map[at:[<nil> true -3] detail:checkpoint corruption])" ∧
  text (GoTimeout (NewTimeoutError "daemon_status" "5s")) = "timeout after 5s waiting for daemon_status" ∧
  text (GoReconnect (NewReconnectError "ws://localhost:8765" 10 (Some (GoText "websocket: bad handshake")))) =
    "reconnect to ws://localhost:8765 failed after 10 attempts: websocket: bad handshake" ∧
  text (GoReconnect (NewReconnectError "ws://localhost:8765" 10 None)) =
    "reconnect to ws://localhost:8765 failed after 10 attempts: <nil>" ∧
  text (GoStaleLoop (NewStaleLoopError "loop-abc-123" (Some (GoText "loop_get timeout")))) =
    "stale loop loop-abc-123: reattach accepted but liveness probe failed: loop_get timeout" ∧
  text (GoHeartbeat (MkHeartbeatError 0 "" "timeout waiting for daemon to be alive")) =
    "timeout waiting for daemon to be alive (no heartbeat received)".
Proof. vm_compute. repeat split. Qed.

(** The loop is reattached and subscribed to, and the probe times out. *)
Lemma stale_names_probe_witness :
  ∃ err c' s, ReattachAndProbe call_json Some (answered "r1" sample_reply) (answered "s1" (next_frame "s1")) (ask [])
      DefaultConfig "L1" (live []) = Some (Some err, c') ∧
    As is_StaleLoopError (go_error (λ _, "") (λ _, "") err) = Some s ∧ se_LoopID s = "L1".
Proof.
  set (run := ReattachAndProbe call_json Some (answered "r1" sample_reply) (answered "s1" (next_frame "s1")) (ask [])
    DefaultConfig "L1" (live [])).
  assert (match run with
          | Some (Some err, _) => is_Some (As is_StaleLoopError (go_error (λ _, "") (λ _, "") err))
          | _ => False end) as E by (vm_compute; by eexists).
  destruct run as [[[err|] c']|] eqn:H; [|contradiction..]. unfold run in H. exists err, c'.
  pose proof (stale_names_probe (λ _, "") (λ _, "") call_json Some (answered "r1" sample_reply) (answered "s1" (next_frame "s1"))
    (ask []) DefaultConfig "L1" (live []) c' err H) as P.
  destruct E as [s E]. exists s. rewrite E in P. exact (conj eq_refl (conj E (proj1 P))).
Defined.
