(* ===== verification/SessionRun.v ===== *)
(** The daemon session over time: any sequence of its operations, with whatever the network
    does in between. No sequence panics or fails to end, and some facts, once true of a
    session, stay true. *)

From S2P Require Import Prelude GoStr Value TurnId StreamTerminal TurnGate Pending Protocol GoChan Mux Client Reader.
From S2P Require Import Session Handshake Rpc Bootstrap Preserve Sends Jobs Helpers DaemonSession.

(** * Operations *)

(** The operations of a session with what each of them meets, and what the network does
    between them: data arrives for one of the sockets, and writes begin to fail or to work. *)
Inductive session_op :=
  | OpConnect (env : nat → attempt) (k1 k2 : call) (resumeLoopID : string)
  | OpNewLoop (k1 k2 : call)
  | OpSwitchLoop (k1 k2 : call) (loopID : string)
  | OpEnsureConnected (e : recovery)
  | OpClose
  | OpDetach (ctx_done : bool)
  | OpSendTurn (ctx_done : bool) (text : string) (opts : option SendTurnOptions)
  | OpInvokeSkill (k : call) (skill args interactionMode : string)
  | OpCancelActiveTurn (ctx_done : bool)
  | OpListLoops (env : nat → attempt) (k : call) (limit : Z)
  | OpFetchLoopHistory (env : nat → attempt) (k : call) (loopID : string)
  | OpSetClarificationMode (env : nat → attempt) (k : call) (mode interactionMode : string)
  | OpIterTurnChunks (checks : list check) (drains : list bool)
  | StreamNetwork (arrived : list read_result) (writes : bool)
  | SidecarNetwork (arrived : list read_result) (writes : bool).

Definition network (arrived : list read_result) (writes : bool) : M unit :=
  modify (λ c, upd_sock_w writes (upd_sock_in (sock_in c ++ arrived) c)).

(** The operations that may open a socket. *)
Definition opens (op : session_op) : bool :=
  match op with
  | OpConnect _ _ _ _ | OpEnsureConnected _ | OpListLoops _ _ _ | OpFetchLoopHistory _ _ _
  | OpSetClarificationMode _ _ _ _ => true
  | _ => false
  end.

Section run.
Context (parse_json : string → option value) (parse_time : string → option string).
Local Abbreviation pj := parse_json.
Local Abbreviation pt := parse_time.

Definition run_op (op : session_op) : SM unit :=
  match op with
  | OpConnect env k1 k2 resumeLoopID => Connect pj pt env k1 k2 resumeLoopID;; mret tt
  | OpNewLoop k1 k2 => NewLoop pj pt k1 k2;; mret tt
  | OpSwitchLoop k1 k2 loopID => SwitchLoop pj pt k1 k2 loopID;; mret tt
  | OpEnsureConnected e => EnsureConnected pj pt e;; mret tt
  | OpClose => Close
  | OpDetach ctx_done => Detach ctx_done;; mret tt
  | OpSendTurn ctx_done text opts => SendTurn ctx_done text opts;; mret tt
  | OpInvokeSkill k skill args mode => InvokeSkill pj pt k skill args mode;; mret tt
  | OpCancelActiveTurn ctx_done => CancelActiveTurn ctx_done;; mret tt
  | OpListLoops env k limit => ListLoops pj pt env k limit;; mret tt
  | OpFetchLoopHistory env k loopID => FetchLoopHistory pj pt env k loopID;; mret tt
  | OpSetClarificationMode env k mode imode => SetClarificationMode pj pt env k mode imode;; mret tt
  | OpIterTurnChunks checks drains => IterTurnChunks pj pt checks drains;; mret tt
  | StreamNetwork arrived writes => on_stream (network arrived writes)
  | SidecarNetwork arrived writes => on_rpc (network arrived writes)
  end.

Fixpoint run_ops (ops : list session_op) : SM unit :=
  match ops with
  | [] => mret tt
  | op :: ops => run_op op;; run_ops ops
  end.
End run.

(** * What stays *)

(** A session that follows a loop goes on following one, a closed one stays marked closed,
    and what it was created with does not change. *)
Record evolves (s s' : DaemonSession) : Prop := {
  ev_loop : ds_loopID s ≠ "" → ds_loopID s' ≠ "";
  ev_closed : ds_closed s = true → ds_closed s' = true;
  ev_url : ds_wsURL s' = ds_wsURL s;
  ev_workspace : ds_workspace s' = ds_workspace s;
  ev_cfg : ds_cfg s' = ds_cfg s;
  ev_drop : ds_earlyDropFn s' = ds_earlyDropFn s;
}.

#[export] Instance evolves_preorder : PreOrder evolves.
Proof.
  split; [by split|]. intros s1 s2 s3 [] []. split; [by auto|by auto|by etrans..].
Qed.

(** Sockets, the sidecar flag and the record of a turn may change at will. *)
Lemma evolves_client c s : evolves s (set_client c s).
Proof. by destruct s. Qed.
Lemma evolves_rpc c s : evolves s (set_rpcClient c s).
Proof. by destruct s. Qed.
Lemma evolves_rpcConnected b s : evolves s (set_rpcConnected b s).
Proof. by destruct s. Qed.
Lemma evolves_set_closed s : evolves s (set_closed true s).
Proof. by destruct s. Qed.
Lemma evolves_loop l s : l ≠ "" → evolves s (set_loopID l s).
Proof. by destruct s. Qed.

(** A session computation that ends without a panic, keeping the invariant. *)
Definition safe {A} (m : SM A) : Prop := ∀ s, session_inv s →
  ∃ x s', m s = Some (x, s') ∧ session_inv s' ∧ evolves s s'.

Lemma safe_ret {A} (x : A) : safe (mret x).
Proof. intros s Hi. by exists x, s. Qed.

Lemma safe_gets {A} (f : DaemonSession → A) : safe (gets f).
Proof. intros s Hi. by exists (f s), s. Qed.

Lemma safe_bind {A B} (m : SM A) (f : A → SM B) : safe m → (∀ x, safe (f x)) → safe (m ≫= f).
Proof.
  intros Hm Hf s Hi. destruct (Hm s Hi) as (x & s1 & H1 & Hi1 & E1). rewrite (sbind_eq _ _ _ _ _ H1).
  destruct (Hf x s1 Hi1) as (y & s2 & H2 & Hi2 & E2). exists y, s2. split; [done|]. split; [done|]. by etrans.
Qed.

Lemma safe_modifies f : (∀ s, session_inv s → session_inv (f s) ∧ evolves s (f s)) → safe (modifies f).
Proof. intros Hf s Hi. exists tt, (f s). split; [done|auto]. Qed.

Lemma safe_on_stream {A} (m : M A) : total m → safe (on_stream m).
Proof.
  intros Hm s [Hi Hj]. destruct (Hm _ Hi) as (x & c & H & Hi'). rewrite (on_stream_eq _ _ _ _ H).
  eexists _, _. split; [done|]. split; [by destruct s|apply evolves_client].
Qed.

Lemma safe_on_rpc {A} (m : M A) : total m → safe (on_rpc m).
Proof.
  intros Hm s [Hi Hj]. destruct (Hm _ Hj) as (x & c & H & Hi'). rewrite (on_rpc_eq _ _ _ _ H).
  eexists _, _. split; [done|]. split; [by destruct s|apply evolves_rpc].
Qed.

Create HintDb safe.
#[export] Hint Resolve safe_ret safe_gets safe_on_stream safe_on_rpc : safe.

(** Structural proof of [safe]: binds, then the cases of the computation. *)
Ltac solve_safe :=
  repeat first
    [ solve [eauto 3 with safe total]
    | apply safe_bind; [|intros ?]
    | match goal with |- safe (if ?b then _ else _) => destruct b end
    | match goal with |- safe (match ?x with _ => _ end) => destruct x end ].

Section totals.
Context (parse_json : string → option value) (parse_time : string → option string).
Local Abbreviation pj := parse_json.
Local Abbreviation pt := parse_time.

Lemma total_get {A} (f : client → A) : total (get f).
Proof. intros c Hi. by exists (f c), c. Qed.

Lemma total_modify f : (∀ c, client_inv c → client_inv (f c)) → total (modify f).
Proof. intros Hf c Hi. exists tt, (f c). auto. Qed.

Lemma total_network arrived writes : total (network arrived writes).
Proof. by apply total_modify. Qed.

Lemma total_Close : total Client.Close.
Proof. intros c Hi. destruct (Close_closes c Hi) as (c' & H & Hi' & _). by exists tt, c'. Qed.

Lemma total_ConnectWithRetries env n : total (ConnectWithRetries pj pt env n).
Proof. intros c Hi. destruct (ConnectWithRetries_total pj pt env n c Hi) as (e & c' & ? & ?). by exists e, c'. Qed.

Lemma total_SendMessage ctx_done e : total (SendMessage ctx_done e).
Proof.
  intros c Hi. unfold SendMessage. rewrite (bind_eq _ _ c (conn c) c), (bind_eq _ _ c (conn_closed c) c) by done.
  destruct (_ || _); [by eexists _, c|]. destruct ctx_done; [by eexists _, c|].
  rewrite (bind_eq _ _ c (sock_w c) c) by done. destruct (sock_w c); [by eexists _, _|].
  destruct (signalDisconnect_total DisconnectUnclean c Hi) as (d & Hd & Hdi & _).
  rewrite (bind_eq _ _ _ _ _ Hd). eexists _, _. split; [done|]. by destruct Hi.
Qed.

Lemma total_SendInput ctx_done text opts : total (SendInput ctx_done text opts).
Proof. unfold SendInput. cbv zeta. destruct (_ =s ""); [apply total_ret|apply total_SendMessage]. Qed.
End totals.

#[export] Hint Resolve total_get total_network total_Close total_ConnectWithRetries total_SendMessage
  total_SendInput : total.

(** ** The turn *)

Section turn.
Context (parse_json : string → option value) (parse_time : string → option string).
Local Abbreviation pj := parse_json.
Local Abbreviation pt := parse_time.

(** A step of a turn does not lose the loop. *)
Definition keeps_loop (t : turn) (out : step_out) : Prop :=
  match out with Continue t' | Yield t' _ | Finish t' _ _ => loopID t ≠ "" → loopID t' ≠ "" | Fail _ => True end.

Lemma status_step_loop frame t : keeps_loop t (status_step frame t).
Proof.
  unfold status_step. cbv zeta. set (t1 := set_loop _ t).
  assert (loopID t ≠ "" → loopID t1 ≠ "") as H1 by (unfold t1, set_loop; by destruct (String.eqb_spec (sget frame "loop_id") "")).
  assert (loopID (set_running frame t1) = loopID t1) as H2 by (unfold set_running; by destruct (bind_turn _ _ _)).
  clearbody t1. set (st := sget frame "state"). clearbody st.
  destruct (st =s "running"); [simpl; by rewrite H2|].
  destruct (_ && (st =s "stopped")); [destruct (_ && _); by simpl|].
  destruct (_ && (st =s "idle")); [destruct (IsIdleTerminalAllowed _ _ _ _ _); by simpl|by simpl].
Qed.

Lemma event_step_loop drop frame t : keeps_loop t (event_step drop frame t).
Proof.
  unfold event_step. cbv zeta. destruct (dropped _ _ _ _); [by simpl|].
  destruct (_ && negb _); [by simpl|]. destruct (_ && _); by simpl.
Qed.

Lemma turn_step_loop drop ev t : keeps_loop t (turn_step drop ev t).
Proof.
  unfold turn_step. cbv zeta. set (frame := if sget ev "type" =s "next" then UnwrapNext ev else ev). clearbody frame.
  destruct (foreign_loop _ _); [by simpl|]. destruct (foreign_turn _ _); [by simpl|].
  destruct (sget frame "type" =s "error"); [by simpl|]. destruct (sget frame "type" =s "status"); [apply status_step_loop|].
  destruct (sget frame "type" =s "command_response"); [destruct (Contains _ _); by simpl|].
  destruct (sget frame "type" <>s "event"); [by simpl|apply event_step_loop].
Qed.

Lemma drain_safe drop drains exp t c :
  client_inv c → ∃ cs t' n c', drainAfterIdle pj pt drop drains exp t c = Some ((cs, t', n), c') ∧
    client_inv c' ∧ (loopID t ≠ "" → loopID t' ≠ "").
Proof.
  revert exp t c. induction drains as [|[] drains IH]; intros exp t c Hi; simpl; [by do 4 eexists..|].
  destruct (ReadEventWithTimeout_spec pj pt c Hi) as (r & c1 & Hr & Hi1 & _).
  rewrite (bind_eq _ _ _ _ _ Hr). destruct r as [[m|] [e|]]; try by eexists _, _, _, _.
  destruct (drain_step drop (Some m) exp (loopID t)) as [|exp' lid f|ch] eqn:Es; [by eexists _, _, _, _| |].
  - edestruct IH as (cs & t' & n & c' & H & Hi' & Hl); [exact Hi1|]. eexists _, _, _, _. split; [exact H|].
    split; [done|]. intros Ht. apply Hl. simpl. revert Es. unfold drain_step. cbv zeta.
    repeat case_match; intros Es; simplify_eq; first [done|by apply String.eqb_neq].
  - destruct (IH exp t c1 Hi1) as (cs & t' & n & c' & H & Hi' & Hl). rewrite (bind_eq _ _ _ _ _ H).
    by eexists _, _, _, _.
Qed.

Lemma turn_loop_safe drop checks drains t c :
  client_inv c → ∃ r c', turn_loop pj pt drop checks drains t c = Some (r, c') ∧ client_inv c' ∧
    (loopID t ≠ "" → loopID (last_turn r) ≠ "").
Proof.
  revert t c. induction checks as [|[] checks IH]; intros t c Hi; simpl; [by do 2 eexists..|].
  destruct (ReadEvent_total pj pt c Hi) as (r & c1 & Hr & Hi1 & _).
  rewrite (bind_eq _ _ _ _ _ Hr). destruct r as [[m|] [e|]]; try by eexists _, _.
  2:{ rewrite (bind_eq _ _ c1 (IsConnectionAlive c1) c1) by done. destruct (_ && _); by eexists _, _. }
  pose proof (turn_step_loop drop (Some m) t) as Hl. unfold keeps_loop in Hl.
  destruct (turn_step drop (Some m) t) as [t1|t1 ch|t1 es o|text]; [| | |by eexists _, _].
  - destruct (IH t1 c1 Hi1) as (r & c2 & H2 & Hi2 & Hr2). eexists _, _. split; [exact H2|auto].
  - destruct (IH t1 c1 Hi1) as (r & c2 & H2 & Hi2 & Hr2). rewrite (bind_eq _ _ _ _ _ H2).
    eexists _, _. split; [done|]. simpl. auto.
  - destruct (drain_safe drop drains (expectedLoopID t1) t1 c1 Hi1) as (cs & t2 & n & c2 & H2 & Hi2 & Hr2).
    unfold finish_turn, bind. rewrite H2. eexists _, _. split; [done|]. simpl. auto.
Qed.

Lemma safe_IterTurnChunks checks drains : safe (IterTurnChunks pj pt checks drains).
Proof.
  intros s [Hi Hj]. unfold IterTurnChunks. rewrite (sbind_eq (gets ds_earlyDropFn) _ s (ds_earlyDropFn s) s) by done.
  rewrite (sbind_eq (gets ds_loopID) _ s (ds_loopID s) s) by done.
  destruct (peel_spec pj pt _ Hi) as (l & c1 & H1 & Hi1 & _).
  destruct (turn_loop_safe (ds_earlyDropFn s) checks drains (new_turn (ds_loopID s)) c1 Hi1) as (r & c2 & H2 & Hi2 & Hl).
  assert (∃ d, iterTurnChunksLocked pj pt (ds_earlyDropFn s) checks drains (ds_loopID s) (ds_client s) =
    Some ((r, d), c2)) as [d Hd].
  { unfold iterTurnChunksLocked. rewrite (bind_eq _ _ (ds_client s) (InboundDropped (ds_client s)) (ds_client s)) by done.
    rewrite (bind_eq _ _ _ _ _ H1), (bind_eq _ _ _ _ _ H2). by eexists. }
  rewrite (sbind_eq _ _ _ _ _ (on_stream_eq _ _ _ _ Hd)). eexists _, _. split; [done|].
  unfold note_turn. cbn [fst snd]. destruct s. simpl in *. destruct (Session.result r); by split.
Qed.
End turn.

(** ** Connecting *)

Section connecting.
Context (parse_json : string → option value) (parse_time : string → option string).
Local Abbreviation pj := parse_json.
Local Abbreviation pt := parse_time.

Lemma safe_bootstrapLoop k1 k2 resume : safe (bootstrapLoop pj pt k1 k2 resume).
Proof.
  intros s [Hi Hj]. destruct (bootstrapLoop_spec pj pt k1 k2 resume s Hi) as (r & c & l & H & Hi' & _ & Hr).
  exists r, (set_loopID l (set_client c s)). split; [done|]. split; [by destruct s|].
  destruct r as [x|e]; [|subst l; by destruct s]. destruct Hr as [Hl _]. by destruct s.
Qed.

Lemma safe_resume_loop e s :
  session_inv s → ∃ x s', resume_loop pj pt e (ds_loopID s) s = Some (x, s') ∧ session_inv s' ∧ evolves s s'.
Proof.
  intros [Hi Hj]. destruct (resume_loop_spec pj pt e s Hi) as (err & c & l & H & Hi' & _ & Hr).
  eexists _, _. split; [exact H|]. split; [by destruct s|].
  destruct err as [x|]; [subst l; by destruct s|]. destruct Hr as [Hl _]. by destruct s.
Qed.

Lemma safe_close_sidecar : safe close_sidecar.
Proof.
  unfold close_sidecar. apply safe_bind; [solve_safe|intros []]; [|solve_safe].
  apply safe_bind; [solve_safe|intros _]. apply safe_modifies. intros s [Hi Hj]. by destruct s.
Qed.

Lemma safe_EnsureConnected e : safe (EnsureConnected pj pt e).
Proof.
  intros s Hi. destruct (IsConnectionAlive (ds_client s)) eqn:Ha.
  - exists None, s. split; [|done]. unfold EnsureConnected.
    by rewrite (sbind_eq (gets _) _ s true s) by (unfold gets; simpl; by rewrite Ha).
  - unfold EnsureConnected. rewrite (sbind_eq (gets _) _ s false s) by (unfold gets; simpl; by rewrite Ha).
    rewrite (sbind_eq (gets ds_loopID) _ s (ds_loopID s) s) by done.
    destruct (safe_close_sidecar s Hi) as ([] & s1 & H1 & Hi1 & E1). rewrite (sbind_eq _ _ _ _ _ H1).
    assert (ds_loopID s1 = ds_loopID s) as F1.
    { destruct (close_sidecar_spec s Hi) as (s1' & H1' & _ & _ & F & _). rewrite H1 in H1'. by simplify_eq. }
    destruct (redial_spec pj pt e s1 (proj1 Hi1)) as (err & c & H2 & Hi2 & _). rewrite (sbind_eq _ _ _ _ _ H2).
    assert (session_inv (set_client c s1)) as Hi3 by (split; [by destruct s1|destruct Hi1; by destruct s1]).
    assert (evolves s (set_client c s1)) as E2 by (etrans; [exact E1|apply evolves_client]).
    destruct err as [x|]; [by eexists _, _|].
    destruct (safe_resume_loop e _ Hi3) as (x & s' & H & Hi' & E). rewrite loop_set_client, F1 in H.
    exists x, s'. split; [done|]. split; [done|by etrans].
Qed.

Lemma safe_over_sidecar env m : total m → safe (over_sidecar pj pt env m).
Proof.
  intros Hm. unfold over_sidecar, ensureRPCConnectedLocked. solve_safe.
  apply safe_modifies. intros s [Hi Hj]. by destruct s.
Qed.

Lemma safe_Close : safe Close.
Proof.
  unfold Close. solve_safe; apply safe_modifies; intros s [Hi Hj]; by destruct s.
Qed.
End connecting.

#[export] Hint Resolve safe_bootstrapLoop safe_over_sidecar safe_EnsureConnected safe_IterTurnChunks safe_Close : safe.

Section runs.
Context (parse_json : string → option value) (parse_time : string → option string).
Local Abbreviation pj := parse_json.
Local Abbreviation pt := parse_time.

Lemma safe_run_op op : safe (run_op pj pt op).
Proof.
  destruct op; simpl;
    unfold Connect, NewLoop, SwitchLoop, Detach, SendTurn, DaemonSession.InvokeSkill, InvokeSkill, rr, CancelActiveTurn,
      ListLoops, LoopList, DaemonSession.FetchLoopHistory, FetchLoopHistory, SetClarificationMode, Notify; solve_safe.
Qed.

Lemma safe_run_ops ops : safe (run_ops pj pt ops).
Proof. induction ops as [|op ops IH]; simpl; [apply safe_ret|]. by apply safe_bind; [apply safe_run_op|]. Qed.
End runs.

(** ** Closed sockets *)

(** Neither socket is open. *)
Definition shut (s : DaemonSession) : Prop :=
  IsConnected (ds_client s) = false ∧ IsConnected (ds_rpcClient s) = false.

Definition down (c : client) : Prop := IsConnected c = false.

#[export] Instance down_quiet : Quiet down.
Proof. by split; intros. Qed.

Section down.
Context (parse_json : string → option value) (parse_time : string → option string).
Local Abbreviation pj := parse_json.
Local Abbreviation pt := parse_time.

Lemma down_Close : preserves down Client.Close.
Proof.
  unfold Client.Close. apply preserves_bind; [apply preserves_get|intros cl].
  apply preserves_bind; [apply preserves_get|intros o]. destruct (_ || _); [apply preserves_ret|].
  apply preserves_bind; [by apply preserves_modify|intros _]. apply preserves_signal, _.
Qed.

Lemma down_ReadEventWithTimeout : preserves down (ReadEventWithTimeout pj pt).
Proof. unfold ReadEventWithTimeout. solve_preserves. all: apply preserves_ReadEvent, _. Qed.

Lemma down_peel : preserves down (PeelStalePendingControlEvents pj pt).
Proof.
  unfold PeelStalePendingControlEvents. apply preserves_bind; [by intros c y c' Hd [= _ <-]|].
  generalize 8 as n. induction n as [|n IH]; intros l; simpl; [apply preserves_ret|].
  apply preserves_bind; [apply down_ReadEventWithTimeout|]. intros [[m|] [e|]]; try apply preserves_ret.
  destruct (_ <>s ""); [apply IH|]. apply preserves_bind; [by apply preserves_modify|intros _; apply preserves_ret].
Qed.

Lemma down_drain drop drains exp t : preserves down (drainAfterIdle pj pt drop drains exp t).
Proof.
  revert exp t. induction drains as [|[] drains IH]; intros exp t; simpl; [apply preserves_ret..|].
  apply preserves_bind; [apply down_ReadEventWithTimeout|]. intros [[m|] [e|]]; try apply preserves_ret.
  destruct (drain_step _ _ _ _); [apply preserves_ret|apply IH|].
  apply preserves_bind; [apply IH|]. intros [[cs t'] n]. apply preserves_ret.
Qed.

Lemma down_turn_loop drop checks drains t : preserves down (turn_loop pj pt drop checks drains t).
Proof.
  revert t. induction checks as [|[] checks IH]; intros t; simpl; [apply preserves_ret..|].
  apply preserves_bind; [apply preserves_ReadEvent, _|]. intros [[m|] [e|]]; try apply preserves_ret.
  2:{ apply preserves_bind; [apply preserves_get|]. intros []; destruct (_ && _); apply preserves_ret. }
  destruct (turn_step _ _ _); [apply IH| | |apply preserves_ret].
  - apply preserves_bind; [apply IH|intros r; apply preserves_ret].
  - apply preserves_bind; [|intros r; apply preserves_ret]. unfold finish_turn.
    apply preserves_bind; [apply down_drain|]. intros [[cs t'] n]. apply preserves_ret.
Qed.

Lemma down_turn drop checks drains lid : preserves down (iterTurnChunksLocked pj pt drop checks drains lid).
Proof.
  unfold iterTurnChunksLocked. apply preserves_bind; [apply preserves_get|intros b].
  apply preserves_bind; [apply down_peel|intros _]. apply preserves_bind; [apply down_turn_loop|intros r].
  apply preserves_bind; [apply preserves_get|intros d]. apply preserves_ret.
Qed.
End down.

(** A session computation that opens no socket. *)
Definition keeps_shut {A} (m : SM A) : Prop := ∀ s x s', shut s → m s = Some (x, s') → shut s'.

Lemma keeps_shut_ret {A} (x : A) : keeps_shut (mret x).
Proof. by intros s y s' Hs [= _ <-]. Qed.

Lemma keeps_shut_gets {A} (f : DaemonSession → A) : keeps_shut (gets f).
Proof. by intros s y s' Hs [= _ <-]. Qed.

Lemma keeps_shut_bind {A B} (m : SM A) (f : A → SM B) :
  keeps_shut m → (∀ x, keeps_shut (f x)) → keeps_shut (m ≫= f).
Proof.
  intros Hm Hf s y s' Hs. unfold mbind, SM_bind. destruct (m s) as [[x s1]|] eqn:E; [|done].
  intros H. by eapply Hf, H; eapply Hm.
Qed.

Lemma keeps_shut_modifies f : (∀ s, shut s → shut (f s)) → keeps_shut (modifies f).
Proof. intros Hf s y s' Hs [= _ <-]. auto. Qed.

Lemma keeps_shut_on_stream {A} (m : M A) : preserves down m → keeps_shut (on_stream m).
Proof.
  intros Hm s x s' [H1 H2]. unfold on_stream. destruct (m (ds_client s)) as [[y c]|] eqn:E; [|done].
  intros [= _ <-]. assert (down c) as Hc by exact (Hm _ _ _ H1 E). by destruct s.
Qed.

Lemma keeps_shut_on_rpc {A} (m : M A) : preserves down m → keeps_shut (on_rpc m).
Proof.
  intros Hm s x s' [H1 H2]. unfold on_rpc. destruct (m (ds_rpcClient s)) as [[y c]|] eqn:E; [|done].
  intros [= _ <-]. assert (down c) as Hc by exact (Hm _ _ _ H2 E). by destruct s.
Qed.

Create HintDb shut.
#[export] Hint Resolve keeps_shut_ret keeps_shut_gets keeps_shut_on_stream keeps_shut_on_rpc : shut.
#[export] Hint Resolve down_Close down_turn preserves_RequestResponse preserves_Bootstrap preserves_SendMessage
  down_quiet : shut.
#[export] Hint Extern 2 (keeps_shut (modifies _)) => by apply keeps_shut_modifies; intros [] : shut.
#[export] Hint Extern 2 (preserves down (modify _)) => by apply preserves_modify : shut.
#[export] Hint Extern 2 (preserves down (ret _)) => apply preserves_ret : shut.

(** Structural proof of [keeps_shut], as [solve_safe]. *)
Ltac solve_shut :=
  repeat first
    [ solve [eauto 4 with shut]
    | apply keeps_shut_bind; [|intros ?]
    | apply keeps_shut_on_stream
    | match goal with |- keeps_shut (if ?b then _ else _) => destruct b end
    | match goal with |- keeps_shut (match ?x with _ => _ end) => destruct x end
    | match goal with |- preserves _ (if ?b then _ else _) => destruct b end ].

Section shuts.
Context (parse_json : string → option value) (parse_time : string → option string).
Local Abbreviation pj := parse_json.
Local Abbreviation pt := parse_time.

Lemma keeps_shut_run_op op : opens op = false → keeps_shut (run_op pj pt op).
Proof.
  destruct op; try done; intros _; simpl;
    unfold NewLoop, SwitchLoop, bootstrapLoop, Close, Detach, SendTurn, SendInput, DaemonSession.InvokeSkill,
      InvokeSkill, rr, CancelActiveTurn, IterTurnChunks, Notify, network; cbv zeta; solve_shut.
  apply keeps_shut_modifies. intros s [H1 H2]. unfold note_turn. destruct s. by destruct (Session.result _).
Qed.

Lemma keeps_shut_run_ops ops : Forall (λ op, opens op = false) ops → keeps_shut (run_ops pj pt ops).
Proof.
  induction 1 as [|op ops Hop _ IH]; simpl; [apply keeps_shut_ret|].
  apply keeps_shut_bind; [by apply keeps_shut_run_op|by intros _].
Qed.
End shuts.

(** Sending over a closed socket is refused. *)
Lemma shut_refuses_turn ctx_done text opts s :
  IsConnected (ds_client s) = false → ∃ e, SendTurn ctx_done text opts s = Some (Some e, s).
Proof.
  intros Hd. unfold SendTurn. rewrite (sbind_eq (gets ds_loopID) _ s (ds_loopID s) s) by done.
  destruct (ds_loopID s =s ""); [by eexists|].
  assert (∀ m : M (option error), (∃ e, m (ds_client s) = Some (Some e, ds_client s)) →
    ∃ e, on_stream m s = Some (Some e, s)) as Hm.
  { intros m [e H]. exists e. rewrite (on_stream_eq _ _ _ _ H). by destruct s. }
  apply Hm. unfold SendInput. cbv zeta. destruct (_ =s ""); [by eexists|].
  unfold SendMessage. set (c := ds_client s) in *.
  rewrite (bind_eq _ _ c (conn c) c), (bind_eq _ _ c (conn_closed c) c) by done.
  revert Hd. unfold IsConnected. destruct (conn c), (conn_closed c); try done; intros _; by eexists.
Qed.

(** * Properties *)

Section properties.
Context (parse_json : string → option value) (parse_time : string → option string).
Local Abbreviation pj := parse_json.
Local Abbreviation pt := parse_time.


(** C25. Closing a session closes it for good, as long as it is not connected again: whatever is
    done to it but connecting, recovering and requests over the sidecar, and whatever the
    network does, both its sockets stay closed and every turn sent is refused. *)
Theorem closed_session_stays_shut (s : DaemonSession) (ops : list session_op)
    (Hi : session_inv s) (Ho : ds_closed s = false) (Hops : Forall (λ op, opens op = false) ops) :
  ∃ s1 s2, Close s = Some (tt, s1) ∧ run_ops pj pt ops s1 = Some (tt, s2) ∧ shut s2 ∧
    ∀ ctx_done text o, ∃ e, SendTurn ctx_done text o s2 = Some (Some e, s2).
Proof.
  destruct (close_closes_both s Hi Ho) as (s1 & H1 & Hc & Hr & _ & _ & Hi1 & _).
  destruct (safe_run_ops pj pt ops s1 Hi1) as ([] & s2 & H2 & Hi2 & _).
  assert (shut s2) as Hs2 by (by eapply keeps_shut_run_ops; [..|exact H2]).
  exists s1, s2. split; [done|]. split; [done|]. split; [done|]. intros. by apply shut_refuses_turn, Hs2.
Qed.
End properties.

(** * Examples *)

Lemma closed_session_stays_shut_witness :
  ∃ s1 s2, Close streaming = Some (tt, s1) ∧
    run_ops turn_json Some [OpSendTurn false "hi" None; StreamNetwork [RData "late"] true;
      OpIterTurnChunks [Go; Go] []; OpNewLoop (ask []) (ask []); OpClose] s1 = Some (tt, s2) ∧ shut s2.
Proof.
  destruct (closed_session_stays_shut turn_json Some streaming
    [OpSendTurn false "hi" None; StreamNetwork [RData "late"] true; OpIterTurnChunks [Go; Go] [];
     OpNewLoop (ask []) (ask []); OpClose]) as (s1 & s2 & H1 & H2 & H3 & _).
  - split; [apply live_inv|apply new_unregistered].
  - reflexivity.
  - repeat (constructor; [reflexivity|]). constructor.
  - exists s1, s2. exact (conj H1 (conj H2 H3)).
Defined.
