(* ===== verification/Locks.v ===== *)
(** The locks of a daemon session (appkit/daemon_session.go) under concurrent calls: which
    mutexes each call takes around which reads of which socket, for every path through it,
    and what that rules out when any number of calls interleave. A read, and handing a
    chunk of a turn to its consumer, is taken to come to an end. *)

From S2P Require Import Prelude.

(** * Calls as sequences of locking and reading *)

Inductive mutex := Mu | ReadMu | RpcMu.
Inductive socket := StreamSocket | SidecarSocket.

#[export] Instance mutex_eq_dec : EqDecision mutex.
Proof. solve_decision. Defined.
#[export] Instance socket_eq_dec : EqDecision socket.
Proof. solve_decision. Defined.

(** [BeginRead] to [EndRead] is a stretch in which a call may be reading the socket:
    a handshake, a request waiting for its reply, one event. *)
Inductive instr :=
  | Lock (m : mutex)
  | Unlock (m : mutex)
  | BeginRead (k : socket)
  | EndRead (k : socket).

Definition reads (k : socket) : list instr := [BeginRead k; EndRead k].
Definition locked (m : mutex) (p : list instr) : list instr := [Lock m] ++ p ++ [Unlock m].

(** [LoopID], and the assignments to the loop id. *)
Definition loop_id_path : list instr := locked Mu [].

(** [bootstrapLoop]: whether the bootstrap succeeds. *)
Definition bootstrap_path (booted : bool) : list instr :=
  reads StreamSocket ++ if booted then loop_id_path else [].

(** How [EnsureConnected] goes after a reattachment, and after the reconnection. *)
Inductive reattached := Resumed | Stale (booted : bool) | Refused.
Inductive resumption := NoLoop (booted : bool) | Reattach (r : reattached).

Definition resume_path (r : resumption) : list instr :=
  match r with
  | NoLoop booted => bootstrap_path booted
  | Reattach r =>
      reads StreamSocket ++
      match r with Resumed => loop_id_path | Stale booted => bootstrap_path booted | Refused => [] end
  end.

(** [reconnected]: whether [Reconnect] succeeds at once, after a fresh connection, or not
    at all. *)
Inductive reconnected := AtOnce | Anew | Never.

Definition ensure_path (d : reconnected) (r : resumption) : list instr :=
  loop_id_path ++ locked RpcMu [] ++ reads StreamSocket ++
  match d with
  | AtOnce => resume_path r
  | Anew => reads StreamSocket ++ resume_path r
  | Never => reads StreamSocket
  end.

(** A request over the sidecar; [up] is whether it is connected, else whether connecting
    it succeeds. *)
Definition sidecar_path (up : option bool) : list instr :=
  locked RpcMu
    match up with
    | None => reads SidecarSocket
    | Some true => reads SidecarSocket ++ reads SidecarSocket
    | Some false => reads SidecarSocket
    end.

(** [IterTurnChunks]: each event read, and whether it is a status that names a loop. *)
Definition turn_path (events : list bool) : list instr :=
  locked ReadMu
    (loop_id_path ++
     concat ((λ names : bool, reads StreamSocket ++ if names then loop_id_path else []) <$> events)).

(** The calls, with what decides their path. [None] of an [EnsureConnected] is a stream that
    is alive, of a [SetClarificationMode] a session without a loop. *)
Inductive session_call :=
  | CallConnect (connected : option bool)
  | CallNewLoop (booted : bool)
  | CallSwitchLoop (booted : bool)
  | CallEnsureConnected (path : option (reconnected * resumption))
  | CallClose (again : bool)
  | CallDetach
  | CallSendTurn
  | CallInvokeSkill
  | CallCancelActiveTurn
  | CallListLoops (up : option bool)
  | CallFetchLoopHistory (up : option bool)
  | CallSetClarificationMode (loop : option (option bool))
  | CallIterTurnChunks (events : list bool)
  | CallLoopID.

Definition path (c : session_call) : list instr :=
  match c with
  | CallConnect None => reads StreamSocket
  | CallConnect (Some booted) => reads StreamSocket ++ bootstrap_path booted
  | CallNewLoop booted | CallSwitchLoop booted => bootstrap_path booted
  | CallEnsureConnected None => []
  | CallEnsureConnected (Some (d, r)) => ensure_path d r
  | CallClose again => locked Mu [] ++ if again then [] else locked RpcMu []
  | CallDetach | CallCancelActiveTurn => []
  | CallSendTurn | CallLoopID => loop_id_path
  | CallInvokeSkill => locked ReadMu (reads StreamSocket)
  | CallListLoops up | CallFetchLoopHistory up => sidecar_path up
  | CallSetClarificationMode None => loop_id_path
  | CallSetClarificationMode (Some up) => loop_id_path ++ sidecar_path up
  | CallIterTurnChunks events => turn_path events
  end.

(** The calls that read the stream without [readMu]. *)
Definition reads_unlocked (c : session_call) : bool :=
  match c with
  | CallConnect _ | CallNewLoop _ | CallSwitchLoop _ | CallEnsureConnected (Some _) => true
  | _ => false
  end.

(** * Interleaving *)

(** A call under way: the mutexes it holds, the socket it may be reading, what is left. *)
Record thread := Thread {
  holds : list mutex;
  reading : option socket;
  todo : list instr;
}.

Abbreviation threads := (gmap nat thread).

Definition free (m : mutex) (ts : threads) : Prop := map_Forall (λ _ t, m ∉ holds t) ts.

(** One call goes on; [Lock] waits until the mutex is free. *)
Inductive go_on : threads → threads → Prop :=
  | go_lock ts i h r m p :
      ts !! i = Some (Thread h r (Lock m :: p)) → free m ts →
      go_on ts (<[i := Thread (m :: h) r p]> ts)
  | go_unlock ts i h r m p :
      ts !! i = Some (Thread h r (Unlock m :: p)) →
      go_on ts (<[i := Thread (filter (λ m', m' ≠ m) h) r p]> ts)
  | go_begin ts i h r k p :
      ts !! i = Some (Thread h r (BeginRead k :: p)) →
      go_on ts (<[i := Thread h (Some k) p]> ts)
  | go_end ts i h r k p :
      ts !! i = Some (Thread h r (EndRead k :: p)) →
      go_on ts (<[i := Thread h None p]> ts).

(** A new call, of those [may] admits, or a call under way goes on. *)
Inductive threads_step (may : session_call → bool) : threads → threads → Prop :=
  | ts_call ts i c :
      may c = true → ts !! i = None → threads_step may ts (<[i := Thread [] None (path c)]> ts)
  | ts_go ts ts' : go_on ts ts' → threads_step may ts ts'.

(** * The discipline *)

(** [mu] is taken last, the other two are never held together. *)
Definition rank (m : mutex) : nat := match m with ReadMu => 0 | RpcMu => 0 | Mu => 1 end.

(** What is left of a call respects the discipline, given what it holds and reads: mutexes
    are taken in the order of [rank], given back before the end, and every read of a
    guarded socket happens under its guard. *)
Fixpoint disciplined (guard : socket → option mutex) (h : list mutex) (r : option socket) (p : list instr) : bool :=
  match p with
  | [] => bool_decide (h = []) && bool_decide (r = None)
  | Lock m :: p =>
      bool_decide (r = None) && forallb (λ m', rank m' <? rank m)%nat h && disciplined guard (m :: h) r p
  | Unlock m :: p => bool_decide (r = None) && disciplined guard (filter (λ m', m' ≠ m) h) r p
  | BeginRead k :: p =>
      bool_decide (r = None) && from_option (λ m, bool_decide (m ∈ h)) true (guard k) && disciplined guard h (Some k) p
  | EndRead k :: p => bool_decide (r = Some k) && disciplined guard h None p
  end.

(** Only the sidecar is guarded; both sockets are. *)
Definition sidecar_guard (k : socket) : option mutex := match k with SidecarSocket => Some RpcMu | _ => None end.
Definition both_guards (k : socket) : option mutex := match k with SidecarSocket => Some RpcMu | StreamSocket => Some ReadMu end.

Record locks_inv (guard : socket → option mutex) (ts : threads) : Prop := {
  li_disciplined i t : ts !! i = Some t → disciplined guard (holds t) (reading t) (todo t) = true;
  li_exclusive i j t t' m : ts !! i = Some t → ts !! j = Some t' → m ∈ holds t → m ∈ holds t' → i = j;
  li_guarded i t k m : ts !! i = Some t → reading t = Some k → guard k = Some m → m ∈ holds t;
}.

(** * Lemmas *)

(** The discipline of a sequence: a part that takes and reads nothing for good leaves what
    comes after as it was. *)
Definition balanced (guard : socket → option mutex) (h : list mutex) (p : list instr) : Prop :=
  ∀ q, disciplined guard h None q = true → disciplined guard h None (p ++ q) = true.

Lemma balanced_nil guard h : balanced guard h [].
Proof. by intros q. Qed.

Lemma balanced_app guard h p1 p2 : balanced guard h p1 → balanced guard h p2 → balanced guard h (p1 ++ p2).
Proof. intros H1 H2 q Hq. rewrite <-app_assoc. auto. Qed.

Lemma balanced_concat guard h ps : Forall (balanced guard h) ps → balanced guard h (concat ps).
Proof. induction 1; simpl; [apply balanced_nil|by apply balanced_app]. Qed.

Lemma balanced_reads guard h k :
  from_option (λ m, bool_decide (m ∈ h)) true (guard k) = true → balanced guard h (reads k).
Proof.
  intros Hg q Hq. cbn [app reads disciplined]. by rewrite Hg, (bool_decide_eq_true_2 (None = None)),
    (bool_decide_eq_true_2 (Some k = Some k)).
Qed.

Lemma filter_others (m : mutex) (h : list mutex) : m ∉ h → filter (λ m', m' ≠ m) h = h.
Proof.
  induction h as [|m' h IH]; [done|]. rewrite not_elem_of_cons. intros [Hne Hh].
  by rewrite filter_cons, decide_True, IH.
Qed.

Lemma balanced_locked guard h m p :
  forallb (λ m', rank m' <? rank m)%nat h = true → bool_decide (m ∉ h) = true → balanced guard (m :: h) p →
  balanced guard h (locked m p).
Proof.
  intros Hr Hm%bool_decide_eq_true Hp q Hq. unfold locked. cbn [app disciplined]. rewrite Hr, bool_decide_eq_true_2 by done.
  rewrite <-app_assoc. apply Hp. cbn [app disciplined]. rewrite bool_decide_eq_true_2 by done.
  rewrite filter_cons, decide_False by tauto. rewrite filter_others; done.
Qed.

(** Structural proof of [balanced], for mutexes and sockets that are given. *)
Ltac solve_balanced :=
  repeat first
    [ apply balanced_nil
    | apply balanced_reads; reflexivity
    | apply balanced_locked; [reflexivity|reflexivity|]
    | apply balanced_app
    | match goal with |- balanced _ _ (match ?x with _ => _ end) => destruct x end
    | apply balanced_concat, Forall_fmap, Forall_forall; intros ?? ].

(** Every path of every call is disciplined: the sidecar is read under [rpcMu] by all of
    them, the stream under [readMu] by all but those that say so. *)
Lemma paths_balanced c : balanced sidecar_guard [] (path c).
Proof.
  destruct c; cbn [path]; unfold ensure_path, resume_path, bootstrap_path, sidecar_path, turn_path, loop_id_path;
    solve_balanced.
Qed.

Lemma guarded_paths_balanced c : reads_unlocked c = false → balanced both_guards [] (path c).
Proof.
  destruct c as [| | |[]| | | | | | | | | |]; try done; intros _; cbn [path];
    unfold sidecar_path, turn_path, loop_id_path; solve_balanced.
Qed.

Lemma balanced_disciplined guard p : balanced guard [] p → disciplined guard [] None p = true.
Proof. intros H. specialize (H [] eq_refl). by rewrite app_nil_r in H. Qed.

(** What the discipline says of the next instruction. *)
Ltac discipline H :=
  simpl in H; rewrite ?andb_true_iff, ?bool_decide_eq_true in H; destruct_and? H; simplify_eq/=.

Section system.
Context (guard : socket → option mutex) (may : session_call → bool).
Hypothesis Hmay : ∀ c, may c = true → disciplined guard [] None (path c) = true.

(** A thread that keeps or gives up mutexes, or takes a free one. *)
Lemma thread_update_inv ts i t t' :
  locks_inv guard ts → ts !! i = Some t →
  disciplined guard (holds t') (reading t') (todo t') = true →
  (∀ m, m ∈ holds t' → m ∈ holds t ∨ free m ts) →
  (∀ k m, reading t' = Some k → guard k = Some m → m ∈ holds t') →
  locks_inv guard (<[i := t']> ts).
Proof.
  intros [Hd He Hg] Hi Hd' Hm Hg'. split.
  - intros j u [[<- <-]|[_ Hj]]%lookup_insert_Some; [done|by eapply Hd].
  - intros j k u u' m [[<- <-]|[Hne Hj]]%lookup_insert_Some [[<- <-]|[Hne' Hk]]%lookup_insert_Some Hu Hu'; try done.
    + destruct (Hm m Hu) as [Ht|Hf]; [by eapply He|]. by destruct (Hf _ _ Hk).
    + destruct (Hm m Hu') as [Ht|Hf]; [by eapply He|]. by destruct (Hf _ _ Hj).
    + by eapply He.
  - intros j u k m [[<- <-]|[_ Hj]]%lookup_insert_Some; [by apply Hg'|by eapply Hg].
Qed.

Lemma go_on_inv ts ts' : locks_inv guard ts → go_on ts ts' → locks_inv guard ts'.
Proof.
  intros HI Hs. destruct Hs as [ts i h r m p Hi Hf|ts i h r m p Hi|ts i h r k p Hi|ts i h r k p Hi];
    pose proof (li_disciplined _ _ HI _ _ Hi) as Hd; discipline Hd;
    (eapply thread_update_inv; [done|done|by simpl|simpl..]).
  - intros m' [->|?]%elem_of_cons; [by right|by left].
  - done.
  - intros m' [_ ?]%list_elem_of_filter. by left.
  - done.
  - intros m' ?. by left.
  - intros k' m [= <-] Hk. rewrite Hk in *. simpl in *. by eapply bool_decide_eq_true_1.
  - intros m' ?. by left.
  - done.
Qed.

Lemma spawn_inv ts i c :
  locks_inv guard ts → may c = true → ts !! i = None → locks_inv guard (<[i := Thread [] None (path c)]> ts).
Proof.
  intros [Hd He Hg] Hc Hi. split.
  - intros j u [[<- <-]|[_ Hj]]%lookup_insert_Some; [by apply Hmay|by eapply Hd].
  - intros j k u u' m [[<- <-]|[Hne Hj]]%lookup_insert_Some [[<- <-]|[Hne' Hk]]%lookup_insert_Some Hu Hu'; try done.
    + by apply elem_of_nil in Hu.
    + by apply elem_of_nil in Hu'.
    + by eapply He.
  - intros j u k m [[<- <-]|[_ Hj]]%lookup_insert_Some; [done|by eapply Hg].
Qed.

Lemma threads_reachable_inv ts : rtc (threads_step may) ∅ ts → locks_inv guard ts.
Proof.
  intros Hr. assert (locks_inv guard ∅) as HI by (by split).
  revert HI. induction Hr as [|ts1 ts2 ts3 [ts i c Hc Hi|ts ts' Hs] _ IH]; intros HI; [done|..]; apply IH.
  - by apply spawn_inv.
  - by eapply go_on_inv.
Qed.

(** Two calls that may be reading a guarded socket are the same. *)
Lemma single_reader ts i j t t' k m :
  locks_inv guard ts → guard k = Some m → ts !! i = Some t → ts !! j = Some t' →
  reading t = Some k → reading t' = Some k → i = j.
Proof. intros HI Hk Hi Hj Ht Ht'. eapply (li_exclusive _ _ HI); [exact Hi|exact Hj|..]; by eapply (li_guarded _ _ HI). Qed.

(** ** Progress *)

(** A call that is not about to take a mutex can go on. *)
Lemma goes_on ts i t : ts !! i = Some t →
  match todo t with [] | Lock _ :: _ => True | _ => ∃ ts', go_on ts ts' end.
Proof.
  destruct t as [h r [|[m|m|k|k] p]]; simpl; try done; intros Hi; eexists;
    [by eapply go_unlock|by eapply go_begin|by eapply go_end].
Qed.

Lemma rank_le m : rank m ≤ 1.
Proof. destruct m; simpl; lia. Qed.

(** A call that holds a mutex has not ended; if it waits, then for a later mutex. *)
Lemma holder_progress ts j t m :
  locks_inv guard ts → ts !! j = Some t → m ∈ holds t →
  (∃ ts', go_on ts ts') ∨ ∃ h r m' p, t = Thread h r (Lock m' :: p) ∧ rank m < rank m'.
Proof.
  intros HI Hj Hm. pose proof (li_disciplined _ _ HI _ _ Hj) as Hd. pose proof (goes_on ts j t Hj) as Hgo.
  destruct t as [h r [|[m'|m'|k|k] q]]; simpl in Hgo, Hm; [|right|by left..]; discipline Hd.
  - by apply elem_of_nil in Hm.
  - eexists _, _, _, _. split; [done|].
    match goal with H : forallb _ _ = true |- _ => rewrite forallb_forall in H; apply Nat.ltb_lt, H end.
    by apply list_elem_of_In.
Qed.

Lemma waiting_progress ts i h r m p :
  locks_inv guard ts → ts !! i = Some (Thread h r (Lock m :: p)) → ∃ ts', go_on ts ts'.
Proof.
  intros HI. remember (1 - rank m) as n eqn:Hn. revert i h r m p Hn.
  induction n as [n IH] using lt_wf_ind. intros i h r m p -> Hi.
  destruct (decide (free m ts)) as [Hf|Hf]; [eexists; by eapply go_lock|].
  apply map_not_Forall in Hf as (j & t & Hj & Hm); [|tc_solve]. apply dec_stable in Hm.
  destruct (holder_progress ts j t m HI Hj Hm) as [?|(h' & r' & m' & q & -> & Hlt)]; [done|].
  pose proof (rank_le m'). by eapply (IH (1 - rank m') ltac:(lia) j h' r' m' q).
Qed.

Lemma threads_progress ts i t :
  locks_inv guard ts → ts !! i = Some t → todo t ≠ [] → ∃ ts', go_on ts ts'.
Proof.
  intros HI Hi Ht. pose proof (goes_on ts i t Hi) as Hgo.
  destruct t as [h r [|[m|m|k|k] p]]; try done. by eapply waiting_progress.
Qed.
End system.

(** What the calls under way have left to do. *)
Definition work (ts : threads) : nat := map_fold (λ _ t n, length (todo t) + n) 0 ts.

Lemma work_insert ts i t : ts !! i = None → work (<[i := t]> ts) = length (todo t) + work ts.
Proof. intros Hi. unfold work. apply (map_fold_insert_L (λ _ t n, length (todo t) + n)); [intros; lia|done]. Qed.

Lemma work_update ts i t t' : ts !! i = Some t → work (<[i := t']> ts) + length (todo t) = work ts + length (todo t').
Proof.
  intros Hi. rewrite <-(insert_id ts i t Hi) at 2. rewrite <-!(insert_delete_eq ts i).
  rewrite !work_insert by apply lookup_delete_eq. lia.
Qed.

Lemma go_on_work ts ts' : go_on ts ts' → work ts = S (work ts').
Proof.
  intros Hs. assert (∀ i t t', ts !! i = Some t → ts' = <[i := t']> ts → length (todo t) = S (length (todo t')) →
    work ts = S (work ts')) as H.
  { intros i t t' Hi -> Hl. pose proof (work_update ts i t t' Hi). lia. }
  destruct Hs; (eapply H; [done|reflexivity|reflexivity]).
Qed.

(** * Schedules *)

(** One step of the call [i], when it can make one. *)
Definition advance (i : nat) (ts : threads) : option threads :=
  match ts !! i with
  | Some (Thread h r (Lock m :: p)) => if decide (free m ts) then Some (<[i := Thread (m :: h) r p]> ts) else None
  | Some (Thread h r (Unlock m :: p)) => Some (<[i := Thread (filter (λ m', m' ≠ m) h) r p]> ts)
  | Some (Thread h r (BeginRead k :: p)) => Some (<[i := Thread h (Some k) p]> ts)
  | Some (Thread h r (EndRead k :: p)) => Some (<[i := Thread h None p]> ts)
  | _ => None
  end.

Definition run_schedule (l : list nat) (ts : threads) : option threads :=
  foldl (λ o i, o ≫= advance i) (Some ts) l.

Lemma advance_go i ts ts' : advance i ts = Some ts' → go_on ts ts'.
Proof.
  unfold advance. destruct (ts !! i) as [[h r [|[m|m|k|k] p]]|] eqn:Hi; try done;
    [case_decide; [|done]|..]; intros [= <-].
  - by eapply go_lock.
  - by eapply go_unlock.
  - by eapply go_begin.
  - by eapply go_end.
Qed.

Lemma run_schedule_rtc may l ts0 ts ts' :
  rtc (threads_step may) ts0 ts → run_schedule l ts = Some ts' → rtc (threads_step may) ts0 ts'.
Proof.
  unfold run_schedule. revert ts. induction l as [|i l IH]; intros ts Hr; simpl; [by intros [= <-]|].
  destruct (advance i ts) as [ts1|] eqn:E.
  - intros H. eapply IH; [|exact H]. eapply rtc_r; [exact Hr|]. by eapply ts_go, advance_go.
  - intros H. exfalso. clear -H. induction l as [|j l IH]; [done|by apply IH].
Qed.

(** A turn that reads an event, and a loop switched meanwhile. *)
Definition turn_and_switch : threads :=
  <[2 := Thread [] None (path (CallSwitchLoop false))]> (<[1 := Thread [] None (path (CallIterTurnChunks [false]))]> ∅).

Lemma turn_and_switch_reachable : rtc (threads_step (λ _, true)) ∅ turn_and_switch.
Proof.
  eapply rtc_l; [by apply (ts_call _ ∅ 1 (CallIterTurnChunks [false]))|].
  eapply rtc_l; [by apply (ts_call _ _ 2 (CallSwitchLoop false))|]. done.
Qed.

(** The calls that may be reading a socket. *)
Definition readers (k : socket) (ts : threads) : threads := filter (λ x, reading x.2 = Some k) ts.

Lemma size_at_most_one (ts : threads) :
  (∀ i j t t', ts !! i = Some t → ts !! j = Some t' → i = j) → size ts ≤ 1.
Proof.
  intros H. destruct (decide (ts = ∅)) as [->|(i & t & Hi)%map_choose]; [by rewrite map_size_empty; lia|].
  rewrite <-(insert_id ts i t Hi), <-insert_delete_eq, map_size_insert_None by apply lookup_delete_eq.
  assert (delete i ts = ∅) as ->; [|by rewrite map_size_empty].
  apply map_empty. intros j. apply eq_None_not_Some. intros [t' [Hne Hj]%lookup_delete_Some]. by apply Hne, (H i j t t').
Qed.

(** * Properties *)

(** C21. However many calls run at once, at most one reads the sidecar, whatever they are; and at
    most one reads the stream, as long as none of them connects, opens or switches a loop
    or recovers the stream. *)
Theorem one_reader_per_socket (may : session_call → bool) (ts : threads) (k : socket)
    (Hmay : k = StreamSocket → ∀ c, may c = true → reads_unlocked c = false)
    (Hr : rtc (threads_step may) ∅ ts) :
  size (readers k ts) ≤ 1.
Proof.
  apply size_at_most_one. intros i j t t' [Hi Ht]%map_lookup_filter_Some [Hj Ht']%map_lookup_filter_Some. simpl in *.
  destruct k; [apply (threads_reachable_inv both_guards) in Hr|apply (threads_reachable_inv sidecar_guard) in Hr].
  - by eapply (single_reader both_guards _ _ _ _ _ StreamSocket ReadMu).
  - intros c Hc. by apply balanced_disciplined, guarded_paths_balanced, Hmay.
  - by eapply (single_reader sidecar_guard _ _ _ _ _ SidecarSocket RpcMu).
  - intros c _. apply balanced_disciplined, paths_balanced.
Qed.

(** C20. The calls of a session never deadlock on its mutexes: from any state that any calls reach,
    those under way end after exactly as many steps as they have left, in any order of
    scheduling, and until then one of them can always go on. *)
Theorem session_calls_complete (ts ts' : threads) (n : nat)
    (Hr : rtc (threads_step (λ _, true)) ∅ ts) (Hn : nsteps go_on n ts ts') :
  n + work ts' = work ts ∧ (work ts' = 0 ∨ ∃ ts'', go_on ts' ts'').
Proof.
  apply (threads_reachable_inv sidecar_guard) in Hr; [|intros c _; apply balanced_disciplined, paths_balanced].
  assert (locks_inv sidecar_guard ts' ∧ n + work ts' = work ts) as [HI Hw].
  { induction Hn as [ts|n ts ts1 ts' Hs Hn IH]; [done|].
    destruct IH as [HI Hw]; [by eapply go_on_inv|]. split; [done|]. rewrite (go_on_work ts ts1 Hs). lia. }
  split; [done|]. destruct (decide (map_Forall (λ _ t, todo t = []) ts')) as [Hd|Hd].
  - left. revert Hd. clear. induction ts' as [|i t ts' Hi IH] using map_ind; [done|].
    rewrite work_insert by done. intros [-> Hd]%map_Forall_insert; [|done]. by rewrite IH.
  - right. apply map_not_Forall in Hd as (j & t & Hj & Ht); [|tc_solve]. by eapply (threads_progress sidecar_guard).
Qed.

(** A loop is switched without [readMu]: while a turn is streaming, [SwitchLoop] reads the
    same socket, which its library forbids. *)
Theorem switch_races_turn :
  ∃ ts t t', rtc (threads_step (λ _, true)) ∅ ts ∧ ts !! 1 = Some t ∧ ts !! 2 = Some t' ∧
    reading t = Some StreamSocket ∧ reading t' = Some StreamSocket.
Proof.
  destruct (run_schedule [1; 1; 1; 1; 2] turn_and_switch) as [ts|] eqn:E; [|vm_compute in E; discriminate E].
  exists ts, (Thread [ReadMu] (Some StreamSocket) [EndRead StreamSocket; Unlock ReadMu]),
    (Thread [] (Some StreamSocket) [EndRead StreamSocket]).
  split; [by eapply run_schedule_rtc; [apply turn_and_switch_reachable|exact E]|].
  vm_compute in E. injection E as <-. repeat split.
Qed.

(** * Examples *)

(** Two listings of the loops, the first of which is reading the sidecar. *)
Definition two_listings : threads :=
  <[2 := Thread [] None (path (CallListLoops None))]> (<[1 := Thread [] None (path (CallListLoops (Some true)))]> ∅).

Lemma two_listings_reachable may : may (CallListLoops None) = true → may (CallListLoops (Some true)) = true →
  rtc (threads_step may) ∅ two_listings.
Proof.
  intros H1 H2. eapply rtc_l; [by apply (ts_call _ ∅ 1 (CallListLoops (Some true)))|].
  eapply rtc_l; [by apply (ts_call _ _ 2 (CallListLoops None))|]. done.
Qed.

Lemma one_reader_per_socket_witness :
  ∃ ts, run_schedule [1; 1] two_listings = Some ts ∧ size (readers SidecarSocket ts) ≤ 1 ∧ run_schedule [2] ts = None.
Proof.
  destruct (run_schedule [1; 1] two_listings) as [ts|] eqn:E; [|vm_compute in E; discriminate E].
  exists ts. split; [reflexivity|]. split.
  - refine (one_reader_per_socket (λ _, true) ts SidecarSocket _ _); [intros H; discriminate H|].
    exact (run_schedule_rtc _ [1; 1] _ _ _ (two_listings_reachable (λ _, true) eq_refl eq_refl) E).
  - vm_compute in E. injection E as <-. vm_compute. reflexivity.
Defined.

Lemma session_calls_complete_witness :
  ∃ ts', nsteps go_on 0 two_listings ts' ∧ work ts' = 10 ∧ ∃ ts'', go_on ts' ts''.
Proof.
  exists two_listings. split; [constructor|]. split; [vm_compute; reflexivity|].
  destruct (session_calls_complete two_listings two_listings 0 (two_listings_reachable (λ _, true) eq_refl eq_refl)
    (nsteps_O _ _)) as [_ [H|H]]; [vm_compute in H; discriminate H|exact H].
Defined.
