(* ===== verification/Attachments.v ===== *)
(** Attachments (appkit/attachments.go): image payloads are scaled down before they are
    sent. The image formats and the scaler are parameters; base64 is written out. *)

From S2P Require Import Prelude GoStr Value.

(** * [encoding/base64], the standard encoding *)

Definition b64_alphabet : list ascii :=
  to_bytes "ABCDEFGHIJKLMNOPQRSTUVWXYZabcdefghijklmnopqrstuvwxyz0123456789+/".

(** The character of a 6-bit value, and back. *)
Definition b64_char (n : Z) : ascii := default "="%char (b64_alphabet !! Z.to_nat n).
Definition b64_val (c : ascii) : option Z :=
  (λ x, Z.of_nat x.1) <$> list_find (λ a, a = c) b64_alphabet.

Definition zbyte (c : ascii) : Z := Z.of_nat (Ascii.nat_of_ascii c).
Definition bytez (n : Z) : ascii := Ascii.ascii_of_nat (Z.to_nat (Z.land n 255)).

Fixpoint b64_enc (l : list ascii) : list ascii :=
  match l with
  | a :: b :: c :: l =>
      let n := Z.lor (Z.shiftl (zbyte a) 16) (Z.lor (Z.shiftl (zbyte b) 8) (zbyte c)) in
      b64_char (Z.shiftr n 18) :: b64_char (Z.land (Z.shiftr n 12) 63) ::
      b64_char (Z.land (Z.shiftr n 6) 63) :: b64_char (Z.land n 63) :: b64_enc l
  | [a; b] =>
      let n := Z.lor (Z.shiftl (zbyte a) 16) (Z.shiftl (zbyte b) 8) in
      [b64_char (Z.shiftr n 18); b64_char (Z.land (Z.shiftr n 12) 63);
       b64_char (Z.land (Z.shiftr n 6) 63); "="%char]
  | [a] =>
      let n := Z.shiftl (zbyte a) 16 in
      [b64_char (Z.shiftr n 18); b64_char (Z.land (Z.shiftr n 12) 63); "="%char; "="%char]
  | [] => []
  end.

(** The three bytes of four 6-bit values. *)
Definition quad (a b c d : Z) : list ascii :=
  let n := Z.lor (Z.shiftl a 18) (Z.lor (Z.shiftl b 12) (Z.lor (Z.shiftl c 6) d)) in
  [bytez (Z.shiftr n 16); bytez (Z.shiftr n 8); bytez n].

(** Line breaks are skipped before; padding may end the text only. *)
Fixpoint b64_dec (l : list ascii) : option (list ascii) :=
  match l with
  | [] => Some []
  | a :: b :: c :: d :: l =>
      x ← b64_val a;
      y ← b64_val b;
      match b64_val c, b64_val d, l with
      | Some z, Some w, _ => (quad x y z w ++.) <$> b64_dec l
      | Some z, None, [] => if Ascii.eqb d "=" then Some (take 2 (quad x y z 0)) else None
      | None, None, [] => if Ascii.eqb c "=" && Ascii.eqb d "=" then Some (take 1 (quad x y 0 0)) else None
      | _, _, _ => None
      end
  | _ => None
  end.

Definition EncodeToString (s : string) : string := of_bytes (b64_enc (to_bytes s)).
Definition DecodeString (s : string) : option string :=
  of_bytes <$> b64_dec (filter (λ c, c ≠ "010"%char ∧ c ≠ "013"%char) (to_bytes s)).

(** * Definitions *)

Record CompactImageOptions := MkCompactOptions {
  MaxDim : Z;
  JPEGQuality : Z;
}.

Definition compactDefaults (opts : option CompactImageOptions) : Z * Z :=
  match opts with
  | None => (768, 85)%Z
  | Some o => (if (0 <? MaxDim o)%Z then MaxDim o else 768%Z,
               if (0 <? JPEGQuality o)%Z then JPEGQuality o else 85%Z)
  end.

(** The size an image of [w] by [h] is scaled to. *)
Definition target_size (maxDim w h : Z) : Z * Z :=
  let '(nw, nh) :=
    if (h <=? w)%Z then if (maxDim <? w)%Z then (maxDim, h * maxDim ÷ w)%Z else (w, h)
    else if (maxDim <? h)%Z then (w * maxDim ÷ h, maxDim)%Z else (w, h) in
  (if (nw <? 1)%Z then 1%Z else nw, if (nh <? 1)%Z then 1%Z else nh).

(** Images, from packages image, image/png, image/jpeg and golang.org/x/image/draw. *)
Record imaging := Imaging {
  img : Type;
  image_decode : string → option img;
  bounds : img → Z * Z;
  scale : img → Z → Z → img;
  png_encode : img → option string;
  jpeg_encode : Z → img → option string;
}.

Section attachments.
Context (lib : imaging).

Definition CompactImageAttachment (mimeType dataB64 : string) (opts : option CompactImageOptions) :
    string * string :=
  let unchanged := (mimeType, dataB64) in
  if (dataB64 =s "") || negb (HasPrefix mimeType "image/") then unchanged
  else match DecodeString dataB64 with
       | None | Some EmptyString => unchanged
       | Some raw =>
           match image_decode lib raw with
           | None => unchanged
           | Some im =>
               let '(maxDim, quality) := compactDefaults opts in
               let '(w, h) := bounds lib im in
               if ((w <=? maxDim) && (h <=? maxDim))%Z then unchanged
               else
                 let '(nw, nh) := target_size maxDim w h in
                 let dst := scale lib im nw nh in
                 if mimeType =s "image/png" then
                   match png_encode lib dst with
                   | None => unchanged
                   | Some out => (mimeType, EncodeToString out)
                   end
                 else
                   match jpeg_encode lib quality dst with
                   | None => unchanged
                   | Some out => ("image/jpeg", EncodeToString out)
                   end
           end
       end.

(** One attachment: a copy, with its payload compacted when it has one. *)
Definition compact_one (opts : option CompactImageOptions) (att : gomap) : gomap :=
  let cp := default ∅ att in
  let mime := sget (Some cp) "mime_type" in
  let data := sget (Some cp) "data" in
  if (mime <>s "") && (data <>s "") then
    let '(outMime, outData) := CompactImageAttachment mime data opts in
    Some (mset "data" (VStr outData) (mset "mime_type" (VStr outMime) cp))
  else Some cp.

Definition CompactAttachments (atts : list gomap) (opts : option CompactImageOptions) : list gomap :=
  match atts with [] => [] | _ => compact_one opts <$> atts end.
End attachments.

(** * Lemmas *)

Lemma compactDefaults_pos opts : (0 < (compactDefaults opts).1)%Z.
Proof. destruct opts as [o|]; simpl; [|lia]. destruct (Z.ltb_spec 0 (MaxDim o)); lia. Qed.

Lemma compact_image_cases lib mime data opts out :
  CompactImageAttachment lib mime data opts = out →
  out = (mime, data) ∨
  ∃ raw im o, DecodeString data = Some raw ∧ image_decode lib raw = Some im ∧
    HasPrefix mime "image/" = true ∧
    let maxDim := (compactDefaults opts).1 in let size := bounds lib im in
    (maxDim < size.1 ∨ maxDim < size.2)%Z ∧
    let t := target_size maxDim size.1 size.2 in
    let dst := scale lib im t.1 t.2 in
    out = (if mime =s "image/png" then mime else "image/jpeg", EncodeToString o) ∧
    (if mime =s "image/png" then png_encode lib dst else jpeg_encode lib (compactDefaults opts).2 dst) = Some o.
Proof.
  unfold CompactImageAttachment. intros <-. destruct ((data =s "") || _) eqn:E0; [by left|].
  destruct (DecodeString data) as [[|a raw]|] eqn:Ed; [by left| |by left].
  destruct (image_decode lib _) as [im|] eqn:Ei; [|by left].
  destruct (compactDefaults opts) as [maxDim q]. destruct (bounds lib im) as [w h] eqn:Eb.
  destruct (_ && _) eqn:Es; [by left|]. destruct (target_size maxDim w h) as [nw nh] eqn:Et.
  assert (maxDim < w ∨ maxDim < h)%Z as Hbig.
  { apply andb_false_iff in Es as [Es|Es]; bool_to_prop; [left|right]; lia. }
  apply orb_false_iff in E0 as [_ E0]. apply negb_false_iff in E0.
  destruct (mime =s "image/png") eqn:Ep.
  - destruct (png_encode lib _) as [o|] eqn:Eo; [|by left]. right. exists (String a raw), im, o.
    rewrite Eb. cbn [fst snd]. rewrite Et. done.
  - destruct (jpeg_encode lib _ _) as [o|] eqn:Eo; [|by left]. right. exists (String a raw), im, o.
    rewrite Eb. cbn [fst snd]. rewrite Et. done.
Qed.

Lemma target_size_fits maxDim w h :
  (0 < maxDim → 0 < w → 0 < h → maxDim < w ∨ maxDim < h →
   let '(nw, nh) := target_size maxDim w h in
   1 <= nw <= maxDim ∧ 1 <= nh <= maxDim ∧ Z.max nw nh = maxDim ∧ nw <= w ∧ nh <= h)%Z.
Proof.
  intros Hm Hw Hh Hbig. unfold target_size.
  assert (Hq : ∀ a b, (0 < a → a <= b → 0 <= a * maxDim ÷ b <= maxDim ∧ (maxDim < b → a * maxDim ÷ b <= a))%Z).
  { intros a b Ha Hab. rewrite Z.quot_div_nonneg by nia. split; [split|].
    - apply Z.div_pos; nia.
    - apply Z.div_le_upper_bound; nia.
    - intros Hb. apply Z.div_le_upper_bound; nia. }
  destruct (Z.leb_spec h w) as [Hle|Hle].
  - destruct (Z.ltb_spec maxDim w); [|lia]. destruct (Hq h w Hh Hle) as [H1 H2].
    destruct (Z.ltb_spec maxDim 1); [lia|]. destruct (Z.ltb_spec (h * maxDim ÷ w) 1); lia.
  - destruct (Z.ltb_spec maxDim h); [|lia]. destruct (Hq w h Hw ltac:(lia)) as [H1 H2].
    destruct (Z.ltb_spec maxDim 1); [lia|]. destruct (Z.ltb_spec (w * maxDim ÷ h) 1); lia.
Qed.

(** * Properties *)

(** C40. Compacting an image either leaves the payload exactly as it was, or sends a scaled copy
    that fits: the image was larger than the bound, the copy is at least a pixel and at
    most the bound either way, touches the bound, and never enlarges a side; PNG stays
    PNG, the rest becomes JPEG. *)
Theorem compact_image_fits (lib : imaging) (mime data : string) (opts : option CompactImageOptions)
    (Hsize : ∀ raw im, image_decode lib raw = Some im → (0 < (bounds lib im).1 ∧ 0 < (bounds lib im).2)%Z) :
  CompactImageAttachment lib mime data opts = (mime, data) ∨
  ∃ raw im nw nh o,
    DecodeString data = Some raw ∧ image_decode lib raw = Some im ∧
    (let maxDim := (compactDefaults opts).1 in
     maxDim < Z.max (bounds lib im).1 (bounds lib im).2 ∧
     1 <= nw <= maxDim ∧ 1 <= nh <= maxDim ∧ Z.max nw nh = maxDim ∧
     nw <= (bounds lib im).1 ∧ nh <= (bounds lib im).2)%Z ∧
    ((mime = "image/png" ∧ png_encode lib (scale lib im nw nh) = Some o ∧
      CompactImageAttachment lib mime data opts = (mime, EncodeToString o)) ∨
     (mime ≠ "image/png" ∧ jpeg_encode lib (compactDefaults opts).2 (scale lib im nw nh) = Some o ∧
      CompactImageAttachment lib mime data opts = ("image/jpeg", EncodeToString o))).
Proof.
  destruct (compact_image_cases lib mime data opts _ eq_refl)
    as [?|(raw & im & o & Hd & Hi & _ & Hbig & Hout & Ho)]; [by left|right].
  destruct (Hsize _ _ Hi) as [Hw Hh].
  pose proof (target_size_fits _ _ _ (compactDefaults_pos opts) Hw Hh Hbig) as Hfit.
  simpl in Ho. destruct (target_size _ _ _) as [nw nh]. simpl in Ho.
  exists raw, im, nw, nh, o. split; [done|]. split; [done|]. split; [lia|].
  destruct (String.eqb_spec mime "image/png"); [left|right]; done.
Qed.

(** Compacting a list of attachments keeps their number and order and every field but the
    two of the payload; an attachment that carries no payload comes out as it was. *)
Theorem compact_keeps_fields (lib : imaging) (atts : list gomap) (opts : option CompactImageOptions) :
  length (CompactAttachments lib atts opts) = length atts ∧
  ∀ i att, atts !! i = Some att →
    ∃ att', CompactAttachments lib atts opts !! i = Some att' ∧
      (∀ k, k ≠ "mime_type" → k ≠ "data" → mget att' k = mget att k ∧ mhas att' k = mhas att k) ∧
      (sget att "mime_type" = "" ∨ sget att "data" = "" → ∀ k, mget att' k = mget att k).
Proof.
  assert (CompactAttachments lib atts opts = compact_one lib opts <$> atts) as -> by by destruct atts.
  split; [apply length_fmap|]. intros i att Hi. exists (compact_one lib opts att).
  rewrite list_lookup_fmap, Hi. split; [done|].
  assert (Hd : ∀ k, mget (Some (default ∅ att)) k = mget att k) by by destruct att.
  assert (Hh : ∀ k, mhas (Some (default ∅ att)) k = mhas att k) by by destruct att.
  assert (Hs : ∀ k, sget (Some (default ∅ att)) k = sget att k) by by destruct att.
  unfold compact_one. rewrite !Hs. split.
  - intros k Hk1 Hk2. destruct (_ && _); [|by rewrite Hd, Hh].
    destruct (CompactImageAttachment _ _ _ _) as [om od]. rewrite !mget_mset_ne by done.
    rewrite Hd, <-Hh. split; [done|]. unfold mhas, mset. simpl. by rewrite !lookup_insert_ne by done.
  - intros Hor k. assert ((sget att "mime_type" <>s "") && (sget att "data" <>s "") = false) as ->.
    { destruct Hor as [-> | ->]; simpl; [done|]. by rewrite andb_false_r. }
    apply Hd.
Qed.

(** * Examples *)

(** Pictures of one byte per pixel column and two rows. *)
Definition strips : imaging :=
  Imaging (Z * Z) (λ raw, Some (Z.of_nat (String.length raw) + 1, 2)%Z) id (λ _ w h, (w, h))
    (λ _, Some "png") (λ _ _, Some "jpeg").

Lemma compact_image_fits_witness :
  CompactImageAttachment strips "image/gif" "AAAAAAAAAAAA" (Some (MkCompactOptions 4 0)) =
    ("image/jpeg", EncodeToString "jpeg") ∧
  ∃ nw nh, (1 <= nw <= 4 ∧ 1 <= nh <= 4)%Z.
Proof.
  split; [vm_compute; reflexivity|].
  destruct (compact_image_fits strips "image/png" "AAAAAAAAAAAA" (Some (MkCompactOptions 4 0)))
    as [H|(raw & im & nw & nh & o & _ & _ & (_ & Hw & Hh & _) & _)].
  - intros raw im [= <-]. simpl. lia.
  - vm_compute in H. discriminate.
  - exists nw, nh. exact (conj Hw Hh).
Defined.

Example b64_example : EncodeToString "soothe!" = "c29vdGhlIQ==" ∧ DecodeString "c29vdGhlIQ==" = Some "soothe!".
Proof. by vm_compute. Qed.
