(* ===== verification/Pool.v ===== *)
(** The connection pool (appkit/pool.go): connection slots handed out per application key,
    over a session store that remembers the loop of each key
    (appkit/loop_session_store.go). Clients are external: the results of their calls are
    arguments. *)

From S2P Require Import Prelude GoStr.

(** * Errors of the kit *)

Inductive run_error :=
  | ErrQueryTimeout
  | ErrIdleTimeout
  | ErrCanceled
  | ErrQueryBusy
  | ErrNoReservation (appKey : string)
  | ErrNoStream (appKey loopID : string)
  | ErrStreamClosed
  | ErrNoContent (endReason : string)
  | ErrText (text : string)
  | ErrWrapped (prefix : string) (e : run_error).

Fixpoint Error (e : run_error) : string :=
  match e with
  | ErrQueryTimeout => "appkit: query timeout"
  | ErrIdleTimeout => "appkit: idle timeout"
  | ErrCanceled => "context canceled"
  | ErrQueryBusy => "appkit: query already in progress for app key"
  | ErrNoReservation appKey =>
      "appkit: ExecuteReserved requires an active QueryGate reservation for " +:+ appKey
  | ErrNoStream appKey loopID =>
      "missing event stream for app key " +:+ appKey +:+ " (loop " +:+ loopID +:+ ")"
  | ErrStreamClosed => "event stream closed"
  | ErrNoContent endReason => "turn ended (" +:+ endReason +:+ ") with no assistant content"
  | ErrText text => text
  | ErrWrapped prefix e => prefix +:+ ": " +:+ Error e
  end.

(** [ErrPoolExhausted] *)
Definition ErrPoolExhausted : run_error := ErrText "appkit: connection pool exhausted".

(** * The session store *)

(** [LoopSessionStore], as far as the pool uses it: a failed call leaves the store as it
    finds it, and reads as no answer. *)
Class LoopSessionStore (S : Type) := {
  GetLoopIDForSession : S → string → option string;
  GetSessionType : S → string → option string;
  CreateSession : S → string → string → string → string → S;
  UpdateLastUsed : S → string → S;
}.

(** What makes a store remember: a created session is found again, whatever is stamped. *)
Class LawfulStore (S : Type) `{!LoopSessionStore S} := {
  created_found st ws k loop ty k' :
    GetLoopIDForSession (CreateSession st ws k loop ty) k' =
    if decide (k' = k) then Some loop else GetLoopIDForSession st k';
  stamp_keeps st k k' : GetLoopIDForSession (UpdateLastUsed st k) k' = GetLoopIDForSession st k';
}.

(** * The pool *)

(** A slot's client and stream. *)
Record pooledConn := PooledConn {
  connected : bool;
  notified : bool;
  client_closed : bool;
  has_eventCh : bool;
  has_streamCancel : bool;
  readerLive : bool;
  pc_appKey : string;
  pc_loopID : string;
  workspaceID : string;
  lastUsed : option Z;
}.

(** Slots are named by their ids; the idle ones wait in [free], a channel of [PoolSize]. *)
Record ConnectionPool := ConnPool {
  PoolSize : nat;
  MaxIdleTime : Z;
  free : list nat;
  conns : gmap nat pooledConn;
  activeSlots : gmap string nat;
  registry : gmap nat string;
  nextSlotID : nat;
}.

Definition new_conn : pooledConn := PooledConn false false false false false false "" "" "" None.

Definition set_conns (f : gmap nat pooledConn → gmap nat pooledConn) (p : ConnectionPool) : ConnectionPool :=
  ConnPool (PoolSize p) (MaxIdleTime p) (free p) (f (conns p)) (activeSlots p) (registry p) (nextSlotID p).

Definition newSlot (p : ConnectionPool) : nat * ConnectionPool :=
  let id := nextSlotID p in
  (id, ConnPool (PoolSize p) (MaxIdleTime p) (free p) (<[id := new_conn]> (conns p)) (activeSlots p) (registry p) (S id)).

(** [p.pool <- p.newSlot()], or nothing when the channel is full. *)
Definition return_slot (p : ConnectionPool) : ConnectionPool :=
  let '(id, p) := newSlot p in
  if (length (free p) <? PoolSize p)%nat
  then ConnPool (PoolSize p) (MaxIdleTime p) (free p ++ [id]) (conns p) (activeSlots p) (registry p) (nextSlotID p)
  else p.

(** [NewConnectionPool]; a size of zero or less is the default. *)
Definition NewConnectionPool (size maxIdle : Z) : ConnectionPool :=
  let n := if (size <=? 0)%Z then Z.to_nat 1000 else Z.to_nat size in
  Nat.iter n return_slot (ConnPool n maxIdle [] ∅ ∅ ∅ 1).

Definition Stats (p : ConnectionPool) : nat * nat := (size (activeSlots p), length (free p)).

Definition clientDisconnectNotified (c : pooledConn) : bool := notified c.
Definition isConnected (c : pooledConn) : bool := connected c && negb (clientDisconnectNotified c).
Definition eventStreamLive (c : pooledConn) : bool := has_eventCh c && readerLive c.

(** The first critical section of [Release]: the slot the key had. *)
Definition release_lock (appKey : string) (p : ConnectionPool) : option nat * ConnectionPool :=
  match activeSlots p !! appKey with
  | None => (None, p)
  | Some id =>
      (Some id, ConnPool (PoolSize p) (MaxIdleTime p) (free p) (conns p) (delete appKey (activeSlots p))
                  (delete id (registry p)) (nextSlotID p))
  end.

(** [client.Close()], and [streamCancel()], which ends the reader. *)
Definition close_client (c : pooledConn) : pooledConn :=
  PooledConn false (notified c) true (has_eventCh c) (has_streamCancel c) (readerLive c)
    (pc_appKey c) (pc_loopID c) (workspaceID c) (lastUsed c).

Definition cancel_stream (c : pooledConn) : pooledConn :=
  PooledConn (connected c) (notified c) (client_closed c) (has_eventCh c) (has_streamCancel c)
    (readerLive c && negb (has_streamCancel c)) (pc_appKey c) (pc_loopID c) (workspaceID c) (lastUsed c).

(** The teardown of a released connection. *)
Definition teardown (c : pooledConn) : pooledConn :=
  let c := close_client (cancel_stream c) in
  PooledConn (connected c) (notified c) (client_closed c) (has_eventCh c) false (readerLive c)
    (pc_appKey c) (pc_loopID c) (workspaceID c) (lastUsed c).

Definition Release (appKey : string) (p : ConnectionPool) : ConnectionPool :=
  match release_lock appKey p with
  | (None, p) => p
  | (Some id, p) => return_slot (set_conns (alter teardown id) p)
  end.

Definition ResetSession : string → ConnectionPool → ConnectionPool := Release.

(** [Stop]: every active connection and every idle client is closed, nothing comes back. *)
Definition Stop (p : ConnectionPool) : ConnectionPool :=
  let gone := (map_to_list (activeSlots p)).*2 in
  ConnPool (PoolSize p) (MaxIdleTime p) [] (foldr (alter close_client) (foldr (alter (close_client ∘ cancel_stream)) (conns p) gone) (free p)) ∅
    (foldr delete (registry p) gone) (nextSlotID p).

(** The critical section that gives a key the slot received from the channel. *)
Definition take_slot (appKey : string) (p : ConnectionPool) : option (nat * ConnectionPool) :=
  match free p with
  | [] => None
  | id :: free =>
      Some (id, ConnPool (PoolSize p) (MaxIdleTime p) free (conns p) (<[appKey := id]> (activeSlots p))
                  (<[id := appKey]> (registry p)) (nextSlotID p))
  end.

Definition set_connected (ok : bool) (c : pooledConn) : pooledConn :=
  PooledConn ok (notified c) (client_closed c) (has_eventCh c) (has_streamCancel c) (readerLive c)
    (pc_appKey c) (pc_loopID c) (workspaceID c) (lastUsed c).

(** [startReader]: [ok] is whether [ReceiveMessages] gave a stream. *)
Definition startReader (ok : bool) (c : pooledConn) : pooledConn :=
  PooledConn (connected c) (notified c) (client_closed c) (ok || has_eventCh c) ok ok
    (pc_appKey c) (pc_loopID c) (workspaceID c) (lastUsed c).

(** The fields written when a slot has been set up. *)
Definition stamp (appKey loopID ws : string) (now : Z) (c : pooledConn) : pooledConn :=
  PooledConn (connected c) (notified c) (client_closed c) (has_eventCh c) (has_streamCancel c) (readerLive c)
    appKey loopID ws (Some now).

Definition touch (now : Z) (c : pooledConn) : pooledConn :=
  stamp (pc_appKey c) (pc_loopID c) (workspaceID c) now c.

(** The connection drops. *)
Definition drop_conn (c : pooledConn) : pooledConn :=
  PooledConn (connected c) true (client_closed c) (has_eventCh c) (has_streamCancel c) false
    (pc_appKey c) (pc_loopID c) (workspaceID c) (lastUsed c).

Definition loopIDFor {S} `{!LoopSessionStore S} (st : S) (appKey : string) : option string :=
  loopID ← GetLoopIDForSession st appKey;
  let loopID := TrimSpace loopID in
  if (loopID =s "") || HasPrefix loopID "pending-" then None else Some loopID.

Definition sessionTypeFor {S} `{!LoopSessionStore S} (st : S) (appKey : string) : string :=
  TrimSpace (default "" (GetSessionType st appKey)).

(** What the surroundings of one [Acquire] do: whether the key's connection drops between
    its two checks, the clock, whether the [select] takes a context that is done, and the
    results of the client's calls ([None] is success). *)
Record acquire_env := AcquireEnv {
  drops_between : bool;
  clock : Z;
  ctx_done : option run_error;
  env_connect : option run_error;
  env_bootstrap : run_error + string;
  env_reattach : option run_error;
  env_reconnect : option run_error;
  env_rebootstrap : run_error + string;
  env_receive : bool;
}.

Section acquire.
Context {S : Type} `{!LoopSessionStore S}.
Context (env : acquire_env) (appKey ws : string).

(** [bootstrapNew] on a connected client: [boot] is what the bootstrap function returns. *)
Definition bootstrapNew (boot : run_error + string) (id : nat) (p : ConnectionPool) :
    (run_error + string) * ConnectionPool :=
  match boot with
  | inl err => (inl err, p)
  | inr loopID => (inr loopID, set_conns (alter (startReader (env_receive env)) id) p)
  end.

(** Connect, bootstrap, read, remember; the slot is released on failure. *)
Definition fresh_loop (on_connect on_boot : string) (connect : option run_error) (boot : run_error + string)
    (sessionType : string) (id : nat) (p : ConnectionPool) (st : S) : (run_error + string) * ConnectionPool * S :=
  match connect with
  | Some err => (inl (ErrWrapped on_connect err), Release appKey (set_conns (alter (set_connected false) id) p), st)
  | None =>
      let p := set_conns (alter (set_connected true) id) p in
      match bootstrapNew boot id p with
      | (inl err, p) => (inl (ErrWrapped on_boot err), Release appKey p, st)
      | (inr loopID, p) => (inr loopID, p, CreateSession st ws appKey loopID sessionType)
      end
  end.

(** [resumeAndReattach] *)
Definition resumeAndReattach (id : nat) (p : ConnectionPool) : option run_error * ConnectionPool :=
  match env_connect env with
  | Some err => (Some err, set_conns (alter (set_connected false) id) p)
  | None =>
      let p := set_conns (alter (set_connected true) id) p in
      match env_reattach env with
      | Some err => (Some err, p)
      | None => (None, set_conns (alter (startReader (env_receive env)) id) p)
      end
  end.

(** The loop of a slot just taken. *)
Definition open_loop (id : nat) (p : ConnectionPool) (st : S) : (run_error + string) * ConnectionPool * S :=
  let sessionType := sessionTypeFor st appKey in
  match loopIDFor st appKey with
  | None => fresh_loop "connect" "bootstrap new loop" (env_connect env) (env_bootstrap env) sessionType id p st
  | Some loopID =>
      match resumeAndReattach id p with
      | (None, p) => (inr loopID, p, st)
      | (Some _, p) =>
          fresh_loop "connect after reattach fail" "bootstrap after reattach fail" (env_reconnect env)
            (env_rebootstrap env) sessionType id p st
      end
  end.

(** Step 2 of [Acquire]: a slot from the pool. *)
Definition acquire_slot (p : ConnectionPool) (st : S) : (run_error + nat) * ConnectionPool * S :=
  match ctx_done env with
  | Some err => (inl err, p, st)
  | None =>
      match take_slot appKey p with
      | None => (inl ErrPoolExhausted, p, st)
      | Some (id, p) =>
          match open_loop id p st with
          | (inl err, p, st) => (inl err, p, st)
          | (inr loopID, p, st) =>
              (inr id, set_conns (alter (stamp appKey loopID ws (clock env)) id) p, UpdateLastUsed st appKey)
          end
      end
  end.

(** Whether a connection can serve another turn. *)
Definition usable (c : pooledConn) : bool := isConnected c && eventStreamLive c.

Definition idle_too_long (p : ConnectionPool) (c : pooledConn) : bool :=
  (0 <? MaxIdleTime p)%Z &&
  match lastUsed c with Some t => (MaxIdleTime p <? clock env - t)%Z | None => false end.

(** [Acquire]: the id of the connection, or the error. *)
Definition Acquire (p : ConnectionPool) (st : S) : (run_error + nat) * ConnectionPool * S :=
  match activeSlots p !! appKey with
  | None => acquire_slot p st
  | Some id =>
      let at_id (p : ConnectionPool) := default new_conn (conns p !! id) in
      if clientDisconnectNotified (at_id p) || negb (isConnected (at_id p)) || negb (eventStreamLive (at_id p))
      then acquire_slot (Release appKey p) st
      else
        let p := if drops_between env then set_conns (alter drop_conn id) p else p in
        if usable (at_id p) then
          if idle_too_long p (at_id p) then acquire_slot (Release appKey p) st
          else (inr id, set_conns (alter (touch (clock env)) id) p, UpdateLastUsed st appKey)
        else acquire_slot p st
  end.
End acquire.

(** ** The pool as a system *)

(** A pool with the releases that have not returned their slot yet, and the slots that are
    gone for good. *)
Record pool_sys := PoolSys {
  pool : ConnectionPool;
  returning : nat;
  gone : nat;
}.

(** The critical sections of the callers, in any interleaving: [Acquire] takes a slot for a
    key, even when the key got one meanwhile; [Release] removes a key's slot, and later
    returns a new one; a connection in use changes; [Stop] gives everything up. *)
Inductive pool_step : pool_sys → pool_sys → Prop :=
  | pool_take s k id p :
      take_slot k (pool s) = Some (id, p) →
      pool_step s (PoolSys p (returning s)
        (gone s + (if decide (is_Some (activeSlots (pool s) !! k)) then 1 else 0)))
  | pool_release s k id p :
      release_lock k (pool s) = (Some id, p) →
      pool_step s (PoolSys (set_conns (alter teardown id) p) (S (returning s)) (gone s))
  | pool_return p n g : pool_step (PoolSys p (S n) g) (PoolSys (return_slot p) n g)
  | pool_conn s id f :
      id ∉ free (pool s) →
      pool_step s (PoolSys (set_conns (alter f id) (pool s)) (returning s) (gone s))
  | pool_stop s :
      pool_step s (PoolSys (Stop (pool s)) (returning s)
        (gone s + size (activeSlots (pool s)) + length (free (pool s)))).

(** * The invariant *)

(** Idle slots are distinct, fresh and nobody's; a key's slot is registered for that key. *)
Record pool_inv (p : ConnectionPool) : Prop := {
  pi_distinct : NoDup (free p);
  pi_free id : id ∈ free p → conns p !! id = Some new_conn ∧ registry p !! id = None;
  pi_active k id : activeSlots p !! k = Some id → registry p !! id = Some k ∧ is_Some (conns p !! id);
  pi_known id : is_Some (registry p !! id) → is_Some (conns p !! id);
  pi_next id : is_Some (conns p !! id) → id < nextSlotID p;
}.

(** Every slot of the pool is idle, a key's, on its way back, or gone. *)
Definition slots_accounted (s : pool_sys) : Prop :=
  length (free (pool s)) + size (activeSlots (pool s)) + returning s + gone s = PoolSize (pool s).

(** * Lemmas *)

Lemma set_conns_inv f id p : pool_inv p → id ∉ free p → pool_inv (set_conns (alter f id) p).
Proof.
  intros [H1 H2 H3 H4 H5] Hid.
  assert (Hs : ∀ id', is_Some (alter f id (conns p) !! id') ↔ is_Some (conns p !! id')).
  { intros id'. rewrite lookup_alter. case_decide; [|done]. subst. apply fmap_is_Some. }
  split; simpl; try done.
  - intros id' Hin. rewrite lookup_alter_ne by set_solver. by apply H2.
  - intros k id' Hk. rewrite Hs. by apply H3.
  - intros id'. rewrite Hs. apply H4.
  - intros id'. rewrite Hs. apply H5.
Qed.

Lemma fresh_id p : pool_inv p →
  registry p !! nextSlotID p = None ∧ (nextSlotID p ∉ free p) ∧ conns p !! nextSlotID p = None.
Proof.
  intros [H1 H2 H3 H4 H5].
  assert (conns p !! nextSlotID p = None) as Hn.
  { apply eq_None_not_Some. intros Hs%H5. lia. }
  split; [|split; [|done]].
  - apply eq_None_not_Some. intros Hs%H4. rewrite Hn in Hs. by destruct Hs.
  - intros Hin%H2. naive_solver.
Qed.

Lemma return_slot_inv p : pool_inv p → pool_inv (return_slot p).
Proof.
  intros Hi. destruct (fresh_id p Hi) as (Hr & Hf & Hc). destruct Hi as [H1 H2 H3 H4 H5].
  assert (Hconn : ∀ id, is_Some (<[nextSlotID p := new_conn]> (conns p) !! id) ↔
            id = nextSlotID p ∨ is_Some (conns p !! id)).
  { intros id. rewrite lookup_insert. case_decide; naive_solver. }
  unfold return_slot, newSlot. cbn [free PoolSize conns activeSlots registry nextSlotID MaxIdleTime].
  assert (Hold : ∀ id, id ∈ free p → <[nextSlotID p := new_conn]> (conns p) !! id = Some new_conn ∧
            registry p !! id = None).
  { intros id Hin. rewrite lookup_insert_ne by set_solver. by apply H2. }
  assert (Hrest : ∀ fl, NoDup fl → (∀ id, id ∈ fl → <[nextSlotID p := new_conn]> (conns p) !! id = Some new_conn ∧
            registry p !! id = None) →
    pool_inv (ConnPool (PoolSize p) (MaxIdleTime p) fl (<[nextSlotID p := new_conn]> (conns p)) (activeSlots p)
                (registry p) (S (nextSlotID p)))).
  { intros fl Hnd Hfl. split; simpl; try done.
    - intros k id Hk. rewrite Hconn. destruct (H3 _ _ Hk). auto.
    - intros id. rewrite Hconn. auto.
    - intros id [->|Hs%H5]%Hconn; lia. }
  destruct (_ <? _)%nat; apply Hrest; try done.
  - apply NoDup_app. split; [done|]. split; [set_solver|apply NoDup_singleton].
  - intros id [Hin| ->%list_elem_of_singleton]%elem_of_app; [by apply Hold|]. by rewrite lookup_insert_eq.
Qed.

Lemma take_slot_inv k p id p' : take_slot k p = Some (id, p') → pool_inv p → pool_inv p'.
Proof.
  unfold take_slot. destruct (free p) as [|id' fl] eqn:Ef; [done|]. intros [= -> <-] [H1 H2 H3 H4 H5].
  rewrite Ef in *. apply NoDup_cons in H1 as [Hni Hnd]. destruct (H2 id ltac:(by left)) as [Hc Hr].
  split; simpl; try done.
  - intros id' Hin. rewrite lookup_insert_ne by set_solver. apply H2. by right.
  - intros k' id'. destruct (decide (k = k')) as [<-|Hne].
    + rewrite lookup_insert_eq. intros [= <-]. rewrite lookup_insert_eq. split; [done|by eexists].
    + rewrite lookup_insert_ne by done. intros Hk. destruct (H3 _ _ Hk) as [Hreg Hs].
      rewrite lookup_insert_ne by congruence. done.
  - intros id'. rewrite lookup_insert. case_decide; [subst; by eexists|]. apply H4.
Qed.

Lemma release_lock_inv k p : pool_inv p → pool_inv (release_lock k p).2.
Proof.
  unfold release_lock. intros Hi. destruct (activeSlots p !! k) as [id|] eqn:Ek; [|done].
  destruct Hi as [H1 H2 H3 H4 H5]. destruct (H3 _ _ Ek) as [Hr Hs]. split; simpl; try done.
  - intros id' Hin. rewrite lookup_delete. destruct (H2 _ Hin). by case_decide.
  - intros k' id' [Hne Hk]%lookup_delete_Some. destruct (H3 _ _ Hk) as [Hreg Hs'].
    rewrite lookup_delete_ne by congruence. done.
  - intros id'. rewrite lookup_delete. case_decide; [by intros []|]. apply H4.
Qed.

Lemma release_lock_free k p id p' : release_lock k p = (Some id, p') → free p' = free p ∧ activeSlots p !! k = Some id.
Proof. unfold release_lock. destruct (activeSlots p !! k); naive_solver. Qed.

Lemma active_not_free p k id : pool_inv p → activeSlots p !! k = Some id → id ∉ free p.
Proof. intros Hi Hk Hin. destruct (pi_active _ Hi _ _ Hk) as [Hr _]. destruct (pi_free _ Hi _ Hin). congruence. Qed.

Lemma fold_alter_is_Some f (l : list nat) (m : gmap nat pooledConn) id :
  is_Some (foldr (alter f) m l !! id) ↔ is_Some (m !! id).
Proof.
  induction l as [|x l IH]; simpl; [done|]. rewrite lookup_alter. case_decide; [|done].
  subst. by rewrite fmap_is_Some.
Qed.

Lemma fold_delete_Some (l : list nat) (m : gmap nat string) id x :
  foldr delete m l !! id = Some x → m !! id = Some x.
Proof.
  induction l as [|y l IH]; simpl; [done|]. rewrite lookup_delete. case_decide; [done|]. apply IH.
Qed.

Lemma Stop_inv p : pool_inv p → pool_inv (Stop p).
Proof.
  intros [H1 H2 H3 H4 H5]. split; simpl; try done.
  - constructor.
  - by intros id ?%not_elem_of_nil.
  - intros id [k Hk%fold_delete_Some]. rewrite !fold_alter_is_Some. apply H4. by eexists.
  - intros id. rewrite !fold_alter_is_Some. apply H5.
Qed.

Lemma pool_step_inv s s' : pool_step s s' → pool_inv (pool s) → pool_inv (pool s').
Proof.
  destruct 1 as [s k id p H|s k id p H|p n g|s id f H|s]; intros Hi; simpl in *.
  - by eapply take_slot_inv.
  - pose proof (release_lock_inv k _ Hi) as Hi'. rewrite H in Hi'. simpl in Hi'.
    apply release_lock_free in H as [Hf Ha]. apply set_conns_inv; [done|]. rewrite Hf. by eapply active_not_free.
  - by apply return_slot_inv.
  - by apply set_conns_inv.
  - by apply Stop_inv.
Qed.

Lemma return_slot_fields p :
  PoolSize (return_slot p) = PoolSize p ∧ activeSlots (return_slot p) = activeSlots p ∧
  registry (return_slot p) = registry p ∧ MaxIdleTime (return_slot p) = MaxIdleTime p ∧
  (length (free p) < PoolSize p → free (return_slot p) = free p ++ [nextSlotID p]).
Proof.
  unfold return_slot, newSlot. simpl. destruct (Nat.ltb_spec (length (free p)) (PoolSize p));
    repeat split; try done; lia.
Qed.

Lemma pool_step_accounted s s' : pool_step s s' → slots_accounted s → slots_accounted s'.
Proof.
  unfold slots_accounted. destruct 1 as [s k id p H|s k id p H|p n g|s id f H|s]; simpl; intros Ha.
  - unfold take_slot in H. destruct (free (pool s)) as [|id' fl]; [done|]. simplify_eq/=.
    rewrite map_size_insert. destruct (activeSlots (pool s) !! k) as [x|] eqn:E; simpl; [|lia].
    assert (size (activeSlots (pool s)) ≠ 0); [|lia].
    intros Hz%map_size_empty_inv. by rewrite Hz, lookup_empty in E.
  - unfold release_lock in H. destruct (activeSlots (pool s) !! k) as [x|] eqn:E; [|done].
    simplify_eq/=. assert (size (activeSlots (pool s)) ≠ 0) as Hn.
    { intros Hz%map_size_empty_inv. by rewrite Hz, lookup_empty in E. }
    rewrite map_size_delete_Some by (by eexists). lia.
  - destruct (return_slot_fields p) as (-> & -> & _ & _ & ->); [|lia].
    rewrite length_app. simpl. lia.
  - done.
  - rewrite map_size_empty. lia.
Qed.

Definition start_pool (n : nat) (maxIdle : Z) : ConnectionPool := ConnPool n maxIdle [] ∅ ∅ ∅ 1.

Lemma iter_return_spec n m maxIdle :
  m ≤ n → let p := Nat.iter m return_slot (start_pool n maxIdle) in
  pool_inv p ∧ length (free p) = m ∧ activeSlots p = ∅ ∧ PoolSize p = n.
Proof.
  induction m as [|m IH]; intros Hm; simpl.
  - split; [|done]. split; try done; [constructor|set_solver|by intros id []|by intros id []].
  - destruct IH as (Hi & Hl & Ha & Hp); [lia|]. split; [by apply return_slot_inv|].
    destruct (return_slot_fields (Nat.iter m return_slot (start_pool n maxIdle))) as (E1 & E2 & _ & _ & E3).
    rewrite E1, E2, E3, length_app, Hl by lia. simpl. split; [lia|done].
Qed.

Lemma NewConnectionPool_inv size maxIdle :
  let p := NewConnectionPool size maxIdle in
  pool_inv p ∧ slots_accounted (PoolSys p 0 0) ∧ length (free p) = PoolSize p.
Proof.
  unfold NewConnectionPool. set (n := if (size <=? 0)%Z then _ else _).
  destruct (iter_return_spec n n maxIdle) as (Hi & Hl & Ha & Hp); [done|].
  fold (start_pool n maxIdle). split; [done|]. unfold slots_accounted. simpl.
  rewrite Hl, Ha, Hp, map_size_empty. split; [lia|done].
Qed.

Lemma pool_reachable_inv size maxIdle s :
  rtc pool_step (PoolSys (NewConnectionPool size maxIdle) 0 0) s → pool_inv (pool s) ∧ slots_accounted s.
Proof.
  intros H. destruct (NewConnectionPool_inv size maxIdle) as (Hi & Ha & _). revert Hi Ha.
  remember (PoolSys (NewConnectionPool size maxIdle) 0 0) as s0 eqn:E.
  change (NewConnectionPool size maxIdle) with (pool (PoolSys (NewConnectionPool size maxIdle) 0 0)).
  rewrite <-E. clear E. induction H as [|s1 s2 s3 Hs _ IH]; [done|]. intros Hi Ha.
  apply IH; [by eapply pool_step_inv|by eapply pool_step_accounted].
Qed.

(** ** One caller at a time *)

(** The slots the pool still holds. *)
Definition held (p : ConnectionPool) : nat := length (free p) + size (activeSlots p).

(** What an operation for [k] keeps: the invariant, the number of slots, and everything of
    the other keys. *)
Record keeps (k : string) (p p' : ConnectionPool) : Prop := {
  kp_inv : pool_inv p → pool_inv p';
  kp_held : held p' = held p;
  kp_size : PoolSize p' = PoolSize p;
  kp_idle : MaxIdleTime p' = MaxIdleTime p;
  kp_others k' : k' ≠ k → activeSlots p' !! k' = activeSlots p !! k';
  kp_conns k' id : pool_inv p → k' ≠ k → activeSlots p !! k' = Some id → conns p' !! id = conns p !! id;
}.

#[export] Instance keeps_preorder k : PreOrder (keeps k).
Proof.
  split; [by split|]. intros p1 p2 p3 [I1 H1 S1 M1 O1 C1] [I2 H2 S2 M2 O2 C2]. split.
  - auto.
  - by rewrite H2.
  - by rewrite S2.
  - by rewrite M2.
  - intros k' Hk. by rewrite O2, O1.
  - intros k' id Hi Hk Ha. rewrite <-(C1 k' id) by done. apply (C2 k' id); [by apply I1|done|by rewrite O1].
Qed.

Lemma active_inj p k1 k2 id :
  pool_inv p → activeSlots p !! k1 = Some id → activeSlots p !! k2 = Some id → k1 = k2.
Proof. intros Hi H1 H2. destruct (pi_active _ Hi _ _ H1), (pi_active _ Hi _ _ H2). congruence. Qed.

Lemma set_conns_keeps k id f p : pool_inv p → activeSlots p !! k = Some id → keeps k p (set_conns (alter f id) p).
Proof.
  intros Hi Hk. split; try done.
  - intros _. apply set_conns_inv; [done|]. by eapply active_not_free.
  - intros k' id' _ Hne Hk'. simpl. rewrite lookup_alter_ne; [done|]. intros <-. by apply Hne, (active_inj p k' k id).
Qed.

Lemma take_slot_spec k p id p' :
  take_slot k p = Some (id, p') → pool_inv p → activeSlots p !! k = None →
  keeps k p p' ∧ activeSlots p' !! k = Some id ∧ conns p' !! id = Some new_conn.
Proof.
  intros H Hi Hk. split; [|split].
  - split; [intros; by eapply take_slot_inv|..];
      unfold take_slot in H; destruct (free p) as [|x fl] eqn:E; simplify_eq/=; try done.
    + unfold held. simpl. rewrite E, map_size_insert, Hk. simpl. lia.
    + intros k' Hne. by rewrite lookup_insert_ne.
  - unfold take_slot in H. destruct (free p); simplify_eq/=. apply lookup_insert_eq.
  - unfold take_slot in H. destruct (free p) as [|x fl] eqn:E; simplify_eq/=.
    destruct (pi_free _ Hi id); [rewrite E; by left|done].
Qed.

Lemma return_slot_conns p id : id ≠ nextSlotID p → conns (return_slot p) !! id = conns p !! id.
Proof.
  intros Hne. unfold return_slot, newSlot. simpl.
  destruct (_ <? _)%nat; simpl; by rewrite lookup_insert_ne.
Qed.

Lemma Release_spec k p :
  pool_inv p → held p ≤ PoolSize p →
  keeps k p (Release k p) ∧ activeSlots (Release k p) = delete k (activeSlots p) ∧
  ∀ id, activeSlots p !! k = Some id →
    free (Release k p) ≠ [] ∧ conns (Release k p) !! id = teardown <$> conns p !! id.
Proof.
  intros Hi Hh. unfold Release, release_lock. destruct (activeSlots p !! k) as [id|] eqn:Ek.
  2:{ split; [done|]. split; [by rewrite delete_id|done]. }
  set (p1 := ConnPool _ _ _ _ _ _ _). set (p2 := set_conns (alter teardown id) p1).
  pose proof (release_lock_inv k p Hi) as Hi1. unfold release_lock in Hi1. rewrite Ek in Hi1. simpl in Hi1.
  fold p1 in Hi1.
  assert (Hi2 : pool_inv p2) by (apply set_conns_inv; [done|]; simpl; by eapply active_not_free).
  assert (Hsz : size (activeSlots p) = S (size (delete k (activeSlots p)))).
  { rewrite map_size_delete, Ek. assert (size (activeSlots p) ≠ 0); [|simpl; lia].
    intros Hz%map_size_empty_inv. by rewrite Hz, lookup_empty in Ek. }
  destruct (return_slot_fields p2) as (E1 & E2 & E3 & E4 & E5).
  assert (Hlt : length (free p2) < PoolSize p2) by (unfold held in Hh; simpl; lia).
  assert (Hid : id ≠ nextSlotID p2).
  { destruct (pi_active _ Hi _ _ Ek) as [_ Hs]. apply (pi_next _ Hi) in Hs. simpl. lia. }
  split; [|split].
  - split; try done.
    + intros _. by apply return_slot_inv.
    + unfold held. rewrite E2, E5, length_app by done. simpl. lia.
    + intros k' Hne. rewrite E2. simpl. by apply lookup_delete_ne.
    + intros k' id' _ Hne Hk'. destruct (pi_active _ Hi _ _ Hk') as [_ Hs]. apply (pi_next _ Hi) in Hs.
      rewrite return_slot_conns by (simpl; lia). simpl. rewrite lookup_alter_ne; [done|].
      intros <-. by apply Hne, (active_inj p k' k id).
  - by rewrite E2.
  - intros id' [= <-]. split.
    + rewrite E5 by done. by destruct (free p2).
    + rewrite return_slot_conns by done. simpl. by rewrite lookup_alter_eq.
Qed.

Section acquired.
Context {S : Type} `{!LoopSessionStore S}.
Context (env : acquire_env) (k ws : string).

(** A slot being set up for [k]: connected anew and not dropped, or released again. *)
Definition set_up (id : nat) (p p' : ConnectionPool) (res : run_error + string) : Prop :=
  keeps k p p' ∧
  match res with
  | inl _ => activeSlots p' !! k = None
  | inr _ => activeSlots p' !! k = Some id ∧ ∃ c, conns p' !! id = Some c ∧ connected c = true ∧
      notified c = false ∧ eventStreamLive c = env_receive env
  end.

Lemma fresh_loop_spec m1 m2 con boot ty id p (st : S) c :
  pool_inv p → held p ≤ PoolSize p → activeSlots p !! k = Some id → conns p !! id = Some c →
  notified c = false → has_eventCh c = false →
  set_up id p (fresh_loop env k ws m1 m2 con boot ty id p st).1.2
    (fresh_loop env k ws m1 m2 con boot ty id p st).1.1.
Proof.
  intros Hi Hh Hk Hc Hn He. unfold fresh_loop.
  assert (Hrel : ∀ f, let p' := Release k (set_conns (alter f id) p) in
            keeps k p p' ∧ activeSlots p' !! k = None).
  { intros f. pose proof (set_conns_keeps k id f p Hi Hk) as Hkp.
    destruct (Release_spec k (set_conns (alter f id) p)) as (Hr & Ha & _);
      [by apply (kp_inv _ _ _ Hkp)|done|]. split; [by etrans|]. rewrite Ha. apply lookup_delete_eq. }
  destruct con as [err|]; [apply Hrel|]. destruct boot as [err|loopID]; [apply Hrel|]. simpl.
  pose proof (set_conns_keeps k id (set_connected true) p Hi Hk) as Hk1.
  pose proof (set_conns_keeps k id (startReader (env_receive env)) _ (kp_inv _ _ _ Hk1 Hi) Hk) as Hk2.
  split; [by etrans|]. split; [done|]. simpl. rewrite !lookup_alter_eq, Hc. eexists. split; [done|].
  split; [done|]. split; [done|]. unfold eventStreamLive. simpl. rewrite He. by destruct (env_receive env).
Qed.

Lemma open_loop_spec id p (st : S) :
  pool_inv p → held p ≤ PoolSize p → activeSlots p !! k = Some id → conns p !! id = Some new_conn →
  set_up id p (open_loop env k ws id p st).1.2 (open_loop env k ws id p st).1.1.
Proof.
  intros Hi Hh Hk Hc. unfold open_loop. destruct (loopIDFor st k) as [loopID|]; [|by eapply fresh_loop_spec].
  unfold resumeAndReattach.
  assert (Hretry : ∀ b m1 m2 con boot ty,
    let x := fresh_loop env k ws m1 m2 con boot ty id (set_conns (alter (set_connected b) id) p) st in
    set_up id p x.1.2 x.1.1).
  { intros b m1 m2 con boot ty. pose proof (set_conns_keeps k id (set_connected b) p Hi Hk) as Hk1.
    destruct (fresh_loop_spec m1 m2 con boot ty id (set_conns (alter (set_connected b) id) p) st
      (set_connected b new_conn)) as [Hk2 Hres]; try done.
    - by apply (kp_inv _ _ _ Hk1).
    - simpl. by rewrite lookup_alter_eq, Hc.
    - split; [by etrans|done]. }
  destruct (env_connect env) as [err|]; [apply Hretry|]. destruct (env_reattach env) as [err|]; [apply Hretry|].
  simpl. pose proof (set_conns_keeps k id (set_connected true) p Hi Hk) as Hk1.
  pose proof (set_conns_keeps k id (startReader (env_receive env)) _ (kp_inv _ _ _ Hk1 Hi) Hk) as Hk2.
  split; [by etrans|]. split; [done|]. simpl. rewrite !lookup_alter_eq, Hc. eexists. split; [done|].
  split; [done|]. split; [done|]. unfold eventStreamLive. simpl. by destruct (env_receive env).
Qed.

(** An [Acquire] for [k] that ends with the connection [id], or with an error. *)
Definition acquired (p p' : ConnectionPool) (res : run_error + nat) : Prop :=
  keeps k p p' ∧
  match res with
  | inl _ => activeSlots p' !! k = None
  | inr id => activeSlots p' !! k = Some id ∧ ∃ c, conns p' !! id = Some c ∧ connected c = true ∧
      notified c = false ∧ lastUsed c = Some (clock env) ∧
      (activeSlots p !! k = Some id ∧ eventStreamLive c = true ∨ eventStreamLive c = env_receive env)
  end.

Lemma acquire_slot_spec p (st : S) :
  pool_inv p → held p ≤ PoolSize p → activeSlots p !! k = None →
  acquired p (acquire_slot env k ws p st).1.2 (acquire_slot env k ws p st).1.1.
Proof.
  intros Hi Hh Hk. unfold acquire_slot. destruct (ctx_done env) as [err|]; [by split|].
  destruct (take_slot k p) as [[id p1]|] eqn:Et; [|by split].
  destruct (take_slot_spec _ _ _ _ Et Hi Hk) as (Hk1 & Ha & Hc).
  destruct (open_loop_spec id p1 st) as [Hk2 Hres]; [by apply (kp_inv _ _ _ Hk1)| |done..|].
  { by rewrite (kp_held _ _ _ Hk1), (kp_size _ _ _ Hk1). }
  destruct (open_loop env k ws id p1 st) as [[[err|loopID] p2] st2]; simpl in *.
  { split; [by etrans|done]. }
  destruct Hres as (Ha2 & c & Hc2 & Hcon & Hn & He).
  assert (Hi2 : pool_inv p2) by (apply (kp_inv _ _ _ Hk2), (kp_inv _ _ _ Hk1), Hi).
  split; [etrans; [done|etrans; [done|by apply set_conns_keeps]]|].
  split; [done|]. simpl. rewrite lookup_alter_eq, Hc2. eexists. split; [done|]. by auto.
Qed.

Lemma Acquire_spec p (st : S) :
  pool_inv p → held p ≤ PoolSize p → drops_between env = false →
  acquired p (Acquire env k ws p st).1.2 (Acquire env k ws p st).1.1.
Proof.
  intros Hi Hh Hd. unfold Acquire. destruct (activeSlots p !! k) as [id|] eqn:Ek; [|by apply acquire_slot_spec].
  destruct (Release_spec k p Hi Hh) as (Hk1 & Ha1 & _).
  assert (Hrel : acquired p (acquire_slot env k ws (Release k p) st).1.2 (acquire_slot env k ws (Release k p) st).1.1).
  { destruct (acquire_slot_spec (Release k p) st) as [Hk2 Hres].
    - by apply (kp_inv _ _ _ Hk1).
    - by rewrite (kp_held _ _ _ Hk1), (kp_size _ _ _ Hk1).
    - rewrite Ha1. apply lookup_delete_eq.
    - split; [by etrans|]. destruct (acquire_slot _ _ _ _ _) as [[[err|id'] p'] st']; simpl in *; [done|].
      destruct Hres as (Ha & c & Hc & H1 & H2 & H3 & Hor). split; [done|]. exists c. split; [done|].
      split; [done|]. split; [done|]. split; [done|]. right.
      destruct Hor as [[Hx _]|]; [|done]. rewrite Ha1, lookup_delete_eq in Hx. done. }
  destruct (_ || negb (eventStreamLive _)) eqn:Eu; [exact Hrel|]. rewrite Hd.
  destruct (pi_active _ Hi _ _ Ek) as [_ [c Hc]]. rewrite Hc in *. simpl in *.
  apply orb_false_iff in Eu as [Eu El]. apply orb_false_iff in Eu as [En Ec].
  apply negb_false_iff in El, Ec. unfold usable. rewrite Ec, El. simpl.
  destruct (idle_too_long env p c); [exact Hrel|].
  split; [by apply set_conns_keeps|]. split; [done|]. simpl. rewrite lookup_alter_eq, Hc.
  unfold isConnected, clientDisconnectNotified in Ec. apply andb_true_iff in Ec as [Ec _].
  eexists. split; [done|]. simpl. repeat split; try done. by left.
Qed.
End acquired.

(** ** The store remembers *)

Section remembers.
Context {S : Type} `{!LoopSessionStore S, !LawfulStore S}.

(** A loop id that is used as it is. *)
Definition proper (loopID : string) : Prop :=
  TrimSpace loopID = loopID ∧ loopID ≠ "" ∧ HasPrefix loopID "pending-" = false.

Lemma loopIDFor_found (st : S) k loopID :
  GetLoopIDForSession st k = Some loopID → proper loopID → loopIDFor st k = Some loopID.
Proof.
  intros H (Ht & Hne & Hp). unfold loopIDFor. rewrite H. simpl. rewrite Ht, Hp.
  by rewrite (proj2 (String.eqb_neq _ _) Hne).
Qed.

Lemma loopIDFor_stamp (st : S) k k' : loopIDFor (UpdateLastUsed st k) k' = loopIDFor st k'.
Proof. unfold loopIDFor. by rewrite stamp_keeps. Qed.

Lemma fresh_loop_remembers env k ws m1 m2 con boot ty id p (st : S) loopID p' st' :
  fresh_loop env k ws m1 m2 con boot ty id p st = (inr loopID, p', st') → proper loopID →
  loopIDFor st' k = Some loopID.
Proof.
  unfold fresh_loop. destruct con; [done|]. destruct boot; [done|]. intros [= <- _ <-] Hp.
  apply loopIDFor_found; [|done]. rewrite created_found. by rewrite decide_True.
Qed.

Lemma open_loop_remembers env k ws id p (st : S) loopID p' st' :
  open_loop env k ws id p st = (inr loopID, p', st') → proper loopID → loopIDFor st' k = Some loopID.
Proof.
  unfold open_loop. destruct (loopIDFor st k) as [l|] eqn:El; [|apply fresh_loop_remembers].
  destruct (resumeAndReattach env id p) as [[e|] p1]; [apply fresh_loop_remembers|].
  by intros [= <- _ <-] _.
Qed.

Lemma acquire_slot_remembers env k ws p (st : S) id p' st' c :
  acquire_slot env k ws p st = (inr id, p', st') → conns p' !! id = Some c → proper (pc_loopID c) →
  loopIDFor st' k = Some (pc_loopID c).
Proof.
  unfold acquire_slot. destruct (ctx_done env); [done|]. destruct (take_slot k p) as [[id1 p1]|]; [|done].
  destruct (open_loop env k ws id1 p1 st) as [[[err|loopID] p2] st2] eqn:Eo; [done|].
  intros [= <- <- <-] Hc Hp. simpl in Hc. rewrite lookup_alter_eq in Hc.
  apply fmap_Some in Hc as (c0 & _ & ->). rewrite loopIDFor_stamp. by eapply open_loop_remembers.
Qed.

(** A slot taken for a key whose loop is known reattaches it. *)
Lemma acquire_slot_resumes env k ws p (st : S) loopID :
  pool_inv p → activeSlots p !! k = None → free p ≠ [] → loopIDFor st k = Some loopID →
  ctx_done env = None → env_connect env = None → env_reattach env = None →
  ∃ id p' c, acquire_slot env k ws p st = (inr id, p', UpdateLastUsed st k) ∧
    conns p' !! id = Some c ∧ pc_loopID c = loopID.
Proof.
  intros Hi Hk Hf Hl H1 H2 H3. unfold acquire_slot. rewrite H1.
  destruct (take_slot k p) as [[id p1]|] eqn:Et.
  2:{ unfold take_slot in Et. by destruct (free p). }
  destruct (take_slot_spec _ _ _ _ Et Hi Hk) as (_ & _ & Hc).
  unfold open_loop, resumeAndReattach. rewrite Hl, H2, H3. do 3 eexists. split; [done|].
  simpl. rewrite !lookup_alter_eq, Hc. by split.
Qed.
End remembers.

(** * Properties *)

(** C13. However callers interleave, and whatever the connections do, no slot is counted twice
    or lost track of: idle, in use, on the way back and gone add up to the size of the
    pool; idle slots are distinct, unused and never handed out already; two keys never
    share a connection; and a slot on its way back always finds room. *)
Theorem slots_conserved (size maxIdle : Z) (s : pool_sys)
    (Hs : rtc pool_step (PoolSys (NewConnectionPool size maxIdle) 0 0) s) :
  (length (free (pool s)) + base.size (activeSlots (pool s)) + returning s + gone s = PoolSize (pool s))%nat ∧
  NoDup (free (pool s)) ∧
  (∀ id, id ∈ free (pool s) → conns (pool s) !! id = Some new_conn ∧ ∀ k, activeSlots (pool s) !! k ≠ Some id) ∧
  (∀ k1 k2 id, activeSlots (pool s) !! k1 = Some id → activeSlots (pool s) !! k2 = Some id → k1 = k2) ∧
  (0 < returning s → length (free (pool s)) < PoolSize (pool s)).
Proof.
  destruct (pool_reachable_inv _ _ _ Hs) as [Hi Ha]. split; [exact Ha|]. split; [apply (pi_distinct _ Hi)|].
  split; [|split].
  - intros id Hin. split; [by apply (pi_free _ Hi)|]. intros k Hk. by eapply active_not_free.
  - intros k1 k2 id. by apply active_inj.
  - unfold slots_accounted in Ha. lia.
Qed.


(** C38. A conversation survives its connection. Once a key without a connection has acquired
    one, a lawful store remembers the loop it is attached to: after the connection is
    released, the next [Acquire] that can connect and reattach gives a connection to the
    same loop, and creates no new session. *)
Theorem loop_resumed {S : Type} `{!LoopSessionStore S, !LawfulStore S} (env env2 : acquire_env)
    (k ws ws2 : string) (p p1 : ConnectionPool) (st st1 : S) (id : nat) (c : pooledConn)
    (Hi : pool_inv p) (Hh : held p ≤ PoolSize p) (Hk : activeSlots p !! k = None)
    (Hd : drops_between env = false)
    (Hacq : Acquire env k ws p st = (inr id, p1, st1)) (Hc : conns p1 !! id = Some c)
    (Hproper : proper (pc_loopID c))
    (Hctx : ctx_done env2 = None) (Hcon : env_connect env2 = None) (Hre : env_reattach env2 = None) :
  ∃ id2 p2 c2, Acquire env2 k ws2 (Release k p1) st1 = (inr id2, p2, UpdateLastUsed st1 k) ∧
    conns p2 !! id2 = Some c2 ∧ pc_loopID c2 = pc_loopID c.
Proof.
  destruct (Acquire_spec env k ws p st Hi Hh Hd) as [Hkp Hres]. rewrite Hacq in Hkp, Hres. simpl in *.
  destruct Hres as [Ha _].
  assert (Hi1 : pool_inv p1) by by apply (kp_inv _ _ _ Hkp).
  destruct (Release_spec k p1 Hi1) as (Hkp2 & Ha2 & Hrel).
  { by rewrite (kp_held _ _ _ Hkp), (kp_size _ _ _ Hkp). }
  destruct (Hrel _ Ha) as [Hfree _].
  unfold Acquire in Hacq. rewrite Hk in Hacq.
  apply acquire_slot_remembers with (c := c) in Hacq; [|done..].
  assert (Hnone : activeSlots (Release k p1) !! k = None) by (rewrite Ha2; apply lookup_delete_eq).
  destruct (acquire_slot_resumes env2 k ws2 (Release k p1) st1 (pc_loopID c))
    as (id2 & p2 & c2 & H2 & Hc2 & Hl); try done; [by apply (kp_inv _ _ _ Hkp2)|].
  exists id2, p2, c2. unfold Acquire. rewrite Hnone. done.
Qed.

(** * Examples *)

(** A store in memory. *)
#[export] Instance memory_store : LoopSessionStore (gmap string string) := {
  GetLoopIDForSession st k := st !! k;
  GetSessionType _ _ := Some "primary";
  CreateSession st _ k loop _ := <[k := loop]> st;
  UpdateLastUsed st _ := st;
}.

#[export] Instance memory_store_lawful : LawfulStore (gmap string string).
Proof.
  split; [|done]. intros st ws k loop ty k'. simpl. rewrite lookup_insert.
  destruct (decide (k' = k)), (decide (k = k')); congruence.
Qed.

(** Everything works, and new loops are called [loop]. *)
Definition smooth (loop : string) : acquire_env :=
  AcquireEnv false 7 None None (inr loop) None None (inr loop) true.

Definition two_slots : ConnectionPool := NewConnectionPool 2 0.

Lemma two_slots_ok : pool_inv two_slots ∧ held two_slots ≤ PoolSize two_slots.
Proof.
  destruct (NewConnectionPool_inv 2 0) as (Hi & _ & _). split; [exact Hi|]. vm_compute. lia.
Qed.

Lemma slots_conserved_witness :
  ∃ s, rtc pool_step (PoolSys two_slots 0 0) s ∧ gone s = 1 ∧
    (length (free (pool s)) + base.size (activeSlots (pool s)) + returning s + gone s = PoolSize (pool s))%nat.
Proof.
  assert (Hr : ∃ s, rtc pool_step (PoolSys two_slots 0 0) s ∧ gone s = 1).
  { eexists. split.
    - eapply rtc_l; [eapply (pool_take _ "app"); vm_compute; reflexivity|].
      eapply rtc_l; [eapply (pool_take _ "app"); vm_compute; reflexivity|apply rtc_refl].
    - vm_compute. reflexivity. }
  destruct Hr as (s & Hs & Hg). exists s. split; [exact Hs|]. split; [exact Hg|].
  exact (proj1 (slots_conserved 2 0 s Hs)).
Defined.


Lemma loop_resumed_witness :
  let '(res, p1, st1) := Acquire (smooth "L") "app" "w" two_slots (∅ : gmap string string) in
  res = inr 1 ∧
  ∃ id2 p2 c2, Acquire (smooth "other") "app" "w" (Release "app" p1) st1 = (inr id2, p2, st1) ∧
    conns p2 !! id2 = Some c2 ∧ pc_loopID c2 = "L".
Proof.
  assert (E : (Acquire (smooth "L") "app" "w" two_slots (∅ : gmap string string)).1.1 = inr 1)
    by (vm_compute; reflexivity).
  assert (Ec : (Acquire (smooth "L") "app" "w" two_slots (∅ : gmap string string)).1.2.(conns) !! 1 =
    Some (PooledConn true false false true true true "app" "L" "w" (Some 7%Z))) by (vm_compute; reflexivity).
  destruct (Acquire (smooth "L") "app" "w" two_slots ∅) as [[res p1] st1] eqn:Eq. simpl in E, Ec. subst res.
  split; [reflexivity|].
  refine (loop_resumed (smooth "L") (smooth "other") "app" "w" "w" two_slots p1 ∅ st1 1
    (PooledConn true false false true true true "app" "L" "w" (Some 7%Z))
    (proj1 two_slots_ok) (proj2 two_slots_ok) _ eq_refl Eq Ec _ eq_refl eq_refl eq_refl).
  - vm_compute. reflexivity.
  - split; [vm_compute; reflexivity|]. split; [discriminate|vm_compute; reflexivity].
Defined.

(** A connection that drops between the two looks [Acquire] takes at it is neither reused
    nor released: the key moves to a second slot and the first never comes back. *)
Theorem dropped_between_checks_leaks :
  let '(_, p1, st1) := Acquire (smooth "L") "app" "w" two_slots (∅ : gmap string string) in
  let racing := AcquireEnv true 7 None None (inr "L") None None (inr "L") true in
  let '(res, p2, _) := Acquire racing "app" "w" p1 st1 in
  res = inr 2 ∧ Stats p1 = (1, 1) ∧ Stats p2 = (1, 0) ∧ Stats (Release "app" p2) = (0, 1).
Proof. vm_compute. repeat split. Qed.
