(* ===== verification/TurnRunner.v ===== *)
(** The turn runner (appkit/turn_runner.go): one query of an application key from the
    pooled connection to the persisted reply. The turn loop is a function of what its
    [select] receives, in order, and of the actions it performs. *)

From S2P Require Import Prelude GoStr Runes Value TurnId StreamTerminal Protocol TurnGate Classifier.
From S2P Require Import GoChan Broadcaster Attachments Pool.
From S2P Require QueryGate.

(** * Data *)

Inductive TimeoutPolicy := TimeoutPolicyFail | TimeoutPolicySoftComplete.

#[export] Instance TimeoutPolicy_eq_dec : EqDecision TimeoutPolicy.
Proof. solve_decision. Defined.

(** Durations and instants are in nanoseconds. *)
Record TurnConfig := MkTurnConfig {
  QueryTimeout : Z;
  IdleTimeout : Z;
  MinIdleTimeoutWithAttachments : Z;
  OnIdleTimeout : TimeoutPolicy;
  OnQueryTimeout : TimeoutPolicy;
  OnStreamClose : TimeoutPolicy;
  CompactAttachmentsBeforeSend : bool;
  CompactImageOpts : option CompactImageOptions;
}.

Record InputOpts := MkInputOpts {
  IntentHint : string;
  PreferredSubagent : string;
  IntakeScope : string;
  InteractionMode : string;
  ResponseSchema : gomap;
  ResponseSchemaName : string;
  ResponseSchemaStrict : option bool;
}.

(** ** The input message *)

(** [if s := strings.TrimSpace(s); s != "" { params[k] = s }] *)
Definition opt_param (k s : string) : list (string * value) :=
  let s := TrimSpace s in if s <>s "" then [(k, VStr s)] else [].

Definition opts_params (o : InputOpts) : list (string * value) :=
  opt_param "intent_hint" (IntentHint o) ++
  opt_param "preferred_subagent" (PreferredSubagent o) ++
  opt_param "intake_scope" (IntakeScope o) ++
  opt_param "interaction_mode" (InteractionMode o) ++
  (if bool_decide (default ∅ (ResponseSchema o) = ∅) then [] else [("response_schema", VMap (ResponseSchema o))]) ++
  opt_param "response_schema_name" (ResponseSchemaName o) ++
  match ResponseSchemaStrict o with Some b => [("response_schema_strict", VBool b)] | None => [] end.

Definition input_params (text loopID : string) (attachments : list gomap) (opts : option InputOpts) : gomap :=
  Some (mlit ([("content", VStr text)] ++
              (if loopID <>s "" then [("loop_id", VStr loopID)] else []) ++
              (match attachments with [] => [] | _ => [("attachments", VArr (VMap <$> attachments))] end) ++
              from_option opts_params [] opts)).

(** [InputMessageForLoop]: the envelope marshalled and parsed back; a map of JSON values
    always marshals. *)
Definition InputMessageForLoop (text loopID : string) (attachments : list gomap) (opts : option InputOpts) : gomap :=
  Some (enc_envelope (NewNotificationEnvelope "loop_input" (input_params text loopID attachments opts))).

(** The command that asks the daemon to stop a loop. *)
Definition cancel_command (loopID : string) : gomap :=
  Some (mlit [("type", VStr "command_request"); ("command", VStr "cancel"); ("loop_id", VStr loopID)]).

(** ** What a turn does to its surroundings *)

(** The metadata of a message: of a reply, and of an error. *)
Inductive Metadata :=
  | MetaCompleted (started_at completed_at duration_ms : Z) (completion_event : string)
  | MetaFailed (error_message : string).

Record SessionMessage := MkSessionMessage {
  Role : string;
  sm_Content : string;
  sm_Metadata : Metadata;
}.

Inductive action :=
  | Drain
  | SendMessage (msg : gomap)
  | AppendMessage (appKey : string) (m : SessionMessage)
  | Publish (appKey : string) (ev : SSEEvent)
  | OnComplete (appKey loopID content completionEvent : string) (elapsedMs : Z)
  | OnError (appKey loopID : string) (err : run_error)
  | PoolRelease (appKey : string).

(** A runner; the store, the broadcaster and the hooks are there or nil. *)
Record TurnRunner := MkTurnRunner {
  classifier : ClassifierConfig;
  store : bool;
  broadcaster : bool;
  cfg : TurnConfig;
  buildInput : string → string → list gomap → option InputOpts → gomap;
  onComplete : bool;
  onError : bool;
  errorData : option (run_error → value);
}.

Definition NewTurnRunner (cl : ClassifierConfig) (store b : bool) (cfg : TurnConfig) : TurnRunner :=
  let timeout := if (QueryTimeout cfg <=? 0)%Z then (30 * 60 * 1000000000)%Z else QueryTimeout cfg in
  MkTurnRunner cl store b
    (MkTurnConfig timeout (IdleTimeout cfg) (MinIdleTimeoutWithAttachments cfg) (OnIdleTimeout cfg)
       (OnQueryTimeout cfg) (OnStreamClose cfg) (CompactAttachmentsBeforeSend cfg) (CompactImageOpts cfg))
    InputMessageForLoop false false None.

(** The setters; a nil builder or formatter leaves the one in place, a hook is there when it
    is not nil. *)
Definition WithInputBuilder (f : option (string → string → list gomap → option InputOpts → gomap)) (r : TurnRunner) :
    TurnRunner :=
  MkTurnRunner (classifier r) (store r) (broadcaster r) (cfg r) (default (buildInput r) f) (onComplete r) (onError r)
    (errorData r).

Definition WithOnComplete (f : bool) (r : TurnRunner) : TurnRunner :=
  MkTurnRunner (classifier r) (store r) (broadcaster r) (cfg r) (buildInput r) f (onError r) (errorData r).

Definition WithOnError (f : bool) (r : TurnRunner) : TurnRunner :=
  MkTurnRunner (classifier r) (store r) (broadcaster r) (cfg r) (buildInput r) (onComplete r) f (errorData r).

Definition WithErrorData (f : option (run_error → value)) (r : TurnRunner) : TurnRunner :=
  MkTurnRunner (classifier r) (store r) (broadcaster r) (cfg r) (buildInput r) (onComplete r) (onError r)
    (match f with None => errorData r | f => f end).

Definition idleTimeoutForTurn (cfg : TurnConfig) (hasAttachments : bool) : Z :=
  let idle := IdleTimeout cfg in
  if (idle <=? 0)%Z then 0%Z
  else if hasAttachments && ((0 <? MinIdleTimeoutWithAttachments cfg) &&
                             (idle <? MinIdleTimeoutWithAttachments cfg))%Z
  then MinIdleTimeoutWithAttachments cfg else idle.

Definition isStatusRunningEvent (msg : message) : bool :=
  match msg with MStatus m => EqualFold (TrimSpace (st_State m)) "running" | _ => false end.

Definition isStaleTurnEndEvent (msg : message) : bool :=
  match msg with
  | MStatus m =>
      let state := TrimSpace (st_State m) in EqualFold state "idle" || EqualFold state "stopped"
  | MEvent m => (em_Mode m =s "custom") && IsTurnEndCustomData (em_Data m)
  | _ => false
  end.

(** [idleTimer]: when it goes off, and whether its channel holds a tick. *)
Record idle_timer := MkTimer {
  deadline : Z;
  ticked : bool;
}.

(** The variables of the loop; no timer when the idle timeout is off. *)
Record turn_state := TurnState {
  assistantContent : string;
  boundary : TurnBoundary;
  armed : bool;
  idleTimer : option idle_timer;
}.

(** What the loop's [select] finds, and the clock meanwhile: the turn's context done (past
    its deadline or cancelled), a tick of the idle timer received, a message, the end of
    the stream. [TimerFires] is the idle timer going off, before its tick is received. *)
Inductive occasion :=
  | QueryDeadline
  | QueryCancelled
  | TimerFires
  | IdleTick
  | Received (msg : message)
  | StreamClosed.

Inductive next :=
  | Loop (s : turn_state)
  | Return (err : option run_error).

(** Splitting of a reply into what was shown and what is new. *)
Definition take_content (content acc : string) : string * string :=
  if content =s "" then ("", acc)
  else if HasPrefix content acc then
    (String.substring (String.length acc) (String.length content - String.length acc) content, content)
  else (content, acc +:+ content).

Section runner.
Context (parse_json : string → option value) (r : TurnRunner).
Context (appKey loopID : string).

(** ** Persisting and broadcasting *)

Definition persistResponse (content : string) (startedAt now : Z) (completionEvent : string) : list action :=
  if store r then
    [AppendMessage appKey (MkSessionMessage "assistant" content
       (MetaCompleted startedAt now ((now - startedAt) ÷ 1000000) completionEvent))]
  else [].

Definition persistFailed (err : run_error) : list action :=
  if store r then [AppendMessage appKey (MkSessionMessage "error" (Error err) (MetaFailed (Error err)))] else [].

Definition broadcast (ty : string) (data : value) : list action :=
  if broadcaster r then [Publish appKey (MkSSE ty data)] else [].

Definition broadcastThinkingStep (step : string) : list action :=
  if TrimSpace step =s "" then [] else broadcast "thinking_step" (VStr (TrimSpace step +:+ of_bytes [newline])).

Definition broadcastDelta (delta : string) : list action :=
  if delta =s "" then [] else broadcast "delta" (VStr delta).

Definition broadcastComplete (content : string) : list action := broadcast "complete" (VStr content).

Definition broadcastError (err : run_error) : list action :=
  broadcast "query_error" (match errorData r with Some f => f err | None => VStr (Error err) end).

(** [persistFailed], [broadcastError] and the error hook, as every failing path runs them. *)
Definition fail_turn (lid : string) (err : run_error) : list action :=
  persistFailed err ++ broadcastError err ++ (if onError r then [OnError appKey lid err] else []).

(** [completeTurn]; the clock is read once. *)
Definition completeTurn (final : string) (startedAt now : Z) (completionEvent : string) : list action :=
  persistResponse final startedAt now completionEvent ++ broadcastComplete final ++
  (if onComplete r then [OnComplete appKey loopID final completionEvent ((now - startedAt) ÷ 1000000)] else []).

Definition sendLoopCancel : list action :=
  let lid := TrimSpace loopID in if lid =s "" then [] else [SendMessage (cancel_command lid)].

Definition finishTimeout (content : string) (startedAt now : Z) (failErr : run_error) (completionEvent : string)
    (policy : TimeoutPolicy) : list action * option run_error :=
  if bool_decide (policy = TimeoutPolicySoftComplete) && (TrimSpace content <>s "")
  then (completeTurn content startedAt now completionEvent, None)
  else (fail_turn loopID failErr, Some failErr).

(** ** The loop *)

(** [resetIdle], with the idle timeout [idleForTurn]: a tick not yet received is discarded. *)
Definition resetIdle (idleForTurn now : Z) (s : turn_state) : turn_state :=
  TurnState (assistantContent s) (boundary s) (armed s)
    ((λ _, MkTimer (now + idleForTurn) false) <$> idleTimer s).

Definition with_boundary (b : TurnBoundary) (s : turn_state) : turn_state :=
  TurnState (assistantContent s) b (armed s) (idleTimer s).

(** What a classified message shows: a progress line, then the new text. *)
Definition show (eventResult : ChatEventResult) (delta : string) : list action :=
  let step := TrimSpace (ThinkingStep eventResult) in
  (if step <>s "" then broadcastThinkingStep step else []) ++ broadcastDelta delta.

(** Past the classification: the boundary has the last word. *)
Definition end_turn (startedAt now : Z) (ended : bool) (endReason : string) (s : turn_state) : list action * next :=
  if ended then
    if IsSubstantiveAssistantReply (classifier r) (assistantContent s)
    then (completeTurn (TrimSpace (assistantContent s)) startedAt now endReason, Return None)
    else (fail_turn loopID (ErrNoContent endReason), Return (Some (ErrNoContent endReason)))
  else ([], Loop s).

(** The early completion by a deliverable phase, else the boundary. *)
Definition conclude (startedAt now : Z) (eventResult : ChatEventResult) (ended : bool) (endReason : string)
    (s : turn_state) : list action * next :=
  match ResolveDeliverableFinalContent (classifier r) eventResult (assistantContent s) with
  | Some final =>
      if negb (IsDaemonTurnEndEvent (CompletionEvent eventResult))
      then (completeTurn final startedAt now (CompletionEvent eventResult), Return None)
      else end_turn startedAt now ended endReason s
  | None => end_turn startedAt now ended endReason s
  end.

(** The result of a failed classification. *)
Definition failure (eventResult : ChatEventResult) : option string :=
  if bool_decide (Terminal eventResult = ChatEventFailedComplete) then Err eventResult else None.

(** A message after the turn has armed. *)
Definition armed_message (startedAt now : Z) (msg : message) (s : turn_state) : list action * next :=
  let armed := true in
  let '(ended, endReason, b) := Feed msg (boundary s) in
  if ended && negb armed then ([], Loop (TurnState (assistantContent s) new_boundary armed (idleTimer s)))
  else
    let eventResult := Classify parse_json (classifier r) msg (assistantContent s) in
    match failure eventResult with
    | Some e => (fail_turn loopID (ErrText e), Return (Some (ErrWrapped "process event" (ErrText e))))
    | None =>
        let '(delta, content) := take_content (Content eventResult) (assistantContent s) in
        let '(acts, n) :=
          conclude startedAt now eventResult ended endReason (TurnState content b armed (idleTimer s)) in
        (show eventResult delta ++ acts, n)
    end.

Definition on_message (idleForTurn startedAt now : Z) (msg : message) (s : turn_state) : list action * next :=
  let s := resetIdle idleForTurn now s in
  if negb (armed s) && isStaleTurnEndEvent msg then ([], Loop s)
  else if negb (armed s) && isStatusRunningEvent msg
  then ([], Loop (with_boundary (Feed msg (boundary s)).2 s))
  else armed_message startedAt now msg s.

(** One round of the loop at instant [now]. A tick that is not there cannot be received. *)
Definition on_occasion (idleForTurn startedAt now : Z) (o : occasion) (s : turn_state) : list action * next :=
  match o with
  | QueryCancelled => (fail_turn loopID ErrCanceled, Return (Some ErrCanceled))
  | QueryDeadline =>
      let '(acts, err) := finishTimeout (assistantContent s) startedAt now ErrQueryTimeout "query_timeout"
                            (OnQueryTimeout (cfg r)) in
      (sendLoopCancel ++ acts, Return err)
  | TimerFires =>
      ([], Loop (TurnState (assistantContent s) (boundary s) (armed s)
                   ((λ t, MkTimer (deadline t) (ticked t || (deadline t <=? now)%Z)) <$> idleTimer s)))
  | IdleTick =>
      if from_option ticked false (idleTimer s) then
        let '(acts, err) := finishTimeout (assistantContent s) startedAt now ErrIdleTimeout "idle_timeout"
                              (OnIdleTimeout (cfg r)) in
        (sendLoopCancel ++ acts, Return err)
      else ([], Loop s)
  | StreamClosed =>
      if bool_decide (OnStreamClose (cfg r) = TimeoutPolicySoftComplete) && (TrimSpace (assistantContent s) <>s "")
      then (completeTurn (assistantContent s) startedAt now "stream_closed", Return None)
      else (fail_turn loopID ErrStreamClosed, Return (Some ErrStreamClosed))
  | Received msg => on_message idleForTurn startedAt now msg s
  end.

(** The rounds of the loop, each stamped with its instant: what it did and how far it got. *)
Fixpoint turn_rounds (idleForTurn startedAt : Z) (rounds : list (Z * occasion)) (s : turn_state) :
    list action * next :=
  match rounds with
  | [] => ([], Loop s)
  | (now, o) :: rounds =>
      let '(acts, n) := on_occasion idleForTurn startedAt now o s in
      match n with
      | Return err => (acts, Return err)
      | Loop s => let '(acts', n) := turn_rounds idleForTurn startedAt rounds s in (acts ++ acts', n)
      end
  end.

Definition start_state (idleForTurn startedAt : Z) : turn_state :=
  TurnState "" new_boundary false
    (if (0 <? idleForTurn)%Z then Some (MkTimer (startedAt + idleForTurn) false) else None).

(** [runTurn]: [has_stream] is whether the connection has an event channel, [sent] the error
    of sending the input, [startedAt] the instant after it. *)
Definition runTurn (lib : imaging) (has_stream : bool) (sent : option run_error) (message : string)
    (attachments : list gomap) (opts : option InputOpts) (startedAt : Z) (rounds : list (Z * occasion)) :
    list action * next :=
  let atts := if CompactAttachmentsBeforeSend (cfg r) then CompactAttachments lib attachments (CompactImageOpts (cfg r))
              else attachments in
  if negb has_stream then
    (fail_turn loopID (ErrNoStream appKey loopID), Return (Some (ErrNoStream appKey loopID)))
  else
    let input := SendMessage (buildInput r message loopID atts opts) in
    match sent with
    | Some err => ([Drain; input] ++ fail_turn loopID err ++ [Drain], Return (Some (ErrWrapped "send message" err)))
    | None =>
        let idle := idleTimeoutForTurn (cfg r) (negb (bool_decide (attachments = []))) in
        let '(acts, n) := turn_rounds idle startedAt rounds (start_state idle startedAt) in
        ([Drain; input] ++ acts ++ (match n with Return _ => [Drain] | Loop _ => [] end), n)
    end.
End runner.

(** ** A whole turn, with the query gate *)

(** A connection of the pool: its loop id, and whether it has an event channel. *)
Record conn := MkConn {
  getLoopID : string;
  eventCh : bool;
}.

Section execute.
Context (parse_json : string → option value) (lib : imaging) (r : TurnRunner).
Context (appKey message : string) (attachments : list gomap) (opts : option InputOpts).

(** What the surroundings do during a turn: the result of acquiring a connection and of
    sending the input, the rounds of the loop, and the calls others make on the gate. *)
Context (acquired : run_error + conn) (sent : option run_error).
Context (startedAt : Z) (rounds : list (Z * occasion)) (others : list (string * QueryGate.gate_op)).

(** The turn on a connection, and the deferred release of the gate. *)
Definition run_and_release (c : conn) (g : QueryGate.QueryGate) : list action * next * QueryGate.QueryGate :=
  let '(acts, n) := runTurn parse_json r appKey (getLoopID c) lib (eventCh c) sent message attachments opts
                      startedAt rounds in
  let g := (QueryGate.gate_run others g).2 in
  (acts, n, match n with Return _ => QueryGate.Release appKey g | Loop _ => g end).

(** [cancel] and [sendCancel] name the functions the turn registers. *)
Definition Execute (cancel sendCancel : nat) (g : QueryGate.QueryGate) :
    list action * next * QueryGate.QueryGate :=
  match acquired with
  | inl err => (fail_turn r appKey "" err, Return (Some err), g)
  | inr c =>
      let '(ok, g) := QueryGate.Acquire appKey (Some cancel) (Some sendCancel) g in
      if ok then run_and_release c g
      else (PoolRelease appKey :: fail_turn r appKey (getLoopID c) ErrQueryBusy, Return (Some ErrQueryBusy), g)
  end.

Definition ExecuteReserved (cancel sendCancel : nat) (g : QueryGate.QueryGate) :
    list action * next * QueryGate.QueryGate :=
  if negb (QueryGate.IsActive appKey g)
  then ([], Return (Some (ErrNoReservation appKey)), g)
  else match acquired with
       | inl err => (fail_turn r appKey "" err, Return (Some err), QueryGate.Release appKey g)
       | inr c =>
           let g := QueryGate.ReplaceCancel appKey (Some cancel) g in
           run_and_release c (QueryGate.SetSendCancel appKey (Some sendCancel) g)
       end.
End execute.

(** [Execute] on a pool: the connection is acquired from it, and released to it. *)
Definition conn_of (c : pooledConn) : conn := MkConn (pc_loopID c) (has_eventCh c).

Definition on_pool (acts : list action) (p : ConnectionPool) : ConnectionPool :=
  foldl (λ p a, match a with PoolRelease k => Release k p | _ => p end) p acts.

Definition Execute_pooled {S : Type} `{!LoopSessionStore S} (parse_json : string → option value) (lib : imaging)
    (r : TurnRunner) (appKey message workspaceID : string) (attachments : list gomap) (opts : option InputOpts)
    (env : acquire_env) (sent : option run_error) (startedAt : Z) (rounds : list (Z * occasion))
    (others : list (string * QueryGate.gate_op)) (cancel sendCancel : nat)
    (p : ConnectionPool) (st : S) (g : QueryGate.QueryGate) :
    list action * next * ConnectionPool * S * QueryGate.QueryGate :=
  let '(res, p, st) := Acquire env appKey workspaceID p st in
  let acquired :=
    match res with inl e => inl e | inr id => inr (conn_of (default new_conn (conns p !! id))) end in
  let '(acts, n, g) := Execute parse_json lib r appKey message attachments opts acquired sent startedAt rounds
                         others cancel sendCancel g in
  (acts, n, on_pool acts p, st, g).

(** ** What the actions of a turn say *)

(** The actions that settle a turn. *)
Definition settling (a : action) : bool :=
  match a with
  | AppendMessage _ _ | OnComplete _ _ _ _ _ | OnError _ _ _ => true
  | Publish _ ev => (sse_Type ev =s "complete") || (sse_Type ev =s "query_error")
  | _ => false
  end.

Definition settlement (acts : list action) : list action := filter (λ a, settling a = true) acts.

(** The text fragments streamed to the subscribers. *)
Definition delta_of (a : action) : option string :=
  match a with
  | Publish _ ev => if sse_Type ev =s "delta" then to_str (sse_Data ev) else None
  | _ => None
  end.

Definition deltas (acts : list action) : list string := omap delta_of acts.

(** What is broadcast, in order. *)
Definition event_of (a : action) : option (string * SSEEvent) :=
  match a with Publish k ev => Some (k, ev) | _ => None end.

Definition events_of (acts : list action) : list (string * SSEEvent) := omap event_of acts.

Fixpoint publish_all (evs : list (string * SSEEvent)) (b : SSEBroadcaster) : option SSEBroadcaster :=
  match evs with
  | [] => Some b
  | (k, ev) :: evs => b ← Broadcast k ev b; publish_all evs b
  end.

(** How a turn settles: on success the reply is persisted, broadcast and reported once, on
    failure the error is, and an unfinished turn has settled nothing. *)
Definition settled (r : TurnRunner) (appKey loopID : string) (startedAt : Z) (x : list action * next) : Prop :=
  match x.2 with
  | Loop _ => settlement x.1 = []
  | Return None => ∃ final now ev,
      settlement x.1 = completeTurn r appKey loopID final startedAt now ev ∧ TrimSpace final ≠ ""
  | Return (Some err) => ∃ cause,
      settlement x.1 = fail_turn r appKey loopID cause ∧ (err = cause ∨ ∃ p, err = ErrWrapped p cause)
  end.

(** * Lemmas *)

Lemma settlement_app a b : settlement (a ++ b) = settlement a ++ settlement b.
Proof. apply filter_app. Qed.

Lemma deltas_app a b : deltas (a ++ b) = deltas a ++ deltas b.
Proof. apply omap_app. Qed.

Lemma events_of_app a b : events_of (a ++ b) = events_of a ++ events_of b.
Proof. apply omap_app. Qed.

(** A string and its prefix. *)
Lemma prefix_rest acc content :
  HasPrefix content acc = true →
  content = acc +:+ String.substring (String.length acc) (String.length content - String.length acc) content.
Proof. intros (t & ->)%HasPrefix_spec. by rewrite substring_app_prefix. Qed.

Lemma take_content_spec content acc :
  let '(delta, acc') := take_content content acc in acc' = acc +:+ delta.
Proof.
  unfold take_content. destruct (content =s ""); [by rewrite string_app_nil_r|].
  destruct (HasPrefix content acc) eqn:E; [by apply prefix_rest|done].
Qed.

Lemma concat_app_string (l1 l2 : list string) :
  String.concat "" (l1 ++ l2) = String.concat "" l1 +:+ String.concat "" l2.
Proof.
  assert (H : ∀ x l, String.concat "" (x :: l) = x +:+ String.concat "" l).
  { intros x [|y l]; simpl; [by rewrite string_app_nil_r|done]. }
  induction l1 as [|x l1 IH]; [done|]. rewrite <-app_comm_cons, !H, IH. by rewrite string_app_assoc.
Qed.

Section settles.
Context (parse_json : string → option value) (r : TurnRunner) (appKey loopID : string).
Context (Hmin : (0 < MinDeliverableRunes (classifier r))%Z).
Local Abbreviation settled := (settled r appKey loopID).

Lemma settlement_complete final startedAt now ev :
  settlement (completeTurn r appKey loopID final startedAt now ev) =
  completeTurn r appKey loopID final startedAt now ev.
Proof.
  unfold settlement, completeTurn, persistResponse, broadcastComplete, broadcast.
  by destruct (store r), (broadcaster r), (onComplete r).
Qed.

Lemma settlement_fail lid err : settlement (fail_turn r appKey lid err) = fail_turn r appKey lid err.
Proof.
  unfold settlement, fail_turn, persistFailed, broadcastError, broadcast.
  by destruct (store r), (broadcaster r), (onError r).
Qed.

Lemma settlement_broadcast ty data :
  (ty =s "complete") || (ty =s "query_error") = false →
  settlement (broadcast r appKey ty data) = [].
Proof.
  intros H. unfold broadcast. destruct (broadcaster r); [|done].
  unfold settlement. rewrite filter_cons. simpl. by rewrite H.
Qed.

Lemma settlement_cancel : settlement (sendLoopCancel loopID) = [].
Proof. unfold sendLoopCancel. by destruct (_ =s ""). Qed.

Lemma settlement_show res delta : settlement (show r appKey res delta) = [].
Proof.
  unfold show. rewrite settlement_app. unfold broadcastThinkingStep, broadcastDelta.
  repeat case_match; by rewrite ?settlement_broadcast.
Qed.

Lemma settled_complete startedAt final now ev :
  TrimSpace final ≠ "" → settled startedAt (completeTurn r appKey loopID final startedAt now ev, Return None).
Proof. unfold TurnRunner.settled. cbn [fst snd]. exists final, now, ev. by rewrite settlement_complete. Qed.

Lemma settled_fail startedAt cause err :
  err = cause ∨ (∃ p, err = ErrWrapped p cause) →
  settled startedAt (fail_turn r appKey loopID cause, Return (Some err)).
Proof. intros H. unfold TurnRunner.settled. cbn [fst snd]. exists cause. by rewrite settlement_fail. Qed.

(** Actions that settle nothing before or after do not matter. *)
Lemma settled_more startedAt pre post acts n :
  settlement pre = [] → settlement post = [] → settled startedAt (acts, n) →
  settled startedAt (pre ++ acts ++ post, n).
Proof.
  unfold TurnRunner.settled. cbn [fst snd]. intros Hpre Hpost.
  by rewrite !settlement_app, Hpre, Hpost, app_nil_r.
Qed.

Lemma settled_after startedAt pre acts n :
  settlement pre = [] → settled startedAt (acts, n) → settled startedAt (pre ++ acts, n).
Proof. intros Hpre H. rewrite <-(app_nil_r acts). by apply settled_more. Qed.

Lemma finishTimeout_settled startedAt content now err ev policy :
  let '(acts, e) := finishTimeout r appKey loopID content startedAt now err ev policy in
  settled startedAt (acts, Return e).
Proof.
  unfold finishTimeout. destruct (_ && _) eqn:E.
  - bool_to_prop. by apply settled_complete.
  - apply settled_fail. by left.
Qed.

Lemma end_turn_settled startedAt now ended reason s :
  settled startedAt (end_turn r appKey loopID startedAt now ended reason s).
Proof.
  unfold end_turn. destruct ended; [|done]. destruct (IsSubstantiveAssistantReply _ _) eqn:Es.
  - apply settled_complete. rewrite TrimSpace_idemp. by eapply substantive_nonempty.
  - apply settled_fail. by left.
Qed.

Lemma conclude_settled startedAt now res ended reason s :
  settled startedAt (conclude r appKey loopID startedAt now res ended reason s).
Proof.
  unfold conclude. destruct (ResolveDeliverableFinalContent _ _ _) as [final|] eqn:Er; [|apply end_turn_settled].
  destruct (negb _); [|apply end_turn_settled]. apply settled_complete.
  apply Resolve_spec in Er as (_ & _ & -> & ? & _). done.
Qed.

Lemma armed_message_settled startedAt now msg s :
  settled startedAt (armed_message parse_json r appKey loopID startedAt now msg s).
Proof.
  unfold armed_message. destruct (Feed msg _) as [[ended reason] b]. rewrite andb_false_r.
  destruct (failure _) as [e|]; [apply settled_fail; right; by eexists|].
  destruct (take_content _ _) as [delta content].
  pose proof (conclude_settled startedAt now (Classify parse_json (classifier r) msg (assistantContent s))
    ended reason (TurnState content b true (idleTimer s))) as H.
  destruct (conclude _ _ _ _ _ _ _ _ _) as [acts n]. by apply settled_after, H; apply settlement_show.
Qed.

Lemma on_occasion_settled idle startedAt now o s :
  settled startedAt (on_occasion parse_json r appKey loopID idle startedAt now o s).
Proof.
  destruct o as [| | | |msg|]; simpl.
  - pose proof (finishTimeout_settled startedAt (assistantContent s) now ErrQueryTimeout "query_timeout"
      (OnQueryTimeout (cfg r))) as H.
    destruct (finishTimeout _ _ _ _ _ _ _ _ _). by apply settled_after, H; apply settlement_cancel.
  - apply settled_fail. by left.
  - done.
  - destruct (from_option _ _ _); [|done].
    pose proof (finishTimeout_settled startedAt (assistantContent s) now ErrIdleTimeout "idle_timeout"
      (OnIdleTimeout (cfg r))) as H.
    destruct (finishTimeout _ _ _ _ _ _ _ _ _). by apply settled_after, H; apply settlement_cancel.
  - unfold on_message. repeat (case_match; [done|]). apply armed_message_settled.
  - destruct (_ && _) eqn:E; [bool_to_prop; by apply settled_complete|]. apply settled_fail. by left.
Qed.

Lemma turn_rounds_settled idle startedAt rounds s :
  settled startedAt (turn_rounds parse_json r appKey loopID idle startedAt rounds s).
Proof.
  revert s. induction rounds as [|[now o] rounds IH]; intros s; [done|]. simpl.
  pose proof (on_occasion_settled idle startedAt now o s) as H.
  destruct (on_occasion _ _ _ _ _ _ _ _ _) as [acts [s'|err]]; [|exact H].
  specialize (IH s'). destruct (turn_rounds _ _ _ _ _ _ _ s') as [acts' n].
  by apply settled_after.
Qed.

Lemma runTurn_settled lib has_stream sent message atts opts startedAt rounds :
  settled startedAt (runTurn parse_json r appKey loopID lib has_stream sent message atts opts startedAt rounds).
Proof.
  unfold runTurn. destruct has_stream; simpl negb; cbv iota.
  2:{ apply settled_fail. by left. }
  destruct sent as [err|].
  - apply settled_more; [done..|]. apply settled_fail. right. by eexists.
  - pose proof (turn_rounds_settled (idleTimeoutForTurn (cfg r) (negb (bool_decide (atts = [])))) startedAt
      rounds (start_state (idleTimeoutForTurn (cfg r) (negb (bool_decide (atts = [])))) startedAt)) as H.
    destruct (turn_rounds _ _ _ _ _ _ _ _) as [acts n].
    apply settled_more; [done| |done]. by destruct n.
Qed.
End settles.

(** ** The loop *)

Lemma Feed_not_ended msg b reason b' : Feed msg b = (false, reason, b') → Ended b' = false.
Proof.
  unfold Feed, feed_stopped, feed_event, mark. destruct (Ended b) eqn:E; [done|].
  intros H. destruct msg; repeat case_match; by simplify_eq.
Qed.

Lemma Feed_running msg b :
  isStatusRunningEvent msg = true → Ended b = false → Ended (Feed msg b).2 = false.
Proof.
  destruct msg as [| |s| |]; try done. simpl. intros Hr Hb. unfold Feed. rewrite Hb.
  unfold EqualFold in *. bool_to_prop. rewrite Hr. cbn [Gate Ended Reason].
  change (fold_key "running" =s fold_key "stopped") with false.
  by change (fold_key "running" =s fold_key "idle") with false.
Qed.

(** The messages among some rounds. *)
Definition message_of (x : Z * occasion) : option message :=
  match x.2 with Received msg => Some msg | _ => None end.

Definition received (rounds : list (Z * occasion)) : list message := omap message_of rounds.

(** The instant of the latest message, the start of the turn before the first. *)
Fixpoint last_seen (startedAt : Z) (rounds : list (Z * occasion)) : Z :=
  match rounds with
  | [] => startedAt
  | (now, o) :: rounds => last_seen (match o with Received _ => now | _ => startedAt end) rounds
  end.

Lemma last_seen_snoc startedAt rounds now o :
  last_seen startedAt (rounds ++ [(now, o)]) =
  match o with Received _ => now | _ => last_seen startedAt rounds end.
Proof.
  revert startedAt. induction rounds as [|[t x] rounds IH]; intros startedAt; [by destruct o|].
  simpl. by rewrite IH.
Qed.

Section loop.
Context (parse_json : string → option value) (r : TurnRunner) (appKey loopID : string).
Context (idle startedAt : Z).
Local Abbreviation turn_rounds := (turn_rounds parse_json r appKey loopID idle startedAt).
Local Abbreviation on_occasion := (on_occasion parse_json r appKey loopID idle startedAt).

Lemma turn_rounds_app a b s :
  turn_rounds (a ++ b) s =
  match turn_rounds a s with
  | (acts, Return err) => (acts, Return err)
  | (acts, Loop s) => let '(acts', n) := turn_rounds b s in (acts ++ acts', n)
  end.
Proof.
  revert s. induction a as [|[now o] a IH]; intros s; simpl.
  { by destruct (turn_rounds b s). }
  destruct (on_occasion now o s) as [acts [s'|err]]; [|done]. rewrite IH.
  destruct (turn_rounds a s') as [acts' [s''|err]]; [|done].
  destruct (turn_rounds b s''). by rewrite app_assoc.
Qed.

(** A turn that returned did so in one of its rounds. *)
Lemma turn_rounds_return rounds s acts err :
  turn_rounds rounds s = (acts, Return err) →
  ∃ pre now o post acts1 s1 acts2,
    rounds = pre ++ (now, o) :: post ∧ turn_rounds pre s = (acts1, Loop s1) ∧
    on_occasion now o s1 = (acts2, Return err) ∧ acts = acts1 ++ acts2.
Proof.
  revert s acts. induction rounds as [|[now o] rounds IH]; intros s acts; [done|]. simpl.
  destruct (on_occasion now o s) as [acts1 [s1|e]] eqn:E.
  - destruct (turn_rounds rounds s1) as [acts' n] eqn:Er. intros [= <- ->].
    destruct (IH s1 acts' Er) as (pre & t & o' & post & a1 & s2 & a2 & -> & Hpre & Ho & ->).
    exists ((now, o) :: pre), t, o', post, (acts1 ++ a1), s2, a2. split; [done|].
    simpl. rewrite E, Hpre. split; [done|]. split; [done|]. by rewrite app_assoc.
  - intros [= <- <-]. by exists [], now, o, rounds, [], s, acts1.
Qed.

(** What is known at the head of the loop, after the rounds [pre] and the actions [acts]. *)
Record loop_inv (pre : list (Z * occasion)) (acts : list action) (s : turn_state) : Prop := {
  li_fed : ∃ fed, fed `sublist_of` received pre ∧ boundary s = feed_all fed new_boundary;
  li_running : Ended (boundary s) = false;
  li_deltas : broadcaster r = true → String.concat "" (deltas acts) = assistantContent s;
  li_unarmed : armed s = false → assistantContent s = "" ∧ acts = [];
  li_timer : match idleTimer s with
             | None => (idle <= 0)%Z
             | Some t => (0 < idle)%Z ∧ deadline t = (last_seen startedAt pre + idle)%Z ∧
                 (ticked t = true → ∃ now, (now, TimerFires) ∈ pre ∧ (deadline t <= now)%Z)
             end;
}.

Lemma loop_inv_start : loop_inv [] [] (start_state idle startedAt).
Proof.
  split; try done.
  - by exists [].
  - simpl. destruct (Z.ltb_spec 0 idle); simpl; [done|lia].
Qed.

Lemma deltas_broadcast ty data :
  deltas (broadcast r appKey ty data) =
  if broadcaster r && (ty =s "delta") then from_option (λ s, [s]) [] (to_str data) else [].
Proof.
  unfold broadcast. destruct (broadcaster r); [|done]. simpl. destruct (ty =s "delta"); [|done].
  by destruct (to_str data).
Qed.

Lemma deltas_show res delta :
  broadcaster r = true → String.concat "" (deltas (show r appKey res delta)) = delta.
Proof.
  intros Hb. unfold show. rewrite deltas_app. unfold broadcastThinkingStep, broadcastDelta.
  assert (deltas (if TrimSpace (ThinkingStep res) <>s ""
     then if TrimSpace (TrimSpace (ThinkingStep res)) =s "" then []
          else broadcast r appKey "thinking_step"
                 (VStr (TrimSpace (TrimSpace (ThinkingStep res)) +:+ of_bytes [newline])) else []) = []) as ->.
  { repeat case_match; rewrite ?deltas_broadcast, ?andb_false_r; done. }
  destruct (String.eqb_spec delta "") as [->|]; [done|]. by rewrite deltas_broadcast, Hb.
Qed.

Lemma conclude_loop now res ended reason s acts s' :
  conclude r appKey loopID startedAt now res ended reason s = (acts, Loop s') →
  acts = [] ∧ s' = s ∧ ended = false.
Proof. unfold conclude, end_turn. intros H. repeat case_match; by simplify_eq. Qed.

(** The timer after a message. *)
Lemma timer_reset (pre : list (Z * occasion)) now msg (s : turn_state) :
  match idleTimer s with None => (idle <= 0)%Z | Some t => (0 < idle)%Z end →
  match idleTimer (resetIdle idle now s) with
  | None => (idle <= 0)%Z
  | Some t => (0 < idle)%Z ∧ deadline t = (last_seen startedAt (pre ++ [(now, Received msg)]) + idle)%Z ∧
      (ticked t = true → ∃ now', (now', TimerFires) ∈ pre ++ [(now, Received msg)] ∧ (deadline t <= now')%Z)
  end.
Proof. simpl. rewrite last_seen_snoc. destruct (idleTimer s); [|done]. by split. Qed.

(** A round that goes on restores the invariant. *)
Lemma loop_inv_message pre acts s now msg acts' s' :
  loop_inv pre acts s → on_message parse_json r appKey loopID idle startedAt now msg s = (acts', Loop s') →
  loop_inv (pre ++ [(now, Received msg)]) (acts ++ acts') s'.
Proof.
  intros [(fed & Hsub & Hb) Hrun Hd Hu Ht] H.
  assert (Hrec : received (pre ++ [(now, Received msg)]) = received pre ++ [msg])
    by (unfold received; by rewrite omap_app).
  assert (Hf0 : ∃ fed', fed' `sublist_of` received (pre ++ [(now, Received msg)]) ∧
                  boundary s = feed_all fed' new_boundary).
  { exists fed. rewrite Hrec. split; [by apply sublist_inserts_r|done]. }
  assert (Hf1 : ∃ fed', fed' `sublist_of` received (pre ++ [(now, Received msg)]) ∧
                  (Feed msg (boundary s)).2 = feed_all fed' new_boundary).
  { exists (fed ++ [msg]). rewrite Hrec. split; [by apply sublist_app|]. rewrite Hb.
    clear. generalize new_boundary. induction fed as [|m fed IH]; intros b; [done|]. apply IH. }
  assert (Htr := timer_reset pre now msg s ltac:(destruct (idleTimer s); [exact (proj1 Ht)|exact Ht])).
  unfold on_message in H. destruct (negb (armed (resetIdle idle now s)) && isStaleTurnEndEvent msg).
  { simplify_eq/=. rewrite app_nil_r. split; try done; simpl. }
  destruct (negb (armed (resetIdle idle now s)) && isStatusRunningEvent msg) eqn:Er.
  { simplify_eq/=. rewrite app_nil_r. apply andb_true_iff in Er as [_ Er].
    split; simpl; try done. by apply Feed_running. }
  unfold armed_message in H. cbn [boundary resetIdle assistantContent] in H.
  destruct (Feed msg (boundary s)) as [[ended reason] b] eqn:Ef. rewrite andb_false_r in H.
  destruct (failure _); [done|].
  destruct (take_content _ _) as [delta content] eqn:Etc.
  destruct (conclude _ _ _ _ _ _ _ _ _) as [acts1 n] eqn:Ec. injection H as <- ->.
  apply conclude_loop in Ec as (-> & -> & ->). rewrite app_nil_r.
  pose proof (take_content_spec (Content (Classify parse_json (classifier r) msg (assistantContent s)))
    (assistantContent s)) as Hc. rewrite Etc in Hc.
  split; simpl; try done.
  - by eapply Feed_not_ended.
  - intros Hbr. by rewrite deltas_app, concat_app_string, Hd, deltas_show, Hc.
Qed.

Lemma loop_inv_step pre acts s now o acts' s' :
  loop_inv pre acts s → on_occasion now o s = (acts', Loop s') →
  loop_inv (pre ++ [(now, o)]) (acts ++ acts') s'.
Proof.
  intros Hi H. destruct o as [| | | |msg|]; simpl in H.
  - unfold finishTimeout in H. repeat case_match; simplify_eq.
  - done.
  - simplify_eq. rewrite app_nil_r. destruct Hi as [(fed & Hs & Hb) Hr Hd Hu Ht].
    split; simpl; try done.
    + exists fed. split; [|done]. unfold received. rewrite omap_app. simpl. by rewrite app_nil_r.
    + rewrite last_seen_snoc. destruct (idleTimer s) as [t|]; [|done]. simpl. destruct Ht as (Hpos & Hdl & Htk).
      split; [done|]. split; [done|]. intros Hor. apply orb_true_iff in Hor as [Hor|Hor].
      * destruct (Htk Hor) as (now' & Hin & ?). exists now'. split; [set_solver|done].
      * exists now. apply Z.leb_le in Hor. split; [set_solver|done].
  - destruct (from_option _ _ _).
    { unfold finishTimeout in H. repeat case_match; simplify_eq. }
    simplify_eq. rewrite app_nil_r. destruct Hi as [(fed & Hs & Hb) Hr Hd Hu Ht]. split; try done.
    + exists fed. split; [|done]. unfold received. rewrite omap_app. simpl. by rewrite app_nil_r.
    + rewrite last_seen_snoc. destruct (idleTimer s') as [t|]; [|done]. destruct Ht as (Hpos & Hdl & Htk).
      split; [done|]. split; [done|]. intros Hor. destruct (Htk Hor) as (now' & Hin & ?). exists now'. split; [set_solver|done].
  - by apply (loop_inv_message pre acts s now msg).
  - repeat case_match; simplify_eq.
Qed.

Lemma loop_inv_rounds rounds acts s :
  turn_rounds rounds (start_state idle startedAt) = (acts, Loop s) → loop_inv rounds acts s.
Proof.
  revert acts s. induction rounds as [|[now o] rounds IH] using rev_ind; intros acts s H.
  { simpl in H. simplify_eq. apply loop_inv_start. }
  rewrite turn_rounds_app in H.
  destruct (turn_rounds rounds _) as [acts1 [s1|err]]; [|done]. specialize (IH _ _ eq_refl).
  simpl in H. destruct (on_occasion now o s1) as [acts2 [s2|err]] eqn:Eo; [|done].
  simplify_eq. rewrite app_nil_r. by eapply loop_inv_step.
Qed.
End loop.

(** ** Why a turn succeeded *)

(** The reply [final] and the completion event [ev] with which occasion [o] completes a turn
    whose earlier rounds are [pre], at the state [s] of the loop, with [streamed] the text
    broadcast by then. *)
Inductive success (parse_json : string → option value) (r : TurnRunner) (pre : list (Z * occasion))
    (s : turn_state) (streamed : string) : occasion → string → string → Prop :=
  | success_delivered msg content final ev :
      delivers parse_json (classifier r) None (assistantContent s) msg content ev →
      IsDeliverableCompletionEvent (classifier r) ev = true → IsDaemonTurnEndEvent ev = false →
      final = TrimSpace content ∨ TrimSpace content = "" ∧ IsSubstantiveAssistantReply (classifier r) final = true →
      success parse_json r pre s streamed (Received msg) final ev
  | success_boundary fed msg final reason :
      fed `sublist_of` received pre → justified (fed ++ [msg]) msg reason →
      IsSubstantiveAssistantReply (classifier r) final = true →
      (broadcaster r = true → final = TrimSpace streamed) →
      success parse_json r pre s streamed (Received msg) final reason
  | success_policy o policy ev :
      (o, policy, ev) ∈ [(QueryDeadline, OnQueryTimeout (cfg r), "query_timeout");
                         (IdleTick, OnIdleTimeout (cfg r), "idle_timeout");
                         (StreamClosed, OnStreamClose (cfg r), "stream_closed")] →
      policy = TimeoutPolicySoftComplete → TrimSpace (assistantContent s) ≠ "" →
      (broadcaster r = true → assistantContent s = streamed) →
      success parse_json r pre s streamed o (assistantContent s) ev.

Section success.
Context (parse_json : string → option value) (r : TurnRunner) (appKey loopID : string).
Context (Hmin : (0 < MinDeliverableRunes (classifier r))%Z) (idle startedAt : Z).
Local Abbreviation turn_rounds := (turn_rounds parse_json r appKey loopID idle startedAt).

Lemma deltas_complete final now ev : deltas (completeTurn r appKey loopID final startedAt now ev) = [].
Proof.
  unfold completeTurn, broadcastComplete, persistResponse. rewrite !deltas_app, deltas_broadcast, andb_false_r.
  by destruct (store r), (onComplete r).
Qed.

Lemma deltas_cancel : deltas (sendLoopCancel loopID) = [].
Proof. unfold sendLoopCancel. by destruct (_ =s ""). Qed.

Lemma finishTimeout_success content now err ev policy acts :
  finishTimeout r appKey loopID content startedAt now err ev policy = (acts, None) →
  acts = completeTurn r appKey loopID content startedAt now ev ∧ policy = TimeoutPolicySoftComplete ∧
  TrimSpace content ≠ "".
Proof.
  unfold finishTimeout. destruct (_ && _) eqn:E; [|done]. intros [= <-]. bool_to_prop.
  split; [done|]. split; [by eapply bool_decide_eq_true_1|done].
Qed.

(** A classification that resolves to a reply under an event of its own was delivered. *)
Lemma Classify_delivered msg acc content final :
  let res := Classify parse_json (classifier r) msg acc in
  ResolveDeliverableFinalContent (classifier r) res content = Some final →
  delivers parse_json (classifier r) None acc msg (Content res) (CompletionEvent res) ∧
  IsDeliverableCompletionEvent (classifier r) (CompletionEvent res) = true ∧
  (final = TrimSpace (Content res) ∨
   TrimSpace (Content res) = "" ∧ IsSubstantiveAssistantReply (classifier r) final = true).
Proof.
  intros res H. apply Resolve_spec in H as (Ht & Hev & _ & _ & Hf). split; [|split; [done|]].
  2:{ destruct Hf as [->|(Hb & _ & Hs)]; [by left|by right]. }
  pose proof (process_accounted parse_json (classifier r) None acc msg) as Ha.
  unfold res, Classify, ClassifyTurn in *. cbn [fmap option_fmap option_map fst] in *.
  destruct Ha as [(E & _)|[(c & ev & E & Hd)|(err & E & _)]].
  - by rewrite E in Ht.
  - rewrite E. exact Hd.
  - by rewrite E in Ht.
Qed.

Lemma message_success pre acts1 s now msg acts2 :
  loop_inv r idle startedAt pre acts1 s →
  on_message parse_json r appKey loopID idle startedAt now msg s = (acts2, Return None) →
  ∃ shown final ev, acts2 = shown ++ completeTurn r appKey loopID final startedAt now ev ∧
    settlement shown = [] ∧
    success parse_json r pre s (String.concat "" (deltas (acts1 ++ shown))) (Received msg) final ev.
Proof.
  intros [(fed & Hsub & Hb) Hrun Hd _ _] H. unfold on_message in H.
  destruct (negb _ && isStaleTurnEndEvent msg); [done|].
  destruct (negb _ && isStatusRunningEvent msg); [done|].
  unfold armed_message in H. cbn [boundary resetIdle assistantContent] in H.
  destruct (Feed msg (boundary s)) as [[ended reason] b] eqn:Ef. rewrite andb_false_r in H.
  destruct (failure _); [done|]. set (res := Classify _ _ _ _) in *.
  pose proof (take_content_spec (Content res) (assistantContent s)) as Hc.
  destruct (take_content _ _) as [delta content] eqn:Etc.
  destruct (conclude _ _ _ _ _ _ _ _ _) as [acts n] eqn:Ec. injection H as <- ->.
  assert (Hstream : broadcaster r = true → String.concat "" (deltas (acts1 ++ show r appKey res delta)) = content).
  { intros Hbr. by rewrite deltas_app, concat_app_string, Hd, deltas_show, Hc. }
  assert (Hend : end_turn r appKey loopID startedAt now ended reason (TurnState content b true
                   (idleTimer (resetIdle idle now s))) = (acts, Return None) →
    ∃ final ev, acts = completeTurn r appKey loopID final startedAt now ev ∧
      success parse_json r pre s (String.concat "" (deltas (acts1 ++ show r appKey res delta)))
        (Received msg) final ev).
  { unfold end_turn. destruct ended; [|done]. cbn [assistantContent].
    destruct (IsSubstantiveAssistantReply _ _) eqn:Es; [|done]. intros [= <-].
    do 2 eexists. split; [done|]. apply (success_boundary _ _ _ _ _ fed); [done| | |].
    - rewrite Hb in Ef. eapply feed_justified; [by rewrite <-Hb|exact Ef].
    - by rewrite substantive_trim.
    - intros Hbr. by rewrite Hstream. }
  exists (show r appKey res delta). unfold conclude in Ec. cbn [assistantContent] in Ec.
  destruct (ResolveDeliverableFinalContent _ _ _) as [final|] eqn:Er.
  2:{ destruct (Hend Ec) as (final & ev & -> & Hs). exists final, ev. by rewrite settlement_show. }
  destruct (IsDaemonTurnEndEvent _) eqn:Ee; simpl in Ec.
  { destruct (Hend Ec) as (f & ev & -> & Hs). exists f, ev. by rewrite settlement_show. }
  simplify_eq. apply Classify_delivered in Er as (Hdel & Hev & Hf).
  do 2 eexists. split; [done|]. split; [apply settlement_show|]. by eapply success_delivered.
Qed.

Lemma occasion_success pre acts1 s now o acts2 :
  loop_inv r idle startedAt pre acts1 s →
  on_occasion parse_json r appKey loopID idle startedAt now o s = (acts2, Return None) →
  ∃ shown final ev, acts2 = shown ++ completeTurn r appKey loopID final startedAt now ev ∧
    settlement shown = [] ∧
    success parse_json r pre s (String.concat "" (deltas (acts1 ++ shown))) o final ev.
Proof.
  intros Hi H.
  assert (Hs : ∀ l, deltas l = [] →
    broadcaster r = true → assistantContent s = String.concat "" (deltas (acts1 ++ l))).
  { intros l Hl Hbr. by rewrite deltas_app, Hl, app_nil_r, (li_deltas _ _ _ _ _ _ Hi). }
  destruct o as [| | | |msg|]; simpl in H; try done.
  - destruct (finishTimeout _ _ _ _ _ _ _ _ _) as [acts err] eqn:E. injection H as <- ->.
    apply finishTimeout_success in E as (-> & Hp & Hc).
    do 3 eexists. split; [done|]. split; [apply settlement_cancel|].
    eapply success_policy; [by constructor|done..|]. apply Hs, deltas_cancel.
  - destruct (from_option _ _ _); [|done].
    destruct (finishTimeout _ _ _ _ _ _ _ _ _) as [acts err] eqn:E. injection H as <- ->.
    apply finishTimeout_success in E as (-> & Hp & Hc).
    do 3 eexists. split; [done|]. split; [apply settlement_cancel|].
    eapply success_policy; [by do 2 constructor|done..|]. apply Hs, deltas_cancel.
  - by eapply message_success.
  - destruct (_ && _) eqn:E; [|done]. injection H as <-. bool_to_prop.
    exists [], (assistantContent s), "stream_closed". split; [done|]. split; [done|].
    eapply success_policy; [by do 3 constructor| |done|by apply Hs].
    by eapply bool_decide_eq_true_1.
Qed.
End success.

(** ** What the subscribers get *)

Section keyed.
Context (parse_json : string → option value) (r : TurnRunner) (appKey loopID : string) (idle startedAt : Z).

(** The actions broadcast under the turn's key only. *)
Definition keyed (acts : list action) : Prop := Forall (λ x, x.1 = appKey) (events_of acts).

Lemma keyed_nil : keyed [].
Proof. constructor. Qed.

Lemma keyed_app a b : keyed a → keyed b → keyed (a ++ b).
Proof. unfold keyed. rewrite events_of_app. apply Forall_app_2. Qed.

Lemma keyed_silent a : events_of a = [] → keyed a.
Proof. unfold keyed. by intros ->. Qed.

Lemma keyed_broadcast ty d : keyed (broadcast r appKey ty d).
Proof. unfold broadcast, keyed. destruct (broadcaster r); simpl; by repeat constructor. Qed.

Hint Resolve keyed_nil keyed_app keyed_silent keyed_broadcast : core.

Lemma keyed_fail lid e : keyed (fail_turn r appKey lid e).
Proof.
  unfold fail_turn, persistFailed, broadcastError. destruct (store r), (onError r); auto.
Qed.

Lemma keyed_complete f now ev : keyed (completeTurn r appKey loopID f startedAt now ev).
Proof.
  unfold completeTurn, persistResponse, broadcastComplete. destruct (store r), (onComplete r); auto.
Qed.

Lemma keyed_cancel : keyed (sendLoopCancel loopID).
Proof. unfold sendLoopCancel. destruct (_ =s ""); auto. Qed.

Lemma keyed_show res d : keyed (show r appKey res d).
Proof. unfold show, broadcastThinkingStep, broadcastDelta. repeat case_match; auto. Qed.

Hint Resolve keyed_fail keyed_complete keyed_cancel keyed_show : core.

Lemma keyed_timeout c now e ev p : keyed (finishTimeout r appKey loopID c startedAt now e ev p).1.
Proof. unfold finishTimeout. destruct (_ && _); simpl; auto. Qed.

Lemma keyed_conclude now res ended reason s : keyed (conclude r appKey loopID startedAt now res ended reason s).1.
Proof. unfold conclude, end_turn. repeat case_match; simpl; auto. Qed.

Lemma keyed_occasion now o s : keyed (on_occasion parse_json r appKey loopID idle startedAt now o s).1.
Proof.
  destruct o as [| | | |msg|]; simpl; auto.
  - pose proof (keyed_timeout (assistantContent s) now ErrQueryTimeout "query_timeout" (OnQueryTimeout (cfg r))).
    destruct (finishTimeout _ _ _ _ _ _ _ _ _). simpl in *. auto.
  - destruct (from_option _ _ _); [|simpl; auto].
    pose proof (keyed_timeout (assistantContent s) now ErrIdleTimeout "idle_timeout" (OnIdleTimeout (cfg r))).
    destruct (finishTimeout _ _ _ _ _ _ _ _ _). simpl in *. auto.
  - unfold on_message. repeat (case_match; [simpl; auto|]). unfold armed_message.
    destruct (Feed _ _) as [[ended reason] b]. rewrite andb_false_r.
    destruct (failure _); [simpl; auto|]. destruct (take_content _ _) as [d c].
    match goal with |- context [conclude ?a ?b ?c ?d ?e ?f ?g ?h ?i] =>
      pose proof (keyed_conclude e f g h i); destruct (conclude a b c d e f g h i) end.
    simpl in *. auto.
  - destruct (_ && _); simpl; auto.
Qed.

Lemma keyed_rounds rounds s : keyed (turn_rounds parse_json r appKey loopID idle startedAt rounds s).1.
Proof.
  revert s. induction rounds as [|[now o] rounds IH]; intros s; simpl; auto.
  pose proof (keyed_occasion now o s) as Ho.
  destruct (on_occasion _ _ _ _ _ _ _ _ _) as [acts [s'|err]]; [|done].
  specialize (IH s'). destruct (turn_rounds _ _ _ _ _ _ _ _) as [acts' n]. simpl in *. auto.
Qed.
End keyed.

(** Events of one key fill an open subscriber's channel in order, while it has room. *)
Lemma publish_all_spec evs k b a c :
  sse_inv b → Forall (λ x, x.1 = k) evs → subscribed_to b k a → chans b !! a = Some c →
  length (buf c) + length evs ≤ 100 →
  ∃ b', publish_all evs b = Some b' ∧ chans b' !! a = Some (Chan (buf c ++ evs.*2) 100 false).
Proof.
  revert b c. induction evs as [|[k' ev] evs IH]; intros b c Hi Hk Hs Hc Hl.
  { exists b. split; [done|]. destruct Hs as [id Hid]. destruct (si_open _ Hi _ _ _ Hid) as (c' & Hc' & Ho).
    destruct (si_cap _ Hi _ _ Hc) as [Hcap _]. simplify_eq. rewrite app_nil_r. destruct c; simpl in *. by subst. }
  apply Forall_cons in Hk as [E Hk]. simpl in E. subst k'.
  destruct (broadcast_spec k ev b Hi) as (b1 & Hb1 & Hi1 & Hsub & Hch). simpl. rewrite Hb1. simpl.
  assert (Hs1 : subscribed_to b1 k a) by (unfold subscribed_to, subs_of in *; by rewrite Hsub).
  specialize (Hch _ _ Hc). rewrite decide_True in Hch by (by apply elem_of_addrs). simpl in Hl.
  rewrite take_ge in Hch by (rewrite length_app; simpl; lia).
  destruct (IH b1 _ Hi1 Hk Hs1 Hch) as (b2 & Hb2 & Hc2).
  { simpl. rewrite length_app. simpl. lia. }
  exists b2. split; [done|]. rewrite Hc2. simpl. by rewrite <-app_assoc.
Qed.

(** The last event of the round in which a turn returns settles it. *)
Lemma last_event parse_json r appKey loopID idle startedAt now o s acts err :
  on_occasion parse_json r appKey loopID idle startedAt now o s = (acts, Return err) → broadcaster r = true →
  ∃ ev, last (events_of acts) = Some (appKey, ev) ∧
    sse_Type ev = match err with None => "complete" | Some _ => "query_error" end.
Proof.
  intros Ho Hb. set (P x := match x.2 with
    | Return err => ∃ ev, last (events_of x.1) = Some (appKey, ev) ∧
        sse_Type ev = match err with None => "complete" | Some _ => "query_error" end
    | Loop _ => True end).
  assert (Happ : ∀ l a n, P (a, n) → P (l ++ a, n)).
  { unfold P. simpl. intros l a [?|e]; [done|]. intros (ev & Hl & Ht). exists ev. split; [|done].
    by rewrite events_of_app, last_app, Hl. }
  assert (Hf : ∀ lid c e, P (fail_turn r appKey lid c, Return (Some e))).
  { intros lid c e. unfold P, fail_turn, persistFailed, broadcastError, broadcast. rewrite Hb.
    destruct (store r), (onError r); by eexists. }
  assert (Hc : ∀ f n ev, P (completeTurn r appKey loopID f startedAt n ev, Return None)).
  { intros f n ev. unfold P, completeTurn, persistResponse, broadcastComplete, broadcast. rewrite Hb.
    destruct (store r), (onComplete r); by eexists. }
  assert (Ht : ∀ c n e ev p a e', finishTimeout r appKey loopID c startedAt n e ev p = (a, e') → P (a, Return e')).
  { unfold finishTimeout. intros. case_match; simplify_eq; auto. }
  cut (P (on_occasion parse_json r appKey loopID idle startedAt now o s)); [by rewrite Ho|]. clear Ho.
  destruct o as [| | | |msg|]; simpl; auto; try done.
  - destruct (finishTimeout _ _ _ _ _ _ _ _ _) eqn:E. apply Happ. by eapply Ht.
  - destruct (from_option _ _ _); [|done].
    destruct (finishTimeout _ _ _ _ _ _ _ _ _) eqn:E. apply Happ. by eapply Ht.
  - unfold on_message. repeat (case_match; [done|]). unfold armed_message.
    destruct (Feed _ _) as [[ended reason] b0]. rewrite andb_false_r.
    destruct (failure _); [auto|]. destruct (take_content _ _) as [d c].
    destruct (conclude _ _ _ _ _ _ _ _ _) as [a n] eqn:E. apply Happ. rewrite <-E.
    unfold conclude, end_turn. repeat case_match; simpl; auto; done.
  - destruct (_ && _); auto.
Qed.

Lemma on_pool_fail r k lid e p : on_pool (fail_turn r k lid e) p = p.
Proof.
  unfold fail_turn, persistFailed, broadcastError, broadcast.
  by destruct (store r), (broadcaster r), (onError r).
Qed.

(** Why a turn succeeded, with the messages it looked at. *)
Lemma turn_success_reason (parse_json : string → option value) (r : TurnRunner) (ccfg : ClassifierConfig)
    (appKey loopID : string) (idle startedAt : Z) (rounds : list (Z * occasion)) (acts : list action)
    (Hcl : NewEventClassifier ccfg = Some (classifier r))
    (Hrun : turn_rounds parse_json r appKey loopID idle startedAt rounds (start_state idle startedAt) =
            (acts, Return None)) :
  ∃ pre now o post acts1 s final ev,
    rounds = pre ++ (now, o) :: post ∧
    turn_rounds parse_json r appKey loopID idle startedAt pre (start_state idle startedAt) = (acts1, Loop s) ∧
    settlement acts = completeTurn r appKey loopID final startedAt now ev ∧
    success parse_json r pre s (String.concat "" (deltas acts)) o final ev.
Proof.
  apply NewEventClassifier_min in Hcl.
  apply turn_rounds_return in Hrun as (pre & now & o & post & acts1 & s & acts2 & -> & Hpre & Ho & ->).
  apply loop_inv_rounds in Hpre as Hi.
  destruct (occasion_success parse_json r appKey loopID idle startedAt pre acts1 s now o acts2 Hi Ho)
    as (shown & final & ev & -> & Hsh & Hs).
  exists pre, now, o, post, acts1, s, final, ev. split; [done|]. split; [done|]. split.
  - pose proof (turn_rounds_settled parse_json r appKey loopID Hcl idle startedAt pre (start_state idle startedAt)) as H1.
    rewrite Hpre in H1. rewrite !settlement_app, Hsh, settlement_complete.
    unfold settled in H1. cbn [fst snd] in H1. by rewrite H1.
  - rewrite app_assoc, deltas_app, deltas_complete, app_nil_r. exact Hs.
Qed.

(** * Properties *)

(** C2. A turn is settled exactly once, and consistently. Whatever the pool, the daemon, the
    clock and the other users of the gate do: when [Execute] succeeds, one non-blank reply
    has been persisted, broadcast and reported, and nothing else; when it returns an
    error, that error (or the cause it wraps) has been, and no reply; while it runs,
    nothing has. On return the key is reserved exactly when it was before the call. *)
Theorem turn_settles_once (parse_json : string → option value) (lib : imaging) (r : TurnRunner)
    (ccfg : ClassifierConfig) (appKey message : string) (attachments : list gomap) (opts : option InputOpts)
    (acquired : run_error + conn) (sent : option run_error) (startedAt : Z) (rounds : list (Z * occasion))
    (others : list (string * QueryGate.gate_op)) (cancel sendCancel : nat) (g : QueryGate.QueryGate)
    (Hcl : NewEventClassifier ccfg = Some (classifier r)) :
  let '(acts, n, g') := Execute parse_json lib r appKey message attachments opts acquired sent startedAt
                          rounds others cancel sendCancel g in
  (∃ loopID, settled r appKey loopID startedAt (acts, n)) ∧
  ∀ err, n = Return err → QueryGate.IsActive appKey g' = QueryGate.IsActive appKey g.
Proof.
  apply NewEventClassifier_min in Hcl. unfold Execute. destruct acquired as [err|c].
  { split; [|done]. exists "". apply settled_fail. by left. }
  unfold QueryGate.Acquire. fold (QueryGate.IsActive appKey g).
  destruct (QueryGate.IsActive appKey g) eqn:Ea.
  { split; [|by rewrite Ea]. exists (getLoopID c).
    change (PoolRelease appKey :: ?l) with ([PoolRelease appKey] ++ l). apply settled_after; [done|].
    apply settled_fail. by left. }
  unfold run_and_release.
  pose proof (runTurn_settled parse_json r appKey (getLoopID c) Hcl lib (eventCh c) sent message attachments opts
    startedAt rounds) as H.
  destruct (runTurn _ _ _ _ _ _ _ _ _ _ _ _) as [acts n]. split; [by exists (getLoopID c)|].
  intros err ->. unfold QueryGate.Release. rewrite QueryGate.IsActive_delete. by rewrite decide_True.
Qed.

(** A turn always ends: at the latest with the round in which its context is done or its
    stream closes, whatever came before, and nothing after that round has any effect. *)
Theorem turn_always_ends (parse_json : string → option value) (lib : imaging) (r : TurnRunner)
    (appKey loopID message : string) (has_stream : bool) (sent : option run_error) (attachments : list gomap)
    (opts : option InputOpts) (startedAt now : Z) (pre post : list (Z * occasion)) (o : occasion)
    (Ho : o = QueryDeadline ∨ o = QueryCancelled ∨ o = StreamClosed) :
  let run rounds := runTurn parse_json r appKey loopID lib has_stream sent message attachments opts startedAt rounds in
  (∃ err, (run (pre ++ [(now, o)])).2 = Return err) ∧ run (pre ++ (now, o) :: post) = run (pre ++ [(now, o)]).
Proof.
  unfold runTurn. destruct has_stream; simpl negb; cbv iota; [|split; [by eexists|done]].
  destruct sent as [e|]; [split; [by eexists|done]|].
  set (idle := idleTimeoutForTurn _ _). rewrite !turn_rounds_app.
  destruct (turn_rounds _ _ _ _ _ _ pre _) as [acts [s|err]]; [|split; [by eexists|done]].
  assert (∃ a err, on_occasion parse_json r appKey loopID idle startedAt now o s = (a, Return err)) as (a & err & E).
  { destruct Ho as [->|[->| ->]]; simpl.
    - destruct (finishTimeout _ _ _ _ _ _ _ _ _). by do 2 eexists.
    - by do 2 eexists.
    - destruct (_ && _); by do 2 eexists. }
  simpl. rewrite E. split; [by eexists|done].
Qed.

(** C10. A turn succeeds only for a reason. The reply persisted at its end was delivered by the
    classifier's rules under a recognised completion event; or the daemon ended the turn,
    with a frame that the frames received before it justify, and the reply is long enough
    and is the text streamed so far; or a timeout or a closed stream was met with the
    configured soft completion and some text, which is the text streamed so far. *)
Theorem turn_success_justified (parse_json : string → option value) (r : TurnRunner) (ccfg : ClassifierConfig)
    (appKey loopID : string) (idle startedAt : Z) (rounds : list (Z * occasion)) (acts : list action)
    (Hcl : NewEventClassifier ccfg = Some (classifier r))
    (Hrun : turn_rounds parse_json r appKey loopID idle startedAt rounds (start_state idle startedAt) =
            (acts, Return None)) :
  ∃ pre now o post acts1 s final ev,
    rounds = pre ++ (now, o) :: post ∧
    turn_rounds parse_json r appKey loopID idle startedAt pre (start_state idle startedAt) = (acts1, Loop s) ∧
    settlement acts = completeTurn r appKey loopID final startedAt now ev ∧
    success parse_json r pre s (String.concat "" (deltas acts)) o final ev.
Proof. by eapply turn_success_reason. Qed.

(** The idle watchdog never cuts a turn that is talking: when a tick of the idle timer ends
    the turn, the configured time has passed since the latest message (since the start,
    when there was none), even though a tick may have been waiting when it arrived. *)
Theorem idle_timeout_justified (parse_json : string → option value) (r : TurnRunner) (appKey loopID : string)
    (idle startedAt now : Z) (pre : list (Z * occasion)) (acts1 acts2 : list action) (s : turn_state)
    (err : option run_error)
    (Hclock : Forall (λ x, (x.1 <= now)%Z) pre)
    (Hpre : turn_rounds parse_json r appKey loopID idle startedAt pre (start_state idle startedAt) = (acts1, Loop s))
    (Hend : on_occasion parse_json r appKey loopID idle startedAt now IdleTick s = (acts2, Return err)) :
  (0 < idle)%Z ∧ (last_seen startedAt pre + idle <= now)%Z.
Proof.
  apply loop_inv_rounds in Hpre as Hi. pose proof (li_timer _ _ _ _ _ _ Hi) as Ht.
  simpl in Hend. destruct (idleTimer s) as [t|]; [|done]. destruct Ht as (Hpos & Hdl & Htk).
  split; [done|]. simpl in Hend. destruct (ticked t); [|done].
  destruct (Htk eq_refl) as (now' & Hin & Hle). rewrite Forall_forall in Hclock.
  specialize (Hclock _ Hin). simpl in Hclock. lia.
Qed.

(** Leftovers of the previous turn do not touch this one: until the first frame that is
    neither an end marker nor a running status, the loop does nothing and keeps no text,
    so an end that was still buffered cannot end the new turn. *)
Theorem leftovers_ignored (parse_json : string → option value) (r : TurnRunner) (appKey loopID : string)
    (idle startedAt : Z) (rounds : list (Z * occasion))
    (Hleft : Forall (λ x, ∃ msg, x.2 = Received msg ∧
                       (isStaleTurnEndEvent msg = true ∨ isStatusRunningEvent msg = true)) rounds) :
  ∃ s, turn_rounds parse_json r appKey loopID idle startedAt rounds (start_state idle startedAt) = ([], Loop s) ∧
       assistantContent s = "" ∧ armed s = false ∧
       SawTurnProgress (Gate (boundary s)) = false.
Proof.
  assert (H : ∀ s, assistantContent s = "" → armed s = false → SawTurnProgress (Gate (boundary s)) = false →
    ∃ s', turn_rounds parse_json r appKey loopID idle startedAt rounds s = ([], Loop s') ∧
      assistantContent s' = "" ∧ armed s' = false ∧ SawTurnProgress (Gate (boundary s')) = false).
  2:{ by apply H. }
  induction Hleft as [|[now o] rounds (msg & Ho & Hm) _ IH]; intros s Hc Ha Hp; [by exists s|].
  simpl in Ho. subst o. simpl. unfold on_message. simpl. rewrite Ha. simpl.
  destruct (isStaleTurnEndEvent msg).
  { destruct (IH (resetIdle idle now s)) as (s' & -> & H'); [done..|]. by exists s'. }
  destruct Hm as [?|Hm]; [done|]. rewrite Hm.
  destruct (IH (with_boundary (Feed msg (boundary s)).2 (resetIdle idle now s))) as (s' & -> & H');
    [done|done| |by exists s'].
  simpl. destruct msg as [| |m| |]; try done. simpl in Hm.
  destruct (Ended (boundary s)) eqn:Eb; [unfold Feed; by rewrite Eb|].
  rewrite Feed_gate by done. simpl. rewrite Hm. unfold gate_running, bind_turn. simpl.
  by repeat case_match; simplify_eq/=.
Qed.


(** A query refused as busy cuts the query that is running. Both were given the key's one
    connection, and the refused one releases it: the error is reported, the gate still
    belongs to the running turn, but its client is closed and its stream cancelled. *)
Theorem busy_query_cuts_running_turn {S : Type} `{!LoopSessionStore S} (parse_json : string → option value)
    (lib : imaging) (r : TurnRunner) (appKey message ws : string) (attachments : list gomap)
    (opts : option InputOpts) (env : acquire_env) (sent : option run_error) (startedAt : Z)
    (rounds : list (Z * occasion)) (others : list (string * QueryGate.gate_op)) (cancel sendCancel : nat)
    (p : ConnectionPool) (st : S) (g : QueryGate.QueryGate) (id : nat) (c : pooledConn)
    (Hi : pool_inv p) (Hh : held p ≤ PoolSize p) (Hd : drops_between env = false)
    (Hid : activeSlots p !! appKey = Some id) (Hc : conns p !! id = Some c) (Hlive : usable c = true)
    (Hidle : idle_too_long env p c = false) (Hsc : has_streamCancel c = true)
    (Hbusy : QueryGate.IsActive appKey g = true) :
  let '(acts, n, p', st', g') := Execute_pooled parse_json lib r appKey message ws attachments opts env sent
                                   startedAt rounds others cancel sendCancel p st g in
  n = Return (Some ErrQueryBusy) ∧ g' = g ∧ activeSlots p' !! appKey = None ∧
  ∃ c', conns p' !! id = Some c' ∧ client_closed c' = true ∧ readerLive c' = false.
Proof.
  unfold Execute_pooled.
  assert (E : Acquire env appKey ws p st =
    (inr id, set_conns (alter (touch (clock env)) id) p, UpdateLastUsed st appKey)).
  { unfold Acquire. rewrite Hid, Hc. simpl. unfold usable in Hlive. apply andb_true_iff in Hlive as [H1 H2].
    unfold isConnected, clientDisconnectNotified in *. apply andb_true_iff in H1 as [H1 H3].
    apply negb_true_iff in H3. rewrite H3, H1, H2. simpl. rewrite Hd, Hc. simpl.
    unfold usable, isConnected, clientDisconnectNotified. by rewrite H1, H2, H3, Hidle. }
  rewrite E. cbv beta iota zeta. unfold Execute, QueryGate.Acquire. fold (QueryGate.IsActive appKey g).
  rewrite Hbusy. cbv beta iota zeta.
  set (p1 := set_conns _ p).
  assert (Hk : keeps appKey p p1) by by apply set_conns_keeps.
  destruct (Release_spec appKey p1) as (Hk2 & Ha & Hrel); [by apply (kp_inv _ _ _ Hk)|done|].
  change (on_pool (PoolRelease appKey :: ?l) p1) with (on_pool l (Release appKey p1)). rewrite on_pool_fail.
  split; [done|]. split; [done|]. rewrite Ha. split; [apply lookup_delete_eq|].
  destruct (Hrel id Hid) as [_ ->]. simpl. rewrite lookup_alter_eq, Hc. eexists. split; [done|].
  simpl. by rewrite Hsc, andb_false_r.
Qed.

(** A streamed fragment that starts with the text so far is taken for that text again: a
    reply streamed as ["ha"], ["ha"], ["!"] ends up as ["ha!"]. *)
Theorem repeated_fragment_lost :
  let chunk text := Received (MEvent (MkEventMessage "" "event" "L" "L:1" 1 VNil "messages"
    (VArr [obj [("type", VStr "AIMessageChunk"); ("content", VStr text)]]) zero_time)) in
  match turn_rounds no_json (NewTurnRunner kit true true
          (MkTurnConfig 0 0 0 TimeoutPolicyFail TimeoutPolicyFail TimeoutPolicyFail false None)) "app" "L" 0 0
          [(1%Z, chunk "ha"); (2%Z, chunk "ha"); (3%Z, chunk "!")] (start_state 0 0) with
  | (acts, Loop s) => assistantContent s = "ha!" ∧ deltas acts = ["ha"; "!"]
  | _ => False
  end.
Proof. vm_compute. split; reflexivity. Qed.

(** * Examples *)

Definition kit_runner : TurnRunner :=
  NewTurnRunner kit true true (MkTurnConfig 0 60 0 TimeoutPolicyFail TimeoutPolicyFail TimeoutPolicyFail false None).

(** A leftover end, then a phased reply; and a turn the daemon ends. *)
Definition kit_status (state : string) : message :=
  MStatus (MkStatusResponse "" "status" state "L" "L:1" 1 "" [] []).
Definition kit_delta (text : string) : message :=
  MEvent (MkEventMessage "" "event" "L" "L:1" 1 VNil "messages"
    (VArr [obj [("type", VStr "AIMessageChunk"); ("content", VStr text)]]) zero_time).
Definition early_reply : list (Z * occasion) :=
  [(1%Z, Received (kit_status "idle")); (2%Z, Received (MEvent (reply_event "quiz" "A long enough reply.")))].
Definition daemon_ends : list (Z * occasion) :=
  [(1%Z, Received (kit_status "running")); (2%Z, Received (kit_delta "The answer ")); (3%Z, Received (kit_delta "is 42."));
   (4%Z, Received (kit_status "idle"))].

Lemma turn_settles_once_witness :
  let '(acts, n, g) := Execute no_json strips kit_runner "app" "hi" [] None (inr (MkConn "L" true)) None 0
                         early_reply [("other", QueryGate.OpRelease)] 1 2 QueryGate.NewQueryGate in
  n = Return None ∧ QueryGate.IsActive "app" g = false ∧
  ∃ loopID, settled kit_runner "app" loopID 0 (acts, n).
Proof.
  pose proof (turn_settles_once no_json strips kit_runner kit_config "app" "hi" [] None (inr (MkConn "L" true)) None 0
    early_reply [("other", QueryGate.OpRelease)] 1 2 QueryGate.NewQueryGate eq_refl) as H.
  assert (E : (Execute no_json strips kit_runner "app" "hi" [] None (inr (MkConn "L" true)) None 0
                         early_reply [("other", QueryGate.OpRelease)] 1 2 QueryGate.NewQueryGate).1.2 = Return None)
    by (vm_compute; reflexivity).
  destruct (Execute _ _ _ _ _ _ _ _ _ _ _ _ _ _ _) as [[acts n] g]. simpl in E.
  destruct H as [H1 H2]. split; [exact E|]. split; [exact (H2 _ E)|exact H1].
Defined.

Lemma turn_always_ends_witness :
  ∃ err, (runTurn no_json kit_runner "app" "L" strips true None "hi" [] None 0
            ([(1%Z, Received (kit_delta "The"))] ++ [(9%Z, StreamClosed)])).2 = Return err.
Proof.
  exact (proj1 (turn_always_ends no_json strips kit_runner "app" "L" "hi" true None [] None 0 9
    [(1%Z, Received (kit_delta "The"))] [] StreamClosed (or_intror (or_intror eq_refl)))).
Defined.

Lemma turn_success_justified_witness :
  ∃ pre now o post acts1 s final ev,
    daemon_ends = pre ++ (now, o) :: post ∧
    turn_rounds no_json kit_runner "app" "L" 60 0 pre (start_state 60 0) = (acts1, Loop s) ∧
    success no_json kit_runner pre s "The answer is 42." o final ev.
Proof.
  destruct (turn_success_justified no_json kit_runner kit_config "app" "L" 60 0 daemon_ends _ eq_refl
    ltac:(vm_compute; reflexivity)) as (pre & now & o & post & acts1 & s & final & ev & H1 & H2 & _ & H3).
  exists pre, now, o, post, acts1, s, final, ev. exact (conj H1 (conj H2 H3)).
Defined.

Lemma idle_timeout_justified_witness :
  (last_seen 0 [(5%Z, Received (kit_delta "The")); (70%Z, TimerFires)] + 60 <= 71)%Z.
Proof.
  refine (proj2 (idle_timeout_justified no_json kit_runner "app" "L" 60 0 71
    [(5%Z, Received (kit_delta "The")); (70%Z, TimerFires)] _ _ _ _ _ _ _)).
  - repeat (constructor; [simpl; lia|]). constructor.
  - vm_compute. reflexivity.
  - vm_compute. reflexivity.
Defined.

Lemma leftovers_ignored_witness :
  ∃ s, turn_rounds no_json kit_runner "app" "L" 60 0
         [(1%Z, Received (kit_status "running")); (2%Z, Received (kit_status "idle"))] (start_state 60 0) = ([], Loop s) ∧
       assistantContent s = "".
Proof.
  destruct (leftovers_ignored no_json kit_runner "app" "L" 60 0
    [(1%Z, Received (kit_status "running")); (2%Z, Received (kit_status "idle"))]) as (s & H1 & H2 & _).
  - repeat (constructor; [eexists; split; [reflexivity|vm_compute; auto]|]). constructor.
  - exists s. exact (conj H1 H2).
Defined.


Lemma busy_query_cuts_running_turn_witness :
  let '(res, p1, st1) := Acquire (smooth "L") "app" "w" two_slots (∅ : gmap string string) in
  let '(acts, n, p2, st2, g) :=
    Execute_pooled no_json strips kit_runner "app" "again" "w" [] None (smooth "L") None 0 [] [] 3 4 p1 st1
      (QueryGate.Acquire "app" (Some 1) (Some 2) QueryGate.NewQueryGate).2 in
  n = Return (Some ErrQueryBusy) ∧ ∃ c', conns p2 !! 1 = Some c' ∧ client_closed c' = true.
Proof.
  assert (Ec : (Acquire (smooth "L") "app" "w" two_slots (∅ : gmap string string)).1.2.(conns) !! 1 =
    Some (PooledConn true false false true true true "app" "L" "w" (Some 7%Z))) by (vm_compute; reflexivity).
  pose proof (Acquire_spec (smooth "L") "app" "w" two_slots (∅ : gmap string string)
    (proj1 two_slots_ok) (proj2 two_slots_ok) eq_refl) as [Hk _].
  assert (Ea : (Acquire (smooth "L") "app" "w" two_slots (∅ : gmap string string)).1.2.(activeSlots) !! "app" = Some 1)
    by (vm_compute; reflexivity).
  assert (Em : (Acquire (smooth "L") "app" "w" two_slots (∅ : gmap string string)).1.2.(MaxIdleTime) = 0%Z)
    by (vm_compute; reflexivity).
  destruct (Acquire (smooth "L") "app" "w" two_slots ∅) as [[res p1] st1]. simpl in *.
  pose proof (busy_query_cuts_running_turn no_json strips kit_runner "app" "again" "w" [] None (smooth "L") None 0
    [] [] 3 4 p1 st1 (QueryGate.Acquire "app" (Some 1) (Some 2) QueryGate.NewQueryGate).2 1
    (PooledConn true false false true true true "app" "L" "w" (Some 7%Z))
    (kp_inv _ _ _ Hk (proj1 two_slots_ok))
    ltac:(rewrite (kp_held _ _ _ Hk), (kp_size _ _ _ Hk); exact (proj2 two_slots_ok)) eq_refl Ea Ec eq_refl
    ltac:(unfold idle_too_long; by rewrite Em) eq_refl eq_refl) as H.
  destruct (Execute_pooled _ _ _ _ _ _ _ _ _ _ _ _ _ _ _ p1 st1 _) as [[[[acts n] p2] st2] g].
  destruct H as (Hn & _ & _ & c' & Hc & Hcl & _). split; [exact Hn|]. exists c'. exact (conj Hc Hcl).
Defined.
