(* ===== verification/Drain.v ===== *)
(** Draining a pooled event stream before a turn (drainEventCh of appkit/turn_runner.go),
    over a stream whose events have the instants they get into the channel at. *)

From stdpp Require Import sorting.
From S2P Require Import Prelude GoStr Value StreamTerminal Protocol Broadcaster Classifier Attachments Pool TurnRunner.

Open Scope Z_scope.

(** * Streams in time *)

(** What gets into the channel and when, in nanoseconds, and when it is closed. *)
Record stream (A : Type) := Stream {
  arrivals : list (Z * A);
  closes : option Z;
}.

Arguments Stream {A}.
Arguments arrivals {A}.
Arguments closes {A}.

(** Channels are first in, first out; the channel is closed after the last event. *)
Definition in_order {A} (s : stream A) : Prop :=
  StronglySorted (λ x y, x.1 <= y.1) (arrivals s) ∧
  ∀ t, closes s = Some t → Forall (λ x, x.1 <= t) (arrivals s).

Section drain.
Context {A : Type}.
Implicit Types (l : list (Z * A)) (s : stream A).

(** The loop that takes what is there and stops at an empty channel. *)
Fixpoint discard_ready (now : Z) l : list (Z * A) :=
  match l with
  | (t, _) :: l' => if t <=? now then discard_ready now l' else l
  | [] => []
  end.

(** The loop with the quiet window, at instant [now], its deadline [now + settle]: the
    instant it returns at and what it leaves. [event_first] is which of the two [select]
    takes when an event (or the end) and the timer are ready at the same instant. *)
Fixpoint drain_settling (settle : Z) (event_first : Z → bool) (closed : option Z) (now : Z) l :
    Z * list (Z * A) :=
  let deadline := now + settle in
  let before t := (t <? deadline) || ((t =? deadline) && event_first t) in
  match l with
  | (t, _) :: l' =>
      if before t then drain_settling settle event_first closed (Z.max now t) l'
      else (deadline, discard_ready deadline l)
  | [] =>
      match closed with
      | Some t => (if before t then Z.max now t else deadline, [])
      | None => (deadline, [])
      end
  end.

(** [drainEventCh] started at [now]; it takes no time but to wait. *)
Definition drainEventCh (settle : Z) (event_first : Z → bool) (now : Z) s : Z * stream A :=
  if settle <=? 0 then (now, Stream (discard_ready now (arrivals s)) (closes s))
  else
    let '(ended, l) := drain_settling settle event_first (closes s) now (arrivals s) in
    (ended, Stream l (closes s)).

(** ** What a drain is to do *)

(** Every event comes within [settle] of the one before it, the first of [now]. *)
Fixpoint within (settle now : Z) l : Prop :=
  match l with
  | [] => True
  | (t, _) :: l => t <= now + settle ∧ within settle (Z.max now t) l
  end.

(** The instant of the last event, or [now]. *)
Definition latest (now : Z) l : Z := foldl (λ n x, Z.max n x.1) now l.

(** ** Lemmas *)

Lemma latest_ge now l : now <= latest now l.
Proof.
  revert now. induction l as [|[t x] l IH]; intros now; simpl; [lia|]. specialize (IH (Z.max now t)). simpl in *. lia.
Qed.

Lemma discard_ready_spec now l :
  StronglySorted (λ x y, x.1 <= y.1) l →
  ∃ taken, l = taken ++ discard_ready now l ∧ Forall (λ x, x.1 <= now) taken ∧
    Forall (λ x, now < x.1) (discard_ready now l).
Proof.
  induction 1 as [|[t x] l Hl IH Hx]; simpl; [by exists []|]. destruct (Z.leb_spec t now).
  - destruct IH as (taken & E & H1 & H2). exists ((t, x) :: taken). rewrite E at 1. split; [done|].
    split; [by constructor|done].
  - exists []. split; [done|]. split; [done|]. constructor; [done|]. eapply Forall_impl; [exact Hx|]. simpl. lia.
Qed.

(** Events up to the end of the window come within it. *)
Lemma within_ready settle now l :
  0 < settle → StronglySorted (λ x y, x.1 <= y.1) l → Forall (λ x, x.1 <= now + settle) l → within settle now l.
Proof.
  intros Hs Hl. revert now. induction Hl as [|[t x] l Hl IH Hx]; intros now Hf; simpl; [done|].
  apply Forall_cons in Hf as [Ht Hf]. simpl in Ht. split; [done|]. apply IH. eapply Forall_impl; [exact Hf|].
  simpl. lia.
Qed.

(** The window that ended the drain: nothing came in it before its last instant. *)
Definition quiet_end (settle now ended : Z) (closed : option Z) (taken kept : list (Z * A)) : Prop :=
  (∃ t, closed = Some t ∧ kept = [] ∧ ended = Z.max (latest now taken) t) ∨
  (now + settle <= ended ∧ Forall (λ x, x.1 <= ended - settle ∨ x.1 = ended) taken).

Lemma drain_settling_spec settle event_first closed now l :
  0 < settle → StronglySorted (λ x y, x.1 <= y.1) l →
  let '(ended, kept) := drain_settling settle event_first closed now l in
  ∃ taken, l = taken ++ kept ∧ Forall (λ x, x.1 <= ended) taken ∧
    Forall (λ x, ended < x.1) kept ∧ within settle now taken ∧ quiet_end settle now ended closed taken kept.
Proof.
  intros Hs Hl. revert now. induction Hl as [|[t x] l Hl IH Hx]; intros now; simpl.
  { destruct closed as [t|]; [destruct (_ || _)|]; exists []; repeat (split; [done|]);
      [left; by exists t|right..]; (split; [lia|constructor]). }
  destruct (_ || _) eqn:Eb.
  - specialize (IH (Z.max now t)). destruct (drain_settling _ _ _ _ _) as [ended kept].
    destruct IH as (taken & -> & H1 & H2 & H3 & H4).
    assert (t <= now + settle) as Ht by lia. exists ((t, x) :: taken). split; [done|].
    assert (t <= ended) as Hte.
    { destruct H4 as [(c & _ & _ & ->)|[H4 _]]; [|lia]. pose proof (latest_ge (Z.max now t) taken). lia. }
    split; [by constructor|]. split; [done|]. split; [done|].
    destruct H4 as [H4|[H4 H5]]; [by left|right]. split; [lia|]. constructor; [simpl; lia|done].
  - assert (now + settle <= t) as Ht by lia. set (d := now + settle) in *.
    destruct (discard_ready_spec d ((t, x) :: l)) as (taken & E & H1 & H2); [by constructor|].
    exists taken. split; [exact E|]. split; [done|]. split; [done|].
    assert (StronglySorted (λ x y, x.1 <= y.1) taken) as Hst.
    { assert (StronglySorted (λ x y, x.1 <= y.1) (taken ++ discard_ready d ((t, x) :: l))) as H
        by (rewrite <-E; by constructor). by eapply StronglySorted_app_1_l. }
    split; [by apply within_ready|]. right. split; [lia|].
    assert (Forall (λ y, d <= y.1) ((t, x) :: l)) as Hge.
    { constructor; [done|]. eapply Forall_impl; [exact Hx|]. simpl. lia. }
    rewrite E in Hge. apply Forall_app in Hge as [Hge _]. rewrite Forall_forall in *. intros y Hy.
    specialize (H1 y Hy). specialize (Hge y Hy). right. lia.
Qed.
End drain.

(** Events closer to each other than the window, then nothing for as long: the first are
    taken and the rest is kept. *)
Lemma drain_settling_burst {A} settle event_first closed now (old fresh : list (Z * A)) :
  within (settle - 1) now old →
  Forall (λ x, latest now old + settle < x.1) fresh →
  (∀ t, closed = Some t → latest now old + settle < t) →
  drain_settling settle event_first closed now (old ++ fresh) = (latest now old + settle, fresh).
Proof.
  revert now. induction old as [|[t x] old IH]; intros now Hw Hf Hc; simpl.
  - simpl in Hf, Hc. destruct fresh as [|[t x] fresh]; simpl.
    + destruct closed as [t|]; [|done]. specialize (Hc t eq_refl).
      rewrite (proj2 (Z.ltb_ge t _)), (proj2 (Z.eqb_neq t _)) by lia. done.
    + apply Forall_cons in Hf as [Ht _]. simpl in Ht.
      rewrite (proj2 (Z.ltb_ge t _)), (proj2 (Z.eqb_neq t _)) by lia. simpl.
      by rewrite (proj2 (Z.leb_gt t _)) by lia.
  - destruct Hw as [Ht Hw]. rewrite (proj2 (Z.ltb_lt t _)) by lia. simpl. by apply IH.
Qed.

(** * A turn on a stream *)

(** The rounds a stream gives the turn loop. *)
Definition rounds_of (s : stream message) : list (Z * occasion) :=
  ((λ x, (x.1, Received x.2)) <$> arrivals s) ++ option_list ((λ t, (t, StreamClosed)) <$> closes s).

Definition millisecond : Z := 1000000.

(** [runTurn] from the drain of the stream on, when sending takes no time and neither a
    timer nor the context interferes. *)
Definition runTurn_on_stream (parse_json : string → option value) (r : TurnRunner) (appKey loopID : string)
    (lib : imaging) (sent : option run_error) (message : string) (attachments : list gomap)
    (opts : option InputOpts) (event_first : Z → bool) (now : Z) (s : stream Protocol.message) : list action * next :=
  let '(sentAt, s) := drainEventCh (5 * millisecond) event_first now s in
  runTurn parse_json r appKey loopID lib true sent message attachments opts sentAt (rounds_of s).

(** * Properties *)

(** The drain before a turn takes a prefix of the stream and stops in a quiet moment: every
    event it took came within the window of the one before it, what it keeps comes after
    it returned, and unless the stream ended the whole window before its return passed
    without an event, up to its last instant. *)
Theorem drain_quiet {A} (settle now : Z) (event_first : Z → bool) (s : stream A)
    (Hsettle : 0 < settle) (Hs : in_order s) :
  let '(ended, s') := drainEventCh settle event_first now s in
  ∃ taken, arrivals s = taken ++ arrivals s' ∧ closes s' = closes s ∧ within settle now taken ∧
    Forall (λ x, x.1 <= ended) taken ∧ Forall (λ x, ended < x.1) (arrivals s') ∧
    quiet_end settle now ended (closes s) taken (arrivals s').
Proof.
  unfold drainEventCh. rewrite (proj2 (Z.leb_gt settle 0)) by done.
  pose proof (drain_settling_spec settle event_first (closes s) now (arrivals s) Hsettle (proj1 Hs)) as H.
  destruct (drain_settling _ _ _ _ _) as [ended l]. destruct H as (taken & H1 & H2 & H3 & H4 & H5). by exists taken.
Qed.

(** C26. What an earlier turn left does not reach the next one, whatever it says and even while it
    is still arriving: when leftovers come in less than five milliseconds apart and then
    nothing for longer, the turn does exactly what it would do on a stream that never had
    them, started when the drain ended. *)
Theorem leftovers_drained (parse_json : string → option value) (r : TurnRunner) (appKey loopID : string)
    (lib : imaging) (sent : option run_error) (text : string) (attachments : list gomap)
    (opts : option InputOpts) (event_first : Z → bool) (now : Z) (old fresh : list (Z * message)) (closed : option Z)
    (Hold : within (5 * millisecond - 1) now old)
    (Hfresh : Forall (λ x, latest now old + 5 * millisecond < x.1) fresh)
    (Hclosed : ∀ t, closed = Some t → latest now old + 5 * millisecond < t) :
  runTurn_on_stream parse_json r appKey loopID lib sent text attachments opts event_first now
    (Stream (old ++ fresh) closed) =
  runTurn parse_json r appKey loopID lib true sent text attachments opts (latest now old + 5 * millisecond)
    (rounds_of (Stream fresh closed)).
Proof.
  unfold runTurn_on_stream, drainEventCh. simpl arrivals. simpl closes. cbv zeta.
  rewrite (drain_settling_burst (5 * millisecond)) by done. done.
Qed.

(** Nothing bounds the drain: whatever the time limit of a query, events that keep coming
    less than five milliseconds apart keep it from sending its input for longer. *)
Theorem drain_outlasts_timeout (limit : Z) (m : Protocol.message) (event_first : Z → bool) :
  ∃ s : stream Protocol.message, in_order s ∧ limit < (drainEventCh (5 * millisecond) event_first 0 s).1.
Proof.
  set (tick := λ i, (Z.of_nat i * millisecond, m)).
  assert (∀ n i, within (5 * millisecond - 1) (Z.of_nat i * millisecond) (tick <$> seq (S i) n) ∧
    latest (Z.of_nat i * millisecond) (tick <$> seq (S i) n) = Z.of_nat (i + n) * millisecond) as Hw.
  { induction n as [|n IH]; intros i; simpl; [by rewrite Nat.add_0_r|].
    replace (Z.max _ _) with (Z.of_nat (S i) * millisecond) by (unfold millisecond; lia).
    destruct (IH (S i)) as [H1 H2]. rewrite Nat.add_succ_r. split; [|exact H2]. split; [unfold millisecond; lia|exact H1]. }
  set (n := Z.to_nat limit). destruct (Hw n 0%nat) as [H1 H2]. rewrite Z.mul_0_l in *.
  exists (Stream (tick <$> seq 1 n) None). split.
  - split; [|done]. simpl. clearbody n. clear. generalize 1%nat. induction n as [|k IH]; intros i; simpl; [constructor|].
    constructor; [apply IH|]. apply Forall_fmap, Forall_seq. intros j Hj. simpl. unfold millisecond. lia.
  - unfold drainEventCh. cbn [arrivals closes]. rewrite (proj2 (Z.leb_gt _ 0)) by (unfold millisecond; lia).
    rewrite <-(app_nil_r (tick <$> seq 1 n)), (drain_settling_burst (5 * millisecond) _ _ 0 _ []) by done.
    simpl. rewrite H2. unfold millisecond, n. lia.
Qed.

(** * Examples *)

(** A leftover running and idle still arriving, then a reply and its end. *)
Definition stale_pair : list (Z * message) :=
  [(1 * millisecond, kit_status "running"); (3 * millisecond, kit_status "idle")].
Definition fresh_reply : list (Z * message) :=
  [(20 * millisecond, kit_status "running"); (21 * millisecond, kit_delta "The answer is 42.");
   (22 * millisecond, kit_status "idle")].

Lemma drain_quiet_witness :
  ∃ taken, stale_pair ++ fresh_reply = taken ++ fresh_reply ∧ within (5 * millisecond) 0 taken.
Proof.
  pose proof (drain_quiet (5 * millisecond) 0 (λ _, true) (Stream (stale_pair ++ fresh_reply) None) eq_refl) as H.
  assert ((drainEventCh (5 * millisecond) (λ _, true) 0 (Stream (stale_pair ++ fresh_reply) None)).2 =
    Stream fresh_reply None) as E by (vm_compute; reflexivity).
  destruct (drainEventCh _ _ _ _) as [ended s']. simpl in E. subst s'.
  destruct H as (taken & H1 & _ & H2 & _).
  - split; [|intros t Ht; discriminate Ht]. repeat (constructor; [|repeat (constructor; [vm_compute; discriminate|]); constructor]).
    constructor.
  - exists taken. exact (conj H1 H2).
Defined.

Lemma leftovers_drained_witness :
  (runTurn_on_stream no_json kit_runner "app" "L" strips None "hi" [] None (λ _, true) 0
     (Stream (stale_pair ++ fresh_reply) None)).2 =
  (runTurn no_json kit_runner "app" "L" strips true None "hi" [] None (8 * millisecond)
     (rounds_of (Stream fresh_reply None))).2.
Proof.
  rewrite (leftovers_drained no_json kit_runner "app" "L" strips None "hi" [] None (λ _, true) 0 stale_pair fresh_reply None).
  - reflexivity.
  - vm_compute. repeat split; discriminate.
  - repeat (constructor; [vm_compute; reflexivity|]). constructor.
  - intros t Ht. discriminate Ht.
Defined.
