(* ===== verification/Pipeline.v ===== *)
(** From the socket to the turn (the goroutine of ReceiveMessages in client.go, and the one
    of startReader in appkit/pool.go): the reader sends what it passes on to a channel of
    100, a forwarder moves it on to an unbuffered channel, a turn receives from that. The
    three interleave freely; each of their blocking operations is a step. *)

From S2P Require Import Broadcaster Classifier Attachments Pool TurnRunner.
From S2P Require Import Prelude GoStr Value DeliveryAck Protocol GoChan Mux Client Reader Preserve.

(** * The goroutines *)

(** Where the reader is: at the head of its loop, inside a payload with messages still to
    look at, blocked on sending one, or returned. *)
Inductive reader_at :=
  | AtHead
  | Scanning (msgs : list message)
  | Sending (m : message) (msgs : list message)
  | ReaderGone.

(** Where the forwarder is: receiving, blocked on sending, or returned. *)
Inductive forwarder_at := Waiting | Holding (m : message) | ForwarderGone.

(** [taken] is what the consumer has received; the forwarder closes its channel when it
    returns. *)
Record pipeline := Pipeline {
  p_client : client;
  reader : reader_at;
  raw : chan message;
  forwarder : forwarder_at;
  taken : list message;
  cancelled : bool;
}.

(** [startReader] on a connected client. *)
Definition start_pipeline (c : client) : pipeline :=
  Pipeline (upd_reader true c) AtHead (make_chan 100) Waiting [] false.

Section steps.
Context (parse_json : string → option value) (parse_time : string → option string) (tracking : bool).

Definition at_reader (c : client) (r : reader_at) (s : pipeline) : pipeline :=
  Pipeline c r (raw s) (forwarder s) (taken s) (cancelled s).

(** The reader's deferred calls: [readerActive] is cleared, then the channel is closed. *)
Definition reader_returns (c : client) (s : pipeline) : option pipeline :=
  match close_chan (raw s) with
  | Some ch => Some (Pipeline (upd_reader false c) ReaderGone ch (forwarder s) (taken s) (cancelled s))
  | None => None
  end.

(** The next step of the reader when it is not a return because of the context: [None]
    when it is blocked or has returned. *)
Definition reader_step (s : pipeline) : option pipeline :=
  let c := p_client s in
  match reader s with
  | AtHead =>
      if cancelled s then None
      else if conn_closed c || negb (conn c) then reader_returns c s
      else
        match ReadMessage c with
        | Some (RData data, c) => Some (at_reader c (Scanning (payload_messages parse_json parse_time data)) s)
        | Some (_, c) =>
            match signalDisconnect DisconnectUnclean c with
            | Some (_, c) => reader_returns c s
            | None => None
            end
        | None => None
        end
  | Scanning [] => Some (at_reader c AtHead s)
  | Scanning (m :: msgs) =>
      match receive_scan tracking [m] c with
      | Some ([], c) => Some (at_reader c (Scanning msgs) s)
      | Some (_ :: _, c) => Some (at_reader c (Sending m msgs) s)
      | None => None
      end
  | Sending m msgs =>
      if (length (buf (raw s)) <? cap (raw s))%nat then
        ch ← try_send m (raw s);
        Some (Pipeline c (Scanning msgs) ch (forwarder s) (taken s) (cancelled s))
      else None
  | ReaderGone => None
  end.

(** The forwarder's [range] over the reader's channel. *)
Definition forwarder_step (s : pipeline) : option pipeline :=
  match forwarder s with
  | Waiting =>
      match try_recv (raw s) with
      | (Some m, ch) => Some (Pipeline (p_client s) (reader s) ch (Holding m) (taken s) (cancelled s))
      | (None, ch) =>
          if closed ch
          then Some (Pipeline (p_client s) (reader s) ch ForwarderGone (taken s) (cancelled s))
          else None
      end
  | _ => None
  end.

(** The consumer receives what the forwarder is sending. *)
Definition consumer_takes (s : pipeline) : option pipeline :=
  match forwarder s with
  | Holding m => Some (Pipeline (p_client s) (reader s) (raw s) Waiting (taken s ++ [m]) (cancelled s))
  | _ => None
  end.

(** The returns because of the context. *)
Definition reader_quits (s : pipeline) : option pipeline :=
  match reader s with
  | AtHead | Sending _ _ => if cancelled s then reader_returns (p_client s) s else None
  | _ => None
  end.

Definition forwarder_quits (s : pipeline) : option pipeline :=
  match forwarder s with
  | Holding _ =>
      if cancelled s then Some (Pipeline (p_client s) (reader s) (raw s) ForwarderGone (taken s) (cancelled s)) else None
  | _ => None
  end.

(** [streamCancel()] *)
Definition cancel_pipeline (s : pipeline) : pipeline :=
  Pipeline (p_client s) (reader s) (raw s) (forwarder s) (taken s) true.

(** A step of one of the three, any of which [select] may take. *)
Inductive run_step (s s' : pipeline) : Prop :=
  | step_reader : reader_step s = Some s' → run_step s s'
  | step_forwarder : forwarder_step s = Some s' → run_step s s'
  | step_consumer : consumer_takes s = Some s' → run_step s s'
  | step_reader_quits : reader_quits s = Some s' → run_step s s'
  | step_forwarder_quits : forwarder_quits s = Some s' → run_step s s'.

Inductive pipe_step (s s' : pipeline) : Prop :=
  | step_run : run_step s s' → pipe_step s s'
  | step_cancel : s' = cancel_pipeline s → pipe_step s s'.

(** * What is where *)

Definition out_closed (s : pipeline) : bool := match forwarder s with ForwarderGone => true | _ => false end.

(** Between the reader's decision and the consumer: held by the forwarder, buffered, or
    held by the reader. *)
Definition held (s : pipeline) : list message := match forwarder s with Holding m => [m] | _ => [] end.
Definition sending (s : pipeline) : list message := match reader s with Sending m _ => [m] | _ => [] end.
Definition in_transit (s : pipeline) : list message := held s ++ buf (raw s) ++ sending s.

(** All the messages a socket yields. *)
Definition messages_of (reads : list read_result) : list message :=
  concat (payload_messages parse_json parse_time <$> payloads reads).

(** What the reader has not looked at yet. *)
Definition unseen (s : pipeline) : list message :=
  match reader s with
  | AtHead => messages_of (sock_in (p_client s))
  | Scanning msgs | Sending _ msgs => msgs ++ messages_of (sock_in (p_client s))
  | ReaderGone => []
  end.

(** The steps a run from a socket may take. *)
Fixpoint read_cost (reads : list read_result) : nat :=
  match reads with
  | RData data :: reads => 2 + 4 * length (payload_messages parse_json parse_time data) + read_cost reads
  | _ => 0
  end.

Definition cost (s : pipeline) : nat :=
  let rest := read_cost (sock_in (p_client s)) in
  match reader s with
  | AtHead => 1 + rest
  | Scanning msgs => 4 * length msgs + 2 + rest
  | Sending _ msgs => 3 + (4 * length msgs + 2 + rest)
  | ReaderGone => 0
  end +
  2 * length (buf (raw s)) +
  match forwarder s with Waiting => 1 | Holding _ => 2 | ForwarderGone => 0 end.

(** * The invariant *)

Section invariant.
Context (c0 : client).

(** The messages of the socket are those looked at, then those unseen; those passed on
    among the former were taken, are in transit, or are lost to a cancellation. *)
Definition flow (s : pipeline) : Prop :=
  ∃ seen rest lost,
    messages_of (sock_in c0) = seen ++ rest ∧
    sock_out (p_client s) = sock_out c0 ++ pongs c0 seen ∧
    c_acks (p_client s) = track_all (passed_on c0 seen) (c_acks c0) ∧
    passed_on c0 seen = taken s ++ (if out_closed s then [] else in_transit s) ++ lost ∧
    (reader s ≠ ReaderGone ∨ cancelled s = false → rest = unseen s) ∧
    ((out_closed s = false ∧ reader s ≠ ReaderGone) ∨ cancelled s = false → lost = []).

Record pipe_inv (s : pipeline) : Prop := {
  pv_client : client_inv (p_client s);
  pv_waiters msgs : passed_on (p_client s) msgs = passed_on c0 msgs;
  pv_pongs msgs : pongs (p_client s) msgs = pongs c0 msgs;
  pv_conn : conn (p_client s) = true ∧ conn_closed (p_client s) = false;
  pv_cap : cap (raw s) = 100;
  pv_room : length (buf (raw s)) ≤ 100;
  pv_closed : closed (raw s) = true ↔ reader s = ReaderGone;
  pv_ended : out_closed s = true → cancelled s = false → reader s = ReaderGone ∧ buf (raw s) = [];
  pv_flow : flow s;
}.

Hypothesis Hconn : conn c0 = true ∧ conn_closed c0 = false.
Hypothesis Hinv : client_inv c0.

Lemma start_inv : pipe_inv (start_pipeline c0).
Proof.
  split; try done; simpl; [lia|].
  exists [], (messages_of (sock_in c0)), []. split; [done|].
  split; [unfold pongs; destruct (writable c0); by rewrite app_nil_r|]. done.
Qed.

(** The reader returns when nothing is unseen, or because of the context. *)
Lemma reader_returns_inv s c' :
  pipe_inv s → reader s ≠ ReaderGone → client_inv c' →
  (∀ msgs, passed_on c' msgs = passed_on c0 msgs) → (∀ msgs, pongs c' msgs = pongs c0 msgs) →
  conn c' = true → conn_closed c' = false →
  sock_out c' = sock_out (p_client s) → c_acks c' = c_acks (p_client s) →
  cancelled s = true ∨ unseen s = [] ∧ sending s = [] →
  ∃ s', reader_returns c' s = Some s' ∧ pipe_inv s' ∧ forwarder s' = forwarder s ∧ buf (raw s') = buf (raw s) ∧
    reader s' = ReaderGone.
Proof.
  intros [Hi Hw Hp Hc Hcap Hroom Hcl Hend Hf] Hr Hi' Hw' Hp' Ho' Hcl' Hso Hac Hlost.
  unfold reader_returns, close_chan. destruct (closed (raw s)) eqn:Ec; [by destruct Hr; apply Hcl|].
  eexists. split; [done|]. split; [|done]. split; simpl; try done.
  { intros Hg Hn. by destruct (Hend Hg Hn). }
  destruct Hf as (seen & rest & lost & H1 & H2 & H3 & H4 & H5 & H6).
  exists seen, rest, (if out_closed s then lost else sending s ++ lost). split; [done|]. split; [simpl; by rewrite Hso|].
  split; [simpl; by rewrite Hac|]. split; [|split].
  - rewrite H4. unfold out_closed, in_transit, held, sending. simpl.
    destruct (forwarder s); simpl; rewrite ?app_nil_r, <-?app_assoc; by simpl.
  - intros [?|Hn]; [done|]. simpl in Hn. destruct Hlost as [?|[Hu _]]; [congruence|].
    rewrite (H5 (or_intror Hn)). exact Hu.
  - intros [[_ ?]|Hn]; [done|]. simpl in Hn. destruct Hlost as [?|[_ ->]]; [congruence|].
    rewrite H6 by (by right). by destruct (out_closed s).
Qed.

(** A step keeps the invariant and costs something. *)
Definition good_step (s : pipeline) (next : option pipeline) : Prop :=
  ∃ s', next = Some s' ∧ pipe_inv s' ∧ cost s' < cost s.

Lemma reading_open s : pipe_inv s → reader s ≠ ReaderGone → closed (raw s) = false.
Proof. intros HI Hr. apply not_true_is_false. intros E. by apply Hr, (pv_closed s HI). Qed.

Lemma read_step s : pipe_inv s → reader s = AtHead → cancelled s = false → good_step s (reader_step s).
Proof.
  intros HI Er Hca. pose proof HI as [Hi Hw Hp [Hc1 Hc2] Hcap Hroom Hcl Hend Hf].
  destruct Hf as (seen & rest & lost & H1 & H2 & H3 & H4 & H5 & H6).
  assert (closed (raw s) = false) as Hopen by (apply (reading_open s HI); by rewrite Er).
  unfold good_step, reader_step. rewrite Er, Hca, Hc1, Hc2. simpl. unfold ReadMessage.
  assert (∀ l, payloads (sock_in (p_client s)) = [] →
    good_step s (match signalDisconnect DisconnectUnclean (upd_sock_in l (p_client s)) with
                 | Some (_, c) => reader_returns c s | None => None end)) as Hret.
  { intros l Hl. destruct (signalDisconnect_total DisconnectUnclean (upd_sock_in l (p_client s)) Hi)
      as (d & -> & Hd & _).
    destruct (reader_returns_inv s (upd_disc d (upd_sock_in l (p_client s)))) as (s' & E & HI' & Ef & Eb & Er');
      try done; [by rewrite Er|by split; [apply Hi|]| |].
    { right. unfold unseen, sending. rewrite Er. unfold messages_of. by rewrite Hl. }
    exists s'. split; [done|]. split; [done|]. unfold cost. rewrite Er, Er', Ef, Eb. lia. }
  destruct (sock_in (p_client s)) as [|[data| |] reads] eqn:Es; try (by apply Hret).
  eexists. split; [done|]. split.
  - split; simpl; try done; [by rewrite Hopen|by intros Hg Hn; destruct (Hend Hg Hn); congruence|].
    exists seen, rest, lost. repeat (split; [done|]).
    split; [rewrite H4; unfold out_closed, in_transit, sending; by rewrite Er|]. split.
    + intros _. rewrite H5 by (right; done). unfold unseen. by rewrite Er, Es.
    + intros _. apply H6. by right.
  - unfold cost. simpl. rewrite Er, Es. simpl. lia.
Qed.

Lemma scanned_step s : pipe_inv s → reader s = Scanning [] → good_step s (reader_step s).
Proof.
  intros HI Er. pose proof HI as [Hi Hw Hp Hc Hcap Hroom Hcl Hend Hf].
  destruct Hf as (seen & rest & lost & H1 & H2 & H3 & H4 & H5 & H6).
  assert (closed (raw s) = false) as Hopen by (apply (reading_open s HI); by rewrite Er).
  unfold good_step, reader_step. rewrite Er. eexists. split; [done|]. split.
  - split; simpl; try done; [by rewrite Hopen|by intros Hg Hn; destruct (Hend Hg Hn); congruence|].
    exists seen, rest, lost. repeat (split; [done|]).
    split; [rewrite H4; unfold out_closed, in_transit, sending; by rewrite Er|]. split.
    + intros _. rewrite H5 by (left; by rewrite Er). unfold unseen. by rewrite Er.
    + intros Hx. apply H6. rewrite Er. destruct Hx as [[? _]|?]; [by left|by right].
  - unfold cost. simpl. rewrite Er. simpl. lia.
Qed.

(** Looking at a message: [r] is where the reader is afterwards. *)
Lemma looked_at_inv s m msgs c' r :
  pipe_inv s → reader s = Scanning (m :: msgs) → undisturbed (p_client s) c' →
  sock_out c' = sock_out (p_client s) ++ pongs c0 [m] →
  c_acks c' = track_all (passed_on c0 [m]) (c_acks (p_client s)) →
  r = Scanning msgs ∧ passed_on c0 [m] = [] ∨ r = Sending m msgs ∧ passed_on c0 [m] = [m] →
  pipe_inv (at_reader c' r s).
Proof.
  intros HI Er U O A Hrr. pose proof HI as [Hi Hw Hp Hc Hcap Hroom Hcl Hend Hf].
  destruct Hf as (seen & rest & lost & H1 & H2 & H3 & H4 & H5 & H6).
  assert (closed (raw s) = false) as Hopen by (apply (reading_open s HI); by rewrite Er).
  assert (∀ A, out_closed s = true → cancelled s = false → A) as Hend'
    by (intros A' Hg Hn; destruct (Hend Hg Hn); congruence).
  assert (rest = m :: msgs ++ messages_of (sock_in (p_client s))) as Hrest.
  { rewrite H5 by (left; by rewrite Er). unfold unseen. by rewrite Er. }
  assert (out_closed s = false → lost = []) as Hl by (intros; apply H6; left; by rewrite Er).
  split; simpl; try done.
  - apply U.
  - intros l. by rewrite (passed_on_undisturbed _ _ _ U).
  - intros l. by rewrite (pongs_undisturbed _ _ _ U).
  - by rewrite (un_conn _ _ U), (un_closed _ _ U).
  - rewrite Hopen. by destruct Hrr as [[-> _]|[-> _]].
  - intros Hg Hn. by apply Hend'.
  - exists (seen ++ [m]), (msgs ++ messages_of (sock_in (p_client s))),
      (if out_closed s then lost ++ passed_on c0 [m] else lost).
    split; [by rewrite H1, Hrest, <-app_assoc|].
    split; [simpl; by rewrite O, H2, pongs_app, <-app_assoc|].
    split; [simpl; by rewrite A, H3, passed_on_app, track_all_app|].
    split; [|split].
    + rewrite passed_on_app, H4. revert Hl. unfold out_closed, in_transit, held, sending, at_reader.
      cbn [forwarder raw taken reader]. rewrite Er.
      destruct Hrr as [[-> ->]|[-> ->]], (forwarder s); intros Hl; simpl;
        rewrite ?Hl, ?app_nil_r, <-?app_assoc by done; by simpl.
    + intros _. unfold unseen, at_reader. cbn [reader p_client]. rewrite (un_sock_in _ _ U).
      by destruct Hrr as [[-> _]|[-> _]].
    + intros Hx. destruct (out_closed s) eqn:Hg; [|by apply Hl].
      destruct Hx as [[Hx _]|Hx]; [unfold out_closed in *; simpl in Hx; congruence|by apply Hend'].
Qed.

Lemma look_step s m msgs : pipe_inv s → reader s = Scanning (m :: msgs) → good_step s (reader_step s).
Proof.
  intros HI Er. destruct (receive_scan_spec tracking [m] (p_client s) (pv_client s HI)) as (c' & E & U & A & O).
  rewrite (pv_waiters s HI) in *. rewrite (pv_pongs s HI) in O.
  assert (∀ r, r = Scanning msgs ∧ passed_on c0 [m] = [] ∨ r = Sending m msgs ∧ passed_on c0 [m] = [m] →
    good_step s (Some (at_reader c' r s))) as Hnext.
  { intros r Hrr. eexists. split; [done|]. split; [by eapply looked_at_inv|].
    unfold cost, at_reader. cbn [reader p_client raw forwarder]. rewrite Er, (un_sock_in _ _ U).
    destruct Hrr as [[-> _]|[-> _]]; simpl; lia. }
  unfold reader_step. rewrite Er, E. assert (passed_on c0 [m] = [] ∨ passed_on c0 [m] = [m]) as [Hm|Hm]
    by (rewrite passed_on_cons; destruct (_ && _); auto).
  all: rewrite Hm; apply Hnext; auto.
Qed.

Lemma push_step s m msgs :
  pipe_inv s → reader s = Sending m msgs → length (buf (raw s)) < 100 → good_step s (reader_step s).
Proof.
  intros HI Er Hro. pose proof HI as [Hi Hw Hp Hc Hcap Hroom Hcl Hend Hf].
  destruct Hf as (seen & rest & lost & H1 & H2 & H3 & H4 & H5 & H6).
  assert (closed (raw s) = false) as Hopen by (apply (reading_open s HI); by rewrite Er).
  unfold good_step, reader_step. rewrite Er, Hcap, (proj2 (Nat.ltb_lt _ _) Hro).
  unfold try_send. rewrite Hopen, Hcap, (proj2 (Nat.ltb_lt _ _) Hro). simpl.
  eexists. split; [done|]. split.
  - split; simpl; try done; [rewrite length_app; simpl; lia|by intros Hg Hn; destruct (Hend Hg Hn); congruence|].
    exists seen, rest, lost. repeat (split; [done|]). split; [|split].
    + rewrite H4. unfold out_closed, in_transit, held, sending. rewrite Er. simpl.
      destruct (forwarder s); simpl; rewrite ?app_nil_r, <-?app_assoc; done.
    + intros _. rewrite H5 by (left; by rewrite Er). unfold unseen. by rewrite Er.
    + intros Hx. apply H6. rewrite Er. destruct Hx as [[? _]|?]; [by left|by right].
  - unfold cost. simpl. rewrite Er, length_app. simpl. lia.
Qed.

Lemma receive_step s :
  pipe_inv s → forwarder s = Waiting → buf (raw s) ≠ [] ∨ closed (raw s) = true → good_step s (forwarder_step s).
Proof.
  intros HI Ef Hr. pose proof HI as [Hi Hw Hp Hc Hcap Hroom Hcl Hend Hf].
  destruct Hf as (seen & rest & lost & H1 & H2 & H3 & H4 & H5 & H6).
  unfold good_step, forwarder_step. rewrite Ef. unfold try_recv.
  destruct (buf (raw s)) as [|m l] eqn:Eb.
  - destruct Hr as [?|Hcd]; [done|]. rewrite Hcd. eexists. split; [done|].
    assert (reader s = ReaderGone) as Er by (by apply Hcl).
    split; [|unfold cost; simpl; rewrite Eb, Ef; lia].
    split; simpl; rewrite ?Eb; try done; simpl; try lia.
    exists seen, rest, lost. repeat (split; [done|]).
    split; [rewrite H4; unfold out_closed, in_transit, held, sending; by rewrite Ef, Eb, Er|].
    split; [exact H5|]. intros [[? _]|?]; [done|]. apply H6. by right.
  - eexists. split; [done|]. split; [|unfold cost; simpl; rewrite Eb, Ef; simpl; lia].
    simpl in Hroom. split; simpl; try done; [lia|].
    exists seen, rest, lost. repeat (split; [done|]).
    split; [rewrite H4; unfold out_closed, in_transit, held, sending; by rewrite Ef, Eb|].
    split; [exact H5|]. intros Hx. apply H6. unfold out_closed in *. rewrite Ef. done.
Qed.

Lemma take_step s m : pipe_inv s → forwarder s = Holding m → good_step s (consumer_takes s).
Proof.
  intros HI Ef. pose proof HI as [Hi Hw Hp Hc Hcap Hroom Hcl Hend Hf].
  destruct Hf as (seen & rest & lost & H1 & H2 & H3 & H4 & H5 & H6).
  unfold good_step, consumer_takes. rewrite Ef. eexists. split; [done|]. split; [|unfold cost; simpl; rewrite Ef; lia].
  split; simpl; try done. exists seen, rest, lost. repeat (split; [done|]).
  split; [rewrite H4; unfold out_closed, in_transit, held, sending; rewrite Ef; simpl; by rewrite <-!app_assoc|].
  split; [exact H5|]. intros Hx. apply H6. unfold out_closed in *. rewrite Ef. done.
Qed.

Lemma reader_quit_step s :
  pipe_inv s → cancelled s = true → (reader s = AtHead ∨ ∃ m msgs, reader s = Sending m msgs) →
  good_step s (reader_quits s).
Proof.
  intros HI Hca Hr. assert (reader s ≠ ReaderGone) as Hr' by (destruct Hr as [->|(m & msgs & ->)]; done).
  destruct (reader_returns_inv s (p_client s)) as (s' & E & HI' & Ef & Eb & Er'); try done;
    [apply HI|apply HI|apply HI|apply (pv_conn s HI)|apply (pv_conn s HI)|by left|].
  exists s'. split; [unfold reader_quits; rewrite Hca; by destruct Hr as [->|(m & msgs & ->)]|]. split; [done|].
  unfold cost. rewrite Er', Ef, Eb. destruct Hr as [->|(m & msgs & ->)]; lia.
Qed.

Lemma forwarder_quit_step s m :
  pipe_inv s → cancelled s = true → forwarder s = Holding m → good_step s (forwarder_quits s).
Proof.
  intros HI Hca Ef. pose proof HI as [Hi Hw Hp Hc Hcap Hroom Hcl Hend Hf].
  destruct Hf as (seen & rest & lost & H1 & H2 & H3 & H4 & H5 & H6).
  unfold good_step, forwarder_quits. rewrite Ef, Hca. eexists. split; [done|].
  split; [|unfold cost; simpl; rewrite Ef; lia].
  split; simpl; try done. exists seen, rest, (in_transit s ++ lost). repeat (split; [done|]).
  split; [rewrite H4; unfold out_closed; by rewrite Ef|]. split; [intros Hx; apply H5; destruct Hx; [by left|done]|].
  by intros [[? _]|?].
Qed.

Lemma cancel_inv s : pipe_inv s → pipe_inv (cancel_pipeline s).
Proof.
  intros [Hi Hw Hp Hc Hcap Hroom Hcl Hend Hf]. split; simpl; try done.
  destruct Hf as (seen & rest & lost & H1 & H2 & H3 & H4 & H5 & H6). exists seen, rest, lost.
  repeat (split; [done|]). split; intros Hx; [apply H5|apply H6]; destruct Hx; try done; by left.
Qed.

(** ** Runs *)

Lemma run_step_good s s' : pipe_inv s → run_step s s' → pipe_inv s' ∧ cost s' < cost s.
Proof.
  intros HI Hs. assert (∀ o, good_step s o → o = Some s' → pipe_inv s' ∧ cost s' < cost s) as Hg
    by (intros o (s1 & -> & ? & ?) [= <-]; done).
  destruct Hs as [E|E|E|E|E]; pose proof E as E'.
  - eapply Hg; [|exact E]. unfold reader_step in E'.
    destruct (reader s) as [|[|m msgs]|m msgs|] eqn:Er; [| | | |done].
    + apply read_step; [done..|]. by destruct (cancelled s).
    + by apply scanned_step.
    + by eapply look_step.
    + eapply push_step; [done..|]. rewrite <-(pv_cap s HI). apply Nat.ltb_lt. by destruct (_ <? _).
  - eapply Hg; [|exact E]. unfold forwarder_step in E'. destruct (forwarder s) eqn:Ef; [|done..].
    apply receive_step; [done..|]. unfold try_recv in E'. destruct (buf (raw s)); [|by left].
    right. by destruct (closed (raw s)).
  - eapply Hg; [|exact E]. unfold consumer_takes in E'. destruct (forwarder s) eqn:Ef; try done. by eapply take_step.
  - eapply Hg; [|exact E]. unfold reader_quits in E'.
    destruct (reader s) eqn:Er; try done; (destruct (cancelled s) eqn:Eca; [|done]);
      apply reader_quit_step; try done; [by left|right; by eexists _, _].
  - eapply Hg; [|exact E]. unfold forwarder_quits in E'. destruct (forwarder s) eqn:Ef; try done.
    destruct (cancelled s) eqn:Eca; [|done]. by eapply forwarder_quit_step.
Qed.

Lemma pipe_reachable_inv s : rtc pipe_step (start_pipeline c0) s → pipe_inv s.
Proof.
  intros Hr. pose proof start_inv as HI. revert HI. induction Hr as [|s1 s2 s3 [Hs| ->] _ IH]; [done|..].
  - intros HI. apply IH. by apply (run_step_good s1).
  - intros HI. by apply IH, cancel_inv.
Qed.

(** When nothing moves, both goroutines have returned. *)
Lemma stuck_ended s : pipe_inv s → (∀ s', ¬ run_step s s') → reader s = ReaderGone ∧ out_closed s = true.
Proof.
  intros HI Hst.
  assert (∀ o, good_step s o → (∀ s', o = Some s' → run_step s s') → False) as Hgo
    by (intros o (s' & E & _) H; by apply (Hst s'), H).
  destruct (forwarder s) as [|m|] eqn:Ef.
  2:{ exfalso. eapply Hgo; [by eapply take_step|by apply step_consumer]. }
  - assert (buf (raw s) = [] ∧ closed (raw s) = false) as [Hb Hcd].
    { destruct (buf (raw s)) eqn:Eb, (closed (raw s)) eqn:Ec; try done; exfalso;
        (eapply Hgo; [by apply receive_step; auto; rewrite ?Eb; auto|by apply step_forwarder]). }
    exfalso. destruct (reader s) as [|[|m msgs]|m msgs|] eqn:Er.
    + destruct (cancelled s) eqn:Eca.
      * eapply Hgo; [by apply reader_quit_step; auto|by apply step_reader_quits].
      * eapply Hgo; [by apply read_step|by apply step_reader].
    + eapply Hgo; [by apply scanned_step|by apply step_reader].
    + eapply Hgo; [by eapply look_step|by apply step_reader].
    + eapply Hgo; [eapply push_step; [done..|rewrite Hb; simpl; lia]|by apply step_reader].
    + rewrite (proj2 (pv_closed s HI) Er) in Hcd. done.
  - split; [|unfold out_closed; by rewrite Ef]. destruct (cancelled s) eqn:Eca.
    2:{ apply (pv_ended s HI); [unfold out_closed; by rewrite Ef|done]. }
    destruct (reader s) as [|[|m msgs]|m msgs|] eqn:Er; [exfalso..|done].
    + eapply Hgo; [by apply reader_quit_step; auto|by apply step_reader_quits].
    + eapply Hgo; [by apply scanned_step|by apply step_reader].
    + eapply Hgo; [by eapply look_step|by apply step_reader].
    + eapply Hgo; [apply reader_quit_step; eauto|by apply step_reader_quits].
Qed.
End invariant.
End steps.

(** * Properties *)

Section properties.
Context (parse_json : string → option value) (parse_time : string → option string) (tracking : bool).
Local Abbreviation pipe_step := (pipe_step parse_json parse_time tracking).
Local Abbreviation run_step := (run_step parse_json parse_time tracking).
Local Abbreviation messages_of := (messages_of parse_json parse_time).
Local Abbreviation cost := (cost parse_json parse_time).

Lemma connected_conn c : IsConnected c = true → conn c = true ∧ conn_closed c = false.
Proof. unfold IsConnected. by destruct (conn c), (conn_closed c). Qed.

(** The consumer has received a prefix, all of it when the channel was closed undisturbed. *)
Lemma delivered c s :
  client_inv c → IsConnected c = true → rtc pipe_step (start_pipeline c) s →
  taken s `prefix_of` passed_on c (messages_of (sock_in c)) ∧
  (out_closed s = true → cancelled s = false → taken s = passed_on c (messages_of (sock_in c))).
Proof.
  intros Hi Hc Hr. apply connected_conn in Hc.
  pose proof (pipe_reachable_inv parse_json parse_time tracking c Hc Hi s Hr) as HI.
  destruct (pv_flow _ _ _ _ HI) as (seen & rest & lost & H1 & _ & _ & H4 & H5 & H6).
  rewrite H1, passed_on_app, H4. split; [rewrite <-app_assoc; by eexists|].
  intros Ho Hn. destruct (pv_ended _ _ _ _ HI Ho Hn) as [Er _]. rewrite Ho, (H5 (or_intror Hn)), (H6 (or_intror Hn)).
  unfold unseen. rewrite Er. by rewrite !app_nil_r.
Qed.

(** C8. Whatever the scheduling of the reader, the forwarder, the turn and a cancellation, a turn
    receives the messages of the socket that are neither control nor awaited, in order and
    without a gap; all of them when its channel closes without a cancellation; and never
    more than 102 are on their way to it. *)
Theorem pipeline_in_order (c : client) (s : pipeline)
    (Hi : client_inv c) (Hc : IsConnected c = true) (Hr : rtc pipe_step (start_pipeline c) s) :
  taken s `prefix_of` passed_on c (messages_of (sock_in c)) ∧
  (out_closed s = true → cancelled s = false → taken s = passed_on c (messages_of (sock_in c))) ∧
  length (in_transit s) ≤ 102.
Proof.
  destruct (delivered c s Hi Hc Hr) as [H1 H2]. split; [done|]. split; [done|].
  pose proof (pipe_reachable_inv parse_json parse_time tracking c (connected_conn c Hc) Hi s Hr) as HI.
  pose proof (pv_room _ _ _ _ HI). unfold in_transit. rewrite !length_app.
  unfold held, sending. destruct (forwarder s), (reader s); simpl; lia.
Qed.


(** A pooled connection that nobody reads stops answering pings: between turns the stream
    is not consumed, so once 102 messages have come in the reader is blocked, and no ping
    after them is ever answered. *)
Theorem idle_stream_stalls (c : client) (s : pipeline) (pre post : list message) (ping : message)
    (Hi : client_inv c) (Hc : IsConnected c = true) (Hr : rtc pipe_step (start_pipeline c) s)
    (Hm : messages_of (sock_in c) = pre ++ ping :: post) (Hpre : 102 < length (passed_on c pre))
    (Hidle : taken s = []) (Hca : cancelled s = false) :
  ∃ seen, seen `prefix_of` pre ∧ sock_out (p_client s) = sock_out c ++ pongs c seen.
Proof.
  pose proof (connected_conn c Hc) as Hc'.
  pose proof (pipe_reachable_inv parse_json parse_time tracking c Hc' Hi s Hr) as HI.
  destruct (pv_flow _ _ _ _ HI) as (seen & rest & lost & H1 & H2 & _ & H4 & _ & H6).
  exists seen. split; [|done]. rewrite Hm in H1. symmetry in H1. rewrite Hidle, (H6 (or_intror Hca)), app_nil_r in H4.
  assert (length (passed_on c seen) ≤ 102) as Hle.
  { rewrite H4. simpl. destruct (out_closed s); [simpl; lia|]. pose proof (pv_room _ _ _ _ HI).
    unfold in_transit, held, sending. rewrite !length_app. destruct (forwarder s), (reader s); simpl; lia. }
  destruct (decide (length seen ≤ length pre)) as [Hl|Hl].
  - apply app_eq_inv in H1 as [(k & -> & _)|(k & -> & _)]; [|by eexists].
    rewrite length_app in Hl. destruct k; [|simpl in Hl; lia]. by rewrite app_nil_r.
  - exfalso. apply app_eq_inv in H1 as [(k & -> & _)|(k & -> & _)]; [|rewrite length_app in Hl; lia].
    rewrite passed_on_app, length_app in Hle. lia.
Qed.
End properties.

(** ** A turn on a socket *)

(** The rounds of a turn that receives everything [s] delivered, at the instants of
    [clock], and then the end of the stream. *)
Definition rounds_of_run (clock : nat → Z) (s : pipeline) : list (Z * occasion) :=
  imap (λ i m, (clock i, Received m)) (taken s) ++ [(clock (length (taken s)), StreamClosed)].


(** * Examples *)

(** One schedule: the consumer first, if there is one, then the forwarder, then the reader. *)
Fixpoint run_pipe (parse_json : string → option value) (consumer : bool) (fuel : nat) (s : pipeline) : pipeline :=
  match fuel with
  | O => s
  | S fuel =>
      match (if consumer then consumer_takes s else None) ∪ forwarder_step s ∪ reader_step parse_json Some false s with
      | Some s => run_pipe parse_json consumer fuel s
      | None => s
      end
  end.

Lemma run_pipe_steps parse_json consumer fuel s :
  ∃ n, nsteps (run_step parse_json Some false) n s (run_pipe parse_json consumer fuel s).
Proof.
  revert s. induction fuel as [|fuel IH]; intros s; simpl; [exists 0; constructor|].
  destruct (_ ∪ _) as [s1|] eqn:E; [|exists 0; constructor].
  destruct (IH s1) as [n Hn]. exists (S n). econstructor; [|exact Hn].
  assert ((if consumer then consumer_takes s else None) = Some s1 ∨ forwarder_step s = Some s1 ∨
    reader_step parse_json Some false s = Some s1) as [H|[H|H]].
  { destruct (if consumer then consumer_takes s else None), (forwarder_step s), (reader_step _ _ _ s);
      simplify_eq/=; auto. }
  - apply step_consumer. by destruct consumer.
  - by apply step_forwarder.
  - by apply step_reader.
Qed.

Lemma run_pipe_rtc parse_json consumer fuel s : rtc (pipe_step parse_json Some false) s (run_pipe parse_json consumer fuel s).
Proof.
  destruct (run_pipe_steps parse_json consumer fuel s) as [n Hn]. induction Hn as [|n s1 s2 s3 Hs _ IH]; [done|].
  eapply rtc_l; [by apply step_run|exact IH].
Qed.

(** Two messages and a ping in one payload, or in three. *)
Definition packed : client := live [RData (Join ["DONE"; "PING"; "IDLE"] newline)].
Definition spread : client := live [RData "DONE"; RData "PING"; RData "IDLE"].

Lemma pipeline_in_order_witness :
  taken (run_pipe sample_json true 40 (start_pipeline packed)) =
    passed_on packed (messages_of sample_json Some (sock_in packed)) ∧
  length (taken (run_pipe sample_json true 40 (start_pipeline packed))) = 2.
Proof.
  split; [|vm_compute; reflexivity].
  destruct (pipeline_in_order sample_json Some false packed _ (live_inv _) eq_refl
    (run_pipe_rtc sample_json true 40 (start_pipeline packed))) as (_ & H & _).
  apply H; vm_compute; reflexivity.
Defined.


Lemma idle_stream_stalls_witness :
  let c := live (replicate 103 (RData "DONE") ++ [RData "PING"]) in
  ∃ seen, seen `prefix_of` messages_of sample_json Some (replicate 103 (RData "DONE")) ∧
    sock_out (p_client (run_pipe sample_json false 600 (start_pipeline c))) = pongs c seen.
Proof.
  cbv zeta. set (c := live (replicate 103 (RData "DONE") ++ [RData "PING"])).
  destruct (idle_stream_stalls sample_json Some false c (run_pipe sample_json false 600 (start_pipeline c))
    (messages_of sample_json Some (replicate 103 (RData "DONE"))) []
    (hd (MMap None) (messages_of sample_json Some [RData "PING"])) (live_inv _) eq_refl
    (run_pipe_rtc _ _ _ _)) as (seen & H1 & H2).
  - vm_compute. reflexivity.
  - vm_compute. lia.
  - vm_compute. reflexivity.
  - vm_compute. reflexivity.
  - exists seen. exact (conj H1 H2).
Defined.

