(* ===== verification/Kit.v ===== *)
(** A pooled connection over a client (appkit/client.go, and the opening of a slot in
    [Acquire] of appkit/pool.go): the interface [ManagedClient] the pool is written
    against, its laws, the client of the package as an instance, and what opening a slot
    over any such client comes to. *)

From S2P Require Import DaemonSession Broadcaster Classifier Attachments Pool TurnRunner.
From S2P Require Import Prelude GoStr Value DeliveryAck Protocol GoChan Mux Heartbeat Client Reader Handshake Rpc Bootstrap Preserve.
From S2P Require Import Errors Pipeline.

(** * The interface *)

(** [ManagedClient]: [D] is what a dialling meets, [P] what a reattachment meets. [None] is
    a panic. [ReceiveMessages] starts the reader. *)
Class ManagedClient (C D P : Type) := {
  mc_Connect : D → C → option (option error * C);
  mc_Reconnect : D → C → option (option error * C);
  mc_ReattachAndProbe : P → string → C → option (option error * C);
  mc_SendMessage : bool → Envelope → C → option (option error * C);
  mc_ReceiveMessages : C → option (option error * C);
  mc_Disconnected : C → chan DisconnectCause;
  mc_IsConnected : C → bool;
  mc_Close : C → option (unit * C);
}.

(** [BootstrapFunc]: [B] is what a bootstrap meets; the workspace and the user. *)
Definition BootstrapFunc (B C : Type) : Type := B → string → string → C → option ((string + error) * C).

(** What the pool relies on: [mc_inv] holds of every client, [mc_ready] of one that is
    connected and has shaken hands. Nothing but [Connect] and [Close] changes that. *)
Class LawfulClient {C D P B : Type} `{!ManagedClient C D P} (boot : BootstrapFunc B C) := {
  mc_inv : C → Prop;
  mc_ready : C → Prop;
  ready_is_connected c : mc_ready c → mc_IsConnected c = true;
  connect_law d c : mc_inv c →
    ∃ err c', mc_Connect d c = Some (err, c') ∧ mc_inv c' ∧ (err = None → mc_ready c');
  reattach_law p loopID c : mc_inv c →
    ∃ err c', mc_ReattachAndProbe p loopID c = Some (err, c') ∧ mc_inv c' ∧ (mc_ready c → mc_ready c');
  boot_law b ws user c : mc_inv c →
    ∃ r c', boot b ws user c = Some (r, c') ∧ mc_inv c' ∧ (mc_ready c → mc_ready c') ∧
      (∀ loopID, r = inl loopID → loopID ≠ "");
  receive_law c : mc_inv c → mc_ready c →
    ∃ c', mc_ReceiveMessages c = Some (None, c') ∧ mc_inv c' ∧ mc_ready c';
  close_law c : mc_inv c → ∃ c', mc_Close c = Some (tt, c') ∧ mc_inv c' ∧ mc_IsConnected c' = false;
}.

(** The functions a pool calls for a client and for a loop, which an application may
    replace; nil replaces nothing. *)
Record hooks (B C : Type) := Hooks { factory : string → Config → C; bootstrap : BootstrapFunc B C }.
Arguments Hooks {B C} _ _.
Arguments factory {B C} _ _ _.
Arguments bootstrap {B C} _.

Definition WithClientFactory {B C} (f : option (string → Config → C)) (h : hooks B C) : hooks B C :=
  match f with Some f => Hooks f (bootstrap h) | None => h end.
Definition WithBootstrap {B C} (f : option (BootstrapFunc B C)) (h : hooks B C) : hooks B C :=
  match f with Some f => Hooks (factory h) f | None => h end.

(** ** The configuration *)

Record PoolConfig := MkPoolConfig {
  cfg_PoolSize : Z;
  cfg_QueryTimeout : Z;
  cfg_ConnectionTimeout : Z;
  cfg_MaxIdleTime : Z;
  cfg_HealthCheckInterval : Z;
}.

Definition DefaultPoolConfig : PoolConfig :=
  MkPoolConfig 1000 (30 * 60 * second) (30 * second) (10 * 60 * second) (30 * second).

(** [NewConnectionPool] as far as its configuration goes; nil takes the defaults. *)
Definition new_pool (cfg : option PoolConfig) : ConnectionPool :=
  let cfg := default DefaultPoolConfig cfg in
  NewConnectionPool (cfg_PoolSize cfg) (cfg_MaxIdleTime cfg).

Definition getLoopID (c : pooledConn) : string := pc_loopID c.

(** * Opening a slot *)

(** What one opening meets: the connection and the reattachment or bootstrap after it, and
    the second connection and bootstrap when the reattachment failed. *)
Record opening (D P B : Type) := Opening {
  o_dial : D;
  o_probe : P;
  o_boot : B;
  o_redial : D;
  o_reboot : B;
}.
Arguments Opening {D P B} _ _ _ _ _.
Arguments o_dial {D P B} _.
Arguments o_probe {D P B} _.
Arguments o_boot {D P B} _.
Arguments o_redial {D P B} _.
Arguments o_reboot {D P B} _.

Section open.
Context {C D P B : Type} `{!ManagedClient C D P} (boot : BootstrapFunc B C).
(** The text of a client's error. *)
Context (text : error → string).
Context (o : opening D P B) (ws user : string).

Definition as_run (e : error) : run_error := ErrText (text e).
Definition as_boot (r : string + error) : run_error + string :=
  match r with inl loopID => inr loopID | inr e => inl (as_run e) end.

(** [Release] closes the client. *)
Definition abandon {A} (err : run_error) (c : C) : option ((run_error + A) * C) :=
  '(_, c) ← mc_Close c; Some (inl err, c).

(** Connect, bootstrap, read. That [ReceiveMessages] fails is only logged. *)
Definition open_fresh (on_connect on_boot : string) (d : D) (b : B) (c : C) : option ((run_error + string * bool) * C) :=
  '(err, c) ← mc_Connect d c;
  match err with
  | Some e => abandon (ErrWrapped on_connect (as_run e)) c
  | None =>
      '(r, c) ← boot b ws user c;
      match r with
      | inr e => abandon (ErrWrapped on_boot (as_run e)) c
      | inl loopID => '(err, c) ← mc_ReceiveMessages c; Some (inr (loopID, bool_decide (err = None)), c)
      end
  end.

(** [resumeAndReattach]: the error, or whether the stream is read. *)
Definition open_resumed (loopID : string) (c : C) : option ((error + bool) * C) :=
  '(err, c) ← mc_Connect (o_dial o) c;
  match err with
  | Some e => Some (inl e, c)
  | None =>
      '(err, c) ← mc_ReattachAndProbe (o_probe o) loopID c;
      match err with
      | Some e => Some (inl e, c)
      | None => '(err, c) ← mc_ReceiveMessages c; Some (inr (bool_decide (err = None)), c)
      end
  end.

(** The part of [Acquire] after a slot was taken, with the loop stored for the key: an
    error, or the loop and whether its stream is read. *)
Definition open_slot (stored : option string) (c : C) : option ((run_error + string * bool) * C) :=
  match stored with
  | None => open_fresh "connect" "bootstrap new loop" (o_dial o) (o_boot o) c
  | Some loopID =>
      '(r, c) ← open_resumed loopID c;
      match r with
      | inr live => Some (inr (loopID, live), c)
      | inl _ => open_fresh "connect after reattach fail" "bootstrap after reattach fail" (o_redial o) (o_reboot o) c
      end
  end.

(** ** What the pool sees of it *)

Definition outcome {A X : Type} (x : A) (run : option (A * X)) : A := match run with Some (y, _) => y | None => x end.
Definition after {A X : Type} (c : X) (run : option (A * X)) : X := match run with Some (_, c) => c | None => c end.

(** The results of the client's calls, in the order of the code, as the pool's parameters. *)
Definition env_of (stored : option string) (now : Z) (c : C) : acquire_env :=
  let first := mc_Connect (o_dial o) c in
  let c1 := after c first in
  let probe := mc_ReattachAndProbe (o_probe o) (default "" stored) c1 in
  let c2 := match outcome None first with Some _ => c1 | None => after c1 probe end in
  let second := mc_Connect (o_redial o) c2 in
  AcquireEnv false now None
    (as_run <$> outcome None first) (as_boot (outcome (inl "") (boot (o_boot o) ws user c1)))
    (as_run <$> outcome None probe)
    (as_run <$> outcome None second) (as_boot (outcome (inl "") (boot (o_reboot o) ws user (after c2 second)))) true.
End open.

(** * Lemmas *)

Lemma new_pool_idle size maxIdle : MaxIdleTime (NewConnectionPool size maxIdle) = maxIdle.
Proof.
  unfold NewConnectionPool. generalize (if (size <=? 0)%Z then Z.to_nat 1000 else Z.to_nat size). intros n.
  generalize n at 1. intros k. induction k as [|k IH]; simpl; [done|].
  unfold return_slot at 1, newSlot at 1. simpl. by destruct (_ <? _)%nat.
Qed.

(** ** The client's side *)

Section spec.
Context {C D P B : Type} `{!ManagedClient C D P} (boot : BootstrapFunc B C) `{!LawfulClient boot}.
Context (text : error → string) (o : opening D P B) (ws user : string).

(** What opening leaves: a ready client whose stream is read, or a closed one. *)
Definition opened (r : run_error + string * bool) (c : C) : Prop :=
  match r with
  | inr (loopID, live) => mc_ready c ∧ live = true ∧ loopID ≠ ""
  | inl _ => mc_IsConnected c = false
  end.

Lemma abandon_spec {A} (err : run_error) (c : C) : mc_inv c →
  ∃ c', abandon (A := A) err c = Some (inl err, c') ∧ mc_inv c' ∧ mc_IsConnected c' = false.
Proof. intros Hi. unfold abandon. destruct (close_law c Hi) as (c' & -> & ?). by eexists. Qed.

Lemma open_fresh_spec m1 m2 d b c : mc_inv c →
  ∃ r c', open_fresh boot text ws user m1 m2 d b c = Some (r, c') ∧ mc_inv c' ∧ opened r c'.
Proof.
  intros Hi. unfold open_fresh. destruct (connect_law d c Hi) as (err & c1 & -> & Hi1 & Hr). simpl.
  destruct err as [e|]; [destruct (abandon_spec (A := string * bool) (ErrWrapped m1 (as_run text e)) c1 Hi1) as (c' & -> & ?);
    by eexists _, c'|].
  destruct (boot_law b ws user c1 Hi1) as (r & c2 & -> & Hi2 & Hr2 & Hne). simpl.
  destruct r as [loopID|e]; [|destruct (abandon_spec (A := string * bool) (ErrWrapped m2 (as_run text e)) c2 Hi2) as (c' & -> & ?);
    by eexists _, c'].
  destruct (receive_law c2 Hi2 (Hr2 (Hr eq_refl))) as (c3 & -> & Hi3 & Hr3). simpl.
  eexists _, c3. split; [done|]. split; [done|]. split; [done|]. split; [done|]. by apply Hne.
Qed.

Lemma open_slot_spec stored c : mc_inv c → stored ≠ Some "" →
  ∃ r c', open_slot boot text o ws user stored c = Some (r, c') ∧ mc_inv c' ∧ opened r c'.
Proof.
  intros Hi Hs. unfold open_slot. destruct stored as [loopID|]; [|by apply open_fresh_spec].
  unfold open_resumed. destruct (connect_law (o_dial o) c Hi) as (err & c1 & -> & Hi1 & Hr). simpl.
  destruct err as [e|]; [by apply open_fresh_spec|].
  destruct (reattach_law (o_probe o) loopID c1 Hi1) as (err & c2 & -> & Hi2 & Hr2). simpl.
  destruct err as [e|]; [by apply open_fresh_spec|].
  destruct (receive_law c2 Hi2 (Hr2 (Hr eq_refl))) as (c3 & -> & Hi3 & Hr3). simpl.
  eexists _, c3. split; [done|]. split; [done|]. split; [done|]. split; [done|].
  intros ->. by apply Hs.
Qed.

(** ** The pool's side *)

Section pool.
Context {S : Type} `{!LoopSessionStore S}.

Definition loop_of (r : run_error + string * bool) : run_error + string :=
  match r with inl err => inl err | inr (loopID, _) => inr loopID end.

Lemma fresh_loop_agrees env appKey m1 m2 d b ty id p (st : S) c r c' :
  mc_inv c → open_fresh boot text ws user m1 m2 d b c = Some (r, c') →
  (fresh_loop env appKey ws m1 m2 (as_run text <$> outcome None (mc_Connect d c))
     (as_boot text (outcome (inl "") (boot b ws user (after c (mc_Connect d c))))) ty id p st).1.1 = loop_of r.
Proof.
  intros Hi H. unfold open_fresh in H. unfold fresh_loop.
  destruct (connect_law d c Hi) as (err & c1 & E1 & Hi1 & Hr). rewrite E1 in *. simpl in *.
  destruct err as [e|]; simpl.
  { destruct (abandon_spec (A := string * bool) (ErrWrapped m1 (as_run text e)) c1 Hi1) as (c2 & E & _).
    rewrite E in H. by injection H as <- _. }
  destruct (boot_law b ws user c1 Hi1) as (x & c2 & E2 & Hi2 & Hr2 & Hne). rewrite E2 in *. simpl in *.
  destruct x as [loopID|e]; simpl.
  - destruct (receive_law c2 Hi2 (Hr2 (Hr eq_refl))) as (c3 & E3 & _). rewrite E3 in H. by injection H as <- _.
  - destruct (abandon_spec (A := string * bool) (ErrWrapped m2 (as_run text e)) c2 Hi2) as (c3 & E & _).
    rewrite E in H. by injection H as <- _.
Qed.

Lemma open_loop_agrees appKey now id p (st : S) c r c' :
  mc_inv c → open_slot boot text o ws user (loopIDFor st appKey) c = Some (r, c') →
  (open_loop (env_of boot text o ws user (loopIDFor st appKey) now c) appKey ws id p st).1.1 = loop_of r.
Proof.
  intros Hi. unfold open_loop, open_slot. destruct (loopIDFor st appKey) as [loopID|]; [|by apply fresh_loop_agrees].
  unfold open_resumed, resumeAndReattach, env_of. simpl.
  destruct (connect_law (o_dial o) c Hi) as (err & c1 & E1 & Hi1 & Hr). rewrite E1. simpl.
  destruct err as [e|]; simpl; [by apply fresh_loop_agrees|].
  destruct (reattach_law (o_probe o) loopID c1 Hi1) as (err & c2 & E2 & Hi2 & Hr2). rewrite E2. simpl.
  destruct err as [e|]; simpl; [by apply fresh_loop_agrees|].
  destruct (receive_law c2 Hi2 (Hr2 (Hr eq_refl))) as (c3 & E3 & _). rewrite E3. by intros [= <- _].
Qed.

Lemma loopIDFor_nonempty (st : S) appKey : loopIDFor st appKey ≠ Some "".
Proof.
  unfold loopIDFor. intros (l & _ & H)%bind_Some. destruct (TrimSpace l =s "") eqn:E; [done|]. simpl in H.
  destruct (HasPrefix _ _); [done|]. injection H as H. by rewrite H in E.
Qed.

(** A slot whose opening failed is torn down. *)
Lemma fresh_loop_failed env appKey m1 m2 con b ty id p (st : S) err :
  pool_inv p → Pool.held p ≤ PoolSize p → activeSlots p !! appKey = Some id → is_Some (conns p !! id) →
  let x := fresh_loop env appKey ws m1 m2 con b ty id p st in
  x.1.1 = inl err → ∃ pc, conns x.1.2 !! id = Some pc ∧ connected pc = false ∧ client_closed pc = true.
Proof.
  intros Hi Hh Hk [pc Hc]. unfold fresh_loop.
  assert (∀ f, ∃ pc, conns (Release appKey (set_conns (alter f id) p)) !! id = Some pc ∧
    connected pc = false ∧ client_closed pc = true) as Hf.
  { intros f. pose proof (set_conns_keeps appKey id f p Hi Hk) as Hk1.
    destruct (Release_spec appKey (set_conns (alter f id) p)) as (_ & _ & Hr); [by apply (kp_inv _ _ _ Hk1)|done|].
    destruct (Hr id Hk) as [_ E]. rewrite E. simpl. rewrite lookup_alter_eq, Hc. by eexists. }
  destruct con as [e|]; [intros _; apply Hf|]. destruct b as [e|l]; [intros _; apply Hf|done].
Qed.

Lemma open_loop_failed env appKey id p (st : S) err :
  pool_inv p → Pool.held p ≤ PoolSize p → activeSlots p !! appKey = Some id → is_Some (conns p !! id) →
  let x := open_loop env appKey ws id p st in
  x.1.1 = inl err → ∃ pc, conns x.1.2 !! id = Some pc ∧ connected pc = false ∧ client_closed pc = true.
Proof.
  intros Hi Hh Hk Hc. unfold open_loop. destruct (loopIDFor st appKey) as [loopID|]; [|by apply fresh_loop_failed].
  unfold resumeAndReattach. assert (∀ b, let p1 := set_conns (alter (set_connected b) id) p in
    pool_inv p1 ∧ is_Some (conns p1 !! id)) as Hp.
  { intros b. split; [by apply (kp_inv _ _ _ (set_conns_keeps appKey id (set_connected b) p Hi Hk))|].
    simpl. rewrite lookup_alter_eq. destruct Hc as [? ->]. by eexists. }
  destruct (env_connect env); [by apply fresh_loop_failed; destruct (Hp false)|].
  destruct (env_reattach env); [by apply fresh_loop_failed; destruct (Hp true)|done].
Qed.
End pool.
End spec.

(** * The client of the package *)

(** [startReader]'s half of [ReceiveMessages]: what it does before its goroutine runs. *)
Definition start_receiving : M (option error) :=
  let! o := get conn in
  let! cl := get conn_closed in
  if negb o || cl then ret (Some ErrNotConnected)
  else modify (upd_reader true);;! ret None.

(** A dialling: the socket, the rounds of the handshake, and whether the context is done. *)
Record dialling := Dialling { d_dial : option (list read_result * bool); d_rounds : nat; d_ctx : bool }.

Section package.
Context (parse_json : string → option value) (parse_time : string → option string) (cfg : Config).

#[local] Instance package_client : ManagedClient client dialling (call * call * call) := {
  mc_Connect d := Handshake.Connect parse_json parse_time (d_dial d) (d_rounds d) (d_ctx d);
  mc_Reconnect d := Reconnect parse_json parse_time (d_dial d) (d_rounds d) (d_ctx d);
  mc_ReattachAndProbe ks loopID := ReattachAndProbe parse_json parse_time ks.1.1 ks.1.2 ks.2 cfg loopID;
  mc_SendMessage := SendMessage;
  mc_ReceiveMessages := start_receiving;
  mc_Disconnected := Disconnected;
  mc_IsConnected := IsConnected;
  mc_Close := Close;
}.

Definition default_boot : BootstrapFunc (call * call) client := λ ks ws user,
  DefaultBootstrapFunc parse_json parse_time ks.1 ks.2 ws user (Some cfg).

Definition DefaultClientFactory : string → Config → client := λ _ _, NewClient.
Definition default_hooks : hooks (call * call) client := Hooks DefaultClientFactory default_boot.

Definition linked (c : client) : Prop := client_inv c ∧ link c = (true, false, true, "ready").

Lemma linked_connected c : linked c → IsConnected c = true.
Proof. intros [_ [= Ho Hc _ _]]. unfold IsConnected. by rewrite Ho, Hc. Qed.

Lemma linked_kept {A} (m : M A) c x c' :
  (∀ l, preserves (λ c, link c = l) m) → m c = Some (x, c') → client_inv c' → linked c → linked c'.
Proof. intros Hm H Hi [_ Hl]. split; [done|]. by apply (Hm _ c x c' Hl H). Qed.

Lemma package_connect d c : client_inv c →
  ∃ err c', mc_Connect d c = Some (err, c') ∧ client_inv c' ∧ (err = None → linked c').
Proof.
  intros Hi. destruct (Connect_total parse_json parse_time (d_dial d) (d_rounds d) (d_ctx d) c) as (err & c' & H & Hi' & _).
  exists err, c'. split; [done|]. split; [auto|]. intros ->. destruct (Connect_success _ _ _ _ _ _ _ H). by split.
Qed.

Lemma package_reattach (ks : call * call * call) loopID c : client_inv c →
  ∃ err c', mc_ReattachAndProbe ks loopID c = Some (err, c') ∧ client_inv c' ∧ (linked c → linked c').
Proof.
  intros Hi. destruct (String.eqb_spec loopID "") as [->|Hne].
  - eexists _, c. split; [reflexivity|]. by split.
  - destruct (ReattachAndProbe_total parse_json parse_time ks.1.1 ks.1.2 ks.2 cfg loopID c Hi Hne) as (err & c' & H & Hi' & _).
    exists err, c'. split; [done|]. split; [done|]. eapply linked_kept; [|done|done]. intros l. apply preserves_Reattach, _.
Qed.

Lemma package_boot ks ws user c : client_inv c →
  ∃ r c', default_boot ks ws user c = Some (r, c') ∧ client_inv c' ∧ (linked c → linked c') ∧
    (∀ loopID, r = inl loopID → loopID ≠ "").
Proof.
  intros Hi. destruct (BootstrapLoopSession_total parse_json parse_time ks.1 ks.2 "" ws (Some cfg)
    (Some (SessionOptions ws user ws)) c Hi) as (r & c' & H & Hi' & Hid).
  exists r, c'. split; [exact H|]. split; [done|]. split; [|intros l Hl; apply (Hid l Hl)].
  eapply linked_kept; [|exact H|done]. intros l. apply preserves_Bootstrap, _.
Qed.

Lemma package_receive c : linked c → ∃ c', start_receiving c = Some (None, c') ∧ linked c' ∧ c' = upd_reader true c.
Proof.
  intros [Hi Hl]. exists (upd_reader true c). split; [|by split].
  unfold start_receiving. pose proof Hl as [= Ho Hc _ _]. unfold bind, get. by rewrite Ho, Hc.
Qed.

Lemma package_receive_law c : client_inv c → linked c →
  ∃ c', mc_ReceiveMessages c = Some (None, c') ∧ client_inv c' ∧ linked c'.
Proof. intros _ Hr. destruct (package_receive c Hr) as (c' & H & Hl & _). exists c'. split; [exact H|]. by split; [apply Hl|]. Qed.

#[local] Instance package_lawful : LawfulClient (D := dialling) (P := call * call * call) default_boot := {
  mc_inv := client_inv;
  mc_ready := linked;
  ready_is_connected := linked_connected;
  connect_law := package_connect;
  reattach_law := package_reattach;
  boot_law := package_boot;
  receive_law := package_receive_law;
  close_law := Close_closes;
}.

(** The stream of a connection that was opened: whatever the scheduling, the turns on it
    receive the messages that follow on its socket, in order, and the connection has shaken
    hands; an opening that failed leaves nothing connected. *)
Theorem opened_stream_delivers (text : error → string) (o : opening dialling (call * call * call) (call * call))
    (ws user : string) (stored : option string) (tracking : bool) (Hs : stored ≠ Some "") :
  ∃ r c, open_slot default_boot text o ws user stored NewClient = Some (r, c) ∧
    match r with
    | inl _ => IsConnected c = false
    | inr (loopID, _) =>
        loopID ≠ "" ∧ IsHandshakeComplete c = true ∧ ReadinessState c = "ready" ∧
        ∀ s, rtc (pipe_step parse_json parse_time tracking) (start_pipeline c) s →
          taken s `prefix_of` passed_on c (messages_of parse_json parse_time (sock_in c)) ∧
          (out_closed s = true → cancelled s = false →
             taken s = passed_on c (messages_of parse_json parse_time (sock_in c)))
    end.
Proof.
  destruct (open_slot_spec default_boot text o ws user stored NewClient) as (r & c & H & Hi & Ho);
    [exact (proj1 new_unregistered)|exact Hs|].
  exists r, c. split; [exact H|]. destruct r as [e|[loopID live]]; [exact Ho|].
  destruct Ho as ([_ Hl] & _ & Hne). split; [done|].
  assert (IsConnected c = true) as Hc by (by apply linked_connected).
  injection Hl as _ _ Hh Hst. split; [exact Hh|]. split; [exact Hst|].
  intros s Hr. by eapply delivered.
Qed.
End package.

(** * Acquiring over any client *)

(** What [Acquire] comes to over a client. *)
Lemma Acquire_over_spec {C D P B S : Type} `{!ManagedClient C D P, !LoopSessionStore S}
    (boot : BootstrapFunc B C) `{!LawfulClient boot} (text : error → string) (o : opening D P B)
    (appKey ws user : string) (now : Z) (p : ConnectionPool) (st : S) (id : nat) (rest : list nat) (c : C)
    (Hi : pool_inv p) (Hh : Pool.held p ≤ PoolSize p) (Hk : activeSlots p !! appKey = None)
    (Hf : free p = id :: rest) (Hc : mc_inv c) :
  let stored := loopIDFor st appKey in
  let '(res, p', st') := Pool.Acquire (env_of boot text o ws user stored now c) appKey ws p st in
  ∃ r c', open_slot boot text o ws user stored c = Some (r, c') ∧
  ∃ pc, conns p' !! id = Some pc ∧ connected pc = mc_IsConnected c' ∧
  match r with
  | inl err => res = inl err ∧ activeSlots p' !! appKey = None ∧ connected pc = false ∧ client_closed pc = true
  | inr (loopID, live) =>
      res = inr id ∧ activeSlots p' !! appKey = Some id ∧ mc_ready c' ∧
      usable pc = true ∧ eventStreamLive pc = live ∧ pc_loopID pc = loopID ∧ loopID ≠ ""
  end.
Proof.
  cbv zeta. unfold Pool.Acquire. rewrite Hk. unfold acquire_slot. cbn [ctx_done env_of].
  destruct (open_slot_spec boot text o ws user (loopIDFor st appKey) c Hc) as (r & c' & H & _ & Ho); [apply loopIDFor_nonempty|].
  destruct (take_slot appKey p) as [[id' p1]|] eqn:Et; [|by unfold take_slot in Et; rewrite Hf in Et].
  assert (id' = id) as -> by (unfold take_slot in Et; rewrite Hf in Et; by injection Et).
  destruct (take_slot_spec _ _ _ _ Et Hi Hk) as (Hk1 & Ha & Hn).
  assert (Pool.held p1 ≤ PoolSize p1) as Hh1 by (by rewrite (kp_held _ _ _ Hk1), (kp_size _ _ _ Hk1)).
  pose proof (kp_inv _ _ _ Hk1 Hi) as Hi1.
  pose proof (open_loop_agrees boot text o ws user appKey now id p1 st c r c' Hc H) as Hr.
  set (env := env_of _ _ _ _ _ _ _ _) in *.
  pose proof (open_loop_spec env appKey ws id p1 st Hi1 Hh1 Ha Hn) as [_ Hset].
  pose proof (open_loop_failed ws env appKey id p1 st) as Hfail. cbv zeta in Hfail.
  destruct (open_loop env appKey ws id p1 st) as [[x p2] st2]. simpl in Hr, Hset, Hfail. subst x.
  destruct r as [err|[loopID live]]; simpl in *.
  - destruct (Hfail err Hi1 Hh1 Ha ltac:(by eexists) eq_refl) as (pc & Hp & Hcon & Hcl).
    exists (inl err), c'. split; [exact H|]. exists pc. rewrite Hcon, Ho. by repeat split.
  - destruct Hset as (Ha2 & pc & Hp & Hcon & Hnot & Hev). destruct Ho as (Hr & -> & Hne).
    exists (inr (loopID, true)), c'. split; [exact H|]. eexists. simpl. rewrite lookup_alter_eq, Hp. split; [done|]. simpl.
    rewrite Hcon, (ready_is_connected c' Hr). split; [done|]. split; [done|]. split; [done|]. split; [done|].
    unfold usable, isConnected, clientDisconnectNotified, eventStreamLive in *. simpl. rewrite Hcon, Hnot, Hev. done.
Qed.


(** A zero [MaxIdleTime] is not replaced by the default: a pool configured with one keeps
    every idle connection. *)
Theorem zero_idle_time_kept (cfg : PoolConfig) (env : acquire_env) (c : pooledConn) (Hz : cfg_MaxIdleTime cfg = 0%Z) :
  idle_too_long env (new_pool (Some cfg)) c = false ∧
  MaxIdleTime (new_pool None) = (10 * 60 * second)%Z.
Proof. unfold new_pool, idle_too_long. rewrite !new_pool_idle. simpl. by rewrite Hz. Qed.

(** * Examples *)

(** A daemon that has forgotten the loop it is asked to reattach, and opens a new one on the
    connection that follows. *)
Definition restarted_json (s : string) : option value :=
  match ack_json s with Some v => Some v | None => sample_json s end.

Definition new_loop_reply : gomap :=
  Some (mlit [("proto", VStr "1"); ("type", VStr "response"); ("id", VStr "r1"); ("result", obj [("loop_id", VStr "L9")])]).

Definition restarted : opening dialling (call * call * call) (call * call) :=
  Opening (Dialling (Some ([RData "WARMING"; RData "READY"], true)) 3 false)
    (answered "r1" sample_reply, answered "s1" (next_frame "s1"), ask [])
    (ask [], ask [])
    (Dialling (Some ([RData "READY"; RData "DONE"; RData "PING"; RData "IDLE"], true)) 3 false)
    (answered "r1" new_loop_reply, answered "s1" (next_frame "s1")).

Definition printed_error (e : error) : string := Error_of (λ _, "") (λ _, "") (go_error (λ _, "") (λ _, "") e).

Definition restarted_run : option ((run_error + string * bool) * client) :=
  open_slot (ManagedClient0 := package_client restarted_json Some DefaultConfig) (default_boot restarted_json Some DefaultConfig)
    printed_error restarted "w" "u" (Some "L1") NewClient.

(** Two frames and a ping follow the bootstrap; the turn gets both. *)
Lemma opened_stream_delivers_witness :
  ∃ c, restarted_run = Some (inr ("L9", true), c) ∧
    let s := run_pipe restarted_json true 40 (start_pipeline c) in
    taken s = passed_on c (messages_of restarted_json Some (sock_in c)) ∧ length (taken s) = 2.
Proof.
  destruct (opened_stream_delivers restarted_json Some DefaultConfig printed_error restarted "w" "u" (Some "L1") false
    ltac:(discriminate)) as (r & c & H & Hr). fold restarted_run in H.
  assert (match restarted_run with
          | Some (inr x, c) => x = ("L9", true) ∧
              let s := run_pipe restarted_json true 40 (start_pipeline c) in
              out_closed s = true ∧ cancelled s = false ∧ length (taken s) = 2
          | _ => False end) as E by (vm_compute; repeat split).
  rewrite H in E. destruct r as [e|[loopID b]]; [contradiction|]. destruct E as ([= -> ->] & Ho & Hn & Hl).
  exists c. split; [exact H|]. cbv zeta. split; [|exact Hl].
  destruct Hr as (_ & _ & _ & Hs).
  exact (proj2 (Hs _ (run_pipe_rtc restarted_json true 40 (start_pipeline c))) Ho Hn).
Defined.


(** * Sockets left open *)

(** A client with the number of its sockets that are open: [Connect] opens one when it
    dials and closes it when the handshake fails, [Reconnect] closes the one in place
    first, [Close] closes it. *)
Record counted := Counted { ct_client : client; ct_open : nat }.

Definition counting {A} (m : M A) (count : A → nat → nat) (c : counted) : option (A * counted) :=
  match m (ct_client c) with
  | Some (x, c') => Some (x, Counted c' (count x (ct_open c)))
  | None => None
  end.

Definition dialled (d : dialling) (err : option error) (n : nat) : nat :=
  match d_dial d, err with Some _, None => S n | _, _ => n end.
Definition hung_up (c : client) (n : nat) : nat := if conn c && negb (conn_closed c) then n - 1 else n.

Section counted.
Context (parse_json : string → option value) (parse_time : string → option string) (cfg : Config).
Local Abbreviation package := (package_client parse_json parse_time cfg).

#[local] Instance counted_client : ManagedClient counted dialling (call * call * call) := {
  mc_Connect d := counting (@mc_Connect _ _ _ package d) (dialled d);
  mc_Reconnect d c := counting (@mc_Reconnect _ _ _ package d) (λ err n, dialled d err (hung_up (ct_client c) n)) c;
  mc_ReattachAndProbe ks loopID := counting (@mc_ReattachAndProbe _ _ _ package ks loopID) (λ _ n, n);
  mc_SendMessage ctx env := counting (SendMessage ctx env) (λ _ n, n);
  mc_ReceiveMessages := counting start_receiving (λ _ n, n);
  mc_Disconnected c := Disconnected (ct_client c);
  mc_IsConnected c := IsConnected (ct_client c);
  mc_Close c := counting Close (λ _, hung_up (ct_client c)) c;
}.

Definition counted_boot : BootstrapFunc (call * call) counted := λ ks ws user,
  counting (default_boot parse_json parse_time cfg ks ws user) (λ _ n, n).

(** Opening a slot whose loop could not be reattached, and closing the client again: the
    sockets still open. *)
Definition open_and_close (o : opening dialling (call * call * call) (call * call)) (stored : option string) : option nat :=
  '(_, c) ← open_slot counted_boot (λ _, "") o "" "" stored (Counted NewClient 0);
  '(_, c) ← mc_Close c;
  Some (ct_open c).
End counted.

(** [Acquire] connects the client of a slot again when the reattachment failed, without
    closing the connection it has: that socket stays open when the slot is released. A slot
    that bootstraps at once leaves none. *)
Theorem fallback_leaks_socket :
  open_and_close restarted_json Some DefaultConfig restarted (Some "L1") = Some 1 ∧
  open_and_close restarted_json Some DefaultConfig
    (Opening (o_redial restarted) (o_probe restarted) (o_reboot restarted) (o_redial restarted) (o_reboot restarted)) None = Some 0.
Proof. vm_compute. split; reflexivity. Qed.
