(* ===== verification/EndToEnd.v ===== *)
(** A question over the whole kit: [Execute] of appkit/turn_runner.go on a pool whose slots
    are clients of the package, with the messages the pipeline brings from the socket that
    was opened. *)

From S2P Require Import DaemonSession Broadcaster QueryGate Classifier Attachments Pool TurnRunner.
From S2P Require Import Prelude GoStr Value DeliveryAck Protocol GoChan Mux Heartbeat Client Reader Handshake Rpc Bootstrap Preserve.
From S2P Require Import Errors Pipeline Kit.

Section question.
Context (parse_json : string → option value) (parse_time : string → option string) (client_cfg : Config).
Context (tracking : bool) (text : error → string).
Local Abbreviation package := (package_client parse_json parse_time client_cfg).
Local Abbreviation boot := (default_boot parse_json parse_time client_cfg).
Local Abbreviation messages_of := (messages_of parse_json parse_time).

(** A turn fed by the pipeline of an opened connection: its rounds receive, among timers and
    whatever else happens, what a run of the pipeline delivers after the messages drained
    before the turn. *)
Definition fed_from (c : client) (drained : list message) (rounds : list (Z * occasion)) : Prop :=
  ∃ s, rtc (pipe_step parse_json parse_time tracking) (start_pipeline c) s ∧ taken s = drained ++ received rounds.

(** [Execute] for a key without a connection, over the network of [o]. *)
Definition ask_over {S : Type} `{!LoopSessionStore S} (lib : imaging) (r : TurnRunner) (appKey question ws user : string)
    (attachments : list gomap) (opts : option InputOpts) (o : opening dialling (call * call * call) (call * call))
    (now : Z) (sent : option run_error) (startedAt : Z) (rounds : list (Z * occasion))
    (others : list (string * gate_op)) (cancel sendCancel : nat) (p : ConnectionPool) (st : S) (g : QueryGate) :=
  let env := env_of (ManagedClient0 := package) boot text o ws user (loopIDFor st appKey) now NewClient in
  Execute_pooled parse_json lib r appKey question ws attachments opts env sent startedAt rounds others cancel sendCancel p st g.

(** * Lemmas *)

(** What a turn on a connection says when it succeeds. *)
Lemma runTurn_success (r : TurnRunner) (ccfg : ClassifierConfig) (appKey loopID question : string) (lib : imaging)
    (sent : option run_error) (attachments : list gomap) (opts : option InputOpts) (startedAt : Z)
    (rounds : list (Z * occasion)) (acts : list action) :
  NewEventClassifier ccfg = Some (classifier r) →
  runTurn parse_json r appKey loopID lib true sent question attachments opts startedAt rounds = (acts, Return None) →
  ∃ pre t o post s final ev,
    rounds = pre ++ (t, o) :: post ∧
    settlement acts = completeTurn r appKey loopID final startedAt t ev ∧
    success parse_json r pre s (String.concat "" (deltas acts)) o final ev.
Proof.
  intros Hcl. unfold runTurn. simpl negb. cbv iota. destruct sent as [err|]; [done|].
  set (idle := idleTimeoutForTurn _ _).
  destruct (turn_rounds parse_json r appKey loopID idle startedAt rounds _) as [acts1 n] eqn:E.
  intros H. pose proof (f_equal fst H) as Ha. pose proof (f_equal snd H) as Hn. cbn [fst snd] in Ha, Hn. subst n acts.
  destruct (turn_success_reason parse_json r ccfg appKey loopID idle startedAt rounds acts1 Hcl E)
    as (pre & t & o & post & acts0 & s & final & ev & -> & _ & Hset & Hsuc).
  exists pre, t, o, post, s, final, ev. split; [done|].
  rewrite !settlement_app, !deltas_app. simpl. by rewrite !app_nil_r.
Qed.

Lemma received_app a b : received (a ++ b) = received a ++ received b.
Proof. apply omap_app. Qed.

(** * The property *)

End question.

(** * Example *)

(** A daemon that opens the loop "L", streams a reply in two parts and goes idle. *)
Definition answering_json (s : string) : option value :=
  if s =s "RUN" then Some (VMap (wire_map (kit_status "running")))
  else if s =s "PART1" then Some (VMap (wire_map (kit_delta "The answer ")))
  else if s =s "PART2" then Some (VMap (wire_map (kit_delta "is 42.")))
  else if s =s "END" then Some (VMap (wire_map (kit_status "idle")))
  else restarted_json s.

Definition loop_reply : gomap :=
  Some (mlit [("proto", VStr "1"); ("type", VStr "response"); ("id", VStr "r1"); ("result", obj [("loop_id", VStr "L")])]).

Definition answering : opening dialling (call * call * call) (call * call) :=
  let d := Dialling (Some ([RData "READY"; RData "RUN"; RData "PART1"; RData "PING"; RData "PART2"; RData "END"], true)) 3 false in
  let b := (answered "r1" loop_reply, answered "s1" (next_frame "s1")) in
  Opening d (ask [], ask [], ask []) b d b.

Definition answering_run : option ((run_error + string * bool) * client) :=
  open_slot (ManagedClient0 := package_client answering_json Some DefaultConfig) (default_boot answering_json Some DefaultConfig)
    printed_error answering "w" "u" None NewClient.

Definition answering_client : client := after NewClient answering_run.
Definition answering_rounds : list (Z * occasion) :=
  imap (λ i m, (Z.of_nat i, Received m)) (taken (run_pipe answering_json true 60 (start_pipeline answering_client))).

